(* ===== verification/_CoqProject ===== *)
-Q . S2P
Prelude.v
GoBase.v
TokenBucket.v
TokenBucketFacts.v
TokenBucketSpec.v
TokenBucketRuns.v
Redis.v
Ids.v
BucketStore.v
BucketStoreSpec.v
BucketStoreRuns.v
BucketRace.v
BucketRaceSpec.v
Text.v
Sha256.v
Json.v
Calendar.v
JsonDecode.v
JsonFacts.v
JsonRoundTrip.v
JsonRecords.v
ApiKeys.v
Database.v
Queries.v
DatabaseSpec.v
World.v
Policies.v
PolicyJson.v
PolicySpec.v
Projection.v
ProjectionSpec.v
PolicyService.v
PolicyOutcomes.v
Resolver.v
ResolverSpec.v
Auth.v
AuthSpec.v
Http.v
Url.v
Keeps.v
Duration.v
Config.v
ConfigSpec.v
Migrator.v
AuditLog.v
Middleware.v
MiddlewareSpec.v
Mux.v
FirstMatch.v
Handlers.v
Protected.v
ReadOnly.v
Routes.v
HandlersSpec.v
ChangesOverHttp.v
KeysOverHttp.v
App.v
RoutesSpec.v
RouteTable.v
AppSpec.v
Process.v
TestLock.v
Bootstrap.v
ProtectedSpec.v
InStep.v
Recovery.v
AdminRace.v
AdminRaceSpec.v
AdminHazards.v
RouterSpec.v
BootstrapSpec.v
InspectSpec.v
Fixtures.v
ExamplesBuckets.v
ExamplesRace.v
ExamplesPolicies.v
ExamplesRequests.v
ExamplesCommands.v
ExamplesAdmin.v
ExamplesOperation.v
