(* ===== verification/Prelude.v ===== *)
(** * The distributed rate limiter: a verification library

    The program is an HTTP service that limits the requests of API keys with
    token buckets kept in Redis.  A protected request passes [APIKeyAuth]
    (internal/middleware/api_key_auth.go), which resolves the key through a
    Redis cache in front of the database (internal/auth), then
    [EnforceRateLimit] (rate_limit.go), which finds the policy in force in a
    Redis projection of the database's policies (internal/policies/resolver.go,
    internal/redisstate/policy_projection.go), spends the route's cost from the
    bucket of that policy (internal/redisstate/bucket_store.go,
    internal/ratelimit/token_bucket.go) and records a refusal in the audit log
    (internal/audit).  Policies and keys are administered through
    internal/policies/service.go and internal/auth/service.go, which write the
    database first (internal/db/sqlc, db/schema/schema.sql) and Redis after it;
    the handlers of internal/handlers put HTTP around them, and
    internal/routes/routes.go decides which are reachable, behind the admin
    token or, in public demo mode, not at all.  Three commands put it together:
    cmd/migrate (internal/db/migrator), cmd/demo-bootstrap and cmd/api, on the
    settings of internal/config.

    ** How it is modelled

    Operations are functions on explicit state.  [GoBase] has errors as values
    ([errors.Is], [errors.As], wrapping), [int64] and [int32] as [Z] with their
    wrap-around, instants as nanoseconds since 1970 and durations as [int64],
    decimal text; [Text] the [strings] functions on bytes and UTF-8; [Sha256]
    SHA-256 and HMAC.  [result E A] is a Go [(A, error)].

    Redis and PostgreSQL are not part of the repository.  [Redis] takes a server
    as a type with the commands the code sends ([RedisServer]) and their
    documented behaviour ([RedisLaws]): versions that [WATCH] compares, expiry
    in whole seconds, transactions.  [net] is the connection: before each round
    trip other clients may have changed the data, and it may fail before or
    after the server acted.  [Fixtures] computes such a server and satisfies the
    laws.  [Database] and [Queries] translate the schema and the generated
    queries, constraints, partial unique indexes, defaults and triggers
    included, and [World] puts both servers behind one connection.

    The text that [github.com/google/uuid] gives UUIDs is a parameter with the
    documented laws ([Ids]: [UuidText], [UuidLaws]).  [encoding/json] and the
    RFC 3339 text of [time.Time] are modelled: [Json] has the encoder, the
    scanner and the parser, [JsonDecode] the decoding of values into the kinds of
    field the structs have, [Calendar] the civil dates and their text.
    [JsonRoundTrip] shows that the parser reads back every encoded value and that
    its fuel, two steps a byte, is enough; [Calendar] also that instants read
    back; [JsonRecords] puts the two together, field by field.

    The router package [github.com/go-chi/chi] is a parameter: [Mux] has a
    router as the list of what was registered, patterns and their matching, and
    the documented laws of the dispatch ([ChiRouter], [ChiLaws]), and
    derives that a table whose patterns are apart reaches every entry, and
    [FirstMatch] is a router that satisfies the laws.  The query string
    ([Url]), [time.ParseDuration] with its [float64] fractions and
    [strconv.ParseBool] ([Duration]) are modelled.  The pool, the Redis client
    and the migration library are parameters where the code calls them
    ([App], [Migrator]), and so are the text of a JSON decoding error,
    random bytes and clocks.

    ** The files

    - [TokenBucket]: token_bucket.go, every function, on machine integers.
      [TokenBucketFacts] shows that nothing wraps inside the bounds [cfg_fits]
      and [clock_fits] and what the level of a bucket is at any instant;
      [TokenBucketSpec] states what one [Apply] decides, its errors, and that
      [RetryAfter], [ResetAt] and [BucketTTL] are exact or safe;
      [TokenBucketRuns] that a run of requests is a run of a bucket refilled
      at every interval, and that it grants no more than the rate.
    - [BucketStore]: bucket_store.go.  [BucketStoreSpec] shows one [Consume]
      to be one atomic step under interference and failures;
      [BucketStoreRuns] that runs of it are runs of the token bucket, that
      expiry is invisible, and that a TTL that overflows lets the limit be
      bypassed.  [BucketRace] turns the retry loop into a step machine and
      proves it equal to [Consume]; [BucketRaceSpec] shows
      every interleaving of such clients to be serializable, to fail only by
      contention, to end, and to grant exactly what the bucket holds.
    - [ApiKeys]: apikeys.go.  [Database], [Queries], [DatabaseSpec]: the
      schema's invariant [db_ok] and that every statement keeps it.
    - [Policies]: policies/service.go; [PolicySpec]: validation is the schema's
      checks, scopes and their active policies.  [PolicyJson]: a
      policy as JSON reads back.  [Projection] and
      [ProjectionSpec]: policy_projection.go and the mirror [synced].
      [PolicyService]: rebuilding establishes the mirror and the service keeps
      it; [PolicyOutcomes]: what creation, update and
      deactivation answer and leave behind, and what updating or deactivating
      an inactive policy does.  [Resolver], [ResolverSpec]: resolver.go returns
      the most specific active policy.
    - [AdminRace]: creation, update and deactivation as step machines, a move
      for each round trip, proved equal to the service.  [AdminRaceSpec]:
      administrators whose scopes do not overlap keep the mirror however they
      interleave.  [AdminHazards]: what goes
      wrong otherwise, with two updates of one policy, a creation whose
      projection fails, and a policy created while the projection is rebuilt.
    - [Auth], [AuthSpec]: auth/service.go and apikey_cache.go;
      a cached key reads back; resolution is the
      database's lookup, and how long an overtaken deactivation lasts.
    - [Http], [AuditLog], [Middleware], [MiddlewareSpec], [Protected]:
      respond.go, context.go, audit/service.go, the five middlewares, the route
      registry, the demo handlers and the chain of a protected route;
      [ProtectedSpec] composes everything above into the outcome of a request.
    - [Config]: config.go; [ConfigSpec]: when it loads, and each of the
      eleven settings then; which setting an error names; that durations read
      back, and facts on trimming.
    - [Handlers]: policies.go and api_keys.go; [HandlersSpec]: what bodies
      decode to, and creating a policy over HTTP on every branch;
      [ChangesOverHttp]: changing and retiring one; [KeysOverHttp]: the life of
      a key, from the answer that creates it to the 401 after its deactivation.
      [Handlers] also has inspector.go, metrics.go, public_config.go, health.go,
      stub.go; [InspectSpec]: they show what the limiter uses.
    - [Routes]: routes.go.  [Keeps] is a logic for "leaves this part of the
      stores alone, whatever fails", with a tactic that follows a handler's
      code; [ReadOnly] applies it to the request path; [RoutesSpec] shows the
      public mode to be read-only and the admin surface to be closed without the
      token; [RouteTable] that each method and path is served by its own handler
      behind its own middleware, and nothing else is.  [InStep] shows that
      each operation writes one side of the stores and keeps the others;
      [RouterSpec] that any run of requests to the router leaves database,
      projection and key cache in step, as long as updates and deactivations
      are aimed at active policies.
    - [App]: open.go, client.go and cmd/api up to the server;
      [AppSpec]: starting puts the stores in step and serves.  [Recovery]: it
      does so after any requests over failing connections and any loss of Redis.
      [Process]: cmd/api from the server on: the serving goroutine and
      [waitForShutdown] as functions, a step each, beside the server and the
      signal as a relation; why and with what status the process exits.  [Bootstrap],
      [BootstrapSpec]: the demo bootstrap is idempotent, and stopped by a
      deactivated key.  [Migrator]: the retry loop and the migration, which
      leaves no connection open.
    - [TestLock]: testutil/integration_lock.go, on PostgreSQL's session locks,
      and that it keeps tests apart.
    - [Fixtures] and the [Examples] files apply each theorem at concrete inputs.

    ** Bounds and fuel

    Theorems about the bucket assume [cfg_fits] (the time to full plus one
    interval is an [int64]) and [in_horizon] (clocks within a horizon whose
    refills are an [int64]): with the service's policies, 31-bit numbers of
    tokens and seconds, the first fails only beyond 292 years to full, which is
    what the overflow theorem exhibits.  [consume_attempts] recurses on the
    retry budget, as the code's loop does.  The loop over the pages of [SCAN]
    has a number of pages as fuel; the theorems about rebuilding say that all
    large enough numbers give the same successful result.  The step machine of
    the race needs three moves per attempt and one to give up, and that of an
    administrator's call three moves, which is proved.

    [open_attempts] recurses on the ten attempts of the code; [parse_segments]
    has the length of the text as fuel, two bytes at least being read by each
    step.

    ** Not modelled

    Logging, apart from what the process says of its own start and end; contexts
    and timeouts (a cancelled call is a failed round trip); what the HTTP server
    does with a connection (of the server, [Process] has that it listens, serves,
    fails or is shut down, as documented); the printing of the bootstrap's
    result; chi's own [RequestID], [RealIP] and [Timeout] middleware, which no
    handler looks at; the SQL of the migrations beyond the schema they add up to;
    keys of Redis that hold another type than the code stores there (a
    [WRONGTYPE] reply, or the error of one command inside a transaction), and
    the text [strconv] wraps around its errors; what chi does with an empty
    parameter of a path; the web interface, which is not written in Go. *)
From Stdlib Require Export ZArith Lia Ascii.
From stdpp Require Export base gmap strings list pretty numbers.

Declare Scope rl_scope.
Delimit Scope rl_scope with rl.
#[global] Open Scope Z_scope.

(** ** Results

    A Go function that returns [(T, error)] is modelled by [result E T]: the
    code never looks at the [T] beside a non-nil error. *)
Inductive result (E A : Type) : Type :=
| Ok (a : A)
| Err (e : E).
Arguments Ok {E A} a.
Arguments Err {E A} e.

#[global] Instance result_eq_dec {E A} `{EqDecision E, EqDecision A} : EqDecision (result E A).
Proof. solve_decision. Defined.

Definition res_bind {E A B} (r : result E A) (f : A → result E B) : result E B :=
  match r with
  | Ok a => f a
  | Err e => Err e
  end.

#[global] Instance Ok_inj {E A} : Inj (=) (=) (@Ok E A).
Proof. by intros a a' [=]. Qed.

Definition res_map_err {E F A} (f : E → F) (r : result E A) : result F A :=
  match r with
  | Ok a => Ok a
  | Err e => Err (f e)
  end.

Definition is_Ok {E A} (r : result E A) : bool :=
  match r with Ok _ => true | Err _ => false end.

Notation "'let?' x ':=' r 'in' k" := (res_bind r (fun x => k))
  (at level 10, x binder, r at level 100, k at level 200) : rl_scope.
#[global] Open Scope rl_scope.

(** ** Shared automation *)

Create HintDb rl.
Create Rewrite HintDb no_wrap.

(** Case analysis on the boolean tests of a translated guard. *)
Ltac case_test :=
  match goal with
  | |- context [if ?b then _ else _] => destruct b eqn:?
  | H : context [if ?b then _ else _] |- _ => destruct b eqn:?
  end.

(** Turn boolean comparisons on [Z] into propositions, everywhere. *)
Ltac to_prop :=
  repeat match goal with
  | H : (_ && _)%bool = true |- _ => apply andb_true_iff in H as [? ?]
  | H : (_ || _)%bool = false |- _ => apply orb_false_iff in H as [? ?]
  | H : negb _ = true |- _ => apply negb_true_iff in H
  | H : negb _ = false |- _ => apply negb_false_iff in H
  | H : (_ <? _) = true |- _ => apply Z.ltb_lt in H
  | H : (_ <? _) = false |- _ => apply Z.ltb_ge in H
  | H : (_ <=? _) = true |- _ => apply Z.leb_le in H
  | H : (_ <=? _) = false |- _ => apply Z.leb_gt in H
  | H : (_ =? _) = true |- _ => apply Z.eqb_eq in H
  | H : (_ =? _) = false |- _ => apply Z.eqb_neq in H
  | H : (_ >? _) = _ |- _ => rewrite Z.gtb_ltb in H
  | H : (_ >=? _) = _ |- _ => rewrite Z.geb_leb in H
  end.

(** Split every test of the goal and close the arithmetic. *)
Ltac crush_tests := repeat (case_test; to_prop); try lia.

(** ** Lists *)

Lemma not_in_one {A} (x y : A) : x ≠ y → x ∉ [y].
Proof. intros H [->|Hn%not_elem_of_nil]%elem_of_cons; done. Qed.

#[export] Hint Resolve not_in_one : rl.

(** Sums over two lists read side by side, and how one update changes them. *)
Fixpoint sum_zip {A B} (f : A → B → Z) (l : list A) (k : list B) : Z :=
  match l, k with
  | a :: l, b :: k => f a b + sum_zip f l k
  | _, _ => 0
  end.

Lemma sum_zip_insert {A B} (f : A → B → Z) l k i a b b' :
  l !! i = Some a → k !! i = Some b →
  sum_zip f l (<[i := b']> k) = sum_zip f l k - f a b + f a b'.
Proof.
  revert l k. induction i as [|i IH]; intros [|a0 l] [|b0 k] Ha Hb; simplify_eq/=; [lia|].
  rewrite (IH l k) by done. lia.
Qed.

Lemma sum_zip_le {A B} (f g : A → B → Z) l k :
  (∀ i a b, l !! i = Some a → k !! i = Some b → f a b ≤ g a b) →
  sum_zip f l k ≤ sum_zip g l k.
Proof.
  revert k. induction l as [|a l IH]; intros [|b k] Hfg; simpl; try lia.
  pose proof (Hfg 0%nat a b eq_refl eq_refl).
  specialize (IH k (fun i => Hfg (S i))). lia.
Qed.

Lemma sum_zip_const {A B} (z : Z) (l : list A) (k : list B) :
  length l = length k → sum_zip (fun _ _ => z) l k = Z.of_nat (length l) * z.
Proof.
  revert k. induction l as [|a l IH]; intros [|b k] Hl; simpl in *; try done.
  rewrite IH by lia. lia.
Qed.

Lemma sum_zip_ext {A B} (f g : A → B → Z) l k :
  (∀ i a b, l !! i = Some a → k !! i = Some b → f a b = g a b) →
  sum_zip f l k = sum_zip g l k.
Proof.
  intros Hfg. apply Z.le_antisymm; apply sum_zip_le; intros i a b Ha Hb;
    rewrite (Hfg i a b Ha Hb); lia.
Qed.
