(* ===== verification/GoBase.v ===== *)
(** * The parts of Go the program stands on

    Errors and how they are matched, machine integers ([int64], [int32]) as [Z] with their wrap-around, the
    [time] package's instants and durations, and [strconv]'s decimal
    conversions. *)
From S2P Require Import Prelude.

(** ** Errors

    [errors.New] makes a value equal to nothing but itself: a sentinel is known
    by the variable that holds it ([id]) and carries its text.  [Wrapf p e] is
    [fmt.Errorf("p: %w", e)].  A [PgError] is what the database driver reports
    for a statement the server refused, with its SQLSTATE code, and
    [OpaqueError] any other error a library may return. *)
Inductive error : Type :=
| ErrorsNew (id msg : string)
| Wrapf (prefix : string) (inner : error)
| PgError (code : string)
| OpaqueError (msg : string).

#[global] Instance error_eq_dec : EqDecision error.
Proof. solve_decision. Defined.

(** [err.Error()]; the text of a [PgError] is the driver's. *)
Fixpoint error_text (e : error) : string :=
  match e with
  | ErrorsNew _ msg => msg
  | Wrapf p e => p +:+ ": " +:+ error_text e
  | PgError code => "SQLSTATE " +:+ code
  | OpaqueError msg => msg
  end.

(** [errors.Is]: the error or one it wraps is the target. *)
Fixpoint errors_Is (e target : error) : bool :=
  bool_decide (e = target) ||
  match e with
  | Wrapf _ e => errors_Is e target
  | _ => false
  end.

(** [errors.As] with a [*pgconn.PgError] target: the code of the first such
    error on the chain. *)
Fixpoint errors_As_PgError (e : error) : option string :=
  match e with
  | PgError code => Some code
  | Wrapf _ e => errors_As_PgError e
  | _ => None
  end.

Lemma errors_Is_refl e : errors_Is e e = true.
Proof. destruct e; simpl; by rewrite bool_decide_eq_true_2. Qed.

Lemma errors_Is_Wrapf p e target :
  errors_Is e target = true → errors_Is (Wrapf p e) target = true.
Proof. intros H. simpl. rewrite H. by apply orb_true_r. Qed.

#[export] Hint Resolve errors_Is_refl errors_Is_Wrapf : rl.

(** A library call's failure, reported by the caller with a prefix. *)
Definition wrap_err {A} (prefix : string) (r : result error A) : result error A :=
  res_map_err (Wrapf prefix) r.

(** ** Machine integers *)

Definition max_int64 : Z := 9223372036854775807.
Definition min_int64 : Z := -9223372036854775808.
Definition max_int32 : Z := 2147483647.
Definition min_int32 : Z := -2147483648.

(** Two's complement wrap-around. *)
Definition wrap64 (z : Z) : Z :=
  (z + 9223372036854775808) mod 18446744073709551616 - 9223372036854775808.
Definition wrap32 (z : Z) : Z := (z + 2147483648) mod 4294967296 - 2147483648.

Definition in_int64 (z : Z) : Prop := min_int64 ≤ z ≤ max_int64.
Definition in_int32 (z : Z) : Prop := min_int32 ≤ z ≤ max_int32.

#[global] Instance in_int64_dec z : Decision (in_int64 z).
Proof. unfold in_int64. apply _. Defined.
#[global] Instance in_int32_dec z : Decision (in_int32 z).
Proof. unfold in_int32. apply _. Defined.

Definition add64 (a b : Z) : Z := wrap64 (a + b).
Definition sub64 (a b : Z) : Z := wrap64 (a - b).
Definition mul64 (a b : Z) : Z := wrap64 (a * b).
(** Go's [/] and [%] on [int64] truncate towards zero. *)
Definition div64 (a b : Z) : Z := wrap64 (Z.quot a b).
Definition rem64 (a b : Z) : Z := wrap64 (Z.rem a b).

Lemma wrap64_id z : in_int64 z → wrap64 z = z.
Proof.
  unfold in_int64, wrap64, min_int64, max_int64. intros H.
  rewrite Z.mod_small by lia. lia.
Qed.

Lemma wrap64_range z : in_int64 (wrap64 z).
Proof.
  unfold in_int64, wrap64, min_int64, max_int64.
  pose proof (Z.mod_pos_bound (z + 9223372036854775808) 18446744073709551616). lia.
Qed.

Lemma wrap32_id z : in_int32 z → wrap32 z = z.
Proof.
  unfold in_int32, wrap32, min_int32, max_int32. intros H.
  rewrite Z.mod_small by lia. lia.
Qed.

Lemma add64_id a b : in_int64 (a + b) → add64 a b = a + b.
Proof. apply wrap64_id. Qed.
Lemma sub64_id a b : in_int64 (a - b) → sub64 a b = a - b.
Proof. apply wrap64_id. Qed.
Lemma mul64_id a b : in_int64 (a * b) → mul64 a b = a * b.
Proof. apply wrap64_id. Qed.

(** On non-negative operands the truncating operators are [Z]'s own. *)
Lemma div64_nonneg a b : 0 ≤ a → 0 < b → in_int64 a → div64 a b = a / b.
Proof.
  intros Ha Hb [_ Hi]. unfold div64. rewrite Z.quot_div_nonneg by lia.
  apply wrap64_id. unfold in_int64, min_int64 in *.
  pose proof (Z.div_pos a b Ha Hb). assert (a / b ≤ a) by (apply Z.div_le_upper_bound; nia).
  lia.
Qed.

Lemma rem64_nonneg a b : 0 ≤ a → 0 < b → in_int64 b → rem64 a b = a mod b.
Proof.
  intros Ha Hb [_ Hi]. unfold rem64. rewrite Z.rem_mod_nonneg by lia.
  apply wrap64_id. unfold in_int64, min_int64 in *.
  pose proof (Z.mod_pos_bound a b Hb). lia.
Qed.

#[export] Hint Rewrite wrap64_id add64_id sub64_id mul64_id using
  (unfold in_int64, min_int64, max_int64 in *; lia) : no_wrap.

(** ** Instants and durations

    A [time.Time] is the number of nanoseconds since the Unix epoch and a
    [time.Duration] an [int64] number of nanoseconds.  [UTC] changes the
    location (and drops the monotonic reading), not the instant, so it is the
    identity here. *)
Definition Time : Type := Z.
Definition Duration : Type := Z.

Definition Second : Duration := 1000000000.
Definition Millisecond : Duration := 1000000.

(** The zero [Time] is January 1, year 1, 00:00:00 UTC. *)
Definition zero_Time : Time := -62135596800 * 1000000000.
Definition time_IsZero (t : Time) : bool := t =? zero_Time.
Definition time_UTC (t : Time) : Time := t.
Definition time_Before (t u : Time) : bool := t <? u.
Definition time_Add (t : Time) (d : Duration) : Time := t + d.
(** [t.Sub(u)] saturates at the extreme durations. *)
Definition time_Sub (t u : Time) : Duration :=
  Z.max min_int64 (Z.min max_int64 (t - u)).
Definition time_Unix (t : Time) : Z := wrap64 (t / Second).
Definition time_UnixMilli (t : Time) : Z := wrap64 (t / Millisecond).
Definition of_UnixMilli (ms : Z) : Time := ms * Millisecond.

Lemma time_Sub_range t u : in_int64 (time_Sub t u).
Proof. unfold time_Sub, in_int64, min_int64, max_int64. lia. Qed.

Lemma time_Sub_id t u : in_int64 (t - u) → time_Sub t u = t - u.
Proof. unfold time_Sub, in_int64. lia. Qed.

Lemma UnixMilli_of_UnixMilli ms : in_int64 ms → time_UnixMilli (of_UnixMilli ms) = ms.
Proof.
  intros H. unfold time_UnixMilli, of_UnixMilli, Millisecond.
  rewrite Z.div_mul by done. by apply wrap64_id.
Qed.

(** An instant on a millisecond boundary survives the trip through the
    millisecond count. *)
Lemma of_UnixMilli_UnixMilli t :
  (Millisecond | t) → in_int64 (t / Millisecond) → of_UnixMilli (time_UnixMilli t) = t.
Proof.
  intros [q ->] H. unfold time_UnixMilli, of_UnixMilli.
  rewrite Z.div_mul in * by done. by rewrite wrap64_id.
Qed.

(** ** Decimal text

    [strconv.FormatInt(z, 10)] and [strconv.ParseInt(s, 10, 64)].  The scan
    gives up at the first bad character or as soon as the magnitude leaves a
    [uint64], whichever it meets first. *)
Definition FormatInt (z : Z) : string := pretty z.

Definition ErrSyntax : error := ErrorsNew "strconv.ErrSyntax" "invalid syntax".
Definition ErrRange : error := ErrorsNew "strconv.ErrRange" "value out of range".

Definition digit_value (c : ascii) : option Z :=
  let n := Z.of_N (N_of_ascii c) in
  if (48 <=? n) && (n <=? 57) then Some (n - 48) else None.

Fixpoint parse_digits (s : string) (acc : Z) : result error Z :=
  match s with
  | EmptyString => Ok acc
  | String c s =>
      match digit_value c with
      | None => Err ErrSyntax
      | Some d =>
          if 10 * acc + d >? 18446744073709551615 then Err ErrRange
          else parse_digits s (10 * acc + d)
      end
  end.

Definition ParseUint (s : string) : result error Z :=
  match s with
  | EmptyString => Err ErrSyntax
  | _ => parse_digits s 0
  end.

Definition strip_sign (s : string) : bool * string :=
  match s with
  | String c s' =>
      if bool_decide (c = "+"%char) then (false, s')
      else if bool_decide (c = "-"%char) then (true, s')
      else (false, s)
  | EmptyString => (false, s)
  end.

Definition ParseInt (s : string) : result error Z :=
  match s with
  | EmptyString => Err ErrSyntax
  | _ =>
      let '(neg, digits) := strip_sign s in
      let? un := ParseUint digits in
      if negb neg && (un >=? 9223372036854775808) then Err ErrRange
      else if neg && (un >? 9223372036854775808) then Err ErrRange
      else Ok (if neg then - un else un)
  end.

Lemma digit_value_pretty (x : N) : (x < 10)%N → digit_value (pretty_N_char x) = Some (Z.of_N x).
Proof.
  intros H. assert (x = 0 ∨ x = 1 ∨ x = 2 ∨ x = 3 ∨ x = 4 ∨ x = 5 ∨ x = 6 ∨ x = 7 ∨ x = 8 ∨ x = 9)%N
    by lia. by destruct_or!; subst.
Qed.

Lemma parse_digits_pretty (x : N) (s : string) :
  Z.of_N x ≤ 18446744073709551615 →
  parse_digits (pretty_N_go x s) 0 = parse_digits s (Z.of_N x).
Proof.
  revert s. induction (N.lt_wf_0 x) as [x _ IH]. intros s Hx.
  assert (x = 0 ∨ 0 < x)%N as [->|Hpos] by lia; [done|].
  rewrite pretty_N_go_step by done.
  pose proof (N.div_mod x 10 ltac:(done)). pose proof (N.mod_lt x 10 ltac:(done)).
  rewrite IH; [|by apply N.div_lt|].
  2: { revert H. generalize (x `div` 10)%N (x `mod` 10)%N. lia. }
  cbn [parse_digits].
  rewrite digit_value_pretty by done.
  replace (10 * Z.of_N (x `div` 10) + Z.of_N (x `mod` 10)) with (Z.of_N x) by
    (revert H; generalize (x `div` 10)%N (x `mod` 10)%N; lia).
  destruct (_ >? _) eqn:Hg; to_prop; [lia|done].
Qed.

Lemma pretty_N_go_head (x : N) (s : string) :
  (0 < x)%N → ∃ (d : N) s', (d < 10)%N ∧ pretty_N_go x s = String (pretty_N_char d) s'.
Proof.
  revert s. induction (N.lt_wf_0 x) as [x _ IH]. intros s Hx. rewrite pretty_N_go_step by done.
  destruct (decide (x < 10)%N) as [Hlt|Hge].
  - rewrite N.div_small, pretty_N_go_0 by done. exists (x `mod` 10)%N, s.
    split; [by apply N.mod_lt|done].
  - apply IH; [by apply N.div_lt|]. apply N.div_str_pos. lia.
Qed.

Lemma ParseUint_pretty (x : N) :
  Z.of_N x ≤ 18446744073709551615 → ParseUint (pretty x) = Ok (Z.of_N x).
Proof.
  intros Hx. unfold pretty, pretty_N. case_decide as H0; [by subst|].
  destruct (pretty_N_go_head x EmptyString ltac:(lia)) as (d & s' & _ & Hs).
  unfold ParseUint. rewrite Hs, <- Hs. by apply parse_digits_pretty.
Qed.

Lemma strip_sign_pretty (x : N) : strip_sign (pretty x) = (false, pretty x).
Proof.
  unfold pretty, pretty_N. case_decide as H0; [done|].
  destruct (pretty_N_go_head x EmptyString ltac:(lia)) as (d & s' & Hd & ->).
  assert (d = 0 ∨ d = 1 ∨ d = 2 ∨ d = 3 ∨ d = 4 ∨ d = 5 ∨ d = 6 ∨ d = 7 ∨ d = 8 ∨ d = 9)%N
    by lia. by destruct_or!; subst.
Qed.

Lemma ParseInt_unfold s : s ≠ EmptyString →
  ParseInt s =
    (let '(neg, digits) := strip_sign s in
     let? un := ParseUint digits in
     if negb neg && (un >=? 9223372036854775808) then Err ErrRange
     else if neg && (un >? 9223372036854775808) then Err ErrRange
     else Ok (if neg then - un else un)).
Proof. by destruct s. Qed.

Lemma pretty_N_nonempty (x : N) : pretty x ≠ EmptyString.
Proof.
  unfold pretty, pretty_N. case_decide as H0; [done|].
  by destruct (pretty_N_go_head x EmptyString ltac:(lia)) as (d & s' & _ & ->).
Qed.

(** What was written in decimal is read back. *)
Lemma ParseInt_FormatInt z : in_int64 z → ParseInt (FormatInt z) = Ok z.
Proof.
  unfold in_int64, min_int64, max_int64. intros Hz. unfold FormatInt.
  destruct z as [|p|p]; [done| |].
  - change (pretty (Z.pos p)) with (pretty (N.pos p)).
    rewrite ParseInt_unfold by apply pretty_N_nonempty.
    rewrite strip_sign_pretty, ParseUint_pretty by lia. cbn [res_bind negb andb].
    destruct (_ >=? _) eqn:Hg; to_prop; [lia|done].
  - change (pretty (Z.neg p)) with (String "-" (pretty (N.pos p))).
    rewrite ParseInt_unfold by done. unfold strip_sign.
    rewrite bool_decide_eq_false_2 by done. rewrite bool_decide_eq_true_2 by done.
    rewrite ParseUint_pretty by lia. cbn [res_bind negb andb].
    destruct (_ >? _) eqn:Hg; to_prop; [lia|done].
Qed.

#[export] Hint Resolve ParseInt_FormatInt : rl.
