(* ===== verification/TokenBucket.v ===== *)
(** * The token bucket: [internal/ratelimit/token_bucket.go] *)
From S2P Require Import Prelude GoBase.

Definition ErrInvalidCapacity : error :=
  ErrorsNew "ratelimit.ErrInvalidCapacity" "capacity must be greater than zero".
Definition ErrInvalidRefillTokens : error :=
  ErrorsNew "ratelimit.ErrInvalidRefillTokens" "refill_tokens must be greater than zero".
Definition ErrInvalidRefillInterval : error :=
  ErrorsNew "ratelimit.ErrInvalidRefillInterval" "refill_interval must be greater than zero".
Definition ErrInvalidRequestCost : error :=
  ErrorsNew "ratelimit.ErrInvalidRequestCost" "request_cost must be greater than zero".

Record Config := mkConfig {
  Capacity : Z;
  RefillTokens : Z;
  RefillInterval : Duration
}.

Record State := mkState {
  TokensRemaining : Z;
  LastRefillAt : Time
}.

Record Decision := mkDecision {
  Allowed : bool;
  Limit : Z;
  Remaining : Z;
  RetryAfter : Duration;
  ResetAt : Time;
  BucketTTL : Duration;
  NewState : State
}.

#[global] Instance State_eq_dec : EqDecision State.
Proof. solve_decision. Defined.
#[global] Instance Decision_eq_dec : EqDecision Decision.
Proof. solve_decision. Defined.

Definition validateConfig (cfg : Config) : result error unit :=
  if cfg.(Capacity) <=? 0 then Err ErrInvalidCapacity
  else if cfg.(RefillTokens) <=? 0 then Err ErrInvalidRefillTokens
  else if cfg.(RefillInterval) <=? 0 then Err ErrInvalidRefillInterval
  else Ok ().

Definition normalizeState (current : State) (now : Time) (capacity : Z) : State :=
  let last := time_UTC current.(LastRefillAt) in
  let last := if time_IsZero last then now else last in
  let tokens := current.(TokensRemaining) in
  let tokens := if tokens <? 0 then 0 else tokens in
  let tokens := if tokens >? capacity then capacity else tokens in
  mkState tokens last.

Definition refill (now : Time) (current : State) (cfg : Config) : State :=
  if time_Before now current.(LastRefillAt) then current
  else
    let elapsed := time_Sub now current.(LastRefillAt) in
    let intervals := div64 elapsed cfg.(RefillInterval) in
    if intervals <=? 0 then current
    else
      let refilledTokens :=
        add64 current.(TokensRemaining) (mul64 intervals cfg.(RefillTokens)) in
      let refilledTokens :=
        if refilledTokens >? cfg.(Capacity) then cfg.(Capacity) else refilledTokens in
      mkState refilledTokens
        (time_Add current.(LastRefillAt) (mul64 intervals cfg.(RefillInterval))).

Definition ceilDiv (numerator denominator : Z) : Z :=
  div64 (sub64 (add64 numerator denominator) 1) denominator.

Definition durationUntilNextRefill (now lastRefillAt : Time) (interval : Duration) : Duration :=
  if time_Before now lastRefillAt then interval
  else
    let elapsed := time_Sub now lastRefillAt in
    let remainder := rem64 elapsed interval in
    if remainder =? 0 then interval else sub64 interval remainder.

Definition durationUntilTokens (now : Time) (state : State) (cfg : Config) (cost : Z)
    : Duration :=
  if state.(TokensRemaining) >=? cost then 0
  else
    let tokensNeeded := sub64 cost state.(TokensRemaining) in
    let intervalsNeeded := ceilDiv tokensNeeded cfg.(RefillTokens) in
    add64 (durationUntilNextRefill now state.(LastRefillAt) cfg.(RefillInterval))
      (mul64 (sub64 intervalsNeeded 1) cfg.(RefillInterval)).

Definition durationUntilFull (now : Time) (state : State) (cfg : Config) : Duration :=
  if state.(TokensRemaining) >=? cfg.(Capacity) then 0
  else
    let tokensNeeded := sub64 cfg.(Capacity) state.(TokensRemaining) in
    let intervalsNeeded := ceilDiv tokensNeeded cfg.(RefillTokens) in
    add64 (durationUntilNextRefill now state.(LastRefillAt) cfg.(RefillInterval))
      (mul64 (sub64 intervalsNeeded 1) cfg.(RefillInterval)).

Definition bucketTTL (now : Time) (state : State) (cfg : Config) : Duration :=
  let untilFull := durationUntilFull now state cfg in
  if untilFull <=? 0 then cfg.(RefillInterval)
  else add64 untilFull cfg.(RefillInterval).

Definition Apply (now : Time) (current : State) (cfg : Config) (cost : Z)
    : result error Decision :=
  let? _ := validateConfig cfg in
  if cost <=? 0 then Err ErrInvalidRequestCost
  else
    let now := time_UTC now in
    let current := normalizeState current now cfg.(Capacity) in
    let refilled := refill now current cfg in
    let allowed := refilled.(TokensRemaining) >=? cost in
    let state :=
      if allowed
      then mkState (sub64 refilled.(TokensRemaining) cost) refilled.(LastRefillAt)
      else refilled in
    let retryAfter :=
      if allowed then 0 else durationUntilTokens now state cfg cost in
    Ok {|
      Allowed := allowed;
      Limit := cfg.(Capacity);
      Remaining := state.(TokensRemaining);
      RetryAfter := retryAfter;
      ResetAt := time_Add now (durationUntilFull now state cfg);
      BucketTTL := bucketTTL now state cfg;
      NewState := state
    |}.
