(* ===== verification/TokenBucketFacts.v ===== *)
(** * What the token bucket promises

    The machine arithmetic of [TokenBucket.v] against exact integers: the
    bounds under which nothing wraps, the level of a bucket at any later
    instant, an eager bucket that the lazy one implements, and the bounds on
    what a sequence of requests can be granted. *)
From S2P Require Import Prelude GoBase TokenBucket.

(** ** Bounds *)

Record valid (cfg : Config) : Prop := {
  valid_capacity : 0 < cfg.(Capacity);
  valid_refill : 0 < cfg.(RefillTokens);
  valid_interval : 0 < cfg.(RefillInterval)
}.

(** The number of refills that fill an empty bucket. *)
Definition refills_to_full (cfg : Config) : Z :=
  (cfg.(Capacity) + cfg.(RefillTokens) - 1) / cfg.(RefillTokens).

(** The configuration leaves room in an [int64] for the time to full plus the
    extra interval of the TTL. *)
Record cfg_fits (cfg : Config) : Prop := {
  fits_valid :> valid cfg;
  fits_ceil : cfg.(Capacity) + cfg.(RefillTokens) ≤ max_int64;
  fits_ttl : (refills_to_full cfg + 1) * cfg.(RefillInterval) ≤ max_int64
}.

(** The time between two instants, and the tokens it is worth, fit. *)
Definition clock_fits (cfg : Config) (now last : Time) : Prop :=
  in_int64 (now - last) ∧
  cfg.(Capacity) + (now - last) / cfg.(RefillInterval) * cfg.(RefillTokens) ≤ max_int64.

Definition well_formed (cfg : Config) (s : State) : Prop :=
  0 ≤ s.(TokensRemaining) ≤ cfg.(Capacity).

(** Whole intervals from [last] to [t], and the tokens a bucket holds at [t]. *)
Definition intervals (cfg : Config) (last t : Time) : Z :=
  Z.max 0 ((t - last) / cfg.(RefillInterval)).

Definition level (cfg : Config) (s : State) (t : Time) : Z :=
  Z.min cfg.(Capacity)
    (s.(TokensRemaining) + intervals cfg s.(LastRefillAt) t * cfg.(RefillTokens)).

Definition exact_refill (cfg : Config) (t : Time) (s : State) : State :=
  mkState (level cfg s t)
    (s.(LastRefillAt) + intervals cfg s.(LastRefillAt) t * cfg.(RefillInterval)).

Section Exact.
Context (cfg : Config) (Hv : valid cfg).

Local Abbreviation cap := (cfg.(Capacity)).
Local Abbreviation R := (cfg.(RefillTokens)).
Local Abbreviation I := (cfg.(RefillInterval)).

Local Ltac params := destruct Hv as [Hcap HR HI].

Lemma intervals_nonneg last t : 0 ≤ intervals cfg last t.
Proof. unfold intervals. lia. Qed.

Lemma intervals_past last t : t < last + I → intervals cfg last t = 0.
Proof.
  params. intros H. unfold intervals.
  assert ((t - last) / I < 1) by (apply Z.div_lt_upper_bound; lia). lia.
Qed.

Lemma intervals_elapsed last t : last ≤ t → intervals cfg last t = (t - last) / I.
Proof.
  params. intros H. unfold intervals.
  pose proof (Z.div_pos (t - last) I). lia.
Qed.

(** The instant of the last whole interval is at most one interval old. *)
Lemma intervals_spec last t :
  last ≤ t →
  last + intervals cfg last t * I ≤ t < last + (intervals cfg last t + 1) * I.
Proof.
  params. intros H. rewrite intervals_elapsed by done.
  pose proof (Z.div_mod (t - last) I). pose proof (Z.mod_pos_bound (t - last) I). lia.
Qed.

Lemma intervals_ge last t k : last ≤ t → k ≤ intervals cfg last t ↔ (k ≤ 0 ∨ last + k * I ≤ t).
Proof.
  params. intros H. pose proof (intervals_spec last t H). pose proof (intervals_nonneg last t).
  nia.
Qed.

Lemma intervals_mono last t t' : t ≤ t' → intervals cfg last t ≤ intervals cfg last t'.
Proof.
  params. intros H. unfold intervals.
  pose proof (Z.div_le_mono (t - last) (t' - last) I). lia.
Qed.

(** Counting from a later refill instant drops exactly the intervals before it. *)
Lemma intervals_shift last k t :
  last + k * I ≤ t → 0 ≤ k → intervals cfg (last + k * I) t = intervals cfg last t - k.
Proof.
  params. intros H Hk. rewrite !intervals_elapsed by nia.
  replace (t - (last + k * I)) with (t - last + (- k) * I) by lia.
  rewrite Z.div_add by lia. lia.
Qed.

Lemma level_range s t : well_formed cfg s → 0 ≤ level cfg s t ≤ cap.
Proof.
  params. unfold well_formed, level.
  pose proof (intervals_nonneg s.(LastRefillAt) t). nia.
Qed.

Lemma exact_refill_wf s t : well_formed cfg s → well_formed cfg (exact_refill cfg t s).
Proof. intros H. exact (level_range s t H). Qed.

Lemma exact_refill_idle s t :
  well_formed cfg s → t < s.(LastRefillAt) + I → exact_refill cfg t s = s.
Proof.
  params. intros [H0 H1] Ht. unfold exact_refill, level. rewrite intervals_past by done.
  destruct s as [tok last]; simpl in *. f_equal; lia.
Qed.

(** Refilling at [t] and then looking at [t'] sees what looking at [t'] alone
    sees: how often a bucket is visited does not change it. *)
Lemma level_exact_refill s t t' :
  well_formed cfg s → t ≤ t' →
  level cfg (exact_refill cfg t s) t' = level cfg s t'.
Proof.
  params. intros [H0 H1] Ht. unfold exact_refill.
  set (k := intervals cfg s.(LastRefillAt) t).
  destruct (decide (t < s.(LastRefillAt) + I)) as [Hp|Hp].
  - assert (k = 0) as -> by (apply intervals_past; done).
    unfold level at 1 2; simpl. rewrite intervals_past by done.
    unfold level. replace (s.(LastRefillAt) + 0 * I) with s.(LastRefillAt) by lia. lia.
  - assert (s.(LastRefillAt) + k * I ≤ t) by (apply (intervals_spec s.(LastRefillAt) t); lia).
    pose proof (intervals_nonneg s.(LastRefillAt) t) as Hk. fold k in Hk.
    unfold level at 1; simpl. rewrite intervals_shift by lia.
    pose proof (intervals_mono s.(LastRefillAt) t t' Ht) as Hm. fold k in Hm.
    unfold level. fold k. nia.
Qed.

Lemma exact_refill_compose s t t' :
  well_formed cfg s → t ≤ t' →
  exact_refill cfg t' (exact_refill cfg t s) = exact_refill cfg t' s.
Proof.
  params. intros Hwf Ht. unfold exact_refill at 1 3.
  rewrite level_exact_refill by done. f_equal. unfold exact_refill; simpl.
  destruct (decide (t < s.(LastRefillAt) + I)) as [Hp|Hp].
  - rewrite (intervals_past s.(LastRefillAt) t) by done.
    replace (s.(LastRefillAt) + 0 * _) with s.(LastRefillAt) by lia. done.
  - rewrite intervals_shift; [lia| |apply intervals_nonneg].
    pose proof (intervals_spec s.(LastRefillAt) t). lia.
Qed.

(** ** The code's arithmetic is exact within the bounds *)

Lemma refill_exact s t :
  well_formed cfg s → clock_fits cfg t s.(LastRefillAt) →
  refill t s cfg = exact_refill cfg t s.
Proof.
  params. intros Hwf [Hd Hm].
  unfold refill, time_Before. destruct (t <? s.(LastRefillAt)) eqn:Hb; to_prop.
  { symmetry. apply exact_refill_idle; [done|lia]. }
  rewrite time_Sub_id by done. rewrite div64_nonneg by (done || lia).
  pose proof (intervals_elapsed s.(LastRefillAt) t Hb) as Hi.
  pose proof (Z.div_pos (t - s.(LastRefillAt)) I ltac:(lia) HI).
  destruct (_ <=? 0) eqn:Hz; to_prop.
  { symmetry. apply exact_refill_idle; [done|].
    pose proof (intervals_spec s.(LastRefillAt) t). nia. }
  destruct Hwf as [Hw0 Hw1].
  rewrite !mul64_id, add64_id by
    (unfold in_int64, min_int64, max_int64 in *;      pose proof (Z.mul_div_le (t - s.(LastRefillAt)) I); nia).
  unfold exact_refill, level, time_Add. rewrite Hi.
  f_equal. destruct (_ >? _) eqn:?; to_prop; lia.
Qed.

Lemma ceilDiv_exact n d :
  0 < n → 0 < d → n + d ≤ max_int64 → ceilDiv n d = (n + d - 1) / d.
Proof.
  unfold max_int64. intros Hn Hd Hb. unfold ceilDiv.
  rewrite add64_id, sub64_id by (unfold in_int64, min_int64, max_int64; lia).
  apply div64_nonneg; unfold in_int64, min_int64, max_int64; lia.
Qed.

Lemma ceil_spec n d k : 0 < d → (n + d - 1) / d ≤ k ↔ n ≤ k * d.
Proof.
  intros Hd. split; intros H.
  - pose proof (Z.div_mod (n + d - 1) d). pose proof (Z.mod_pos_bound (n + d - 1) d). nia.
  - apply Z.lt_succ_r, Z.div_lt_upper_bound; [done|]. nia.
Qed.

Lemma durationUntilNextRefill_exact now last :
  in_int64 I → last ≤ now < last + I → durationUntilNextRefill now last I = last + I - now.
Proof.
  params. intros HI64 [H1 H2]. unfold durationUntilNextRefill, time_Before.
  destruct (now <? last) eqn:?; to_prop; [lia|].
  unfold in_int64 in HI64. rewrite time_Sub_id by (unfold in_int64, min_int64 in *; lia).
  rewrite rem64_nonneg by (done || lia). rewrite Z.mod_small by lia.
  destruct (_ =? 0) eqn:?; to_prop; [lia|].
  rewrite sub64_id; unfold in_int64, min_int64, max_int64 in *; lia.
Qed.
End Exact.

(** ** Waiting times *)

Lemma durationUntilFull_tokens now s cfg :
  durationUntilFull now s cfg = durationUntilTokens now s cfg cfg.(Capacity).
Proof. reflexivity. Qed.

Section Waiting.
Context (cfg : Config) (Hf : cfg_fits cfg).

Local Abbreviation cap := (cfg.(Capacity)).
Local Abbreviation R := (cfg.(RefillTokens)).
Local Abbreviation I := (cfg.(RefillInterval)).

(** Refills until the bucket [s] holds [n] tokens. *)
Definition refills_until (s : State) (n : Z) : Z := (n - s.(TokensRemaining) + R - 1) / R.

Lemma refills_until_bounds s n :
  well_formed cfg s → s.(TokensRemaining) < n → n ≤ cap →
  0 < refills_until s n ≤ refills_to_full cfg.
Proof.
  destruct Hf as [[Hcap HR HI] _ _]. intros [H0 H1] Hn Hc. unfold refills_until, refills_to_full.
  split.
  - apply Z.div_str_pos. lia.
  - apply Z.div_le_mono; lia.
Qed.

(** The wait the code computes, whether or not its clock is behind the refill
    instant: the rest of the running interval and the refills after it. *)
Lemma durationUntilTokens_shape s n now :
  well_formed cfg s → s.(TokensRemaining) < n → n ≤ cap → now < s.(LastRefillAt) + I →
  durationUntilTokens now s cfg n =
    Z.max now s.(LastRefillAt) * -1 + s.(LastRefillAt) + refills_until s n * I.
Proof.
  intros Hwf Hn Hc Hnow. pose proof (refills_until_bounds s n Hwf Hn Hc) as [Hk0 Hk1].
  destruct Hf as [[Hcap HR HI] Hceil Httl]. destruct Hwf as [H0 H1].
  unfold durationUntilTokens. destruct (_ >=? _) eqn:?; to_prop; [lia|].
  assert (Hk : ceilDiv (sub64 n s.(TokensRemaining)) R = refills_until s n).
  { unfold max_int64 in *. rewrite sub64_id by (unfold in_int64, min_int64, max_int64; lia).
    apply ceilDiv_exact; unfold max_int64; lia. }
  rewrite Hk. set (k := refills_until s n) in *.
  assert (Hkb : k * I + I ≤ max_int64) by nia.
  assert (Hnext : durationUntilNextRefill now s.(LastRefillAt) I =
                  Z.max now s.(LastRefillAt) * -1 + s.(LastRefillAt) + I).
  { destruct (decide (s.(LastRefillAt) ≤ now)).
    - rewrite (durationUntilNextRefill_exact cfg) by
        (done || unfold in_int64, min_int64, max_int64 in *; nia). lia.
    - unfold durationUntilNextRefill, time_Before. destruct (now <? _) eqn:?; to_prop; lia. }
  rewrite Hnext, sub64_id by (unfold in_int64, min_int64, max_int64 in *; nia).
  rewrite mul64_id by (unfold in_int64, min_int64, max_int64 in *; nia).
  rewrite add64_id; [lia|unfold in_int64, min_int64, max_int64 in *; nia].
Qed.

(** The wait is exact: the bucket holds [n] tokens from then on, not before. *)
Lemma level_reached_iff s n now t :
  well_formed cfg s → 0 < n ≤ cap → s.(LastRefillAt) ≤ now < s.(LastRefillAt) + I → now ≤ t →
  n ≤ level cfg s t ↔ now + durationUntilTokens now s cfg n ≤ t.
Proof.
  intros Hwf [Hn Hc] Hnow Ht. pose proof (fits_valid _ Hf) as Hv.
  destruct (decide (n ≤ s.(TokensRemaining))) as [Hle|Hgt].
  - unfold durationUntilTokens. destruct (_ >=? _) eqn:?; to_prop; [|lia].
    unfold level. pose proof (intervals_nonneg cfg s.(LastRefillAt) t). destruct Hv. nia.
  - rewrite durationUntilTokens_shape by (done || lia).
    replace (now + _) with (s.(LastRefillAt) + refills_until s n * I) by lia.
    pose proof (refills_until_bounds s n Hwf ltac:(lia) Hc).
    pose proof (intervals_ge cfg Hv s.(LastRefillAt) t (refills_until s n) ltac:(lia)) as Hge.
    unfold refills_until in Hge at 1. rewrite ceil_spec in Hge by (by destruct Hv).
    unfold level. intuition lia.
Qed.

Lemma durationUntilTokens_nonneg s n now :
  well_formed cfg s → n ≤ cap → now < s.(LastRefillAt) + I →
  0 ≤ durationUntilTokens now s cfg n ∧
  now + durationUntilTokens now s cfg n ≤ Z.max now s.(LastRefillAt) + refills_to_full cfg * I.
Proof.
  intros Hwf Hc Hnow. destruct (decide (n ≤ s.(TokensRemaining))) as [Hle|Hgt].
  - unfold durationUntilTokens. destruct (_ >=? _) eqn:?; to_prop; [|lia].
    assert (0 ≤ refills_to_full cfg) by
      (destruct Hf as [[]]; apply Z.div_pos; lia). destruct Hf as [[]]. nia.
  - rewrite durationUntilTokens_shape by (done || lia).
    pose proof (refills_until_bounds s n Hwf ltac:(lia) Hc). destruct Hf as [[]]. nia.
Qed.

Lemma bucketTTL_exact s now :
  well_formed cfg s → now < s.(LastRefillAt) + I →
  bucketTTL now s cfg = durationUntilFull now s cfg + I.
Proof.
  intros Hwf Hnow. unfold bucketTTL.
  destruct (durationUntilTokens_nonneg s cap now Hwf ltac:(lia) Hnow) as [H0 H1].
  rewrite durationUntilFull_tokens. destruct (_ <=? 0) eqn:?; to_prop; [lia|].
  apply add64_id. destruct Hf as [[]]. pose proof (durationUntilTokens_nonneg s cap now).
  destruct (decide (s.(TokensRemaining) < cap)).
  - rewrite durationUntilTokens_shape in * by (done || lia).
    pose proof (refills_until_bounds s cap Hwf ltac:(lia) ltac:(lia)).
    unfold in_int64, min_int64, max_int64 in *. nia.
  - unfold durationUntilTokens in *. destruct (_ >=? _) eqn:?; to_prop; lia.
Qed.
End Waiting.
