(* ===== verification/TokenBucketSpec.v ===== *)
(** * [ratelimit.Apply] against its specification

    What one call of [Apply] decides, how long its three durations really are,
    the eager bucket it implements, and what a run of calls can grant. *)
From S2P Require Import Prelude GoBase TokenBucket TokenBucketFacts.

(** ** One call *)

Lemma validateConfig_valid cfg : valid cfg → validateConfig cfg = Ok ().
Proof. intros []. unfold validateConfig. crush_tests. done. Qed.

Lemma normalizeState_wf cfg now s :
  valid cfg → well_formed cfg (normalizeState s now cfg.(Capacity)).
Proof. intros []. unfold well_formed, normalizeState; simpl. crush_tests. Qed.

(** A state the code itself produced is already normal. *)
Lemma normalizeState_id cfg now s :
  well_formed cfg s → zero_Time < s.(LastRefillAt) →
  normalizeState s now cfg.(Capacity) = s.
Proof.
  intros [H0 H1] Hz. unfold normalizeState, time_UTC, time_IsZero.
  destruct s as [tok last]; simpl in *.
  destruct (last =? zero_Time) eqn:?; to_prop; [lia|].
  destruct (tok <? 0) eqn:?; to_prop; [lia|].
  destruct (tok >? cfg.(Capacity)) eqn:?; to_prop; [lia|done].
Qed.

Definition granted_tokens (tokens cost : Z) : Z := if tokens >=? cost then cost else 0.

(** The decision [Apply] takes, in exact arithmetic, from a normal state [s]. *)
Definition exact_decision (cfg : Config) (now : Time) (s : State) (cost : Z) : Decision :=
  let s1 := exact_refill cfg now s in
  let s2 := mkState (s1.(TokensRemaining) - granted_tokens s1.(TokensRemaining) cost)
              s1.(LastRefillAt) in
  {| Allowed := s1.(TokensRemaining) >=? cost;
     Limit := cfg.(Capacity);
     Remaining := s2.(TokensRemaining);
     RetryAfter :=
       if s1.(TokensRemaining) >=? cost then 0 else durationUntilTokens now s2 cfg cost;
     ResetAt := time_Add now (durationUntilFull now s2 cfg);
     BucketTTL := bucketTTL now s2 cfg;
     NewState := s2 |}.

Lemma Apply_exact cfg now s cost :
  valid cfg → 0 < cost ≤ max_int64 →
  let n := normalizeState s now cfg.(Capacity) in
  cfg.(Capacity) ≤ max_int64 →
  clock_fits cfg now n.(LastRefillAt) →
  Apply now s cfg cost = Ok (exact_decision cfg now n cost).
Proof.
  intros Hv [Hc Hcm] n Hcap Hclk. unfold Apply, time_UTC.
  rewrite (validateConfig_valid cfg Hv); simpl. fold n.
  pose proof (normalizeState_wf cfg now s Hv) as Hwf. fold n in Hwf.
  destruct (cost <=? 0) eqn:?; to_prop; [lia|].
  rewrite (refill_exact cfg Hv) by done.
  unfold exact_decision, granted_tokens. set (s1 := exact_refill cfg now n).
  assert (Hs1 : well_formed cfg s1) by (by apply exact_refill_wf).
  destruct Hs1 as [H0 H1]. destruct (s1.(TokensRemaining) >=? cost) eqn:Hg; to_prop.
  - rewrite sub64_id by (unfold in_int64, min_int64, max_int64 in *; lia). done.
  - rewrite Z.sub_0_r. by destruct s1.
Qed.

Lemma exact_decision_state cfg now s cost :
  valid cfg → well_formed cfg s → 0 < cost →
  well_formed cfg (exact_decision cfg now s cost).(NewState).
Proof.
  intros Hv Hwf Hc. pose proof (exact_refill_wf cfg Hv s now Hwf) as [H0 H1].
  unfold exact_decision, well_formed, granted_tokens; simpl in *.
  destruct (_ >=? _) eqn:?; to_prop; simpl in *; lia.
Qed.

(** The refill instant after a call: inside the running interval. *)
Lemma exact_decision_last cfg now s cost :
  valid cfg → s.(LastRefillAt) ≤ now →
  let l := (exact_decision cfg now s cost).(NewState).(LastRefillAt) in
  s.(LastRefillAt) ≤ l ≤ now ∧ now < l + cfg.(RefillInterval).
Proof.
  intros Hv Hnow. simpl.
  pose proof (intervals_spec cfg Hv s.(LastRefillAt) now Hnow).
  pose proof (intervals_nonneg cfg s.(LastRefillAt) now). destruct Hv. nia.
Qed.

Lemma clock_fits_later cfg t last last' :
  valid cfg → last ≤ last' ≤ t → clock_fits cfg t last → clock_fits cfg t last'.
Proof.
  intros [Hc HR HI] [H1 H2] [Hd Hm]. unfold clock_fits, in_int64, min_int64 in *.
  pose proof (Z.div_le_mono (t - last') (t - last) cfg.(RefillInterval)).
  split; [lia|nia].
Qed.

Lemma clock_fits_earlier cfg t t' last :
  valid cfg → last ≤ t ≤ t' → clock_fits cfg t' last → clock_fits cfg t last.
Proof.
  intros [Hc HR HI] [H1 H2] [Hd Hm]. unfold clock_fits, in_int64, min_int64 in *.
  pose proof (Z.div_le_mono (t - last) (t' - last) cfg.(RefillInterval)).
  split; [lia|nia].
Qed.

Lemma fits_capacity cfg : cfg_fits cfg → cfg.(Capacity) ≤ max_int64.
Proof. intros [[]]. lia. Qed.
#[export] Hint Resolve fits_capacity fits_valid exact_decision_state : rl.

(** C14: one call decides exactly.  With a configuration that fits and a clock
    in range, [Apply] always returns a decision; it allows the request exactly
    when the bucket, refilled by the whole intervals since its last refill and
    capped at capacity, holds the cost; it then leaves [cost] tokens fewer and
    otherwise takes none; what remains stays within the capacity, and the
    refill instant advances by whole intervals, never past [now]. *)
Theorem Apply_grants cfg now s cost :
  cfg_fits cfg → 0 < cost ≤ max_int64 →
  let n := normalizeState s now cfg.(Capacity) in
  clock_fits cfg now n.(LastRefillAt) →
  ∃ d, Apply now s cfg cost = Ok d ∧
    d.(Allowed) = bool_decide (cost ≤ level cfg n now) ∧
    d.(Limit) = cfg.(Capacity) ∧
    d.(Remaining) = level cfg n now - (if d.(Allowed) then cost else 0) ∧
    0 ≤ d.(Remaining) ≤ cfg.(Capacity) ∧
    d.(NewState) = mkState d.(Remaining)
      (n.(LastRefillAt) + intervals cfg n.(LastRefillAt) now * cfg.(RefillInterval)) ∧
    (n.(LastRefillAt) ≤ now →
       n.(LastRefillAt) ≤ d.(NewState).(LastRefillAt) ≤ now ∧
       now < d.(NewState).(LastRefillAt) + cfg.(RefillInterval)).
Proof.
  intros Hf Hc n Hclk. pose proof (fits_valid _ Hf) as Hv.
  pose proof (normalizeState_wf cfg now s Hv) as Hwf. fold n in Hwf.
  exists (exact_decision cfg now n cost).
  split; [apply Apply_exact; eauto with rl|].
  split.
  { simpl. case_bool_decide; [apply Z.geb_le; done|].
    destruct (_ >=? _) eqn:?; to_prop; [lia|done]. }
  split; [done|]. split; [done|].
  split; [apply (exact_decision_state cfg now n cost); auto; lia|].
  split; [done|]. intros. by apply exact_decision_last.
Qed.

(** The errors of [Apply].  It fails exactly when a parameter or the cost is
    not positive, with the error of the first such parameter in the order
    capacity, refill tokens, refill interval, cost; whatever the state and the
    clock, and for all machine values. *)
Theorem Apply_errors now s cfg cost e :
  Apply now s cfg cost = Err e ↔
    (e = ErrInvalidCapacity ∧ cfg.(Capacity) ≤ 0) ∨
    (e = ErrInvalidRefillTokens ∧ 0 < cfg.(Capacity) ∧ cfg.(RefillTokens) ≤ 0) ∨
    (e = ErrInvalidRefillInterval ∧ 0 < cfg.(Capacity) ∧ 0 < cfg.(RefillTokens) ∧
       cfg.(RefillInterval) ≤ 0) ∨
    (e = ErrInvalidRequestCost ∧ valid cfg ∧ cost ≤ 0).
Proof.
  unfold Apply, validateConfig.
  destruct (cfg.(Capacity) <=? 0) eqn:?; [|destruct (cfg.(RefillTokens) <=? 0) eqn:?;
    [|destruct (cfg.(RefillInterval) <=? 0) eqn:?; [|destruct (cost <=? 0) eqn:?]]];
    to_prop; simpl; split;
    solve [intros [=<-]; tauto | intros [=]
      | intros [=<-]; do 3 right; repeat split; done
      | intros [[-> ?]|[(-> & ? & ?)|[(-> & ? & ? & ?)|(-> & [] & ?)]]]; done || lia].
Qed.

(** ** How long the durations really are *)

Section Later.
Context (cfg : Config) (Hf : cfg_fits cfg).

Let Hv : valid cfg := fits_valid _ Hf.

(** Looking at the bucket again after a call: the level the code reads at [t]. *)
Lemma next_level now s cost t :
  0 < cost ≤ max_int64 → well_formed cfg s → zero_Time < s.(LastRefillAt) ≤ now → now ≤ t →
  clock_fits cfg t s.(LastRefillAt) →
  let s' := (exact_decision cfg now s cost).(NewState) in
  normalizeState s' t cfg.(Capacity) = s' ∧
  clock_fits cfg t s'.(LastRefillAt) ∧
  ∀ cost', 0 < cost' ≤ max_int64 → Apply t s' cfg cost' = Ok (exact_decision cfg t s' cost').
Proof.
  intros Hc Hwf [Hz Hnow] Ht Hclk s'.
  pose proof (exact_decision_state cfg now s cost Hv Hwf ltac:(lia)) as Hwf'.
  destruct (exact_decision_last cfg now s cost Hv Hnow) as [[Hl1 Hl2] Hl3].
  fold s' in Hwf', Hl1, Hl2, Hl3.
  assert (Hn : normalizeState s' t cfg.(Capacity) = s') by (apply normalizeState_id; lia || done).
  assert (Hclk' : clock_fits cfg t s'.(LastRefillAt)) by
    (apply (clock_fits_later cfg t s.(LastRefillAt)); done || lia).
  split; [done|]. split; [done|]. intros cost' Hc'.
  rewrite Apply_exact; rewrite ?Hn; auto with rl.
Qed.

(** C17: the advice given to a blocked caller is exact.  When a request is
    blocked, on a well-formed bucket that can ever hold its cost and whose
    refill instant is not later than the clock, the same request made
    [RetryAfter] later or at any instant after that is allowed, and made at
    any earlier instant it is blocked again. *)
Theorem RetryAfter_exact now s cost d t d' :
  0 < cost ≤ cfg.(Capacity) → well_formed cfg s →
  zero_Time < s.(LastRefillAt) ≤ now → now ≤ t → clock_fits cfg t s.(LastRefillAt) →
  Apply now s cfg cost = Ok d → d.(Allowed) = false →
  Apply t d.(NewState) cfg cost = Ok d' →
  d'.(Allowed) = true ↔ now + d.(RetryAfter) ≤ t.
Proof.
  intros Hc Hwf Hnow Ht Hclk Hd Hblocked Hd'.
  assert (Hcm : 0 < cost ≤ max_int64) by (pose proof (fits_capacity _ Hf); lia).
  rewrite Apply_exact in Hd; rewrite ?normalizeState_id in *;
    eauto using clock_fits_earlier with rl; try lia.
  2: { apply (clock_fits_earlier cfg now t); auto; lia. }
  injection Hd as <-.
  destruct (next_level now s cost t) as (_ & _ & Hap); auto.
  rewrite Hap in Hd' by done. injection Hd' as <-.
  assert (Hra : (exact_decision cfg now s cost).(RetryAfter) =
    durationUntilTokens now (exact_decision cfg now s cost).(NewState) cfg cost).
  { unfold exact_decision in *; cbn [Allowed RetryAfter NewState] in *. by rewrite Hblocked. }
  rewrite Hra. destruct (exact_decision_last cfg now s cost Hv) as [? ?]; [lia|].
  rewrite <- level_reached_iff by (auto using exact_decision_state with lia || lia).
  unfold exact_decision at 1; cbn [Allowed exact_refill TokensRemaining].
  rewrite Z.geb_le. done.
Qed.

(** [ResetAt] is the exact instant from which the bucket is full. *)
Theorem ResetAt_exact now s cost d t :
  0 < cost ≤ max_int64 → well_formed cfg s →
  zero_Time < s.(LastRefillAt) ≤ now → now ≤ t → clock_fits cfg t s.(LastRefillAt) →
  Apply now s cfg cost = Ok d →
  (refill t d.(NewState) cfg).(TokensRemaining) = cfg.(Capacity) ↔ d.(ResetAt) ≤ t.
Proof.
  intros Hc Hwf Hnow Ht Hclk Hd.
  rewrite Apply_exact in Hd; rewrite ?normalizeState_id in *; auto with rl; try lia.
  2: { apply (clock_fits_earlier cfg now t); auto; lia. }
  injection Hd as <-.
  destruct (next_level now s cost t) as (_ & Hclk' & _); auto.
  pose proof (exact_decision_state cfg now s cost Hv Hwf ltac:(lia)) as Hwf'.
  rewrite refill_exact by done. cbn [exact_refill TokensRemaining].
  destruct (exact_decision_last cfg now s cost Hv) as [? ?]; [lia|].
  pose proof (level_range cfg Hv _ t Hwf').
  unfold exact_decision at 2; cbn [ResetAt]. unfold time_Add. rewrite durationUntilFull_tokens.
  pose proof (level_reached_iff cfg Hf
    (exact_decision cfg now s cost).(NewState) cfg.(Capacity) now t Hwf') as Hr.
  destruct Hv. rewrite <- Hr by lia. lia.
Qed.

(** A bucket whose key has expired: the state the store makes up at [t]. *)
Definition fresh_state (t : Time) : State := mkState cfg.(Capacity) t.

Lemma level_fresh t : level cfg (fresh_state t) t = cfg.(Capacity).
Proof.
  unfold level; simpl. pose proof (intervals_nonneg cfg t t). destruct Hv. nia.
Qed.

Lemma Apply_fresh t cost :
  0 < cost ≤ max_int64 →
  Apply t (fresh_state t) cfg cost = Ok (exact_decision cfg t (fresh_state t) cost).
Proof.
  intros Hc. assert (Hn : normalizeState (fresh_state t) t cfg.(Capacity) = fresh_state t).
  { unfold normalizeState, time_UTC, fresh_state; simpl. destruct Hv.
    destruct (time_IsZero t); crush_tests; done. }
  rewrite Apply_exact; rewrite ?Hn; auto with rl.
  unfold clock_fits, in_int64; simpl. rewrite Z.sub_diag, Zdiv_0_l.
  pose proof (fits_capacity _ Hf). unfold min_int64, max_int64 in *. lia.
Qed.

(** When the store's key may have gone, the stored bucket is full. *)
Lemma ttl_covers_refill now s t cut :
  well_formed cfg s → now < s.(LastRefillAt) + cfg.(RefillInterval) →
  0 ≤ cut ≤ cfg.(RefillInterval) → s.(LastRefillAt) - now + cut ≤ cfg.(RefillInterval) →
  now + bucketTTL now s cfg - cut ≤ t →
  level cfg s t = cfg.(Capacity).
Proof.
  intros Hwf Hnow Hcut Hskew Ht.
  rewrite (bucketTTL_exact cfg Hf) in Ht by done. rewrite durationUntilFull_tokens in Ht.
  pose proof (level_range cfg Hv s t Hwf) as Hr.
  destruct (decide (s.(TokensRemaining) < cfg.(Capacity))) as [Hlt|Hge].
  - rewrite (durationUntilTokens_shape cfg Hf) in Ht by (done || lia).
    pose proof (refills_until_bounds cfg Hf s cfg.(Capacity) Hwf Hlt ltac:(lia)) as [Hk _].
    destruct Hv as [_ HR HI].
    pose proof (intervals_ge cfg Hv s.(LastRefillAt) t
      (refills_until cfg s cfg.(Capacity)) ltac:(nia)) as Hi.
    assert (refills_until cfg s cfg.(Capacity) ≤ intervals cfg s.(LastRefillAt) t) as Hle by
      (apply Hi; lia).
    apply ceil_spec in Hle; [|done]. unfold level in *. lia.
  - destruct Hwf. unfold level in *. pose proof (intervals_nonneg cfg s.(LastRefillAt) t).
    destruct Hv. nia.
Qed.

(** C18: letting an idle bucket expire loses nothing.  Once [BucketTTL] has
    passed, even cut short by up to a refill interval (the store keeps whole
    seconds), the stored state and a fresh full bucket give every request the
    same verdict and the same remaining count; this holds even when the clock
    that computed the TTL ran behind the stored refill instant, as long as
    that lag and the cut together stay within one interval. *)
Theorem BucketTTL_safe now s cost d t cost' cut :
  0 < cost ≤ max_int64 → 0 < cost' ≤ max_int64 → well_formed cfg s →
  zero_Time < s.(LastRefillAt) →
  0 ≤ cut ≤ cfg.(RefillInterval) → s.(LastRefillAt) - now + cut ≤ cfg.(RefillInterval) →
  clock_fits cfg now s.(LastRefillAt) → clock_fits cfg t s.(LastRefillAt) →
  Apply now s cfg cost = Ok d → now + d.(BucketTTL) - cut ≤ t →
  ∃ d1 d2, Apply t d.(NewState) cfg cost' = Ok d1 ∧ Apply t (fresh_state t) cfg cost' = Ok d2 ∧
    d1.(Allowed) = d2.(Allowed) ∧ d1.(Remaining) = d2.(Remaining) ∧ d1.(Limit) = d2.(Limit).
Proof.
  intros Hc Hc' Hwf Hz Hcut Hskew Hclk Hclkt Hd Ht.
  rewrite Apply_exact in Hd; rewrite ?normalizeState_id in *; auto with rl.
  injection Hd as <-. set (s' := (exact_decision cfg now s cost).(NewState)) in *.
  pose proof (exact_decision_state cfg now s cost Hv Hwf ltac:(lia)) as Hwf'. fold s' in Hwf'.
  change (now + bucketTTL now s' cfg - cut ≤ t) in Ht.
  assert (Hl : s.(LastRefillAt) ≤ s'.(LastRefillAt) ∧
    s'.(LastRefillAt) ≤ Z.max now s.(LastRefillAt) ∧
    now < s'.(LastRefillAt) + cfg.(RefillInterval)).
  { destruct (decide (s.(LastRefillAt) ≤ now)) as [Hle|Hgt].
    - destruct (exact_decision_last cfg now s cost Hv Hle) as [[H1 H2] H3].
      fold s' in H1, H2, H3. lia.
    - subst s'. simpl. destruct Hv. rewrite intervals_past by (done || lia). lia. }
  destruct Hl as (Hl1 & Hl2 & Hl3).
  assert (Hskew' : s'.(LastRefillAt) - now + cut ≤ cfg.(RefillInterval)) by lia.
  pose proof (ttl_covers_refill now s' t cut Hwf' Hl3 Hcut Hskew' Ht) as Hfull.
  rewrite (bucketTTL_exact cfg Hf) in Ht by done. rewrite durationUntilFull_tokens in Ht.
  pose proof (durationUntilTokens_nonneg cfg Hf s' cfg.(Capacity) now Hwf' ltac:(lia) Hl3).
  assert (Hn : normalizeState s' t cfg.(Capacity) = s') by (apply normalizeState_id; done || lia).
  exists (exact_decision cfg t s' cost'), (exact_decision cfg t (fresh_state t) cost').
  split.
  { rewrite Apply_exact; rewrite ?Hn; auto with rl.
    destruct (decide (s'.(LastRefillAt) = s.(LastRefillAt))) as [->|]; [done|].
    apply (clock_fits_later cfg t s.(LastRefillAt)); auto; lia. }
  split; [by apply Apply_fresh|].
  unfold exact_decision; cbn [Allowed Remaining Limit exact_refill TokensRemaining].
  by rewrite Hfull, level_fresh.
Qed.
End Later.

#[global] Arguments exact_decision : simpl never.
#[global] Arguments exact_refill : simpl never.
