(* ===== verification/TokenBucketRuns.v ===== *)
(** * Runs of the token bucket

    [Apply] refills lazily, when a request happens to come.  Here it is set
    against the bucket a reader has in mind, which gains its tokens at each
    interval whether or not anybody looks, and against the rate such a bucket
    enforces over any run of requests. *)
From S2P Require Import Prelude GoBase TokenBucket TokenBucketFacts TokenBucketSpec.

(** ** The eager bucket *)

Section Eager.
Context (cfg : Config).

(** One refill: [RefillTokens] more, never over capacity. *)
Definition tick (s : State) : State :=
  mkState (Z.min cfg.(Capacity) (s.(TokensRemaining) + cfg.(RefillTokens)))
    (s.(LastRefillAt) + cfg.(RefillInterval)).

(** The bucket's own life up to the instant [t]. *)
Inductive lives_until (t : Time) : State → State → Prop :=
| lives_wait s :
    t < s.(LastRefillAt) + cfg.(RefillInterval) → lives_until t s s
| lives_tick s s' :
    s.(LastRefillAt) + cfg.(RefillInterval) ≤ t →
    lives_until t (tick s) s' → lives_until t s s'.

(** Requests served by the eager bucket: the verdicts and the final state. *)
Inductive eager_serve : State → list (Time * Z) → list bool → State → Prop :=
| eager_done s : eager_serve s [] [] s
| eager_allow s s1 now cost reqs oks s' :
    lives_until now s s1 → cost ≤ s1.(TokensRemaining) →
    eager_serve (mkState (s1.(TokensRemaining) - cost) s1.(LastRefillAt)) reqs oks s' →
    eager_serve s ((now, cost) :: reqs) (true :: oks) s'
| eager_block s s1 now cost reqs oks s' :
    lives_until now s s1 → s1.(TokensRemaining) < cost →
    eager_serve s1 reqs oks s' →
    eager_serve s ((now, cost) :: reqs) (false :: oks) s'.

(** The lazy bucket: [Apply] threaded through the requests. *)
Fixpoint serve (s : State) (reqs : list (Time * Z))
    : result error (list Decision * State) :=
  match reqs with
  | [] => Ok ([], s)
  | (now, cost) :: reqs =>
    let? d := Apply now s cfg cost in
    let? r := serve d.(NewState) reqs in
    Ok (d :: r.1, r.2)
  end.

(** Tokens a run handed out. *)
Fixpoint granted (reqs : list (Time * Z)) (oks : list bool) : Z :=
  match reqs, oks with
  | (_, cost) :: reqs, ok :: oks => (if ok then cost else 0) + granted reqs oks
  | _, _ => 0
  end.
End Eager.

Lemma tick_exact cfg s t :
  valid cfg → well_formed cfg s → s.(LastRefillAt) + cfg.(RefillInterval) ≤ t →
  exact_refill cfg t (tick cfg s) = exact_refill cfg t s.
Proof.
  intros Hv Hwf Ht. replace (tick cfg s) with
    (exact_refill cfg (s.(LastRefillAt) + cfg.(RefillInterval)) s).
  { by apply exact_refill_compose. }
  pose proof (intervals_spec cfg Hv s.(LastRefillAt)
    (s.(LastRefillAt) + cfg.(RefillInterval))) as Hi.
  destruct Hv as [? ? HI]. unfold exact_refill, tick, level.
  assert (intervals cfg s.(LastRefillAt) (s.(LastRefillAt) + cfg.(RefillInterval)) = 1) as ->
    by nia. f_equal; lia.
Qed.

Lemma tick_wf cfg s : valid cfg → well_formed cfg s → well_formed cfg (tick cfg s).
Proof. intros [] []. unfold well_formed, tick; simpl. lia. Qed.

(** The eager bucket reaches the state the lazy refill computes... *)
Lemma lives_until_refill cfg t s :
  valid cfg → well_formed cfg s → lives_until cfg t s (exact_refill cfg t s).
Proof.
  intros Hv. remember (Z.to_nat (t - s.(LastRefillAt))) as n eqn:Hn.
  revert s Hn. induction n as [n IH] using lt_wf_ind. intros s Hn Hwf.
  destruct (decide (t < s.(LastRefillAt) + cfg.(RefillInterval))) as [Hw|Ht].
  - rewrite exact_refill_idle by done. by constructor.
  - apply lives_tick; [lia|]. rewrite <- tick_exact by (done || lia).
    eapply IH; [|done|by apply tick_wf]. destruct Hv. simpl. lia.
Qed.

(** ... and no other. *)
Lemma lives_until_det cfg t s s1 s2 :
  lives_until cfg t s s1 → lives_until cfg t s s2 → s1 = s2.
Proof.
  intros H1. revert s2. induction H1; intros s2 H2; inversion H2; subst; auto; lia.
Qed.

Lemma lives_until_iff cfg t s s' :
  valid cfg → well_formed cfg s → lives_until cfg t s s' ↔ s' = exact_refill cfg t s.
Proof.
  intros Hv Hwf. split; [|intros ->; by apply lives_until_refill].
  intros H. eapply (lives_until_det cfg t s); [done|by apply lives_until_refill].
Qed.

(** ** Runs within a horizon

    Every clock of the run and the bucket's refill instant lie between [lo]
    and [hi], and the horizon is short enough for the arithmetic. *)
Record in_horizon (cfg : Config) (lo hi : Time) (s : State) (reqs : list (Time * Z)) : Prop := {
  hz_fits : cfg_fits cfg;
  hz_epoch : zero_Time < lo;
  hz_clock : clock_fits cfg hi lo;
  hz_wf : well_formed cfg s;
  hz_last : lo ≤ s.(LastRefillAt) ≤ hi;
  hz_reqs : Forall (fun r : Time * Z => lo ≤ r.1 ≤ hi ∧ 0 < r.2 ≤ max_int64) reqs
}.

Lemma horizon_clock cfg lo hi s reqs now :
  in_horizon cfg lo hi s reqs → lo ≤ now ≤ hi → clock_fits cfg now s.(LastRefillAt).
Proof.
  intros [Hf Hz [Hd Hm] Hwf Hl Hr] Hnow. pose proof (fits_valid _ Hf) as [Hc HR HI].
  unfold clock_fits, in_int64, min_int64, max_int64 in *.
  pose proof (Z.div_le_mono (now - s.(LastRefillAt)) (hi - lo) cfg.(RefillInterval)).
  split; [lia|nia].
Qed.

Lemma horizon_step cfg lo hi s now cost reqs :
  in_horizon cfg lo hi s ((now, cost) :: reqs) →
  Apply now s cfg cost = Ok (exact_decision cfg now s cost) ∧
  in_horizon cfg lo hi (exact_decision cfg now s cost).(NewState) reqs.
Proof.
  intros Hh. pose proof Hh as [Hf Hz Hclk Hwf Hl Hr].
  apply Forall_cons_1 in Hr as [[Hnow Hc] Hr]. simpl in Hnow, Hc.
  pose proof (horizon_clock _ _ _ _ _ now Hh Hnow) as Hcn.
  assert (Hid : normalizeState s now cfg.(Capacity) = s) by (apply normalizeState_id; done || lia).
  split. { rewrite Apply_exact; rewrite ?Hid; auto with rl. }
  split; auto with rl; [apply exact_decision_state; auto with rl; lia|].
  destruct (decide (s.(LastRefillAt) ≤ now)) as [Hle|Hgt].
  - destruct (exact_decision_last cfg now s cost (fits_valid _ Hf) Hle) as [[H1 H2] _]. lia.
  - unfold exact_decision, exact_refill; simpl. pose proof (fits_valid _ Hf) as Hv.
    rewrite intervals_past by (destruct Hv; done || lia).
    lia.
Qed.

Lemma serve_total cfg lo hi s reqs :
  in_horizon cfg lo hi s reqs → ∃ ds s', serve cfg s reqs = Ok (ds, s').
Proof.
  revert s. induction reqs as [|[now cost] reqs IH]; intros s Hh; simpl; [eauto|].
  destruct (horizon_step _ _ _ _ _ _ _ Hh) as [-> Hh']; cbn [res_bind].
  destruct (IH _ Hh') as (ds & s' & ->). cbn [res_bind]. eauto.
Qed.

Lemma exact_decision_verdict cfg now s cost :
  let d := exact_decision cfg now s cost in
  let s1 := exact_refill cfg now s in
  (cost ≤ s1.(TokensRemaining) ∧ d.(Allowed) = true ∧
     d.(NewState) = mkState (s1.(TokensRemaining) - cost) s1.(LastRefillAt)) ∨
  (s1.(TokensRemaining) < cost ∧ d.(Allowed) = false ∧ d.(NewState) = s1).
Proof.
  unfold exact_decision, granted_tokens. cbn [Allowed NewState].
  destruct (_ >=? cost) eqn:Hg; to_prop; [by left|].
  right. rewrite Z.sub_0_r. by destruct (exact_refill cfg now s).
Qed.

(** C15: the lazy bucket implements the eager one.  Over any run of requests
    the verdicts and the final state that [Apply] computes, refilling only
    when a request comes, are those of the bucket that gains its tokens at
    every interval, and conversely. *)
Theorem serve_refines_eager cfg lo hi s reqs oks s' :
  in_horizon cfg lo hi s reqs →
  (∃ ds, serve cfg s reqs = Ok (ds, s') ∧ map Allowed ds = oks) ↔
  eager_serve cfg s reqs oks s'.
Proof.
  revert s oks. induction reqs as [|[now cost] reqs IH]; intros s oks Hh; simpl.
  { split; [intros (ds & [= <- <-] & <-); constructor|].
    intros H; inversion H; subst; eauto. }
  pose proof (fits_valid _ (hz_fits _ _ _ _ _ Hh)) as Hv.
  pose proof (hz_wf _ _ _ _ _ Hh) as Hwf.
  destruct (horizon_step _ _ _ _ _ _ _ Hh) as [-> Hh']; cbn [res_bind].
  pose proof (lives_until_refill cfg now s Hv Hwf) as Hlive.
  pose proof (exact_refill_wf cfg Hv s now Hwf).
  pose proof (exact_decision_verdict cfg now s cost) as Hd.
  set (d := exact_decision cfg now s cost) in *. split.
  - intros (ds & Hs & <-).
    destruct (serve cfg (NewState d) reqs) as [[ds1 s1]|] eqn:Hr; [|done].
    injection Hs as <- <-. cbn [map].
    assert (He : eager_serve cfg (NewState d) reqs (map Allowed ds1) s1) by
      (apply IH; [done|]; eauto).
    destruct Hd as [(Hc & -> & Hn)|(Hc & -> & Hn)]; rewrite Hn in He.
    + by eapply eager_allow.
    + by eapply eager_block.
  - intros He.
    inversion He as [|? s1 ? ? ? oks1 ? Hl Hc Hrest|? s1 ? ? ? oks1 ? Hl Hc Hrest]; subst;
      apply lives_until_iff in Hl; auto; subst s1;
      destruct Hd as [(? & Ha & Hn)|(? & Ha & Hn)]; try lia;
      rewrite <- Hn in Hrest; apply IH in Hrest as (ds & -> & <-); auto;
      eexists; (split; [done|]); cbn [map fst snd]; by rewrite Ha.
Qed.

(** ** The rate *)

Lemma granted_step cfg lo hi s reqs ds s' :
  in_horizon cfg lo hi s reqs → serve cfg s reqs = Ok (ds, s') →
  ∃ k, 0 ≤ k ∧ s'.(LastRefillAt) = s.(LastRefillAt) + k * cfg.(RefillInterval) ∧
    s'.(LastRefillAt) ≤ hi ∧ well_formed cfg s' ∧
    granted reqs (map Allowed ds) + s'.(TokensRemaining) ≤
      s.(TokensRemaining) + k * cfg.(RefillTokens).
Proof.
  revert s ds. induction reqs as [|[now cost] reqs IH]; intros s ds Hh; cbn [serve].
  { intros [= <- <-]. exists 0. destruct Hh. simpl. split_and!; auto; lia. }
  destruct (horizon_step _ _ _ _ _ _ _ Hh) as [-> Hh']; cbn [res_bind].
  pose proof (exact_decision_verdict cfg now s cost) as Hd.
  set (d := exact_decision cfg now s cost) in *.
  destruct (serve cfg (NewState d) reqs) as [[ds1 s1]|] eqn:Hr; [|done].
  intros [= <- <-]. destruct (IH _ _ Hh' Hr) as (k & Hk & Hl & Hhi & Hwf & Hg).
  pose proof (intervals_nonneg cfg s.(LastRefillAt) now).
  exists (intervals cfg s.(LastRefillAt) now + k).
  cbn [map granted]. unfold exact_refill, level in Hd; cbn [TokensRemaining LastRefillAt] in Hd.
  destruct Hd as [(Hc & -> & Hn)|(Hc & -> & Hn)]; rewrite Hn in *;
    cbn [TokensRemaining LastRefillAt] in *; split_and!; auto; lia.
Qed.

(** C3: the rate limit holds.  Whatever the requests, their costs and the order
    of their clocks, a bucket hands out by the instant [hi] at most the tokens
    it held plus [RefillTokens] for each whole interval since its refill
    instant; so never more than a full bucket and the refills. *)
Theorem granted_within_rate cfg lo hi s reqs :
  in_horizon cfg lo hi s reqs →
  ∃ ds s', serve cfg s reqs = Ok (ds, s') ∧
    granted reqs (map Allowed ds) ≤
      s.(TokensRemaining) +
      (hi - s.(LastRefillAt)) / cfg.(RefillInterval) * cfg.(RefillTokens) ∧
    granted reqs (map Allowed ds) ≤
      cfg.(Capacity) +
      (hi - s.(LastRefillAt)) / cfg.(RefillInterval) * cfg.(RefillTokens).
Proof.
  intros Hh. destruct (serve_total _ _ _ _ _ Hh) as (ds & s' & Hs).
  exists ds, s'. split; [done|].
  destruct (granted_step _ _ _ _ _ _ _ Hh Hs) as (k & Hk & Hl & Hhi & [Hw _] & Hg).
  destruct Hh as [[[Hc HR HI] _ _] _ _ [_ Hwf] Hlast _].
  assert (k ≤ (hi - s.(LastRefillAt)) / cfg.(RefillInterval)) by
    (apply Z.div_le_lower_bound; lia).
  split; nia.
Qed.
