(* ===== verification/Redis.v ===== *)
(** * Redis as the service sees it

    Redis and its client library are not part of this repository: the server is
    a type [D] of data sets with the commands the service sends, and the laws
    below are the documented behaviour of those commands.  Around a server,
    [net] models the connection: before each round trip other clients may have
    changed the data, and each round trip may fail before or after the server
    acted on it. *)
From S2P Require Import Prelude GoBase.

(** ** Commands

    The commands of a [MULTI]/[EXEC] block or a single write.  Durations are in
    nanoseconds, as handed to the client library; [SetStr] with a zero duration
    sets no expiry. *)
Inductive redis_cmd :=
| HSet (key : string) (fields : gmap string Z)
| Expire (key : string) (ttl : Duration)
| HIncrBy (key field : string) (n : Z)
| SetStr (key payload : string) (ttl : Duration)
| DelKeys (keys : list string).

Definition touched (c : redis_cmd) : list string :=
  match c with
  | HSet k _ | Expire k _ | HIncrBy k _ _ | SetStr k _ _ => [k]
  | DelKeys ks => ks
  end.

(** What a server offers: the replies to [HGETALL] (empty for no key) and [GET]
    ([None] for no key), the remaining time to live, the keys, the stamp that
    [WATCH] compares, the effect of a write, and the passing of time. *)
Class RedisServer (D : Type) := {
  hash_view : D → string → gmap string string;
  string_view : D → string → option string;
  ttl_view : D → string → option Duration;
  live_keys : D → list string;
  stamp : D → string → Z;
  run_cmd : redis_cmd → D → D;
  elapse : Duration → D → D
}.

Definition exec_cmds {D} `{RedisServer D} (cs : list redis_cmd) (d : D) : D :=
  foldl (fun d c => run_cmd c d) d cs.

(** Nothing a reply shows about the key [k] differs. *)
Record same_key {D} `{RedisServer D} (k : string) (d d' : D) : Prop := {
  same_hash : hash_view d' k = hash_view d k;
  same_string : string_view d' k = string_view d k
}.

Definition absent {D} `{RedisServer D} (d : D) (k : string) : Prop :=
  hash_view d k = ∅ ∧ string_view d k = None.

(** What any activity on the server respects: stamps only grow, and a key whose
    stamp did not move did not change. *)
Definition evolves {D} `{RedisServer D} (d d' : D) : Prop :=
  ∀ k, stamp d k ≤ stamp d' k ∧ (stamp d' k = stamp d k → same_key k d d').

Class RedisLaws (D : Type) `{RedisServer D} : Prop := {
  run_frame c d k : k ∉ touched c →
    same_key k d (run_cmd c d) ∧ ttl_view (run_cmd c d) k = ttl_view d k ∧
    stamp (run_cmd c d) k = stamp d k;
  run_hset k fs d : fs ≠ ∅ → string_view d k = None →
    hash_view (run_cmd (HSet k fs) d) k = (FormatInt <$> fs) ∪ hash_view d k ∧
    string_view (run_cmd (HSet k fs) d) k = None;
  run_expire_later k ttl d : Second ≤ ttl →
    same_key k d (run_cmd (Expire k ttl) d) ∧
    (¬ absent d k → ∃ p, ttl_view (run_cmd (Expire k ttl) d) k = Some p ∧
       ttl - Second < p ≤ ttl);
  run_expire_now k ttl d : ttl ≤ 0 → absent (run_cmd (Expire k ttl) d) k;
  run_hincrby k f n d old : string_view d k = None →
    hash_view d k !! f = Some (FormatInt old) ∨ (hash_view d k !! f = None ∧ old = 0) →
    in_int64 old → in_int64 (old + n) →
    hash_view (run_cmd (HIncrBy k f n) d) k = <[f := FormatInt (old + n)]> (hash_view d k) ∧
    string_view (run_cmd (HIncrBy k f n) d) k = None;
  run_set k p ttl d :
    string_view (run_cmd (SetStr k p ttl) d) k = Some p ∧
    hash_view (run_cmd (SetStr k p ttl) d) k = ∅ ∧
    (ttl = 0 → ttl_view (run_cmd (SetStr k p ttl) d) k = None) ∧
    (Millisecond ≤ ttl → ∃ t, ttl_view (run_cmd (SetStr k p ttl) d) k = Some t ∧
       ttl - Millisecond < t ≤ ttl);
  run_del ks d k : k ∈ ks → absent (run_cmd (DelKeys ks) d) k;
  run_evolves c d : evolves d (run_cmd c d);
  live_keys_spec d k : k ∈ live_keys d ↔ ¬ absent d k;
  elapse_live t d k : 0 ≤ t → (∀ p, ttl_view d k = Some p → t < p) →
    same_key k d (elapse t d) ∧
    ttl_view (elapse t d) k = (fun p => p - t) <$> ttl_view d k;
  elapse_gone t d k p : ttl_view d k = Some p → p ≤ t → absent (elapse t d) k;
  elapse_evolves t d : 0 ≤ t → evolves d (elapse t d)
}.

(** ** Consequences of the laws *)

Section Laws.
Context {D : Type} `{RL : RedisLaws D}.
Implicit Types (d : D) (k : string) (c : redis_cmd).

#[global] Instance same_key_equiv k : Equivalence (same_key (D := D) k).
Proof.
  split.
  - by intros d.
  - intros d d' []. split; congruence.
  - intros d1 d2 d3 [] []. split; congruence.
Qed.

#[global] Instance evolves_preorder : PreOrder (evolves (D := D)).
Proof.
  split.
  - intros d k. split; [lia|]. reflexivity.
  - intros d1 d2 d3 H12 H23 k. destruct (H12 k) as [? Hs12], (H23 k) as [? Hs23].
    split; [lia|]. intros Heq. transitivity d2; [apply Hs12|apply Hs23]; lia.
Qed.

Lemma exec_cmds_app cs1 cs2 d : exec_cmds (cs1 ++ cs2) d = exec_cmds cs2 (exec_cmds cs1 d).
Proof. apply foldl_app. Qed.

Lemma exec_evolves cs d : evolves d (exec_cmds cs d).
Proof.
  revert d. induction cs as [|c cs IH]; intros d; [reflexivity|].
  transitivity (run_cmd c d); [apply run_evolves|apply IH].
Qed.

Lemma exec_frame cs d k :
  Forall (fun c => k ∉ touched c) cs →
  same_key k d (exec_cmds cs d) ∧ ttl_view (exec_cmds cs d) k = ttl_view d k ∧
  stamp (exec_cmds cs d) k = stamp d k.
Proof.
  revert d. induction cs as [|c cs IH]; intros d Hcs; [split_and!; reflexivity|].
  apply Forall_cons_1 in Hcs as [Hc Hcs].
  destruct (run_frame c d k Hc) as (H1 & H2 & H3).
  destruct (IH (run_cmd c d) Hcs) as (I1 & I2 & I3). change (exec_cmds (c :: cs) d) with (exec_cmds cs (run_cmd c d)).
  split_and!; [by transitivity (run_cmd c d)|by rewrite I2|by rewrite I3].
Qed.

Lemma same_key_absent k d d' : same_key k d d' → absent d k → absent d' k.
Proof. intros [H1 H2]. unfold absent. by rewrite H1, H2. Qed.
End Laws.

(** ** The connection *)

Inductive fate :=
| Delivered
| NotSent (e : error)
| ReplyLost (e : error).

Record round (D : Type) := mkRound { others : D → D; outcome : fate }.
Arguments mkRound {D}.
Arguments others {D}.
Arguments outcome {D}.

(** The server and what the coming round trips will meet; after the last of
    them the connection is quiet. *)
Record net (D : Type) := mkNet { server : D; rounds : list (round D) }.
Arguments mkNet {D}.
Arguments server {D}.
Arguments rounds {D}.

(** One round trip. *)
Definition call {D A} (f : D → A * D) (n : net D) : result error A * net D :=
  match n.(rounds) with
  | [] => let '(a, d) := f n.(server) in (Ok a, mkNet d [])
  | r :: rs =>
      let d := r.(others) n.(server) in
      match r.(outcome) with
      | Delivered => let '(a, d) := f d in (Ok a, mkNet d rs)
      | ReplyLost e => let '(_, d) := f d in (Err e, mkNet d rs)
      | NotSent e => (Err e, mkNet d rs)
      end
  end.

Definition query {D A} (f : D → A) : net D → result error A * net D :=
  call (fun d => (f d, d)).
Definition command {D} `{RedisServer D} (cs : list redis_cmd) : net D → result error unit * net D :=
  call (fun d => ((), exec_cmds cs d)).

(** The reply of [GET] on a missing key is [redis.Nil], an error value. *)
Definition redis_Nil : error := ErrorsNew "redis.Nil" "redis: nil".
Definition redis_Get {D} `{RedisServer D} (k : string) (n : net D)
    : result error string * net D :=
  let '(r, n) := query (fun d => string_view d k) n in
  (let? o := r in match o with Some p => Ok p | None => Err redis_Nil end, n).

(** [WATCH k], a body that reads [k], and [MULTI]/[EXEC]: the block runs only
    if the stamp of [k] has not moved, otherwise the client library reports
    [redis.TxFailedErr]. *)
Definition redis_TxFailedErr : error :=
  ErrorsNew "redis.TxFailedErr" "redis: transaction failed".

Definition redis_exec {D} `{RedisServer D} (k : string) (watched : Z) (cs : list redis_cmd)
    (n : net D) : result error unit * net D :=
  let '(r, n) := call (fun d =>
    if stamp d k =? watched then (true, exec_cmds cs d) else (false, d)) n in
  (let? ok := r in if ok : bool then Ok () else Err redis_TxFailedErr, n).

(** [client.Watch(ctx, body, k)]; the body receives the watched stamp. *)
Definition redis_Watch {D A} `{RedisServer D} (k : string)
    (body : Z → net D → result error A * net D) (n : net D) : result error A * net D :=
  let '(r, n) := query (fun d => stamp d k) n in
  match r with
  | Err e => (Err e, n)
  | Ok watched => body watched n
  end.

(** Other clients play by the server's rules. *)
Definition well_behaved {D} `{RedisServer D} (n : net D) : Prop :=
  Forall (fun r => ∀ d, evolves d (r.(others) d)) n.(rounds).

Lemma call_evolves {D A} `{RedisLaws D} (f : D → A * D) (n n' : net D) r :
  (∀ d, evolves d (f d).2) → well_behaved n → call f n = (r, n') →
  evolves n.(server) n'.(server) ∧ well_behaved n'.
Proof.
  intros Hf Hn. unfold call, well_behaved in *. destruct n as [d rs]; simpl in *.
  destruct rs as [|[o out] rs]; simpl.
  { destruct (f d) as [a d'] eqn:E. intros [= <- <-]. split; [|done].
    pose proof (Hf d) as Hd. by rewrite E in Hd. }
  apply Forall_cons_1 in Hn as [Ho Hn]. simpl in Ho. destruct out as [|e|e].
  2: { intros [= <- <-]. split; [apply Ho|done]. }
  all: destruct (f (o d)) as [a d'] eqn:E; intros [= <- <-]; split; [|done];
    pose proof (Hf (o d)) as Hd; rewrite E in Hd; by transitivity (o d).
Qed.

(** A round trip that answered: what the server was when it acted. *)
Lemma call_Ok {D A} `{RedisLaws D} (f : D → A * D) (n n' : net D) a :
  well_behaved n → call f n = (Ok a, n') →
  ∃ d, evolves n.(server) d ∧ f d = (a, n'.(server)) ∧ well_behaved n'.
Proof.
  unfold call, well_behaved. destruct n as [d rs]; simpl. destruct rs as [|[o out] rs]; simpl.
  { intros _. destruct (f d) as [b d'] eqn:E. intros [= <- <-]. exists d. by rewrite E. }
  intros Hn. apply Forall_cons_1 in Hn as [Ho Hn]. simpl in Ho.
  destruct out as [|e|e]; [| |destruct (f (o d))]; try done.
  destruct (f (o d)) as [b d'] eqn:E. intros [= <- <-]. exists (o d). by rewrite E.
Qed.

Lemma query_Ok {D A} `{RedisLaws D} (f : D → A) (n n' : net D) a :
  well_behaved n → query f n = (Ok a, n') →
  evolves n.(server) n'.(server) ∧ a = f n'.(server) ∧ well_behaved n'.
Proof.
  intros Hn Hq. apply call_Ok in Hq as (d & He & Hf & Hn'); [|done].
  injection Hf as <- <-. done.
Qed.

Lemma query_evolves {D A} `{RedisLaws D} (f : D → A) (n n' : net D) r :
  well_behaved n → query f n = (r, n') → evolves n.(server) n'.(server) ∧ well_behaved n'.
Proof. apply call_evolves. by intros d. Qed.

Lemma redis_exec_evolves {D} `{RedisLaws D} k st cs (n n' : net D) r :
  well_behaved n → redis_exec k st cs n = (r, n') →
  evolves n.(server) n'.(server) ∧ well_behaved n'.
Proof.
  unfold redis_exec. intros Hn. destruct (call _ n) as [r' n1] eqn:Hc. intros [= _ <-].
  apply call_evolves in Hc; [done| |done].
  intros d. case_match; simpl; [apply exec_evolves|reflexivity].
Qed.

(** The block ran: the key still had the watched stamp. *)
Lemma redis_exec_Ok {D} `{RedisLaws D} k st cs (n n' : net D) :
  well_behaved n → redis_exec k st cs n = (Ok (), n') →
  ∃ d, evolves n.(server) d ∧ stamp d k = st ∧ n'.(server) = exec_cmds cs d ∧ well_behaved n'.
Proof.
  unfold redis_exec. intros Hn. destruct (call _ n) as [r n1] eqn:Hc. intros [= Hr <-].
  destruct r as [[]|e]; simpl in Hr; try done.
  apply call_Ok in Hc as (d & He & Hf & Hn'); [|done]. exists d.
  destruct (stamp d k =? st) eqn:Hs; to_prop; by simplify_eq.
Qed.

(** A quiet connection answers every round trip on the spot. *)
Definition quiet {D} (d : D) : net D := mkNet d [].

Lemma query_quiet {D A} (f : D → A) (d : D) : query f (quiet d) = (Ok (f d), quiet d).
Proof. done. Qed.

Lemma redis_exec_quiet {D} `{RedisServer D} k cs (d : D) :
  redis_exec k (stamp d k) cs (quiet d) = (Ok (), quiet (exec_cmds cs d)).
Proof. unfold redis_exec, call; simpl. by rewrite Z.eqb_refl. Qed.

Lemma redis_exec_stale {D} `{RedisServer D} k st cs (d : D) :
  stamp d k ≠ st → redis_exec k st cs (quiet d) = (Err redis_TxFailedErr, quiet d).
Proof. intros Hs. unfold redis_exec, call; simpl. by rewrite (proj2 (Z.eqb_neq _ _) Hs). Qed.
