(* ===== verification/Ids.v ===== *)
(** * Identifiers and keys

    UUIDs with the text the [uuid] package gives them, and the colon-separated
    key names that Redis entries live under. *)
From S2P Require Import Prelude GoBase.

(** ** UUIDs

    [uuid.UUID] is a [16]byte array: a 128-bit number here.  Printing and
    parsing belong to the package [github.com/google/uuid]. *)
Definition UUID : Type := Z.
Definition uuid_ok (u : UUID) : Prop := 0 ≤ u < 2 ^ 128.

Class UuidText := {
  uuid_String : UUID → string;
  uuid_Parse : string → result error UUID
}.

(** No colon inside a name. *)
Fixpoint no_colon (s : string) : bool :=
  match s with
  | EmptyString => true
  | String c s => negb (bool_decide (c = ":"%char)) && no_colon s
  end.

(** Documented: the canonical text is made of lower-case hexadecimal digits and
    dashes, is not empty, and parses back. *)
Definition hex_or_dash (c : ascii) : bool :=
  let n := Z.of_N (N_of_ascii c) in
  (48 <=? n) && (n <=? 57) || (97 <=? n) && (n <=? 102) || (n =? 45).

Fixpoint all_chars (p : ascii → bool) (s : string) : bool :=
  match s with
  | EmptyString => true
  | String c s => p c && all_chars p s
  end.

Class UuidLaws `{UuidText} : Prop := {
  uuid_String_chars u : uuid_ok u → all_chars hex_or_dash (uuid_String u) = true;
  uuid_String_nonempty u : uuid_ok u → uuid_String u ≠ EmptyString;
  uuid_Parse_String u : uuid_ok u → uuid_Parse (uuid_String u) = Ok u
}.

Section Uuid.
Context `{UuidLaws}.

Lemma uuid_String_inj u v : uuid_ok u → uuid_ok v → uuid_String u = uuid_String v → u = v.
Proof.
  intros Hu Hv Heq. pose proof (uuid_Parse_String u Hu) as H1.
  rewrite Heq, uuid_Parse_String in H1 by done. congruence.
Qed.

Lemma hex_no_colon s : all_chars hex_or_dash s = true → no_colon s = true.
Proof.
  induction s as [|c s IH]; [done|]. cbn [all_chars no_colon].
  intros [Hc Hs]%andb_true_iff. rewrite IH by done. rewrite andb_true_r.
  apply negb_true_iff, bool_decide_eq_false_2. by intros ->.
Qed.

Lemma uuid_String_no_colon u : uuid_ok u → no_colon (uuid_String u) = true.
Proof. intros Hu. by apply hex_no_colon, uuid_String_chars. Qed.

(** No UUID prints as a word with a letter past [f], such as [default]. *)
Lemma uuid_String_not_default u : uuid_ok u → uuid_String u ≠ "default".
Proof. intros Hu Heq. pose proof (uuid_String_chars u Hu) as Hc. by rewrite Heq in Hc. Qed.
End Uuid.

(** ** Joining with colons *)

Lemma colon_split a b x y :
  no_colon a = true → no_colon b = true →
  a +:+ ":" +:+ x = b +:+ ":" +:+ y → a = b ∧ x = y.
Proof.
  revert b. induction a as [|c a IH]; intros [|c' b]; cbn [no_colon].
  - intros _ _ Heq. change (String ":" x = String ":" y) in Heq. by injection Heq as ->.
  - intros _ [Hc _]%andb_true_iff Heq. injection Heq as <- _. by rewrite bool_decide_eq_true_2 in Hc.
  - intros [Hc _]%andb_true_iff _ Heq. injection Heq as -> _. by rewrite bool_decide_eq_true_2 in Hc.
  - intros [_ Ha]%andb_true_iff [_ Hb]%andb_true_iff Heq. injection Heq as -> Heq.
    destruct (IH b Ha Hb Heq) as [-> ->]. done.
Qed.

(** ** The tail shared by bucket and policy keys

    [scope type : identifier : route], with a word for each missing part. *)
Section Tail.
Context `{UuidLaws}.

Definition id_text (i : option UUID) : string :=
  match i with None => "default" | Some u => uuid_String u end.
Definition route_text (p : option string) : string :=
  match p with None => "ALL" | Some p => p end.
Definition scope_tail (t : string) (i : option UUID) (p : option string) : string :=
  t +:+ ":" +:+ id_text i +:+ ":" +:+ route_text p.

Record tail_ok (t : string) (i : option UUID) (p : option string) : Prop := {
  tail_type : no_colon t = true;
  tail_id : ∀ u, i = Some u → uuid_ok u;
  tail_route : p ≠ Some "ALL"
}.

Lemma id_text_no_colon i : (∀ u, i = Some u → uuid_ok u) → no_colon (id_text i) = true.
Proof. intros Hi. destruct i; [by apply uuid_String_no_colon, Hi|done]. Qed.

Lemma id_text_inj i j :
  (∀ u, i = Some u → uuid_ok u) → (∀ u, j = Some u → uuid_ok u) → id_text i = id_text j → i = j.
Proof.
  intros Hi Hj. destruct i as [u|], j as [v|]; simpl; intros Heq; try done.
  - f_equal. apply uuid_String_inj; auto.
  - apply uuid_String_not_default in Heq; [done|auto].
  - symmetry in Heq. apply uuid_String_not_default in Heq; [done|auto].
Qed.

Lemma scope_tail_inj t1 i1 p1 t2 i2 p2 :
  tail_ok t1 i1 p1 → tail_ok t2 i2 p2 → scope_tail t1 i1 p1 = scope_tail t2 i2 p2 →
  t1 = t2 ∧ i1 = i2 ∧ p1 = p2.
Proof.
  intros [Ht1 Hi1 Hp1] [Ht2 Hi2 Hp2] Heq. unfold scope_tail in Heq.
  apply colon_split in Heq as [-> Heq]; [|done..].
  apply colon_split in Heq as [Hi Hp]; [|by apply id_text_no_colon..].
  apply id_text_inj in Hi as ->; [|done..].
  split_and!; [done..|]. destruct p1, p2; simpl in Hp; by simplify_eq.
Qed.
End Tail.

(** ** A concrete text, to run examples on

    The 32 hexadecimal digits without dashes, which the package also parses. *)
Definition hex_digit (z : Z) : ascii :=
  ascii_of_N (Z.to_N (if z <? 10 then z + 48 else z + 87)).

Definition hex_value (c : ascii) : option Z :=
  let n := Z.of_N (N_of_ascii c) in
  if (48 <=? n) && (n <=? 57) then Some (n - 48)
  else if (97 <=? n) && (n <=? 102) then Some (n - 87) else None.

Fixpoint hex_text (digits : nat) (z : Z) (s : string) : string :=
  match digits with
  | O => s
  | S n => hex_text n (z / 16) (String (hex_digit (z mod 16)) s)
  end.

Fixpoint hex_read (s : string) (acc : Z) : result error Z :=
  match s with
  | EmptyString => Ok acc
  | String c s =>
      match hex_value c with
      | Some d => hex_read s (16 * acc + d)
      | None => Err (OpaqueError "invalid UUID format")
      end
  end.

Definition plain_uuid : UuidText := {|
  uuid_String u := hex_text 32 u EmptyString;
  uuid_Parse s := hex_read s 0
|}.

Lemma hex_digit_cases (P : Z → Prop) z :
  0 ≤ z < 16 →
  P 0 → P 1 → P 2 → P 3 → P 4 → P 5 → P 6 → P 7 → P 8 → P 9 → P 10 → P 11 → P 12 → P 13 →
  P 14 → P 15 → P z.
Proof.
  intros Hz. intros.
  assert (z = 0 ∨ z = 1 ∨ z = 2 ∨ z = 3 ∨ z = 4 ∨ z = 5 ∨ z = 6 ∨ z = 7 ∨ z = 8 ∨ z = 9 ∨
          z = 10 ∨ z = 11 ∨ z = 12 ∨ z = 13 ∨ z = 14 ∨ z = 15) by lia.
  by destruct_or!; subst.
Qed.

Lemma hex_digit_value z : 0 ≤ z < 16 → hex_value (hex_digit z) = Some z.
Proof. intros Hz. by apply (hex_digit_cases (fun z => hex_value (hex_digit z) = Some z)). Qed.

Lemma hex_digit_ok z : 0 ≤ z < 16 → hex_or_dash (hex_digit z) = true.
Proof. intros Hz. by apply (hex_digit_cases (fun z => hex_or_dash (hex_digit z) = true)). Qed.

Lemma hex_text_chars n z s :
  all_chars hex_or_dash s = true → all_chars hex_or_dash (hex_text n z s) = true.
Proof.
  revert z s. induction n as [|n IH]; intros z s Hs; [done|]. cbn [hex_text]. apply IH.
  cbn [all_chars]. rewrite Hs, hex_digit_ok; [done|]. apply Z.mod_pos_bound. lia.
Qed.

Lemma hex_read_text n z s :
  0 ≤ z < 16 ^ Z.of_nat n → hex_read (hex_text n z s) 0 = hex_read s z.
Proof.
  revert z s. induction n as [|n IH]; intros z s Hz.
  - simpl in Hz. by assert (z = 0) as -> by lia.
  - cbn [hex_text]. rewrite Nat2Z.inj_succ, Z.pow_succ_r in Hz by lia.
    pose proof (Z.mod_pos_bound z 16). pose proof (Z.div_mod z 16).
    rewrite IH by (split; [apply Z.div_pos; lia|apply Z.div_lt_upper_bound; lia]).
    cbn [hex_read]. rewrite hex_digit_value by lia. f_equal. lia.
Qed.

Lemma hex_text_nonempty n z s : s ≠ EmptyString → hex_text n z s ≠ EmptyString.
Proof. revert z s. induction n as [|n IH]; intros z s Hs; [done|]. by apply IH. Qed.

Lemma hex_text_S n z : hex_text (S n) z EmptyString ≠ EmptyString.
Proof. cbn [hex_text]. apply hex_text_nonempty. discriminate. Qed.

Lemma plain_uuid_laws : @UuidLaws plain_uuid.
Proof.
  split; intros u Hu.
  - by apply hex_text_chars.
  - exact (hex_text_S 31 u).
  - apply (hex_read_text 32 u EmptyString). exact Hu.
Qed.
