(* ===== verification/BucketStore.v ===== *)
(** * The bucket store: [internal/redisstate/bucket_store.go]

    Buckets live in Redis hashes.  [Consume] reads one under [WATCH], applies
    the token bucket in memory and writes the outcome back in a transaction,
    again from the start when another client got there first. *)
From S2P Require Import Prelude GoBase Ids TokenBucket Redis.

Definition bucketPrefix : string := "ratelimit:bucket".
Definition bucketFieldTokensRemaining : string := "tokens_remaining".
Definition bucketFieldLastRefillUnixMs : string := "last_refill_unix_ms".
Definition bucketDefaultScopeIdentifier : string := "default".
Definition bucketAllRouteKey : string := "ALL".
Definition summaryMetricsKey : string := "ratelimit:metrics:summary".
Definition summaryAllowedField : string := "allowed_requests".
Definition summaryBlockedField : string := "blocked_requests".
Definition defaultBucketMaxRetries : Z := 32.

Definition ErrBucketContention : error :=
  ErrorsNew "redisstate.ErrBucketContention" "bucket update contention exceeded retry budget".

Record BucketRef := mkBucketRef {
  ref_ScopeType : string;
  ref_ScopeIdentifier : option UUID;
  ref_RoutePattern : option string
}.

Record BucketSnapshot := mkBucketSnapshot {
  snap_Key : string;
  snap_TokensRemaining : Z;
  snap_LastRefillUnixMs : Z
}.

Record SummaryMetrics := mkSummaryMetrics {
  AllowedRequests : Z;
  BlockedRequests : Z
}.

(** The client field is the connection the operations thread through. *)
Record BucketStore := mkBucketStore { maxRetries : Z }.

Definition NewBucketStore : BucketStore := mkBucketStore defaultBucketMaxRetries.

Section Keys.
Context `{UuidText}.

Definition bucketScopeIdentifier (scopeIdentifier : option UUID) : string :=
  match scopeIdentifier with
  | None => bucketDefaultScopeIdentifier
  | Some id => uuid_String id
  end.

Definition bucketRouteKey (routePattern : option string) : string :=
  match routePattern with
  | None => bucketAllRouteKey
  | Some p => p
  end.

Definition bucketKey (ref : BucketRef) : string :=
  bucketPrefix +:+ ":" +:+ ref.(ref_ScopeType) +:+ ":" +:+
  bucketScopeIdentifier ref.(ref_ScopeIdentifier) +:+ ":" +:+
  bucketRouteKey ref.(ref_RoutePattern).

Definition BucketKey (ref : BucketRef) : string := bucketKey ref.
End Keys.

Definition summaryField (allowed : bool) : string :=
  if allowed then summaryAllowedField else summaryBlockedField.

Definition parseIntOrZero (raw : string) : Z :=
  match raw with
  | EmptyString => 0
  | _ => match ParseInt raw with Ok v => v | Err _ => 0 end
  end.

(** Reading a Go map: a missing key gives the zero value. *)
Definition map_get (values : gmap string string) (field : string) : string :=
  default EmptyString (values !! field).

Section Store.
Context {D : Type} `{RedisServer D} `{UuidText}.

(** The two numbers of a stored hash, or the parse error with its field. *)
Definition parse_bucket (key : string) (values : gmap string string) : result error (Z * Z) :=
  let? tokens := wrap_err ("parse tokens_remaining for " +:+ key)
                   (ParseInt (map_get values bucketFieldTokensRemaining)) in
  let? ms := wrap_err ("parse last_refill_unix_ms for " +:+ key)
               (ParseInt (map_get values bucketFieldLastRefillUnixMs)) in
  Ok (tokens, ms).

(** The state [readBucketState] makes of the reply to [HGETALL]. *)
Definition bucket_state (key : string) (cfg : Config) (now : Time)
    (values : gmap string string) : result error State :=
  if bool_decide (values = ∅) then Ok (mkState cfg.(Capacity) now)
  else
    let? p := parse_bucket key values in
    Ok (mkState p.1 (time_UTC (of_UnixMilli p.2))).

Definition readBucketState (key : string) (cfg : Config) (now : Time) (n : net D)
    : result error State * net D :=
  let '(r, n) := query (fun d => hash_view d key) n in
  (let? values := r in bucket_state key cfg now values, n).

(** The transaction that stores a decision. *)
Definition consume_cmds (key : string) (decision : Decision) : list redis_cmd :=
  [ HSet key (<[bucketFieldTokensRemaining := decision.(NewState).(TokensRemaining)]>
             {[bucketFieldLastRefillUnixMs := time_UnixMilli decision.(NewState).(LastRefillAt)]});
    Expire key decision.(BucketTTL);
    HIncrBy summaryMetricsKey (summaryField decision.(Allowed)) 1 ].

(** The body run under [WATCH]. *)
Definition consume_tx (key : string) (cfg : Config) (cost : Z) (now : Time)
    (watched : Z) (n : net D) : result error Decision * net D :=
  let '(r, n) := readBucketState key cfg now n in
  match (let? state := r in Apply now state cfg cost) with
  | Err e => (Err e, n)
  | Ok decision =>
      let '(r, n) := redis_exec key watched (consume_cmds key decision) n in
      (let? _ := r in Ok decision, n)
  end.

Fixpoint consume_attempts (attempts : nat) (key : string) (cfg : Config) (cost : Z)
    (now : Time) (n : net D) : result error Decision * net D :=
  match attempts with
  | O => (Err ErrBucketContention, n)
  | S attempts =>
      match redis_Watch key (consume_tx key cfg cost now) n with
      | (Ok decision, n) => (Ok decision, n)
      | (Err err, n) =>
          if errors_Is err redis_TxFailedErr
          then consume_attempts attempts key cfg cost now n
          else (Err (Wrapf ("consume bucket " +:+ key) err), n)
      end
  end.

Definition Consume (s : BucketStore) (ref : BucketRef) (cfg : Config) (cost : Z) (now : Time)
    : net D → result error Decision * net D :=
  consume_attempts (Z.to_nat s.(maxRetries)) (bucketKey ref) cfg cost (time_UTC now).

Definition GetBucketSnapshot (ref : BucketRef) (n : net D)
    : result error (option BucketSnapshot) * net D :=
  let key := bucketKey ref in
  let '(r, n) := query (fun d => hash_view d key) n in
  (let? values := r in
   if bool_decide (values = ∅) then Ok None
   else
     let? p := parse_bucket key values in
     Ok (Some (mkBucketSnapshot key p.1 p.2)), n).

Definition GetSummaryMetrics (n : net D) : result error SummaryMetrics * net D :=
  let '(r, n) := query (fun d => hash_view d summaryMetricsKey) n in
  (let? values := r in
   Ok (mkSummaryMetrics (parseIntOrZero (map_get values summaryAllowedField))
         (parseIntOrZero (map_get values summaryBlockedField))), n).
End Store.
