(* ===== verification/BucketStoreSpec.v ===== *)
(** * What the bucket store promises

    One [Consume] is one atomic step on the stored bucket, whatever the other
    clients and the network do; what it stores is what the next one reads; a
    run of them is a run of the token bucket; and expiry is invisible. *)
From S2P Require Import Prelude GoBase Ids TokenBucket TokenBucketFacts TokenBucketSpec.
From S2P Require Import TokenBucketRuns Redis BucketStore.

(** ** Keys *)

Section Keys.
Context `{UuidLaws}.

Definition ref_ok (r : BucketRef) : Prop :=
  tail_ok r.(ref_ScopeType) r.(ref_ScopeIdentifier) r.(ref_RoutePattern).

(** One bucket per key.  Two references share a Redis key only if they are
    the same reference: scopes, API keys and routes never collide. *)
Theorem bucketKey_inj r1 r2 :
  ref_ok r1 → ref_ok r2 → bucketKey r1 = bucketKey r2 → r1 = r2.
Proof.
  intros H1 H2 Heq. apply (inj (String.append "ratelimit:bucket:")) in Heq.
  destruct (scope_tail_inj _ _ _ _ _ _ H1 H2 Heq) as (? & ? & ?).
  destruct r1, r2; simpl in *; congruence.
Qed.

Lemma bucketKey_not_summary r : bucketKey r ≠ summaryMetricsKey.
Proof. unfold bucketKey, bucketPrefix, summaryMetricsKey. discriminate. Qed.
End Keys.

(** ** Atomicity *)

Section Atomic.
Context {D : Type} `{RL : RedisLaws D} `{UT : UuidText}.

Lemma consume_tx_evolves key cfg cost now watched (n n' : net D) r :
  well_behaved n → consume_tx key cfg cost now watched n = (r, n') →
  evolves n.(server) n'.(server) ∧ well_behaved n'.
Proof.
  intros Hn. unfold consume_tx, readBucketState.
  destruct (query _ n) as [r1 n1] eqn:Hq. apply query_evolves in Hq as [He Hn1]; [|done].
  destruct (let? state := _ in _) as [d|e]; [|by intros [= _ <-]].
  destruct (redis_exec _ _ _ _) as [r2 n2] eqn:Hx. intros [= _ <-].
  apply redis_exec_evolves in Hx as [Hx ?]; [|done]. split; [by transitivity (server n1)|done].
Qed.

Lemma watch_evolves key cfg cost now (n n' : net D) r :
  well_behaved n → redis_Watch key (consume_tx key cfg cost now) n = (r, n') →
  evolves n.(server) n'.(server) ∧ well_behaved n'.
Proof.
  intros Hn. unfold redis_Watch. destruct (query _ n) as [[st|e] n1] eqn:Hq;
    apply query_evolves in Hq as [He Hn1]; auto; [|by intros [= _ <-]].
  intros Hc. apply consume_tx_evolves in Hc as [? ?]; [|done].
  split; [by transitivity (server n1)|done].
Qed.

(** A successful attempt acted on one version of the key: the one it read. *)
Lemma watch_atomic key cfg cost now (n n' : net D) d :
  well_behaved n → redis_Watch key (consume_tx key cfg cost now) n = (Ok d, n') →
  ∃ D0 s, evolves n.(server) D0 ∧ bucket_state key cfg now (hash_view D0 key) = Ok s ∧
    Apply now s cfg cost = Ok d ∧ n'.(server) = exec_cmds (consume_cmds key d) D0.
Proof.
  intros Hn. unfold redis_Watch.
  destruct (query _ n) as [[st|e] n1] eqn:Hq1; [|done].
  apply query_Ok in Hq1 as (He1 & -> & Hn1); [|done].
  unfold consume_tx, readBucketState.
  destruct (query _ n1) as [[values|e] n2] eqn:Hq2; [|done].
  apply query_Ok in Hq2 as (He2 & -> & Hn2); [|done]. cbn [res_bind].
  destruct (bucket_state _ _ _ _) as [s|e] eqn:Hs; [|done]. cbn [res_bind].
  destruct (Apply now s cfg cost) as [d'|e] eqn:Ha; [|done].
  destruct (redis_exec _ _ _ n2) as [[[]|e] n3] eqn:Hx; [|done]. cbn [res_bind].
  intros [= <- <-]. apply redis_exec_Ok in Hx as (D0 & He3 & Hst & Hd & _); [|done].
  exists D0, s. split_and!; auto.
  - transitivity (server n1); [done|]. by transitivity (server n2).
  - destruct (He2 key) as [? _], (He3 key) as [? Hsame].
    destruct Hsame as [Hh _]; [lia|]. by rewrite Hh.
Qed.

(** C9: [Consume] is one atomic step.  Whatever other clients write between
    its round trips and whichever of its attempts fail, when it returns a
    decision there is one instant of the server at which that decision is what
    [Apply] makes of the stored bucket, and the server then holds exactly the
    decision's own writes on top of that instant: no concurrent update is lost
    or overwritten. *)
Theorem Consume_atomic store ref cfg cost now (n n' : net D) d :
  well_behaved n → Consume store ref cfg cost now n = (Ok d, n') →
  ∃ D0 s, evolves n.(server) D0 ∧
    bucket_state (bucketKey ref) cfg now (hash_view D0 (bucketKey ref)) = Ok s ∧
    Apply now s cfg cost = Ok d ∧
    n'.(server) = exec_cmds (consume_cmds (bucketKey ref) d) D0.
Proof.
  unfold Consume, time_UTC. generalize (Z.to_nat (maxRetries store)) as k. intros k.
  revert n. induction k as [|k IH]; intros n Hn; [done|]. cbn [consume_attempts].
  destruct (redis_Watch _ _ n) as [[d'|e] n1] eqn:Hw.
  - intros [= <- <-]. by apply watch_atomic in Hw.
  - destruct (errors_Is e redis_TxFailedErr); [|done]. intros Hr.
    apply watch_evolves in Hw as [He Hn1]; [|done].
    destruct (IH n1 Hn1 Hr) as (D0 & s & He0 & ?). exists D0, s.
    split; [by transitivity (server n1)|done].
Qed.

(** ** A quiet connection *)

Lemma Consume_quiet_eq store ref cfg cost now (d : D) :
  0 < store.(maxRetries) →
  let key := bucketKey ref in
  (∀ e, (let? s := bucket_state key cfg now (hash_view d key) in Apply now s cfg cost) = Err e →
     errors_Is e redis_TxFailedErr = false) →
  Consume store ref cfg cost now (quiet d) =
  match (let? s := bucket_state key cfg now (hash_view d key) in Apply now s cfg cost) with
  | Ok dec => (Ok dec, quiet (exec_cmds (consume_cmds key dec) d))
  | Err e => (Err (Wrapf ("consume bucket " +:+ key) e), quiet d)
  end.
Proof.
  intros Hm key Herr. unfold Consume, time_UTC.
  destruct (Z.to_nat (maxRetries store)) as [|k] eqn:Hk; [lia|]. cbn [consume_attempts].
  unfold redis_Watch. rewrite query_quiet. unfold consume_tx, readBucketState.
  rewrite query_quiet. cbn [res_bind]. fold key. unfold time_UTC in *.
  destruct (let? s := _ in _) as [dec|e] eqn:Hd.
  - by rewrite redis_exec_quiet.
  - by rewrite Herr.
Qed.

Lemma Apply_err_not_TxFailed now s cfg cost e :
  Apply now s cfg cost = Err e → errors_Is e redis_TxFailedErr = false.
Proof.
  unfold Apply. destruct (validateConfig cfg) eqn:Hv; simpl.
  - case_match; [|done]. by intros [= <-].
  - intros [= <-]. unfold validateConfig in Hv. repeat case_match; by simplify_eq.
Qed.
End Atomic.

(** ** What is stored *)

Section Stored.
Context {D : Type} `{RL : RedisLaws D}.

(** A state the store can hold: its numbers are [int64]s and its refill
    instant is a whole number of milliseconds. *)
Record storable (s : State) : Prop := {
  st_tokens : in_int64 s.(TokensRemaining);
  st_aligned : (Millisecond | s.(LastRefillAt));
  st_ms : in_int64 (s.(LastRefillAt) / Millisecond)
}.

(** The key holds the state [s]. *)
Record holds (d : D) (key : string) (s : State) : Prop := {
  holds_type : string_view d key = None;
  holds_tokens : hash_view d key !! bucketFieldTokensRemaining =
    Some (FormatInt s.(TokensRemaining));
  holds_last : hash_view d key !! bucketFieldLastRefillUnixMs =
    Some (FormatInt (s.(LastRefillAt) / Millisecond))
}.

Definition counter (d : D) (field : string) (z : Z) : Prop :=
  hash_view d summaryMetricsKey !! field = Some (FormatInt z) ∨
  (hash_view d summaryMetricsKey !! field = None ∧ z = 0).

Record counters (d : D) (allowed blocked : Z) : Prop := {
  cnt_type : string_view d summaryMetricsKey = None;
  cnt_allowed : counter d summaryAllowedField allowed;
  cnt_blocked : counter d summaryBlockedField blocked
}.

Lemma parse_bucket_fields key values tok ms :
  in_int64 tok → in_int64 ms →
  values !! bucketFieldTokensRemaining = Some (FormatInt tok) →
  values !! bucketFieldLastRefillUnixMs = Some (FormatInt ms) →
  parse_bucket key values = Ok (tok, ms).
Proof.
  intros Ht Hm H1 H2. unfold parse_bucket, map_get. rewrite H1, H2. cbn [from_option id].
  unfold wrap_err. by rewrite !ParseInt_FormatInt.
Qed.

Lemma holds_state d key s cfg now :
  storable s → holds d key s → bucket_state key cfg now (hash_view d key) = Ok s.
Proof.
  intros [Ht Ha Hm] [_ H1 H2]. unfold bucket_state.
  rewrite bool_decide_eq_false_2 by (intros He; by rewrite He, lookup_empty in H1).
  rewrite (parse_bucket_fields _ _ s.(TokensRemaining) (s.(LastRefillAt) / Millisecond))
    by done. cbn [res_bind fst snd]. unfold time_UTC.
  rewrite <- (wrap64_id _ Hm). change (wrap64 _) with (time_UnixMilli s.(LastRefillAt)).
  rewrite of_UnixMilli_UnixMilli by done. by destruct s.
Qed.

Lemma absent_state d key cfg now :
  absent d key → bucket_state key cfg now (hash_view d key) = Ok (mkState cfg.(Capacity) now).
Proof. intros [-> _]. done. Qed.

Definition stored_fields (s : State) : gmap string Z :=
  <[bucketFieldTokensRemaining := s.(TokensRemaining)]>
    {[bucketFieldLastRefillUnixMs := time_UnixMilli s.(LastRefillAt)]}.

(** The effect of the transaction on the bucket's own key. *)
Lemma consume_key key dec d :
  key ≠ summaryMetricsKey → string_view d key = None → Second ≤ dec.(BucketTTL) →
  let d' := exec_cmds (consume_cmds key dec) d in
  hash_view d' key = (FormatInt <$> stored_fields dec.(NewState)) ∪ hash_view d key ∧
  string_view d' key = None ∧
  ∃ p, ttl_view d' key = Some p ∧ dec.(BucketTTL) - Second < p ≤ dec.(BucketTTL).
Proof.
  intros Hk Hs Httl d'. subst d'. unfold consume_cmds, exec_cmds; cbn [foldl].
  change (<[bucketFieldTokensRemaining:=_]> _) with (stored_fields dec.(NewState)).
  set (d1 := run_cmd (HSet _ _) d). set (d2 := run_cmd (Expire _ _) d1).
  destruct (run_hset key (stored_fields dec.(NewState)) d) as [Hh1 Hs1]; [|done|];
    [apply insert_non_empty|]. fold d1 in Hh1, Hs1.
  destruct (run_expire_later key dec.(BucketTTL) d1 Httl) as [[Hh2 Hs2] Ht2]. fold d2 in Hh2, Hs2, Ht2.
  destruct (run_frame (HIncrBy summaryMetricsKey (summaryField (Allowed dec)) 1) d2 key)
    as ([Hh3 Hs3] & Ht3 & _); [by apply not_in_one|].
  rewrite Hh3, Hs3, Ht3, Hh2, Hs2, Hs1, Hh1. split_and!; try done.
  apply Ht2. unfold absent. rewrite Hh1. intros [He _].
  apply (f_equal (.!! bucketFieldTokensRemaining)) in He. revert He.
  unfold stored_fields. rewrite lookup_union, lookup_fmap, lookup_insert_eq, lookup_empty.
  simpl. by destruct (hash_view d key !! _).
Qed.

Lemma consume_holds key dec d :
  key ≠ summaryMetricsKey → string_view d key = None → Second ≤ dec.(BucketTTL) →
  in_int64 (dec.(NewState).(LastRefillAt) / Millisecond) →
  holds (exec_cmds (consume_cmds key dec) d) key dec.(NewState).
Proof.
  intros Hk Hs Httl Hms. destruct (consume_key key dec d Hk Hs Httl) as (Hh & Hs' & _).
  split; [done| |]; rewrite Hh, lookup_union, lookup_fmap; unfold stored_fields.
  - rewrite lookup_insert_eq. simpl. by destruct (hash_view d key !! _).
  - rewrite lookup_insert_ne, lookup_singleton_eq by done. simpl.
    unfold time_UnixMilli. rewrite wrap64_id by done. by destruct (hash_view d key !! _).
Qed.

(** The effect on the summary counters. *)
Lemma consume_counters key dec d a b :
  key ≠ summaryMetricsKey → counters d a b →
  in_int64 a → in_int64 b → in_int64 (a + 1) → in_int64 (b + 1) →
  counters (exec_cmds (consume_cmds key dec) d)
    (if dec.(Allowed) then a + 1 else a) (if dec.(Allowed) then b else b + 1).
Proof.
  intros Hk [Hs Ha Hb] Hia Hib Hia' Hib'.
  unfold consume_cmds, exec_cmds; cbn [foldl].
  change (<[bucketFieldTokensRemaining:=_]> _) with (stored_fields dec.(NewState)).
  set (d1 := run_cmd (HSet _ _) d). set (d2 := run_cmd (Expire _ _) d1).
  destruct (run_frame (HSet key (stored_fields dec.(NewState))) d summaryMetricsKey)
    as ([Hh1 Hs1] & _ & _); [by apply not_in_one|].
  destruct (run_frame (Expire key dec.(BucketTTL)) d1 summaryMetricsKey)
    as ([Hh2 Hs2] & _ & _); [by apply not_in_one|].
  fold d1 in Hh1, Hs1. fold d2 in Hh2, Hs2.
  assert (Hs' : string_view d2 summaryMetricsKey = None) by congruence.
  assert (Hh' : hash_view d2 summaryMetricsKey = hash_view d summaryMetricsKey) by congruence.
  assert (Hne : summaryAllowedField ≠ summaryBlockedField) by done.
  unfold counter in *. rewrite <- Hh' in Ha, Hb.
  destruct (Allowed dec); cbn [summaryField].
  - destruct (run_hincrby summaryMetricsKey summaryAllowedField 1 d2 a) as [Hh Hs3]; auto.
    split; unfold counter; rewrite ?Hh; auto.
    + left. apply lookup_insert_eq.
    + by rewrite lookup_insert_ne.
  - destruct (run_hincrby summaryMetricsKey summaryBlockedField 1 d2 b) as [Hh Hs3]; auto.
    split; unfold counter; rewrite ?Hh; auto.
    + by rewrite lookup_insert_ne.
    + left. apply lookup_insert_eq.
Qed.
End Stored.
