(* ===== verification/BucketStoreRuns.v ===== *)
(** * Runs of the bucket store

    Requests that reach the store one after the other are served exactly as the
    token bucket serves them, through the text in Redis, the expiry of idle
    keys and the counters; and the one way this breaks, a time-to-live that
    does not fit a [time.Duration]. *)
From S2P Require Import Prelude GoBase Ids TokenBucket TokenBucketFacts TokenBucketSpec.
From S2P Require Import TokenBucketRuns Redis BucketStore BucketStoreSpec.

Section Runs.
Context {D : Type} `{RL : RedisLaws D} `{UT : UuidText}.

(** Requests for one bucket, each completed before the next. *)
Fixpoint consume_run (store : BucketStore) (ref : BucketRef) (cfg : Config)
    (reqs : list (Time * Z)) (n : net D) : list (result error Decision) * net D :=
  match reqs with
  | [] => ([], n)
  | (now, cost) :: reqs =>
      let '(r, n) := Consume store ref cfg cost now n in
      let '(rs, n) := consume_run store ref cfg reqs n in
      (r :: rs, n)
  end.

Definition count_allowed (ds : list Decision) : Z :=
  foldr (fun d z => (if d.(Allowed) then 1 else 0) + z) 0 ds.
Definition count_blocked (ds : list Decision) : Z :=
  foldr (fun d z => (if d.(Allowed) then 0 else 1) + z) 0 ds.

(** The bucket the run starts from: stored, or, when there is no key, the full
    bucket made up for the first request. *)
Definition opens (d : D) (key : string) (cfg : Config) (reqs : list (Time * Z)) (s : State) : Prop :=
  holds d key s ∨
  (absent d key ∧ ∃ now cost rest, reqs = (now, cost) :: rest ∧ s = mkState cfg.(Capacity) now).

(** Policies give whole seconds; Redis keeps milliseconds. *)
Record store_cfg (cfg : Config) : Prop := {
  sc_second : Second ≤ cfg.(RefillInterval);
  sc_aligned : (Millisecond | cfg.(RefillInterval))
}.

Lemma refill_gap cfg now s cost :
  valid cfg → now < (exact_decision cfg now s cost).(NewState).(LastRefillAt) + cfg.(RefillInterval).
Proof.
  intros Hv. destruct (decide (s.(LastRefillAt) ≤ now)) as [Hle|Hgt].
  - by destruct (exact_decision_last cfg now s cost Hv Hle).
  - unfold exact_decision, exact_refill; simpl. destruct Hv. rewrite intervals_past by (done || lia).
    lia.
Qed.

Lemma decision_ttl cfg now s cost :
  cfg_fits cfg → well_formed cfg s → 0 < cost →
  cfg.(RefillInterval) ≤ (exact_decision cfg now s cost).(BucketTTL).
Proof.
  intros Hf Hwf Hc. pose proof (fits_valid _ Hf) as Hv.
  pose proof (exact_decision_state cfg now s cost Hv Hwf Hc) as Hwf'.
  change (BucketTTL (exact_decision cfg now s cost)) with
    (bucketTTL now (exact_decision cfg now s cost).(NewState) cfg).
  rewrite (bucketTTL_exact cfg Hf) by (auto using refill_gap).
  rewrite durationUntilFull_tokens.
  destruct (durationUntilTokens_nonneg cfg Hf _ cfg.(Capacity) now Hwf'); auto using refill_gap; lia.
Qed.

Lemma next_storable cfg lo hi s now cost reqs :
  in_horizon cfg lo hi s ((now, cost) :: reqs) → hi ≤ max_int64 →
  (Millisecond | cfg.(RefillInterval)) → storable s →
  storable (exact_decision cfg now s cost).(NewState).
Proof.
  intros Hh Hhi HI [Ht Ha Hm]. destruct (horizon_step _ _ _ _ _ _ _ Hh) as [_ Hh'].
  destruct Hh' as [Hf Hz _ [Hw1 Hw2] [Hl1 Hl2] _]. pose proof (fits_capacity _ Hf).
  split.
  - unfold in_int64, min_int64. lia.
  - apply Z.divide_add_r; [done|]. by apply Z.divide_mul_r.
  - unfold in_int64, min_int64, max_int64, Millisecond, zero_Time in *.
    pose proof (Z.div_le_mono (-62135596800 * 1000000000)
      (exact_decision cfg now s cost).(NewState).(LastRefillAt) 1000000).
    pose proof (Z.div_le_mono (exact_decision cfg now s cost).(NewState).(LastRefillAt)
      9223372036854775807 1000000).
    change (-62135596800 * 1000000000 / 1000000) with (-62135596800000) in *.
    change (9223372036854775807 / 1000000) with 9223372036854 in *. lia.
Qed.

Lemma opens_state d key cfg now cost reqs s :
  storable s → opens d key cfg ((now, cost) :: reqs) s →
  bucket_state key cfg now (hash_view d key) = Ok s ∧ string_view d key = None.
Proof.
  intros Hst [Hh|[Ha (now' & cost' & rest & [= <- <- <-] & ->)]].
  - split; [by apply holds_state|apply Hh].
  - split; [by apply absent_state|apply Ha].
Qed.

(** One request of a run: the decision, and the server it leaves. *)
Lemma consume_step_exact store ref cfg lo hi s now cost reqs d a b :
  0 < store.(maxRetries) → store_cfg cfg →
  in_horizon cfg lo hi s ((now, cost) :: reqs) → hi ≤ max_int64 → storable s →
  opens d (bucketKey ref) cfg ((now, cost) :: reqs) s → counters d a b →
  in_int64 a → in_int64 b → in_int64 (a + 1) → in_int64 (b + 1) →
  let dec := exact_decision cfg now s cost in
  let d' := exec_cmds (consume_cmds (bucketKey ref) dec) d in
  Consume store ref cfg cost now (quiet d) = (Ok dec, quiet d') ∧
  storable dec.(NewState) ∧ holds d' (bucketKey ref) dec.(NewState) ∧
  counters d' (if dec.(Allowed) then a + 1 else a) (if dec.(Allowed) then b else b + 1) ∧
  ∃ p, ttl_view d' (bucketKey ref) = Some p ∧ dec.(BucketTTL) - Second < p.
Proof.
  intros Hmax [Hsec Hal] Hh Hhi Hst Ho Hcnt Ha Hb Ha' Hb' dec d'.
  destruct (opens_state _ _ _ _ _ _ _ Hst Ho) as [Hs Hty].
  destruct (horizon_step _ _ _ _ _ _ _ Hh) as [Hap Hh'].
  pose proof (next_storable _ _ _ _ _ _ _ Hh Hhi Hal Hst) as Hst'. fold dec in Hap, Hst'.
  assert (Httl : Second ≤ dec.(BucketTTL)).
  { destruct Hh as [Hf _ _ Hwf _ Hr]. apply Forall_cons_1 in Hr as [[_ Hc] _].
    etransitivity; [exact Hsec|]. apply decision_ttl; auto. simpl in Hc. lia. }
  rewrite Consume_quiet_eq; [|done|]; rewrite Hs; cbn [res_bind]; rewrite Hap; [|done].
  split_and!; [done|done| | |].
  - apply consume_holds; auto using bucketKey_not_summary. apply Hst'.
  - apply consume_counters; auto using bucketKey_not_summary.
  - destruct (consume_key (bucketKey ref) dec d) as (_ & _ & p & Hp & Hp' & _);
      auto using bucketKey_not_summary. eauto.
Qed.

Lemma consume_step store ref cfg lo hi s now cost reqs d a b :
  0 < store.(maxRetries) → store_cfg cfg →
  in_horizon cfg lo hi s ((now, cost) :: reqs) → hi ≤ max_int64 → storable s →
  opens d (bucketKey ref) cfg ((now, cost) :: reqs) s → counters d a b →
  in_int64 a → in_int64 b → in_int64 (a + 1) → in_int64 (b + 1) →
  let dec := exact_decision cfg now s cost in
  ∃ d', Consume store ref cfg cost now (quiet d) = (Ok dec, quiet d') ∧
    storable dec.(NewState) ∧ holds d' (bucketKey ref) dec.(NewState) ∧
    counters d' (if dec.(Allowed) then a + 1 else a) (if dec.(Allowed) then b else b + 1) ∧
    ∃ p, ttl_view d' (bucketKey ref) = Some p ∧ dec.(BucketTTL) - Second < p.
Proof. intros. eexists. by eapply consume_step_exact. Qed.

Lemma consume_run_exact store ref cfg lo hi s reqs d a b :
  0 < store.(maxRetries) → store_cfg cfg →
  in_horizon cfg lo hi s reqs → hi ≤ max_int64 → storable s →
  opens d (bucketKey ref) cfg reqs s → counters d a b →
  0 ≤ a → 0 ≤ b → a + b + Z.of_nat (length reqs) ≤ max_int64 →
  ∃ ds s' d', serve cfg s reqs = Ok (ds, s') ∧
    consume_run store ref cfg reqs (quiet d) = (map Ok ds, quiet d') ∧
    holds d' (bucketKey ref) s' ∧
    counters d' (a + count_allowed ds) (b + count_blocked ds).
Proof.
  intros Hmax Hsc. revert s d a b. induction reqs as [|[now cost] reqs IH];
    intros s d a b Hh Hhi Hst Ho Hcnt Ha Hb Hlen; cbn [length] in Hlen.
  { exists [], s, d. simpl. rewrite !Z.add_0_r. split_and!; try done.
    by destruct Ho as [|(_ & ? & ? & ? & ? & _)]. }
  destruct (horizon_step _ _ _ _ _ _ _ Hh) as [Hap Hh'].
  destruct (consume_step store ref cfg lo hi s now cost reqs d a b)
    as (d1 & Hc & Hst1 & Hh1 & Hcnt1 & _);
    auto; try (unfold in_int64, min_int64, max_int64 in *; lia).
  set (dec := exact_decision cfg now s cost) in *.
  destruct (IH dec.(NewState) d1 _ _ Hh' Hhi Hst1 (or_introl Hh1) Hcnt1)
    as (ds & s' & d' & Hsv & Hrun & Hd & Hcnt'); try (destruct (Allowed dec); lia).
  exists (dec :: ds), s', d'. cbn [serve consume_run]. rewrite Hap, Hc. cbn [res_bind].
  rewrite Hsv, Hrun. split_and!; try done.
  cbn [count_allowed count_blocked foldr]. fold (count_allowed ds) (count_blocked ds).
  destruct (Allowed dec); by rewrite ?Z.add_assoc, ?Z.add_0_r in *.
Qed.

(** The store is the token bucket.  On a quiet connection a run of
    [Consume] calls returns the decisions that [Apply] takes when its own
    states are threaded through, whether the run starts from a stored bucket
    or from a missing key; the key then holds the final state, the counters
    have counted every request once, on its own side, and what was granted is
    within the configured rate. *)
Theorem consume_run_serves store ref cfg lo hi s reqs d a b :
  0 < store.(maxRetries) → store_cfg cfg →
  in_horizon cfg lo hi s reqs → hi ≤ max_int64 → storable s →
  opens d (bucketKey ref) cfg reqs s → counters d a b →
  0 ≤ a → 0 ≤ b → a + b + Z.of_nat (length reqs) ≤ max_int64 →
  ∃ ds s' d', serve cfg s reqs = Ok (ds, s') ∧
    consume_run store ref cfg reqs (quiet d) = (map Ok ds, quiet d') ∧
    holds d' (bucketKey ref) s' ∧
    counters d' (a + count_allowed ds) (b + count_blocked ds) ∧
    granted reqs (map Allowed ds) ≤
      s.(TokensRemaining) +
      (hi - s.(LastRefillAt)) / cfg.(RefillInterval) * cfg.(RefillTokens).
Proof.
  intros Hmax Hsc Hh Hhi Hst Ho Hcnt Ha Hb Hlen.
  destruct (consume_run_exact store ref cfg lo hi s reqs d a b) as (ds & s' & d' & Hs & Hr & Hd & Hc);
    auto. exists ds, s', d'. split_and!; auto.
  destruct (granted_step _ _ _ _ _ _ _ Hh Hs) as (k & Hk & Hl & Hlast & [Hw _] & Hg).
  destruct Hh as [[[Hcap HR HI] _ _] _ _ _ _ _].
  assert (k ≤ (hi - s.(LastRefillAt)) / cfg.(RefillInterval)) by
    (apply Z.div_le_lower_bound; lia). nia.
Qed.

(** Expiry is invisible.  Serve a request, leave the bucket idle for any
    time [t], serve another: whether or not Redis has dropped the key in the
    meantime, the second request gets the verdict, remaining count and limit
    that the token bucket gives from the first one's own state. *)
Theorem Consume_after_expiry store ref cfg lo hi s now cost t cost' d a b :
  0 < store.(maxRetries) → store_cfg cfg →
  in_horizon cfg lo hi s [(now, cost); (now + t, cost')] → hi ≤ max_int64 → storable s →
  s.(LastRefillAt) ≤ now → 0 ≤ t →
  opens d (bucketKey ref) cfg [(now, cost); (now + t, cost')] s → counters d a b →
  0 ≤ a < max_int64 → 0 ≤ b < max_int64 →
  ∃ dec d1 dec1 dec2 d2,
    Consume store ref cfg cost now (quiet d) = (Ok dec, quiet d1) ∧
    Consume store ref cfg cost' (now + t) (quiet (elapse t d1)) = (Ok dec2, quiet d2) ∧
    Apply (now + t) dec.(NewState) cfg cost' = Ok dec1 ∧
    dec2.(Allowed) = dec1.(Allowed) ∧ dec2.(Remaining) = dec1.(Remaining) ∧
    dec2.(Limit) = dec1.(Limit).
Proof.
  intros Hmax Hsc Hh Hhi Hst Hlast Ht Ho Hcnt Ha Hb.
  destruct (horizon_step _ _ _ _ _ _ _ Hh) as [_ Hh'].
  destruct (horizon_step _ _ _ _ _ _ _ Hh') as [Hap' _].
  destruct (consume_step store ref cfg lo hi s now cost [(now + t, cost')] d a b)
    as (d1 & Hc & Hst1 & Hh1 & _ & p & Hp & Hpb);
    eauto; try (unfold in_int64, min_int64, max_int64 in *; lia).
  set (dec := exact_decision cfg now s cost) in *. set (s1 := dec.(NewState)) in *.
  assert (Hc' : 0 < cost' ≤ max_int64) by (by apply hz_reqs, Forall_cons_1 in Hh' as [[_ ?] _]).
  pose proof (hz_fits _ _ _ _ _ Hh) as Hf. pose proof (fits_valid _ Hf) as Hv.
  assert (Hnext : ∀ sn dn, Apply (now + t) sn cfg cost' = Ok dn →
    bucket_state (bucketKey ref) cfg (now + t) (hash_view (elapse t d1) (bucketKey ref)) = Ok sn →
    Consume store ref cfg cost' (now + t) (quiet (elapse t d1)) =
      (Ok dn, quiet (exec_cmds (consume_cmds (bucketKey ref) dn) (elapse t d1)))).
  { intros sn dn Hdn Hsn. rewrite Consume_quiet_eq; [|done|]; rewrite Hsn; cbn [res_bind];
      by rewrite Hdn. }
  exists dec, d1, (exact_decision cfg (now + t) s1 cost').
  destruct (decide (t < p)) as [Hlive|Hgone].
  - destruct (elapse_live t d1 (bucketKey ref) Ht) as [[Hhv _] _].
    { intros p' Hp'. rewrite Hp in Hp'. by injection Hp' as <-. }
    do 2 eexists. split_and!; [done| |done|done..].
    apply (Hnext s1); [done|]. rewrite Hhv. by apply holds_state.
  - exists (exact_decision cfg (now + t) (fresh_state cfg (now + t)) cost'). eexists.
    split_and!; [done| |done|..].
    { apply (Hnext (fresh_state cfg (now + t))); [by apply Apply_fresh|].
      apply absent_state. apply (elapse_gone t d1 _ p); [done|lia]. }
    all: try done.
    all: assert (Hfull : level cfg s1 (now + t) = cfg.(Capacity)) by
      (destruct (exact_decision_last cfg now s cost Hv Hlast) as [[Hl1 Hl2] Hl3];
       fold dec in Hl1, Hl2, Hl3; fold s1 in Hl1, Hl2, Hl3; destruct Hsc as [Hsec _];
       apply (ttl_covers_refill cfg Hf now s1 _ Second); unfold Second in *;
         [apply Hh'|lia|lia|lia|]; change (bucketTTL now s1 cfg) with dec.(BucketTTL); lia).
    all: unfold exact_decision, exact_refill; cbn [Allowed Remaining TokensRemaining];
      by rewrite Hfull, level_fresh.
Qed.
End Runs.

(** ** When the time to live does not fit

    Five tokens, one more every 2147483647 seconds: a policy that validation
    accepts.  After two requests of cost 2 the bucket is four refills from
    full, and four intervals plus the extra one wrap around to a negative TTL. *)
Definition overflow_cfg : Config := mkConfig 5 1 (2147483647 * Second).
Definition overflow_now : Time := 1700000000 * Second.

Section Overflow.
Context {D : Type} `{RL : RedisLaws D} `{UT : UuidText}.

Lemma consume_gone key dec d :
  key ≠ summaryMetricsKey → string_view d key = None → dec.(BucketTTL) ≤ 0 →
  absent (exec_cmds (consume_cmds key dec) d) key.
Proof.
  intros Hk Hs Httl. unfold consume_cmds, exec_cmds; cbn [foldl].
  set (d1 := run_cmd (HSet _ _) d). set (d2 := run_cmd (Expire _ _) d1).
  pose proof (run_expire_now key dec.(BucketTTL) d1 Httl) as Habs. fold d2 in Habs.
  destruct (run_frame (HIncrBy summaryMetricsKey (summaryField (Allowed dec)) 1) d2 key)
    as (Hsame & _); [by apply not_in_one|]. by apply (same_key_absent key d2).
Qed.

(** C35: the limit can be bypassed.  With this configuration three requests of
    cost 2 at one instant are all allowed, six tokens out of a bucket of five:
    the second request's TTL is negative, Redis drops the key, and the third
    request finds a full bucket. *)
Theorem ttl_overflow_bypass store ref d :
  0 < store.(maxRetries) → absent d (bucketKey ref) →
  ∃ decs d',
    consume_run store ref overflow_cfg
      [(overflow_now, 2); (overflow_now, 2); (overflow_now, 2)] (quiet d) =
      (map Ok decs, quiet d') ∧
    map Allowed decs = [true; true; true] ∧
    overflow_cfg.(Capacity) <
      granted [(overflow_now, 2); (overflow_now, 2); (overflow_now, 2)] (map Allowed decs).
Proof.
  intros Hmax Ha. set (key := bucketKey ref) in *.
  assert (Hk : key ≠ summaryMetricsKey) by apply bucketKey_not_summary.
  assert (Hstep : ∀ d s dec, bucket_state key overflow_cfg overflow_now (hash_view d key) = Ok s →
    Apply overflow_now s overflow_cfg 2 = Ok dec →
    Consume store ref overflow_cfg 2 overflow_now (quiet d) =
      (Ok dec, quiet (exec_cmds (consume_cmds key dec) d))).
  { intros d0 s dec Hs Hd. rewrite Consume_quiet_eq; [|done|]; fold key; rewrite Hs;
      cbn [res_bind]; by rewrite Hd. }
  destruct (Apply overflow_now (mkState 5 overflow_now) overflow_cfg 2) as [dec1|] eqn:H1;
    [|by vm_compute in H1].
  destruct (Apply overflow_now (mkState 3 overflow_now) overflow_cfg 2) as [dec2|] eqn:H2;
    [|by vm_compute in H2].
  assert (Hh : holds (exec_cmds (consume_cmds key dec1) d) key (mkState 3 overflow_now)).
  { replace (mkState 3 overflow_now) with dec1.(NewState) by (vm_compute in H1; by injection H1 as <-).
    vm_compute in H1; injection H1 as <-.
    apply consume_holds; try done. apply Ha. }
  set (d1 := exec_cmds (consume_cmds key dec1) d) in *.
  assert (Hg : absent (exec_cmds (consume_cmds key dec2) d1) key).
  { apply consume_gone; [done|apply Hh|]. vm_compute in H2; by injection H2 as <-. }
  exists [dec1; dec2; dec1]. eexists. cbn [consume_run].
  rewrite (Hstep d (mkState 5 overflow_now) dec1); [|by apply (absent_state _ key overflow_cfg)|done]. fold d1.
  rewrite (Hstep d1 (mkState 3 overflow_now) dec2); [| |done].
  2: { apply holds_state; [|done]. split; [by vm_compute|by exists 1700000000000|by vm_compute]. }
  rewrite (Hstep _ (mkState 5 overflow_now) dec1); [|by apply (absent_state _ key overflow_cfg)|done].
  vm_compute in H1, H2. injection H1 as <-. injection H2 as <-. split_and!; done.
Qed.
End Overflow.
