(* ===== verification/BucketRace.v ===== *)
(** * Concurrent consumers

    Any number of service instances consume from one bucket at the same time.
    Each is a little state machine (watch, read and decide, commit or start
    over) and a schedule picks who moves.  The machine's steps are those of
    [Consume]; the theorems are about every schedule. *)
From S2P Require Import Prelude GoBase Ids TokenBucket TokenBucketFacts TokenBucketSpec.
From S2P Require Import TokenBucketRuns Redis BucketStore BucketStoreSpec BucketStoreRuns.

(** Where a client stands in [Consume]: the number of attempts that failed so
    far, the stamp it watches, the decision it is about to commit. *)
Inductive phase :=
| Start (failed : nat)
| Watched (failed : nat) (watched : Z)
| Decided (failed : nat) (watched : Z) (d : Decision)
| Served (d : Decision)
| Failed (e : error).

Section Race.
Context {D : Type} `{RL : RedisLaws D}.
Context (key : string) (cfg : Config) (maxAttempts : nat).

(** One round trip of a client whose request is [(now, cost)]. *)
Definition client_step (req : Time * Z) (d : D) (p : phase) : D * phase :=
  let '(now, cost) := req in
  match p with
  | Start f =>
      if decide (f < maxAttempts)%nat then (d, Watched f (stamp d key))
      else (d, Failed ErrBucketContention)
  | Watched f st =>
      match (let? s := bucket_state key cfg now (hash_view d key) in Apply now s cfg cost) with
      | Ok dec => (d, Decided f st dec)
      | Err e => (d, Failed (Wrapf ("consume bucket " +:+ key) e))
      end
  | Decided f st dec =>
      if stamp d key =? st then (exec_cmds (consume_cmds key dec) d, Served dec)
      else (d, Start (S f))
  | Served _ | Failed _ => (d, p)
  end.

Definition finished (p : phase) : bool :=
  match p with Served _ | Failed _ => true | _ => false end.

Record race := mkRace { race_db : D; race_clients : list phase }.

Section Requests.
Context (reqs : list (Time * Z)).

(** The scheduler lets client [i] move. *)
Definition race_move (i : nat) (r : race) : race :=
  match reqs !! i, r.(race_clients) !! i with
  | Some req, Some p =>
      let '(d, p') := client_step req r.(race_db) p in
      mkRace d (<[i := p']> r.(race_clients))
  | _, _ => r
  end.

Inductive race_step : race → race → Prop :=
| race_step_move i r p :
    r.(race_clients) !! i = Some p → finished p = false → race_step r (race_move i r).

Definition race_start (d : D) : race := mkRace d (replicate (length reqs) (Start 0)).

(** Everything a schedule can lead to. *)
Inductive reachable (d : D) : race → Prop :=
| reach_start : reachable d (race_start d)
| reach_step r r' : reachable d r → race_step r r' → reachable d r'.

Definition spent (req : Time * Z) (p : phase) : Z :=
  match p with Served d => if d.(Allowed) then req.2 else 0 | _ => 0 end.
Definition served_one (req : Time * Z) (p : phase) : Z :=
  match p with Served d => 1 | _ => 0 end.
Definition allowed_one (req : Time * Z) (p : phase) : Z :=
  match p with Served d => if d.(Allowed) then 1 else 0 | _ => 0 end.

(** Tokens granted, requests served and requests allowed so far. *)
Definition race_spent (r : race) : Z := sum_zip spent reqs r.(race_clients).
Definition race_served (r : race) : Z := sum_zip served_one reqs r.(race_clients).
Definition race_allowed (r : race) : Z := sum_zip allowed_one reqs r.(race_clients).
End Requests.
End Race.
Arguments mkRace {D}.
Arguments race_db {D}.
Arguments race_clients {D}.

(** ** The machine is [Consume] *)

Lemma parse_digits_err s acc e : parse_digits s acc = Err e → e = ErrSyntax ∨ e = ErrRange.
Proof.
  revert acc. induction s as [|c s IH]; intros acc; cbn [parse_digits]; [done|].
  destruct (digit_value c); [|intros [= <-]; auto].
  destruct (_ >? _); [intros [= <-]; auto|apply IH].
Qed.

Lemma ParseInt_err s e : ParseInt s = Err e → e = ErrSyntax ∨ e = ErrRange.
Proof.
  destruct s as [|c s]; [intros [= <-]; auto|]. rewrite ParseInt_unfold by done.
  destruct (strip_sign _) as [neg ds]. destruct (ParseUint ds) as [u|e'] eqn:Hp; simpl.
  - repeat case_match; intros [= <-]; auto.
  - intros [= <-]. destruct ds; [injection Hp as <-; auto|]. by eapply parse_digits_err.
Qed.

Lemma decide_err key cfg cost now values e :
  (let? s := bucket_state key cfg now values in Apply now s cfg cost) = Err e →
  errors_Is e redis_TxFailedErr = false.
Proof.
  destruct (bucket_state _ _ _ _) as [s|e'] eqn:Hb; cbn [res_bind].
  { apply Apply_err_not_TxFailed. }
  intros [= <-]. revert Hb. unfold bucket_state. case_bool_decide; [done|].
  unfold parse_bucket, wrap_err.
  destruct (ParseInt (map_get values bucketFieldTokensRemaining)) as [|e1] eqn:H1; cbn.
  - destruct (ParseInt (map_get values bucketFieldLastRefillUnixMs)) as [|e2] eqn:H2; cbn; [done|].
    apply ParseInt_err in H2 as [-> | ->]; by intros [= <-].
  - apply ParseInt_err in H1 as [-> | ->]; by intros [= <-].
Qed.

Section Machine.
Context {D : Type} `{RL : RedisLaws D} (key : string) (cfg : Config) (maxAttempts : nat).

Definition delivered (o : D → D) : round D := mkRound o Delivered.
Definition first_other (os : list (D → D)) (d : D) : D :=
  match os with [] => d | o :: _ => o d end.

Definition exhausted (p : phase) : bool :=
  match p with Start f => bool_decide (maxAttempts ≤ f)%nat | _ => false end.

(** A client alone with an environment: before each of its round trips the
    next of [os] changes the server ([os] exhausted: nothing does). *)
Fixpoint client_run (fuel : nat) (req : Time * Z) (os : list (D → D)) (d : D) (p : phase)
    : phase * D * list (D → D) :=
  match fuel with
  | O => (p, d, os)
  | S fuel =>
      if finished p then (p, d, os)
      else if exhausted p then (Failed ErrBucketContention, d, os)
      else
        let '(d, p) := client_step key cfg maxAttempts req (first_other os d) p in
        client_run fuel req (tail os) d p
  end.

Definition phase_result (p : phase) : result error Decision :=
  match p with
  | Served d => Ok d
  | Failed e => Err e
  | _ => Err (OpaqueError "still running")
  end.

Lemma call_delivered {A} (f : D → A * D) os d :
  call f (mkNet d (map delivered os)) =
  (Ok (f (first_other os d)).1, mkNet (f (first_other os d)).2 (map delivered (tail os))).
Proof. destruct os as [|o os]; unfold call; simpl; by destruct (f _). Qed.

Lemma client_run_finished fuel req os d p :
  finished p = true → client_run fuel req os d p = (p, d, os).
Proof. intros Hp. destruct fuel; simpl; [done|]. by rewrite Hp. Qed.

Lemma client_run_move fuel req os d p :
  finished p = false → exhausted p = false →
  client_run (S fuel) req os d p =
  let '(d', p') := client_step key cfg maxAttempts req (first_other os d) p in
  client_run fuel req (tail os) d' p'.
Proof. intros Hf He. cbn [client_run]. by rewrite Hf, He. Qed.

(** C24: [Consume] is the client machine.  Whatever the other clients do before
    each of its round trips, [Consume]'s loop of attempts ends exactly where
    the machine, moved one round trip at a time from its first phase, ends:
    same result, same server, same number of round trips; and three moves per
    attempt, and one to give up, are enough. *)
Theorem consume_is_machine k f now cost os d :
  (f + k = maxAttempts)%nat →
  consume_attempts k key cfg cost now (mkNet d (map delivered os)) =
  let '(p, d', os') := client_run (3 * k + 1) (now, cost) os d (Start f) in
  (phase_result p, mkNet d' (map delivered os')).
Proof.
  revert f os d. induction k as [|k IH]; intros f os d Hk.
  { simpl. rewrite bool_decide_eq_true_2 by lia. done. }
  replace (3 * S k + 1)%nat with (S (S (S (3 * k + 1)))) by lia.
  cbn [consume_attempts]. unfold redis_Watch, query. rewrite call_delivered. cbn [fst snd].
  set (d1 := first_other os d).
  rewrite client_run_move by (done || by apply bool_decide_eq_false_2; lia).
  unfold client_step at 1. rewrite decide_True by lia. fold d1.
  rewrite client_run_move by done.
  unfold consume_tx, readBucketState, query. rewrite call_delivered. cbn [fst snd res_bind].
  set (d2 := first_other (tail os) d1).
  unfold client_step at 1. fold d2.
  destruct (let? s := bucket_state key cfg now (hash_view d2 key) in _) as [dec|e] eqn:Hd.
  2: { rewrite (decide_err _ _ _ _ _ _ Hd). by rewrite client_run_finished. }
  rewrite client_run_move by done.
  unfold redis_exec. rewrite call_delivered.
  set (d3 := first_other (tail (tail os)) d2). unfold client_step at 1. fold d3.
  destruct (stamp d3 key =? stamp d1 key) eqn:Hst; cbn [fst snd res_bind].
  - by rewrite client_run_finished.
  - change (errors_Is redis_TxFailedErr redis_TxFailedErr) with true. cbn iota.
    rewrite (IH (S f)) by lia. done.
Qed.
End Machine.
