(* ===== verification/BucketRaceSpec.v ===== *)
(** * Every schedule of concurrent consumers

    A race of clients over one bucket is a serial run of the token bucket in
    the order of their commits; a client gives up only after as many others
    were served as it has attempts; every schedule ends. *)
From stdpp Require Import relations.
From S2P Require Import Prelude GoBase TokenBucket TokenBucketFacts TokenBucketSpec TokenBucketRuns Redis Ids.
From S2P Require Import BucketStore BucketStoreSpec BucketStoreRuns BucketRace.

(** ** Serial runs, one request longer *)

Lemma serve_snoc cfg s reqs now cost ds s1 dec :
  serve cfg s reqs = Ok (ds, s1) → Apply now s1 cfg cost = Ok dec →
  serve cfg s (reqs ++ [(now, cost)]) = Ok (ds ++ [dec], dec.(NewState)).
Proof.
  revert s ds. induction reqs as [|[t c] reqs IH]; intros s ds; cbn [serve app].
  - intros [= <- <-] Ha. by rewrite Ha.
  - destruct (Apply t s cfg c) as [d|]; cbn [res_bind]; [|done].
    destruct (serve cfg (NewState d) reqs) as [[ds1 s2]|] eqn:Hs; cbn [res_bind]; [|done].
    intros [= <- <-] Ha. by rewrite (IH _ _ Hs Ha).
Qed.

Lemma granted_snoc reqs oks now cost ok :
  length reqs = length oks →
  granted (reqs ++ [(now, cost)]) (oks ++ [ok]) = granted reqs oks + (if ok : bool then cost else 0).
Proof.
  revert oks. induction reqs as [|[t c] reqs IH]; intros [|o oks] Hl; simpl in *; try done.
  - lia.
  - rewrite IH by lia. lia.
Qed.

Lemma count_allowed_snoc ds d :
  count_allowed (ds ++ [d]) = count_allowed ds + (if d.(Allowed) then 1 else 0).
Proof. unfold count_allowed. induction ds as [|d' ds IH]; simpl in *; lia. Qed.

Lemma count_blocked_snoc ds d :
  count_blocked (ds ++ [d]) = count_blocked ds + (if d.(Allowed) then 0 else 1).
Proof. unfold count_blocked. induction ds as [|d' ds IH]; simpl in *; lia. Qed.

Lemma count_both ds : count_allowed ds + count_blocked ds = Z.of_nat (length ds).
Proof.
  unfold count_allowed, count_blocked. induction ds as [|d ds IH]; [done|].
  cbn [foldr length]. destruct (Allowed d); lia.
Qed.

Lemma count_allowed_nonneg ds : 0 ≤ count_allowed ds.
Proof. unfold count_allowed. induction ds as [|d ds IH]; simpl; [lia|]. destruct (Allowed d); lia. Qed.
Lemma count_blocked_nonneg ds : 0 ≤ count_blocked ds.
Proof. unfold count_blocked. induction ds as [|d ds IH]; simpl; [lia|]. destruct (Allowed d); lia. Qed.

Section Race.
Context {D : Type} `{RL : RedisLaws D}.
Context (key : string) (cfg : Config) (maxAttempts : nat).
Context (reqs : list (Time * Z)) (lo hi : Time) (s0 : State) (d0 : D) (a0 b0 : Z).

(** The bucket a client finds: stored, or made up full at the one instant that
    all the clients' clocks show. *)
Definition shows (d : D) (s : State) : Prop :=
  holds d key s ∨
  (absent d key ∧ s.(TokensRemaining) = cfg.(Capacity) ∧
   Forall (fun r : Time * Z => r.1 = s.(LastRefillAt)) reqs).

Record race_setting : Prop := {
  rs_key : key ≠ summaryMetricsKey;
  rs_store : store_cfg cfg;
  rs_horizon : in_horizon cfg lo hi s0 reqs;
  rs_hi : hi ≤ max_int64;
  rs_storable : storable s0;
  rs_shows : shows d0 s0;
  rs_counters : counters d0 a0 b0;
  rs_room : 0 ≤ a0 ∧ 0 ≤ b0 ∧ a0 + b0 + Z.of_nat (length reqs) ≤ max_int64
}.

(** An entry of the log of commits: the client, its request, its decision. *)
Definition commit : Type := nat * (Time * Z) * Decision.
Definition log_reqs (log : list commit) : list (Time * Z) := map (fun c => c.1.2) log.
Definition log_decs (log : list commit) : list Decision := map snd log.

(** What each client may be holding when [c] commits have happened. *)
Definition client_ok (d : D) (c : Z) (s : State) (req : Time * Z) (p : phase) : Prop :=
  match p with
  | Start f => Z.of_nat f ≤ c
  | Watched f st =>
      Z.of_nat f ≤ c ∧ st ≤ stamp d key ∧ (stamp d key ≠ st → Z.of_nat f < c)
  | Decided f st dec =>
      Z.of_nat f ≤ c ∧ st ≤ stamp d key ∧ (stamp d key ≠ st → Z.of_nat f < c) ∧
      (stamp d key = st → dec = exact_decision cfg req.1 s req.2)
  | Served _ => True
  | Failed e => e = ErrBucketContention ∧ Z.of_nat maxAttempts ≤ c
  end.

(** Every entry of the log is what its client asked and was answered. *)
Definition log_answered (clients : list phase) (log : list commit) : Prop :=
  ∀ i req dec, (i, req, dec) ∈ log → reqs !! i = Some req ∧ clients !! i = Some (Served dec).

Record race_inv (r : race) (log : list commit) (s : State) : Prop := {
  ri_length : length r.(race_clients) = length reqs;
  ri_horizon : in_horizon cfg lo hi s reqs;
  ri_storable : storable s;
  ri_shows : shows r.(race_db) s;
  ri_serve : serve cfg s0 (log_reqs log) = Ok (log_decs log, s);
  ri_counters : counters r.(race_db) (a0 + count_allowed (log_decs log))
                  (b0 + count_blocked (log_decs log));
  ri_log : log_answered r.(race_clients) log;
  ri_nodup : NoDup (map (fun c : commit => c.1.1) log);
  ri_served : race_served reqs r = Z.of_nat (length log);
  ri_allowed : race_allowed reqs r = count_allowed (log_decs log);
  ri_spent : race_spent reqs r = granted (log_reqs log) (map Allowed (log_decs log));
  ri_clients : ∀ i req p, reqs !! i = Some req → r.(race_clients) !! i = Some p →
    client_ok r.(race_db) (Z.of_nat (length log)) s req p
}.

(** ** The invariant holds along every schedule *)

Lemma horizon_pick s i req :
  in_horizon cfg lo hi s reqs → reqs !! i = Some req → in_horizon cfg lo hi s [req].
Proof.
  intros [? ? ? ? ? Hr] Hi. split; auto. constructor; [|done].
  exact (Forall_lookup_1 _ _ _ _ Hr Hi).
Qed.

Lemma horizon_back s s' :
  in_horizon cfg lo hi s reqs → in_horizon cfg lo hi s' [] → in_horizon cfg lo hi s' reqs.
Proof. by intros [] []. Qed.

(** What a client that reads now decides. *)
Lemma race_decides d s i now cost :
  in_horizon cfg lo hi s reqs → storable s → shows d s → reqs !! i = Some (now, cost) →
  (let? s' := bucket_state key cfg now (hash_view d key) in Apply now s' cfg cost) =
    Ok (exact_decision cfg now s cost).
Proof.
  intros Hh Hst Hs Hi. destruct (horizon_step _ _ _ _ _ _ _ (horizon_pick _ _ _ Hh Hi)) as [Hap _].
  destruct Hs as [Hs|(Ha & Hcap & Hall)].
  - by rewrite (holds_state _ _ s).
  - rewrite absent_state by done. cbn [res_bind].
    pose proof (Forall_lookup_1 _ _ _ _ Hall Hi) as Hnow. simpl in Hnow.
    rewrite Hnow, <- Hcap. rewrite Hnow in Hap. by destruct s.
Qed.

Lemma FormatInt_inj a b : in_int64 a → in_int64 b → FormatInt a = FormatInt b → a = b.
Proof.
  intros Ha Hb Heq. pose proof (ParseInt_FormatInt a Ha) as H1.
  rewrite Heq, ParseInt_FormatInt in H1 by done. congruence.
Qed.

Lemma holds_inj d s s' : storable s → storable s' → holds d key s → holds d key s' → s = s'.
Proof.
  intros [Ht Ha Hm] [Ht' Ha' Hm'] [_ H1 H2] [_ H1' H2']. rewrite H1 in H1'. rewrite H2 in H2'.
  apply (inj Some), FormatInt_inj in H1'; [|done..].
  apply (inj Some), FormatInt_inj in H2'; [|done..].
  destruct s as [t l], s' as [t' l']; simpl in *. f_equal; [done|].
  destruct Ha as [q ->], Ha' as [q' ->]. by rewrite !Z.div_mul in H2' by done; subst.
Qed.

(** The version of the key a stale client watched is gone for good. *)
Lemma shows_stamp d d' s s' :
  evolves d d' → storable s → storable s' → shows d s → holds d' key s' →
  stamp d' key = stamp d key → s' = s.
Proof.
  intros He Hst Hst' Hs Hs' Heq. destruct (He key) as [_ Hsame]. specialize (Hsame Heq).
  destruct Hs as [Hs|(Ha & _)].
  - apply (holds_inj d'); auto. destruct Hsame as [H1 H2], Hs. split; by rewrite ?H1, ?H2.
  - exfalso. destruct (same_key_absent _ _ _ Hsame Ha) as [Hh _].
    destruct Hs' as [_ Ht _]. by rewrite Hh, lookup_empty in Ht.
Qed.

Lemma client_ok_commit d d' c s s' req p :
  evolves d d' → storable s → storable s' → shows d s → holds d' key s' →
  client_ok d c s req p → client_ok d' (c + 1) s' req p.
Proof.
  intros He Hst Hst' Hs Hs'. pose proof (He key) as [Hle _].
  destruct p as [f|f st|f st dec|dec|e]; simpl; [lia|lia| |done|intuition lia].
  intros (Hf & Hst0 & Hne & Hdec). split_and!; [lia..|]. intros Heq.
  assert (stamp d' key = stamp d key) as Hsame by lia.
  rewrite (shows_stamp d d' s s') by done. apply Hdec. lia.
Qed.

Lemma unserved req p :
  (∀ dec, p ≠ Served dec) → served_one req p = 0 ∧ allowed_one req p = 0 ∧ spent req p = 0.
Proof. intros Hp. destruct p; try done. by destruct (Hp d). Qed.

(** A move that neither writes nor answers. *)
Lemma inv_idle r log s i req p p' :
  race_inv r log s → reqs !! i = Some req → r.(race_clients) !! i = Some p →
  finished p = false → (∀ dec, p' ≠ Served dec) →
  client_ok r.(race_db) (Z.of_nat (length log)) s req p' →
  race_inv (mkRace r.(race_db) (<[i := p']> r.(race_clients))) log s.
Proof.
  intros [Hlen Hh Hst Hs Hsv Hc Hlog Hnd Hns Hna Hsp Hcl] Hi Hp Hf Hp' Hok.
  destruct (unserved req p) as (? & ? & ?); [by intros ? ->|].
  destruct (unserved req p' Hp') as (? & ? & ?).
  split; simpl; auto.
  - by rewrite length_insert.
  - intros j req' dec Hj. destruct (Hlog j req' dec Hj) as [Hr Hd]. split; [done|].
    destruct (decide (i = j)) as [->|]; [|by rewrite list_lookup_insert_ne].
    rewrite Hp in Hd. injection Hd as ->. done.
  - rewrite <- Hns. unfold race_served; simpl. rewrite (sum_zip_insert _ _ _ _ _ _ _ Hi Hp).
    lia.
  - rewrite <- Hna. unfold race_allowed; simpl. rewrite (sum_zip_insert _ _ _ _ _ _ _ Hi Hp).
    lia.
  - rewrite <- Hsp. unfold race_spent; simpl. rewrite (sum_zip_insert _ _ _ _ _ _ _ Hi Hp).
    lia.
  - intros j req' q Hj Hq. destruct (decide (i = j)) as [->|].
    + rewrite list_lookup_insert_eq in Hq by (by eapply lookup_lt_Some). simplify_eq. done.
    + rewrite list_lookup_insert_ne in Hq by done. by apply (Hcl j).
Qed.

Lemma served_room (r : race (D := D)) i req p :
  length r.(race_clients) = length reqs → reqs !! i = Some req →
  r.(race_clients) !! i = Some p → served_one req p = 0 →
  race_served reqs r + 1 ≤ Z.of_nat (length reqs).
Proof.
  intros Hlen Hi Hp Hf. set (any := mkDecision true 0 0 0 0 0 s0).
  pose proof (sum_zip_insert served_one _ _ _ _ _ (Served any) Hi Hp) as Hins.
  unfold race_served in *. simpl in Hins.
  assert (sum_zip served_one reqs (<[i := Served any]> (race_clients r)) ≤
          Z.of_nat (length reqs) * 1); [|lia].
  rewrite <- (sum_zip_const 1 reqs (<[i := Served any]> (race_clients r)))
    by (by rewrite length_insert).
  apply sum_zip_le. intros j q b _ _. destruct b; simpl; lia.
Qed.

Lemma count_log (log : list commit) :
  count_allowed (log_decs log) + count_blocked (log_decs log) = Z.of_nat (length log).
Proof. rewrite count_both. unfold log_decs. by rewrite length_map. Qed.

Lemma log_decs_snoc (log : list commit) c : log_decs (log ++ [c]) = log_decs log ++ [c.2].
Proof. apply map_app. Qed.
Lemma log_reqs_snoc (log : list commit) c : log_reqs (log ++ [c]) = log_reqs log ++ [c.1.2].
Proof. apply map_app. Qed.

(** The move that commits. *)
(** Logging the commit of a client that was not finished keeps what the log
    says of the clients, and names no client twice. *)
Lemma log_answered_snoc clients log i req dec p :
  log_answered clients log → reqs !! i = Some req →
  clients !! i = Some p → finished p = false →
  log_answered (<[i := Served dec]> clients) (log ++ [(i, req, dec)]).
Proof.
  intros Hlog Hi Hp Hf j req' dec' [Hj|Hj]%elem_of_app.
  - destruct (Hlog _ _ _ Hj) as [Hr Hd]. split; [done|].
    destruct (decide (i = j)) as [->|]; [|by rewrite list_lookup_insert_ne].
    rewrite Hp in Hd. by injection Hd as ->.
  - apply list_elem_of_singleton in Hj as [= -> -> ->]. split; [done|].
    rewrite list_lookup_insert_eq; [done|]. by eapply lookup_lt_Some.
Qed.

Lemma log_once_snoc clients log i req dec p :
  log_answered clients log → clients !! i = Some p → finished p = false →
  NoDup (map (fun c : commit => c.1.1) log) →
  NoDup (map (fun c : commit => c.1.1) (log ++ [(i, req, dec)])).
Proof.
  intros Hlog Hp Hf Hnd. rewrite map_app. apply list.NoDup_app.
  split_and!; [done| |apply NoDup_singleton].
  intros j Hj Hj'. apply list_elem_of_singleton in Hj' as ->.
  apply list_elem_of_fmap in Hj as ([[j req'] dec'] & Heq & Hj).
  simpl in Heq; subst j.
  destruct (Hlog _ _ _ Hj) as [_ Hd]. rewrite Hp in Hd. by injection Hd as ->.
Qed.

Lemma inv_commit r log s i now cost p :
  race_setting → race_inv r log s → reqs !! i = Some (now, cost) →
  r.(race_clients) !! i = Some p → finished p = false →
  let dec := exact_decision cfg now s cost in
  race_inv (mkRace (exec_cmds (consume_cmds key dec) r.(race_db))
              (<[i := Served dec]> r.(race_clients)))
    (log ++ [(i, (now, cost), dec)]) dec.(NewState).
Proof.
  intros [Hk [Hsec Hal] _ Hhi _ _ _ (Ha0 & Hb0 & Hroom)] Hinv Hi Hp Hf dec.
  pose proof Hinv as [Hlen Hh Hst Hs Hsv Hc Hlog Hnd Hns Hna Hsp Hcl].
  pose proof (horizon_pick _ _ _ Hh Hi) as Hh1.
  destruct (horizon_step _ _ _ _ _ _ _ Hh1) as [Hap Hh'].
  pose proof (next_storable _ _ _ _ _ _ _ Hh1 Hhi Hal Hst) as Hst'.
  fold dec in Hap, Hh', Hst'.
  assert (Hty : string_view r.(race_db) key = None) by (destruct Hs as [[]|[[] _]]; done).
  assert (Httl : Second ≤ dec.(BucketTTL)).
  { destruct Hh1 as [Hcf _ _ Hwf _ Hr]. apply Forall_cons_1 in Hr as [[_ Hcost] _].
    etransitivity; [exact Hsec|]. apply decision_ttl; auto. simpl in Hcost. lia. }
  assert (Hholds : holds (exec_cmds (consume_cmds key dec) r.(race_db)) key dec.(NewState)) by
    (apply consume_holds; auto; apply Hst').
  destruct (unserved (now, cost) p) as (Hz1 & Hz2 & Hz3); [by intros ? ->|].
  pose proof (served_room _ _ _ _ Hlen Hi Hp Hz1) as Hsr. rewrite Hns in Hsr.
  pose proof (count_log log) as Hboth.
  pose proof (count_allowed_nonneg (log_decs log)). pose proof (count_blocked_nonneg (log_decs log)).
  unfold max_int64 in *.
  assert (a0 + count_allowed (log_decs log) + 1 ≤ 9223372036854775807) by lia.
  assert (b0 + count_blocked (log_decs log) + 1 ≤ 9223372036854775807) by lia.
  clearbody dec. split; cbn [race_db race_clients]; auto.
  - by rewrite length_insert.
  - by apply (horizon_back s).
  - by left.
  - rewrite log_reqs_snoc, log_decs_snoc. by apply (serve_snoc cfg s0 _ now cost _ s).
  - rewrite log_decs_snoc, count_allowed_snoc, count_blocked_snoc. cbn [snd].
    pose proof (consume_counters key dec _ _ _ Hk Hc) as Hcc.
    unfold in_int64, min_int64, max_int64 in Hcc.
    set (cs := consume_cmds key dec) in *. clearbody cs.
    destruct (Allowed dec); rewrite ?Z.add_0_r, ?Z.add_assoc; apply Hcc; lia.
  - by apply (log_answered_snoc _ _ _ _ _ p).
  - by apply (log_once_snoc r.(race_clients) _ _ _ _ p).
  - unfold race_served in *; cbn [race_clients]. rewrite (sum_zip_insert _ _ _ _ _ _ _ Hi Hp), Hns.
    rewrite length_app, Hz1. simpl. lia.
  - unfold race_allowed in *; cbn [race_clients]. rewrite (sum_zip_insert _ _ _ _ _ _ _ Hi Hp), Hna.
    rewrite log_decs_snoc, count_allowed_snoc, Hz2. simpl. lia.
  - unfold race_spent in *; cbn [race_clients]. rewrite (sum_zip_insert _ _ _ _ _ _ _ Hi Hp), Hsp.
    rewrite log_decs_snoc, log_reqs_snoc, map_app, Hz3. simpl.
    rewrite granted_snoc by (unfold log_reqs, log_decs; by rewrite !length_map). lia.
  - intros j req' q Hj Hq. destruct (decide (i = j)) as [->|].
    + rewrite list_lookup_insert_eq in Hq by (by eapply lookup_lt_Some). by injection Hq as <-.
    + rewrite list_lookup_insert_ne in Hq by done. rewrite length_app, Nat2Z.inj_add.
      eapply (client_ok_commit r.(race_db) _ _ s); eauto. apply exec_evolves.
Qed.

Lemma inv_start : race_setting → race_inv (race_start reqs d0) [] s0.
Proof.
  intros [Hk Hsc Hh Hhi Hst Hs Hc Hroom].
  assert (Hz : ∀ f : Time * Z → phase → Z, (∀ q, f q (Start 0) = 0) →
    sum_zip f reqs (replicate (length reqs) (Start 0)) = 0).
  { intros f Hf. clear -Hf. induction reqs as [|q l IH]; simpl; [done|]. rewrite IH, Hf. done. }
  split; simpl; auto; rewrite ?Z.add_0_r; auto; try (by apply Hz).
  - by rewrite length_replicate.
  - by intros i req dec ?%not_elem_of_nil.
  - constructor.
  - intros i req p _ Hp. apply lookup_replicate in Hp as [-> _]. simpl. lia.
Qed.

Lemma inv_step r log s r' :
  race_setting → race_inv r log s → race_step key cfg maxAttempts reqs r r' →
  ∃ log' s', race_inv r' log' s'.
Proof.
  intros Hset Hinv Hstep. destruct Hstep as [i r p Hp Hf]. pose proof Hinv as [Hlen Hh Hst Hs _ _ _ _ _ _ _ Hcl].
  assert (is_Some (reqs !! i)) as [[now cost] Hi].
  { apply lookup_lt_is_Some_2. rewrite <- Hlen. by eapply lookup_lt_Some. }
  pose proof (Hcl i _ _ Hi Hp) as Hok. unfold race_move. rewrite Hi, Hp. unfold client_step.
  destruct p as [f|f st|f st dec|dec|e]; try done; simpl in Hok.
  - destruct (decide (f < maxAttempts)%nat); exists log, s; eapply inv_idle; eauto; simpl; try done;
      naive_solver lia.
  - rewrite (race_decides _ s i) by done. exists log, s. eapply inv_idle; eauto; simpl.
    naive_solver.
  - destruct Hok as (Hc & Hle & Hne & Hdec).
    destruct (stamp (race_db r) key =? st) eqn:Heq; to_prop.
    + rewrite (Hdec Heq). do 2 eexists. by eapply inv_commit.
    + exists log, s. eapply inv_idle; eauto; simpl. lia.
Qed.

Lemma inv_reachable r :
  race_setting → reachable key cfg maxAttempts reqs d0 r → ∃ log s, race_inv r log s.
Proof.
  intros Hset. induction 1 as [|r r' _ (log & s & Hinv) Hs].
  - exists [], s0. by apply inv_start.
  - by eapply inv_step.
Qed.
End Race.

(** ** What every schedule guarantees *)

Section Guarantees.
Context {D : Type} `{RL : RedisLaws D}.

(** C4: concurrent consumers are serializable.  Wherever a schedule of the
    clients has got to, the requests answered so far, in the order of their
    commits, are a run of the token bucket on one thread: each served client
    appears exactly once with its own request and gets exactly that run's
    decision, the key shows the run's last state, each counter has counted its
    own side, and the tokens granted stay within the configured rate.  A key
    absent at the start is covered for clients with equal clocks, aligned to a
    millisecond. *)
Theorem race_serializable key cfg maxAttempts reqs lo hi s0 (d0 : D) a0 b0 r :
  race_setting key cfg reqs lo hi s0 d0 a0 b0 →
  reachable key cfg maxAttempts reqs d0 r →
  ∃ log s,
    serve cfg s0 (log_reqs log) = Ok (log_decs log, s) ∧
    (∀ i req dec, (i, req, dec) ∈ log →
       reqs !! i = Some req ∧ r.(race_clients) !! i = Some (Served dec)) ∧
    NoDup (map (fun c : commit => c.1.1) log) ∧
    race_served reqs r = Z.of_nat (length log) ∧
    shows key cfg reqs r.(race_db) s ∧
    counters r.(race_db) (a0 + race_allowed reqs r)
      (b0 + (race_served reqs r - race_allowed reqs r)) ∧
    race_spent reqs r ≤
      s0.(TokensRemaining) +
      (hi - s0.(LastRefillAt)) / cfg.(RefillInterval) * cfg.(RefillTokens).
Proof.
  intros Hset Hr. destruct (inv_reachable _ _ _ _ _ _ _ _ _ _ _ Hset Hr) as (log & s & Hinv).
  exists log, s. destruct Hinv as [Hlen Hh _ Hs Hsv Hc Hlog Hnd Hns Hna Hsp _].
  split_and!; auto.
  - rewrite Hns, Hna. rewrite <- (count_log log).
    by replace (count_allowed (log_decs log) + _ - _) with (count_blocked (log_decs log)) by lia.
  - assert (Hh0 : in_horizon cfg lo hi s0 (log_reqs log)).
    { destruct Hset as [_ _ [? ? ? ? ? Hrq] _ _ _ _ _]. split; auto.
      apply Forall_fmap, list.Forall_forall. intros [[i req] dec] Hi.
      destruct (Hlog _ _ _ Hi) as [Hi' _]. exact (Forall_lookup_1 _ _ _ _ Hrq Hi'). }
    destruct (granted_step _ _ _ _ _ _ _ Hh0 Hsv) as (k & Hk & Hl & Hhi & [Hw _] & Hg).
    destruct Hh0 as [[[Hcap HR HI] _ _] _ _ _ _ _].
    assert (k ≤ (hi - s0.(LastRefillAt)) / cfg.(RefillInterval)) by
      (apply Z.div_le_lower_bound; lia). rewrite Hsp. nia.
Qed.

(** Giving up is somebody else's success.  A client of the race fails only
    with [ErrBucketContention], and only after at least as many other clients
    were served as it has attempts; so with no more clients than attempts
    every schedule serves them all. *)
Theorem race_contention key cfg maxAttempts reqs lo hi s0 (d0 : D) a0 b0 r i e :
  race_setting key cfg reqs lo hi s0 d0 a0 b0 →
  reachable key cfg maxAttempts reqs d0 r →
  r.(race_clients) !! i = Some (Failed e) →
  e = ErrBucketContention ∧
  Z.of_nat maxAttempts ≤ race_served reqs r < Z.of_nat (length reqs).
Proof.
  intros Hset Hr Hf. destruct (inv_reachable _ _ _ _ _ _ _ _ _ _ _ Hset Hr) as (log & s & Hinv).
  destruct Hinv as [Hlen _ _ _ _ _ _ _ Hns _ _ Hcl].
  destruct (lookup_lt_is_Some_2 reqs i) as [req Hi].
  { rewrite <- Hlen. by eapply lookup_lt_Some. }
  destruct (Hcl _ _ _ Hi Hf) as [-> Hm]. rewrite <- Hns in Hm.
  pose proof (served_room reqs s0 r _ _ _ Hlen Hi Hf eq_refl). split; [done|lia].
Qed.
End Guarantees.

(** * How a race ends

    No schedule of the clients runs for ever, the clients all answer in the
    end, and clients with the same clock and cost share out exactly the tokens
    there are. *)

(** ** Moves are bounded *)

(** The moves a client may still make. *)
Definition phase_fuel (maxAttempts : nat) (p : phase) : nat :=
  match p with
  | Start f => 3 * (maxAttempts - f) + 1
  | Watched f _ => 3 * (maxAttempts - f)
  | Decided f _ _ => 3 * (maxAttempts - f) - 1
  | Served _ | Failed _ => 0
  end.

Definition phase_ok (maxAttempts : nat) (p : phase) : Prop :=
  match p with
  | Watched f _ | Decided f _ _ => (f < maxAttempts)%nat
  | _ => True
  end.

Lemma sum_list_with_insert {A} (f : A → nat) l i x y :
  l !! i = Some x →
  (sum_list_with f (<[i := y]> l) + f x = sum_list_with f l + f y)%nat.
Proof.
  revert i. induction l as [|z l IH]; intros [|i] Hi; simplify_eq/=; [lia|].
  specialize (IH i Hi). lia.
Qed.

Section Ends.
Context {D : Type} `{RL : RedisLaws D}.
Context (key : string) (cfg : Config) (maxAttempts : nat) (reqs : list (Time * Z)).

Definition race_fuel (r : race (D := D)) : nat :=
  sum_list_with (phase_fuel maxAttempts) r.(race_clients).
Record moving (r : race (D := D)) : Prop := {
  mv_length : length r.(race_clients) = length reqs;
  mv_phases : Forall (phase_ok maxAttempts) r.(race_clients)
}.

Lemma client_step_fuel req (d d' : D) p p' :
  phase_ok maxAttempts p → finished p = false →
  client_step key cfg maxAttempts req d p = (d', p') →
  phase_ok maxAttempts p' ∧ (phase_fuel maxAttempts p' < phase_fuel maxAttempts p)%nat.
Proof.
  intros Hp Hf. destruct req as [now cost]. unfold client_step.
  destruct p as [f|f st|f st dec|dec|e]; simpl in *; try done.
  - case_decide; intros [= <- <-]; simpl; split; (done || lia).
  - case_match; intros [= <- <-]; simpl; split; (done || lia).
  - case_match; intros [= <- <-]; simpl; split; (done || lia).
Qed.

Lemma race_step_fuel r r' :
  moving r → race_step key cfg maxAttempts reqs r r' →
  moving r' ∧ (race_fuel r' < race_fuel r)%nat.
Proof.
  intros [Hlen Hok] Hs. destruct Hs as [i r p Hp Hf].
  destruct (lookup_lt_is_Some_2 reqs i) as [req Hi].
  { rewrite <- Hlen. by eapply lookup_lt_Some. }
  unfold race_move. rewrite Hi, Hp.
  destruct (client_step _ _ _ _ _ _) as [d' p'] eqn:Hc.
  apply client_step_fuel in Hc as [Hp' Hlt]; [|by eapply Forall_lookup_1|done].
  pose proof (sum_list_with_insert (phase_fuel maxAttempts) _ _ _ p' Hp).
  split; [split; simpl|unfold race_fuel; simpl; lia].
  - by rewrite length_insert.
  - by apply Forall_insert.
Qed.

Lemma race_steps_fuel n r r' :
  moving r → nsteps (race_step key cfg maxAttempts reqs) n r r' →
  moving r' ∧ (n + race_fuel r' ≤ race_fuel r)%nat.
Proof.
  intros Hm Hs. revert Hm. induction Hs as [r|n r r1 r' H1 _ IH]; intros Hm; [split; [done|lia]|].
  destruct (race_step_fuel _ _ Hm H1) as [Hm1 Hlt]. destruct (IH Hm1). split; [done|lia].
Qed.

Lemma start_moving (d : D) : moving (race_start reqs d).
Proof.
  split; simpl; [apply length_replicate|]. by apply Forall_replicate.
Qed.

Lemma start_fuel (d : D) : race_fuel (race_start reqs d) = (length reqs * (3 * maxAttempts + 1))%nat.
Proof.
  unfold race_fuel, race_start; simpl. generalize (length reqs) as n.
  induction n as [|n IH]; [done|]. cbn [replicate sum_list_with]. rewrite IH. simpl. lia.
Qed.

(** While somebody has not answered, somebody can move. *)
Lemma race_progress r :
  Forall (fun p => finished p = true) r.(race_clients) ∨
  ∃ r', race_step key cfg maxAttempts reqs r r'.
Proof.
  destruct (decide (Forall (fun p => finished p = true) r.(race_clients))) as [|Hn]; [by left|].
  right. apply not_Forall_Exists, list.Exists_exists in Hn as (p & Hp & Hf); [|apply _].
  apply list_elem_of_lookup in Hp as [i Hi]. exists (race_move key cfg maxAttempts reqs i r).
  apply (race_step_move _ _ _ _ i r p Hi). by apply not_true_is_false.
Qed.

(** C23: a race ends.  A schedule makes at most three moves per client and
    attempt and one more per client, and wherever it has got to it can be run
    on until every client has answered. *)
Theorem race_ends (d : D) n r :
  nsteps (race_step key cfg maxAttempts reqs) n (race_start reqs d) r →
  (n ≤ length reqs * (3 * maxAttempts + 1))%nat ∧
  ∃ r', rtc (race_step key cfg maxAttempts reqs) r r' ∧
    Forall (fun p => finished p = true) r'.(race_clients).
Proof.
  intros Hs. destruct (race_steps_fuel _ _ _ (start_moving d) Hs) as [Hm Hn].
  rewrite start_fuel in Hn. split; [lia|]. clear n Hs Hn.
  remember (race_fuel r) as k eqn:Hk. revert r Hm Hk.
  induction k as [k IH] using lt_wf_ind. intros r Hm ->.
  destruct (race_progress r) as [Hfin|[r1 H1]]; [by exists r|].
  destruct (race_step_fuel _ _ Hm H1) as [Hm1 Hlt].
  destruct (IH _ Hlt r1 Hm1 eq_refl) as (r' & Hr & Hf). exists r'. split; [|done].
  by eapply rtc_l.
Qed.
End Ends.

(** ** Clients with one clock and one cost *)

Lemma exact_decision_again cfg now s (cost : Z) :
  valid cfg → well_formed cfg s → 0 < cost →
  let dec := exact_decision cfg now s cost in
  level cfg dec.(NewState) now =
    level cfg s now - (if dec.(Allowed) then cost else 0) ∧
  dec.(Allowed) = (level cfg s now >=? cost).
Proof.
  intros Hv Hwf Hc dec. pose proof (exact_decision_verdict cfg now s cost) as Hd. fold dec in Hd.
  pose proof (level_range cfg Hv s now Hwf) as Hl.
  assert (Hlast : intervals cfg (exact_refill cfg now s).(LastRefillAt) now = 0).
  { unfold exact_refill; simpl. destruct (decide (now < s.(LastRefillAt) + cfg.(RefillInterval))).
    - rewrite (intervals_past cfg Hv s.(LastRefillAt)) by done. destruct Hv.
      apply intervals_past; [done|lia].
    - pose proof (intervals_nonneg cfg s.(LastRefillAt) now). destruct Hv.
      rewrite intervals_shift; [lia|done|apply intervals_spec; [done|lia]|done]. }
  split; [|reflexivity].
  unfold level at 1.
  destruct Hd as [(Hge & -> & ->)|(Hlt & -> & ->)]; cbn [TokensRemaining LastRefillAt] in *;
    rewrite Hlast; unfold exact_refill in *; cbn [TokensRemaining] in *; lia.
Qed.

Lemma serve_same_instant cfg lo hi s now (c : Z) n :
  0 < c → in_horizon cfg lo hi s (replicate n (now, c)) →
  ∃ ds s', serve cfg s (replicate n (now, c)) = Ok (ds, s') ∧
    count_allowed ds = Z.min (Z.of_nat n) (level cfg s now / c).
Proof.
  intros Hc. revert s. induction n as [|n IH]; intros s Hh.
  { exists [], s. split; [done|].
    pose proof (level_range cfg (hz_fits _ _ _ _ _ Hh) s now (hz_wf _ _ _ _ _ Hh)).
    pose proof (Z.div_pos (level cfg s now) c). simpl. lia. }
  cbn [replicate] in Hh. pose proof (hz_wf _ _ _ _ _ Hh) as Hwf.
  pose proof (level_range cfg (hz_fits _ _ _ _ _ Hh) s now Hwf) as Hl.
  destruct (horizon_step _ _ _ _ _ _ _ Hh) as [Hap Hh'].
  destruct (exact_decision_again cfg now s c (hz_fits _ _ _ _ _ Hh) Hwf Hc) as [Hlev Hal].
  set (dec := exact_decision cfg now s c) in *.
  destruct (IH _ Hh') as (ds & s' & Hs & Hcnt).
  exists (dec :: ds), s'. cbn [serve replicate]. rewrite Hap; cbn [res_bind]. rewrite Hs.
  split; [done|]. change (count_allowed (dec :: ds)) with
    ((if dec.(Allowed) then 1 else 0) + count_allowed ds). rewrite Hcnt, Hlev, Hal.
  rewrite Nat2Z.inj_succ. destruct (_ >=? c) eqn:Hg; to_prop.
  - replace (level cfg s now - c) with (level cfg s now + (-1) * c) by lia.
    rewrite Z.div_add by lia. lia.
  - rewrite Z.sub_0_r, (Z.div_small (level cfg s now)) by lia. lia.
Qed.

Section Quota.
Context {D : Type} `{RL : RedisLaws D}.

(** C20: concurrency neither loses nor invents tokens.  When [n] clients with
    the same clock and the same cost [c] race for one bucket and are no more
    than the attempts each has, then however they interleave, once all have
    answered none has failed and exactly as many were allowed as the bucket's
    level pays for. *)
Theorem race_quota key cfg maxAttempts n now (c : Z) lo hi s0 (d0 : D) a0 b0 r :
  race_setting key cfg (replicate n (now, c)) lo hi s0 d0 a0 b0 →
  0 < c → (n ≤ maxAttempts)%nat →
  reachable key cfg maxAttempts (replicate n (now, c)) d0 r →
  Forall (fun p => finished p = true) r.(race_clients) →
  Forall (fun p => ∃ dec, p = Served dec) r.(race_clients) ∧
  race_allowed (replicate n (now, c)) r = Z.min (Z.of_nat n) (level cfg s0 now / c).
Proof.
  intros Hset Hc Hn Hr Hfin.
  destruct (inv_reachable _ _ _ _ _ _ _ _ _ _ _ Hset Hr) as (log & s & Hinv).
  destruct Hinv as [Hlen _ _ _ Hsv _ Hlog Hnd Hns Hna _ Hcl].
  assert (Hall : Forall (fun p => ∃ dec, p = Served dec) r.(race_clients)).
  { apply Forall_lookup. intros i p Hp. pose proof (Forall_lookup_1 _ _ _ _ Hfin Hp) as Hf.
    destruct p as [| | |dec|e]; try done; [by exists dec|].
    destruct (lookup_lt_is_Some_2 (replicate n (now, c)) i) as [req Hi].
    { rewrite <- Hlen. by eapply lookup_lt_Some. }
    destruct (Hcl _ _ _ Hi Hp) as [_ Hm].
    pose proof (served_room _ s0 r _ _ _ Hlen Hi Hp eq_refl) as Hroom.
    rewrite Hns, length_replicate in Hroom. lia. }
  split; [done|].
  assert (Hlog_n : length log = n).
  { apply Nat2Z.inj. rewrite <- Hns. rewrite length_replicate in Hlen.
    unfold race_served.
    transitivity (sum_zip (fun _ _ => 1) (replicate n (now, c)) r.(race_clients)).
    2: { rewrite sum_zip_const; rewrite length_replicate; [lia|done]. }
    apply sum_zip_ext. intros i q p _ Hp.
    by destruct (Forall_lookup_1 _ _ _ _ Hall Hp) as [dec ->]. }
  assert (Hreqs : log_reqs log = replicate n (now, c)).
  { rewrite <- Hlog_n. clear -Hlog. unfold log_reqs. induction log as [|[[i req] dec] log IH]; [done|].
    cbn [map length replicate]. f_equal.
    - destruct (Hlog i req dec) as [Hi _]; [by left|].
      apply lookup_replicate in Hi as [-> _]. done.
    - apply IH. intros i' q d Hin. apply Hlog. by right. }
  rewrite Hreqs in Hsv.
  destruct (serve_same_instant cfg lo hi s0 now c n Hc) as (ds & s' & Hs & Hcnt);
    [apply Hset|]. rewrite Hna. congruence.
Qed.
End Quota.
