(* ===== verification/Text.v ===== *)
(** * The [strings] functions the code uses

    Strings are byte strings, as in Go.  [TrimSpace] removes the characters of
    [unicode.IsSpace] in their UTF-8 encoding. *)
From S2P Require Import Prelude GoBase.

Definition byte (c : ascii) : Z := Z.of_N (N_of_ascii c).

(** [\t \n \v \f \r] and the space. *)
Definition ascii_space (c : ascii) : bool :=
  (9 <=? byte c) && (byte c <=? 13) || (byte c =? 32).

(** The two-byte spaces U+0085 and U+00A0. *)
Definition space2 (c1 c2 : ascii) : bool :=
  (byte c1 =? 194) && ((byte c2 =? 133) || (byte c2 =? 160)).

(** The three-byte spaces U+1680, U+2000 to U+200A, U+2028, U+2029, U+202F,
    U+205F and U+3000. *)
Definition space3 (c1 c2 c3 : ascii) : bool :=
  (byte c1 =? 225) && (byte c2 =? 154) && (byte c3 =? 128) ||
  (byte c1 =? 226) && (byte c2 =? 128) &&
    ((128 <=? byte c3) && (byte c3 <=? 138) || (byte c3 =? 168) || (byte c3 =? 169) ||
     (byte c3 =? 175)) ||
  (byte c1 =? 226) && (byte c2 =? 129) && (byte c3 =? 159) ||
  (byte c1 =? 227) && (byte c2 =? 128) && (byte c3 =? 128).

(** Leading spaces off; [two] and [three] test the longer encodings, whose
    bytes come in the order read. *)
Section Trim.
Context (two : ascii → ascii → bool) (three : ascii → ascii → ascii → bool).

Fixpoint trim_start (s : string) : string :=
  match s with
  | EmptyString => s
  | String c1 s1 =>
      if ascii_space c1 then trim_start s1
      else
        match s1 with
        | EmptyString => s
        | String c2 s2 =>
            if two c1 c2 then trim_start s2
            else
              match s2 with
              | EmptyString => s
              | String c3 s3 => if three c1 c2 c3 then trim_start s3 else s
              end
        end
  end.
End Trim.

Definition TrimLeft (s : string) : string := trim_start space2 space3 s.

Fixpoint rev_string (s acc : string) : string :=
  match s with
  | EmptyString => acc
  | String c s => rev_string s (String c acc)
  end.

Definition TrimRight (s : string) : string :=
  rev_string
    (trim_start (fun c2 c1 => space2 c1 c2) (fun c3 c2 c1 => space3 c1 c2 c3)
       (rev_string s EmptyString))
    EmptyString.

Definition TrimSpace (s : string) : string := TrimRight (TrimLeft s).

(** [strings.HasPrefix] and [strings.TrimPrefix]. *)
Fixpoint HasPrefix (s prefix : string) {struct prefix} : bool :=
  match prefix, s with
  | EmptyString, _ => true
  | String c p, String c' s => bool_decide (c = c') && HasPrefix s p
  | String _ _, EmptyString => false
  end.

(** [s[n:]] and [s[:n]], for [n] within the string. *)
Fixpoint drop_bytes (n : nat) (s : string) : string :=
  match n, s with
  | S n, String _ s => drop_bytes n s
  | _, _ => s
  end.

Fixpoint take_bytes (n : nat) (s : string) : string :=
  match n, s with
  | S n, String c s => String c (take_bytes n s)
  | _, _ => EmptyString
  end.

Definition TrimPrefix (s prefix : string) : string :=
  if HasPrefix s prefix then drop_bytes (String.length prefix) s else s.

(** [utf8.ValidString]: no overlong form, no surrogate, nothing past U+10FFFF. *)
Definition cont (c : ascii) : bool := (128 <=? byte c) && (byte c <=? 191).

Definition utf8_2 (c1 c2 : ascii) : bool :=
  (194 <=? byte c1) && (byte c1 <=? 223) && cont c2.
Definition utf8_3 (c1 c2 c3 : ascii) : bool :=
  (224 <=? byte c1) && (byte c1 <=? 239) && cont c2 && cont c3 &&
  ((negb (byte c1 =? 224)) || (160 <=? byte c2)) &&
  ((negb (byte c1 =? 237)) || (byte c2 <=? 159)).
Definition utf8_4 (c1 c2 c3 c4 : ascii) : bool :=
  (240 <=? byte c1) && (byte c1 <=? 244) && cont c2 && cont c3 && cont c4 &&
  ((negb (byte c1 =? 240)) || (144 <=? byte c2)) &&
  ((negb (byte c1 =? 244)) || (byte c2 <=? 143)).

Fixpoint ValidString (s : string) : bool :=
  match s with
  | EmptyString => true
  | String c1 s1 =>
      if byte c1 <? 128 then ValidString s1
      else
        match s1 with
        | EmptyString => false
        | String c2 s2 =>
            if utf8_2 c1 c2 then ValidString s2
            else
              match s2 with
              | EmptyString => false
              | String c3 s3 =>
                  if utf8_3 c1 c2 c3 then ValidString s3
                  else
                    match s3 with
                    | EmptyString => false
                    | String c4 s4 => utf8_4 c1 c2 c3 c4 && ValidString s4
                    end
              end
        end
  end.

(** ** Facts *)

Lemma append_assoc (s t u : string) : s +:+ (t +:+ u) = (s +:+ t) +:+ u.
Proof.
  induction s as [|c s IH]; [done|]. change (String c s +:+ t) with (String c (s +:+ t)).
  change (String c (s +:+ t +:+ u) = String c ((s +:+ t) +:+ u)). by rewrite IH.
Qed.

Lemma string_length_app s t : String.length (s +:+ t) = (String.length s + String.length t)%nat.
Proof.
  induction s as [|c s IH]; [done|]. change (String c s +:+ t) with (String c (s +:+ t)).
  cbn [String.length]. rewrite IH. lia.
Qed.

Lemma rev_string_app s acc : rev_string s acc = rev_string s EmptyString +:+ acc.
Proof.
  revert acc. induction s as [|c s IH]; intros acc; [done|]. cbn [rev_string].
  rewrite IH, (IH (String c EmptyString)), <- append_assoc. done.
Qed.

Lemma rev_string_snoc s c acc :
  rev_string (s +:+ String c EmptyString) acc = String c (rev_string s acc).
Proof.
  revert acc. induction s as [|c' s IH]; intros acc; [done|].
  change (String c' s +:+ String c EmptyString) with (String c' (s +:+ String c EmptyString)).
  cbn [rev_string]. apply IH.
Qed.

Lemma rev_string_involutive s : rev_string (rev_string s EmptyString) EmptyString = s.
Proof.
  induction s as [|c s IH]; [done|]. cbn [rev_string].
  rewrite (rev_string_app s), rev_string_snoc. by rewrite IH.
Qed.

Lemma HasPrefix_app p s : HasPrefix (p +:+ s) p = true.
Proof.
  induction p as [|c p IH]; [done|]. change (String c p +:+ s) with (String c (p +:+ s)).
  cbn [HasPrefix]. by rewrite bool_decide_eq_true_2, IH.
Qed.

Lemma HasPrefix_spec s p : HasPrefix s p = true → ∃ r, s = p +:+ r.
Proof.
  revert s. induction p as [|c p IH]; intros s; [by exists s|].
  destruct s as [|c' s]; cbn [HasPrefix]; [done|].
  intros [->%bool_decide_eq_true_1 [r ->]%IH]%andb_true_iff. by exists r.
Qed.

Lemma drop_bytes_app p s : drop_bytes (String.length p) (p +:+ s) = s.
Proof. induction p as [|c p IH]; [done|exact IH]. Qed.

Lemma take_bytes_app p s : take_bytes (String.length p) (p +:+ s) = p.
Proof.
  induction p as [|c p IH]; [by destruct s|].
  change (String c p +:+ s) with (String c (p +:+ s)). cbn [String.length take_bytes].
  by rewrite IH.
Qed.

Lemma TrimPrefix_app p s : TrimPrefix (p +:+ s) p = s.
Proof. unfold TrimPrefix. by rewrite HasPrefix_app, drop_bytes_app. Qed.

(** A printable ASCII character: no space, and no byte of a longer one. *)
Definition graphic (c : ascii) : bool := (33 <=? byte c) && (byte c <=? 126).

Lemma trim_start_graphic two three c s :
  graphic c = true → (∀ d, two c d = false) → (∀ d e, three c d e = false) →
  trim_start two three (String c s) = String c s.
Proof.
  intros Hc H2 H3. unfold graphic in Hc. to_prop. cbn [trim_start]. unfold ascii_space.
  destruct (_ || _) eqn:Hs.
  { apply orb_true_iff in Hs as [Hs|Hs]; to_prop; lia. }
  destruct s as [|d [|e s]]; rewrite ?H2, ?H3; done.
Qed.

Lemma graphic_low c n : graphic c = true → 127 <= n → (byte c =? n) = false ∧ (n <=? byte c) = false.
Proof.
  intros Hc Hn. unfold graphic in Hc. to_prop. split; [apply Z.eqb_neq|apply Z.leb_gt]; lia.
Qed.

Lemma space2_graphic c d : graphic c = true → space2 c d = false ∧ space2 d c = false.
Proof.
  intros Hc. unfold space2. split.
  - by rewrite (proj1 (graphic_low c 194 Hc ltac:(done))).
  - rewrite (proj1 (graphic_low c 133 Hc ltac:(done))), (proj1 (graphic_low c 160 Hc ltac:(done))).
    apply andb_false_r.
Qed.

Lemma space3_graphic c d e : graphic c = true → space3 c d e = false ∧ space3 d e c = false.
Proof.
  intros Hc. pose proof (fun n => graphic_low c n Hc) as Hl. unfold space3. split.
  - by rewrite !(fun n H => proj1 (Hl n H)) by done.
  - rewrite !(fun n H => proj1 (Hl n H)) by done. rewrite (proj2 (Hl 128 ltac:(done))).
    by rewrite !andb_false_r.
Qed.

(** A text that starts and ends with printable characters is left alone. *)
Lemma TrimSpace_graphic c s d :
  graphic c = true → graphic d = true →
  TrimSpace (String c (s +:+ String d EmptyString)) = String c (s +:+ String d EmptyString).
Proof.
  intros Hc Hd. unfold TrimSpace, TrimLeft.
  rewrite trim_start_graphic;
    [|done|intros; exact (proj1 (space2_graphic c _ Hc))|intros; exact (proj1 (space3_graphic c _ _ Hc))].
  unfold TrimRight.
  change (String c (s +:+ String d EmptyString)) with (String c s +:+ String d EmptyString).
  rewrite rev_string_snoc.
  rewrite trim_start_graphic;
    [|done|intros; exact (proj2 (space2_graphic d _ Hd))|intros; exact (proj2 (space3_graphic d _ _ Hd))].
  rewrite <- rev_string_snoc. apply rev_string_involutive.
Qed.
