(* ===== verification/Sha256.v ===== *)
(** * [crypto/sha256] and [crypto/hmac]

    The two standard-library functions the key codec hashes with, on lists of
    bytes: SHA-256 (FIPS 180-4) over 32-bit words, and HMAC (RFC 2104) with its
    64-byte blocks. *)
From S2P Require Import Prelude GoBase.

(** ** Words *)

Definition w32 (z : Z) : Z := z mod 4294967296.
Definition rotr (n x : Z) : Z := Z.lor (Z.shiftr x n) (w32 (Z.shiftl x (32 - n))).

Definition Ch (x y z : Z) : Z := Z.lxor (Z.land x y) (Z.land (4294967295 - x) z).
Definition Maj (x y z : Z) : Z :=
  Z.lxor (Z.lxor (Z.land x y) (Z.land x z)) (Z.land y z).
Definition Sigma0 (x : Z) : Z := Z.lxor (Z.lxor (rotr 2 x) (rotr 13 x)) (rotr 22 x).
Definition Sigma1 (x : Z) : Z := Z.lxor (Z.lxor (rotr 6 x) (rotr 11 x)) (rotr 25 x).
Definition sigma0 (x : Z) : Z := Z.lxor (Z.lxor (rotr 7 x) (rotr 18 x)) (Z.shiftr x 3).
Definition sigma1 (x : Z) : Z := Z.lxor (Z.lxor (rotr 17 x) (rotr 19 x)) (Z.shiftr x 10).

Definition round_constants : list Z := [
  1116352408; 1899447441; 3049323471; 3921009573; 961987163; 1508970993; 2453635748; 2870763221;
  3624381080; 310598401; 607225278; 1426881987; 1925078388; 2162078206; 2614888103; 3248222580;
  3835390401; 4022224774; 264347078; 604807628; 770255983; 1249150122; 1555081692; 1996064986;
  2554220882; 2821834349; 2952996808; 3210313671; 3336571891; 3584528711; 113926993; 338241895;
  666307205; 773529912; 1294757372; 1396182291; 1695183700; 1986661051; 2177026350; 2456956037;
  2730485921; 2820302411; 3259730800; 3345764771; 3516065817; 3600352804; 4094571909; 275423344;
  430227734; 506948616; 659060556; 883997877; 958139571; 1322822218; 1537002063; 1747873779;
  1955562222; 2024104815; 2227730452; 2361852424; 2428436474; 2756734187; 3204031479; 3329325298].

Definition initial_hash : list Z := [
  1779033703; 3144134277; 1013904242; 2773480762; 1359893119; 2600822924; 528734635; 1541459225].

(** ** The compression function *)

(** The schedule, newest word first: each word from those 2, 7, 15 and 16 back. *)
Fixpoint extend (n : nat) (newest_first : list Z) : list Z :=
  match n with
  | O => newest_first
  | S n =>
      let at_back i := nth i newest_first 0 in
      extend n (w32 (sigma1 (at_back 1%nat) + at_back 6%nat + sigma0 (at_back 14%nat) +
                     at_back 15%nat) :: newest_first)
  end.

Definition schedule (block : list Z) : list Z := rev (extend 48 (rev block)).

Definition one_round (st : list Z) (kw : Z * Z) : list Z :=
  match st with
  | [a; b; c; d; e; f; g; h] =>
      let t1 := h + Sigma1 e + Ch e f g + kw.1 + kw.2 in
      let t2 := Sigma0 a + Maj a b c in
      [w32 (t1 + t2); a; b; c; w32 (d + t1); e; f; g]
  | _ => st
  end.

Definition compress (st block : list Z) : list Z :=
  zip_with (fun x y => w32 (x + y)) st
    (foldl one_round st (zip round_constants (schedule block))).

(** ** Bytes and blocks *)

Definition word_bytes (w : Z) : list Z :=
  [w / 16777216 mod 256; w / 65536 mod 256; w / 256 mod 256; w mod 256].

Fixpoint words_of (bytes : list Z) : list Z :=
  match bytes with
  | a :: b :: c :: d :: rest => (16777216 * a + 65536 * b + 256 * c + d) :: words_of rest
  | _ => []
  end.

(** The message, a one bit, zeros, and its length in bits in eight bytes: a
    whole number of 64-byte blocks. *)
Definition padded (msg : list Z) : list Z :=
  let bits := 8 * Z.of_nat (length msg) in
  msg ++ [128] ++ replicate (Z.to_nat ((- (Z.of_nat (length msg) + 9)) mod 64)) 0 ++
  word_bytes (w32 (bits / 4294967296)) ++ word_bytes (w32 bits).

Fixpoint blocks (n : nat) (words : list Z) (st : list Z) : list Z :=
  match n with
  | O => st
  | S n => blocks n (drop 16 words) (compress st (take 16 words))
  end.

Definition sha256 (msg : list Z) : list Z :=
  let words := words_of (padded msg) in
  blocks (length words / 16) words initial_hash ≫= word_bytes.

(** ** HMAC *)

Definition block_size : nat := 64.

Definition hmac_key (key : list Z) : list Z :=
  let key := if (block_size <? length key)%nat then sha256 key else key in
  key ++ replicate (block_size - length key) 0.

Definition hmac_sha256 (key msg : list Z) : list Z :=
  let key := hmac_key key in
  sha256 (map (Z.lxor 92) key ++ sha256 (map (Z.lxor 54) key ++ msg)).

(** ** The digests are 32 bytes, and the published ones *)

Lemma compress_length st block : length st = 8%nat → length (compress st block) = 8%nat.
Proof.
  intros Hst. unfold compress. rewrite length_zip_with.
  assert (Hf : ∀ l s, length s = 8%nat → length (foldl one_round s l) = 8%nat).
  { induction l as [|kw l IH]; intros s Hs; [done|]. apply IH.
    by destruct s as [|? [|? [|? [|? [|? [|? [|? [|? [|]]]]]]]]]. }
  rewrite Hf, Hst by done. done.
Qed.

Lemma blocks_length n words st : length st = 8%nat → length (blocks n words st) = 8%nat.
Proof.
  revert words st. induction n as [|n IH]; intros words st Hst; [done|]. cbn [blocks].
  by apply IH, compress_length.
Qed.

Lemma sha256_length msg : length (sha256 msg) = 32%nat.
Proof.
  unfold sha256. pose proof (blocks_length (length (words_of (padded msg)) / 16)
    (words_of (padded msg)) initial_hash eq_refl) as Hl.
  by destruct (blocks _ _ _) as [|? [|? [|? [|? [|? [|? [|? [|? [|]]]]]]]]].
Qed.

Lemma word_bytes_ok w : Forall (fun b => 0 ≤ b < 256) (word_bytes w).
Proof. repeat constructor; apply Z.mod_pos_bound; lia. Qed.

Lemma sha256_bytes msg : Forall (fun b => 0 ≤ b < 256) (sha256 msg).
Proof.
  unfold sha256. generalize (blocks (length (words_of (padded msg)) / 16)
    (words_of (padded msg)) initial_hash) as st.
  induction st as [|w st IH]; [constructor|]. rewrite bind_cons.
  apply Forall_app. split; [apply word_bytes_ok|exact IH].
Qed.

Lemma hmac_sha256_length key msg : length (hmac_sha256 key msg) = 32%nat.
Proof. apply sha256_length. Qed.

(** FIPS 180-4, "abc"; RFC 4231, test case 2 (key "Jefe"). *)
Example sha256_abc : sha256 [97; 98; 99] =
  [186; 120; 22; 191; 143; 1; 207; 234; 65; 65; 64; 222; 93; 174; 34; 35;
   176; 3; 97; 163; 150; 23; 122; 156; 180; 16; 255; 97; 242; 0; 21; 173].
Proof. by vm_compute. Qed.

Example hmac_rfc4231_2 :
  hmac_sha256 [74; 101; 102; 101]
    [119; 104; 97; 116; 32; 100; 111; 32; 121; 97; 32; 119; 97; 110; 116; 32;
     102; 111; 114; 32; 110; 111; 116; 104; 105; 110; 103; 63] =
  [91; 220; 193; 70; 191; 96; 117; 78; 106; 4; 36; 38; 8; 149; 117; 199;
   90; 0; 63; 8; 157; 39; 57; 131; 157; 236; 88; 185; 100; 236; 56; 67].
Proof. by vm_compute. Qed.

#[global] Opaque hmac_sha256 sha256.
