(* ===== verification/Json.v ===== *)
(** * [encoding/json]

    The text [json.Marshal] and [json.Encoder] give a value, the scanner and
    the decoder's treatment of each kind of struct field.  Strings are UTF-8;
    the encoder escapes what HTML and JavaScript could misread. *)
From S2P Require Import Prelude GoBase Text.

(** ** Values and their text *)

Inductive json :=
| JNull
| JBool (b : bool)
| JInt (z : Z)
| JStr (s : string)
| JArr (l : list json)
| JObj (fields : list (string * json)).

Definition quote_char : ascii := "034".
Definition backslash : ascii := "092".

Definition hex_lower (z : Z) : ascii :=
  ascii_of_N (Z.to_N (if z <? 10 then z + 48 else z + 87)).

(** An ASCII character inside a string, and what follows. *)
Definition escape_ascii (c : ascii) (rest : string) : string :=
  let b := byte c in
  if bool_decide (c = quote_char ∨ c = backslash) then String backslash (String c rest)
  else if b =? 8 then String backslash (String "b" rest)
  else if b =? 12 then String backslash (String "f" rest)
  else if b =? 10 then String backslash (String "n" rest)
  else if b =? 13 then String backslash (String "r" rest)
  else if b =? 9 then String backslash (String "t" rest)
  else if (b <? 32) || bool_decide (c = "<"%char ∨ c = ">"%char ∨ c = "&"%char)
  then String backslash (String "u" (String "0" (String "0"
         (String (hex_lower (b / 16)) (String (hex_lower (b mod 16)) rest)))))
  else String c rest.

(** U+2028 and U+2029. *)
Definition line_separator (c1 c2 c3 : ascii) : bool :=
  (byte c1 =? 226) && (byte c2 =? 128) && ((byte c3 =? 168) || (byte c3 =? 169)).

Definition escape_unit (a b c d : ascii) (rest : string) : string :=
  String backslash (String "u" (String a (String b (String c (String d rest))))).

Fixpoint quote_to (s rest : string) : string :=
  match s with
  | EmptyString => rest
  | String c1 s1 =>
      let bad (_ : unit) := escape_unit "f" "f" "f" "d" (quote_to s1 rest) in
      if byte c1 <? 128 then escape_ascii c1 (quote_to s1 rest)
      else
        match s1 with
        | EmptyString => bad ()
        | String c2 s2 =>
            if utf8_2 c1 c2 then String c1 (String c2 (quote_to s2 rest))
            else
              match s2 with
              | EmptyString => bad ()
              | String c3 s3 =>
                  if utf8_3 c1 c2 c3 then
                    if line_separator c1 c2 c3
                    then escape_unit "2" "0" "2" (hex_lower (byte c3 - 160)) (quote_to s3 rest)
                    else String c1 (String c2 (String c3 (quote_to s3 rest)))
                  else
                    match s3 with
                    | EmptyString => bad ()
                    | String c4 s4 =>
                        if utf8_4 c1 c2 c3 c4
                        then String c1 (String c2 (String c3 (String c4 (quote_to s4 rest))))
                        else bad ()
                    end
              end
        end
  end.

Definition string_to (s rest : string) : string :=
  String quote_char (quote_to s (String quote_char rest)).

Fixpoint encode_to (j : json) (rest : string) : string :=
  match j with
  | JNull => "null" +:+ rest
  | JBool true => "true" +:+ rest
  | JBool false => "false" +:+ rest
  | JInt z => FormatInt z +:+ rest
  | JStr s => string_to s rest
  | JArr l =>
      String "[" ((fix items (l : list json) : string :=
        match l with
        | [] => String "]" rest
        | [j] => encode_to j (String "]" rest)
        | j :: l => encode_to j (String "," (items l))
        end) l)
  | JObj fields =>
      String "{" ((fix members (l : list (string * json)) : string :=
        match l with
        | [] => String "}" rest
        | [(k, j)] => string_to k (String ":" (encode_to j (String "}" rest)))
        | (k, j) :: l => string_to k (String ":" (encode_to j (String "," (members l))))
        end) fields)
  end.

Definition json_text (j : json) : string := encode_to j EmptyString.

(** A [map[string]any], whose keys the encoder writes in order: the assignment
    [m[k] = v], and a literal. *)
Fixpoint map_set (k : string) (v : json) (m : list (string * json)) : list (string * json) :=
  match m with
  | [] => [(k, v)]
  | (k', v') :: m' =>
      match String.compare k k' with
      | Lt => (k, v) :: m
      | Eq => (k, v) :: m'
      | Gt => (k', v') :: map_set k v m'
      end
  end.

Definition go_map (members : list (string * json)) : list (string * json) :=
  foldl (fun m '(k, v) => map_set k v m) [] members.

(** ** Scanning

    String literals and numbers are kept as they are written. *)
Inductive jval :=
| VNull
| VBool (b : bool)
| VNum (raw : string)
| VStr (raw : string)
| VArr (l : list jval)
| VObj (members : list (string * jval)).

Definition json_space (c : ascii) : bool :=
  (byte c =? 32) || (byte c =? 9) || (byte c =? 10) || (byte c =? 13).

Fixpoint skip_ws (s : string) : string :=
  match s with
  | String c s' => if json_space c then skip_ws s' else s
  | EmptyString => s
  end.

Definition simple_escape (c : ascii) : option ascii :=
  if bool_decide (c = quote_char) then Some quote_char
  else if bool_decide (c = backslash) then Some backslash
  else if bool_decide (c = "/"%char) then Some "/"%char
  else if bool_decide (c = "b"%char) then Some "008"%char
  else if bool_decide (c = "f"%char) then Some "012"%char
  else if bool_decide (c = "n"%char) then Some "010"%char
  else if bool_decide (c = "r"%char) then Some "013"%char
  else if bool_decide (c = "t"%char) then Some "009"%char
  else None.

Definition hex_any (c : ascii) : option Z :=
  let b := byte c in
  if (48 <=? b) && (b <=? 57) then Some (b - 48)
  else if (97 <=? b) && (b <=? 102) then Some (b - 87)
  else if (65 <=? b) && (b <=? 70) then Some (b - 55)
  else None.

Definition hex4 (a b c d : ascii) : option Z :=
  a ← hex_any a; b ← hex_any b; c ← hex_any c; d ← hex_any d;
  Some (((a * 16 + b) * 16 + c) * 16 + d).

Definition push (c : ascii) (r : option (string * string)) : option (string * string) :=
  '(raw, rest) ← r; Some (String c raw, rest).

(** After the opening quote: the literal up to the closing one. *)
Fixpoint scan_str (s : string) : option (string * string) :=
  match s with
  | EmptyString => None
  | String c s' =>
      if bool_decide (c = quote_char) then Some (EmptyString, s')
      else if byte c <? 32 then None
      else if bool_decide (c = backslash) then
        match s' with
        | EmptyString => None
        | String e s2 =>
            match simple_escape e with
            | Some _ => push c (push e (scan_str s2))
            | None =>
                if bool_decide (e = "u"%char) then
                  match s2 with
                  | String h1 (String h2 (String h3 (String h4 s3))) =>
                      match hex4 h1 h2 h3 h4 with
                      | Some _ => push c (push e (push h1 (push h2 (push h3 (push h4 (scan_str s3))))))
                      | None => None
                      end
                  | _ => None
                  end
                else None
            end
        end
      else push c (scan_str s')
  end.

Definition span_digits : string → string * string :=
  fix go s :=
    match s with
    | String c s' =>
        match digit_value c with
        | Some _ => let '(ds, rest) := go s' in (String c ds, rest)
        | None => (EmptyString, s)
        end
    | EmptyString => (EmptyString, s)
    end.

Definition some_digits (s : string) : option (string * string) :=
  match span_digits s with
  | (EmptyString, _) => None
  | r => Some r
  end.

(** No leading zero. *)
Definition scan_int (s : string) : option (string * string) :=
  match s with
  | String c s' =>
      if bool_decide (c = "0"%char) then Some (String c EmptyString, s') else some_digits s
  | EmptyString => None
  end.

Definition scan_fraction (s : string) : option (string * string) :=
  match s with
  | String c s' =>
      if bool_decide (c = "."%char) then push c (some_digits s') else Some (EmptyString, s)
  | EmptyString => Some (EmptyString, s)
  end.

Definition scan_exponent (s : string) : option (string * string) :=
  match s with
  | String c s' =>
      if bool_decide (c = "e"%char ∨ c = "E"%char) then
        match s' with
        | String sg s2 =>
            if bool_decide (sg = "+"%char ∨ sg = "-"%char) then push c (push sg (some_digits s2))
            else push c (some_digits s')
        | EmptyString => None
        end
      else Some (EmptyString, s)
  | EmptyString => Some (EmptyString, s)
  end.

Definition scan_num (s : string) : option (string * string) :=
  let '(sign, s) :=
    match s with
    | String c s' =>
        if bool_decide (c = "-"%char) then (String c EmptyString, s') else (EmptyString, s)
    | EmptyString => (EmptyString, s)
    end in
  '(int, s) ← scan_int s;
  '(frac, s) ← scan_fraction s;
  '(exp, s) ← scan_exponent s;
  Some (sign +:+ int +:+ frac +:+ exp, s).

(** Nesting deeper than this is refused. *)
Definition max_depth : Z := 10000.

Fixpoint parse_value (fuel : nat) (depth : Z) (s : string) : option (jval * string) :=
  match fuel with
  | O => None
  | S fuel =>
      match skip_ws s with
      | EmptyString => None
      | String c s' =>
          if bool_decide (c = quote_char) then '(raw, rest) ← scan_str s'; Some (VStr raw, rest)
          else if bool_decide (c = "{"%char) then
            if max_depth <=? depth then None
            else
              match skip_ws s' with
              | EmptyString => None
              | String c2 s2 =>
                  if bool_decide (c2 = "}"%char) then Some (VObj [], s2)
                  else '(ms, rest) ← parse_members fuel (depth + 1) s'; Some (VObj ms, rest)
              end
          else if bool_decide (c = "["%char) then
            if max_depth <=? depth then None
            else
              match skip_ws s' with
              | EmptyString => None
              | String c2 s2 =>
                  if bool_decide (c2 = "]"%char) then Some (VArr [], s2)
                  else '(l, rest) ← parse_items fuel (depth + 1) s'; Some (VArr l, rest)
              end
          else if HasPrefix (String c s') "true" then Some (VBool true, drop_bytes 4 (String c s'))
          else if HasPrefix (String c s') "false" then Some (VBool false, drop_bytes 5 (String c s'))
          else if HasPrefix (String c s') "null" then Some (VNull, drop_bytes 4 (String c s'))
          else '(raw, rest) ← scan_num (String c s'); Some (VNum raw, rest)
      end
  end
with parse_items (fuel : nat) (depth : Z) (s : string) : option (list jval * string) :=
  match fuel with
  | O => None
  | S fuel =>
      '(v, s) ← parse_value fuel depth s;
      match skip_ws s with
      | EmptyString => None
      | String c s =>
          if bool_decide (c = "]"%char) then Some ([v], s)
          else if bool_decide (c = ","%char) then
            '(l, rest) ← parse_items fuel depth s; Some (v :: l, rest)
          else None
      end
  end
with parse_members (fuel : nat) (depth : Z) (s : string) : option (list (string * jval) * string) :=
  match fuel with
  | O => None
  | S fuel =>
      match skip_ws s with
      | EmptyString => None
      | String q s =>
          if negb (bool_decide (q = quote_char)) then None
          else
            '(k, s) ← scan_str s;
            match skip_ws s with
            | EmptyString => None
            | String c s =>
                if negb (bool_decide (c = ":"%char)) then None
                else
                  '(v, s) ← parse_value fuel depth s;
                  match skip_ws s with
                  | EmptyString => None
                  | String c s =>
                      if bool_decide (c = "}"%char) then Some ([(k, v)], s)
                      else if bool_decide (c = ","%char) then
                        '(l, rest) ← parse_members fuel depth s; Some ((k, v) :: l, rest)
                      else None
                  end
            end
      end
  end.

(** Every call of the parser is given fewer bytes than the last: two steps of
    fuel a byte are more than it uses. *)
Definition parse_fuel (s : string) : nat := 2 * String.length s + 2.

(** [json.Decoder.Decode]: the first value of a stream; what follows is not
    looked at. *)
Definition json_first (s : string) : option jval := fst <$> parse_value (parse_fuel s) 0 s.

Definition json_parse (s : string) : option jval :=
  '(v, rest) ← parse_value (parse_fuel s) 0 s;
  if bool_decide (skip_ws rest = EmptyString) then Some v else None.
