(* ===== verification/Calendar.v ===== *)
(** * [time]: the calendar and RFC 3339

    Instants to dates and back, the text [time.RFC3339Nano] and
    [time.RFC3339] give an instant in UTC, and the parser of that layout with
    its leniencies (one-digit hours, a comma before the fraction, any number of
    fractional digits, generous offsets). *)
From S2P Require Import Prelude GoBase Ids Text.

(** ** Dates

    Days are counted from January 1 of year 1. *)
Definition is_leap (y : Z) : bool :=
  (y mod 4 =? 0) && (negb (y mod 100 =? 0) || (y mod 400 =? 0)).

Definition month_lengths (leap : bool) : list Z :=
  [31; if leap then 29 else 28; 31; 30; 31; 30; 31; 31; 30; 31; 30; 31].

Definition days_before_year (y : Z) : Z :=
  365 * (y - 1) + (y - 1) / 4 - (y - 1) / 100 + (y - 1) / 400.
Definition days_before_month (leap : bool) (m : Z) : Z :=
  foldr Z.add 0 (take (Z.to_nat (m - 1)) (month_lengths leap)).
Definition days_in (m y : Z) : Z := nth (Z.to_nat (m - 1)) (month_lengths (is_leap y)) 0.

Definition days_of_date (y m d : Z) : Z :=
  days_before_year y + days_before_month (is_leap y) m + (d - 1).

Fixpoint find_month (lengths : list Z) (m yday : Z) : Z * Z :=
  match lengths with
  | [] => (m, yday + 1)
  | l :: lengths => if yday <? l then (m, yday + 1) else find_month lengths (m + 1) (yday - l)
  end.

(** Cycles of 400 years, then centuries, then four years, then years; the last
    of a cycle absorbs its leap day. *)
Definition year_of_days (z : Z) : Z * Z :=
  let n400 := z / 146097 in
  let r := z - 146097 * n400 in
  let n100 := Z.min 3 (r / 36524) in
  let r := r - 36524 * n100 in
  let n4 := r / 1461 in
  let r := r - 1461 * n4 in
  let n1 := Z.min 3 (r / 365) in
  (400 * n400 + 100 * n100 + 4 * n4 + n1 + 1, r - 365 * n1).

Definition date_of_days (z : Z) : Z * Z * Z :=
  let '(y, yday) := year_of_days z in
  let '(m, d) := find_month (month_lengths (is_leap y)) 1 yday in (y, m, d).

(** The epoch, January 1, 1970. *)
Definition epoch_days : Z := 719162.

(** ** Text *)

Definition dec_digit (z : Z) : ascii := ascii_of_N (Z.to_N (z + 48)).

(** [n] digits of [z], and what follows. *)
Fixpoint dec_text (n : nat) (z : Z) (rest : string) : string :=
  match n with
  | O => rest
  | S n => dec_text n (z / 10) (String (dec_digit (z mod 10)) rest)
  end.

Fixpoint trim_zeros (s : string) : string :=
  match s with
  | EmptyString => EmptyString
  | String c s =>
      match trim_zeros s with
      | EmptyString => if bool_decide (c = "0"%char) then EmptyString else String c EmptyString
      | s => String c s
      end
  end.

Definition fraction_text (nanos : Z) (rest : string) : string :=
  match trim_zeros (dec_text 9 nanos EmptyString) with
  | EmptyString => rest
  | digits => String "." (digits +:+ rest)
  end.

(** The clock of an instant: seconds of the day, and nanoseconds. *)
Definition unix_days (t : Time) : Z := t / Second / 86400 + epoch_days.
Definition day_seconds (t : Time) : Z := (t / Second) mod 86400.
Definition nanosecond (t : Time) : Z := t mod Second.

(** A year of at least four digits. *)
Definition year_text (y : Z) (rest : string) : string :=
  if (0 <=? y) && (y <=? 9999) then dec_text 4 y rest
  else if y <? 0
  then String "-" ((if - y <=? 9999 then dec_text 4 (- y) EmptyString else FormatInt (- y)) +:+ rest)
  else FormatInt y +:+ rest.

Definition format_rfc3339 (nano : bool) (t : Time) : string :=
  let '(y, m, d) := date_of_days (unix_days t) in
  let s := day_seconds t in
  year_text y (String "-" (dec_text 2 m (String "-" (dec_text 2 d (String "T"
    (dec_text 2 (s / 3600) (String ":" (dec_text 2 (s / 60 mod 60) (String ":" (dec_text 2 (s mod 60)
       (if nano then fraction_text (nanosecond t) "Z" else "Z"))))))))))).

(** ** Parsing *)

Fixpoint read_digits (n : nat) (acc : Z) (s : string) : option (Z * string) :=
  match n, s with
  | O, _ => Some (acc, s)
  | S n, String c s => d ← digit_value c; read_digits n (10 * acc + d) s
  | S _, EmptyString => None
  end.

Definition read_char (c : ascii) (s : string) : option string :=
  match s with
  | String c' s => if bool_decide (c' = c) then Some s else None
  | EmptyString => None
  end.

(** One digit, or two. *)
Definition read_hour (s : string) : option (Z * string) :=
  match read_digits 2 0 s with
  | Some r => Some r
  | None => read_digits 1 0 s
  end.

(** The first nine digits count. *)
Fixpoint fraction_value (n : nat) (s : string) : Z :=
  match n, s with
  | S n, String c s =>
      match digit_value c with
      | Some d => d * 10 ^ Z.of_nat n + fraction_value n s
      | None => 0
      end
  | _, _ => 0
  end.

Fixpoint skip_digits (s : string) : string :=
  match s with
  | String c s' => match digit_value c with Some _ => skip_digits s' | None => s end
  | EmptyString => s
  end.

Definition read_fraction (s : string) : Z * string :=
  match s with
  | String p (String c s') =>
      if bool_decide (p = "."%char ∨ p = ","%char)
      then match digit_value c with
           | Some _ => (fraction_value 9 (String c s'), skip_digits s')
           | None => (0, s)
           end
      else (0, s)
  | _ => (0, s)
  end.

(** The offset from UTC in seconds. *)
Definition read_zone (s : string) : option (Z * string) :=
  match s with
  | String sign rest =>
      if bool_decide (sign = "Z"%char) then Some (0, rest)
      else
        '(h, rest) ← read_digits 2 0 rest;
        rest ← read_char ":" rest;
        '(mi, rest) ← read_digits 2 0 rest;
        if (24 <? h) || (60 <? mi) then None
        else if bool_decide (sign = "+"%char) then Some (h * 3600 + mi * 60, rest)
        else if bool_decide (sign = "-"%char) then Some (- (h * 3600 + mi * 60), rest)
        else None
  | EmptyString => None
  end.

Definition parse_rfc3339 (s : string) : option Time :=
  '(y, s) ← read_digits 4 0 s; s ← read_char "-" s;
  '(m, s) ← read_digits 2 0 s; s ← read_char "-" s;
  '(d, s) ← read_digits 2 0 s; s ← read_char "T" s;
  '(h, s) ← read_hour s; s ← read_char ":" s;
  '(mi, s) ← read_digits 2 0 s; s ← read_char ":" s;
  '(sec, s) ← read_digits 2 0 s;
  let '(nanos, s) := read_fraction s in
  '(offset, s) ← read_zone s;
  if negb ((1 <=? m) && (m <=? 12) && (h <? 24) && (mi <? 60) && (sec <? 60) &&
           (1 <=? d) && (d <=? days_in m y) && bool_decide (s = EmptyString))
  then None
  else Some (((days_of_date y m d - epoch_days) * 86400 + h * 3600 + mi * 60 + sec - offset) * Second
             + nanos).

Example format_epoch : format_rfc3339 true 0 = "1970-01-01T00:00:00Z".
Proof. reflexivity. Qed.
Example format_leap : format_rfc3339 true (1709211723 * Second + 120000000) = "2024-02-29T13:02:03.12Z".
Proof. reflexivity. Qed.
Example parse_offset : parse_rfc3339 "2024-02-29T14:02:03,12+01:00" = Some (1709211723 * Second + 120000000).
Proof. reflexivity. Qed.
Example parse_no_such_day : parse_rfc3339 "2023-02-29T00:00:00Z" = None.
Proof. reflexivity. Qed.

(** * The calendar is exact, and RFC 3339 text reads back

    Every day has one date, and an instant of the years 0 to 9999 is recovered,
    to the nanosecond, from the text [time.RFC3339Nano] gives it. *)

(** ** Years *)

Lemma div_in a b q : 0 < b → b * q ≤ a < b * (q + 1) → a / b = q.
Proof. intros Hb Ha. symmetry. apply Z.div_unique with (a - b * q); lia. Qed.

Definition year_length (y : Z) : Z := if is_leap y then 366 else 365.

Lemma year_of_days_spec z :
  let '(y, yday) := year_of_days z in
  days_before_year y + yday = z ∧ 0 ≤ yday < year_length y.
Proof.
  unfold year_of_days. set (n400 := z / 146097).
  pose proof (Z.div_mod z 146097 ltac:(lia)). pose proof (Z.mod_pos_bound z 146097 ltac:(lia)).
  fold n400 in H. set (r1 := z - 146097 * n400). assert (Hr1 : 0 ≤ r1 < 146097) by lia.
  set (n100 := Z.min 3 (r1 / 36524)).
  pose proof (Z.div_mod r1 36524 ltac:(lia)). pose proof (Z.mod_pos_bound r1 36524 ltac:(lia)).
  set (r2 := r1 - 36524 * n100).
  assert (Hr2 : 0 ≤ n100 ≤ 3 ∧ 0 ≤ r2 ∧ (r2 < 36524 ∨ n100 = 3 ∧ r2 < 36525)) by lia.
  set (n4 := r2 / 1461). pose proof (Z.div_mod r2 1461 ltac:(lia)).
  pose proof (Z.mod_pos_bound r2 1461 ltac:(lia)). fold n4 in H3.
  set (r3 := r2 - 1461 * n4).
  assert (Hr3 : 0 ≤ n4 ≤ 24 ∧ 0 ≤ r3 < 1461 ∧ (n4 = 24 → n100 < 3 → r3 < 1460)) by lia.
  set (n1 := Z.min 3 (r3 / 365)).
  pose proof (Z.div_mod r3 365 ltac:(lia)). pose proof (Z.mod_pos_bound r3 365 ltac:(lia)).
  set (yday := r3 - 365 * n1).
  assert (Hn1 : 0 ≤ n1 ≤ 3 ∧ 0 ≤ yday ∧ (yday < 365 ∨ n1 = 3 ∧ yday < 366 ∧ (n4 = 24 → n100 = 3))) by lia.
  set (y := 400 * n400 + 100 * n100 + 4 * n4 + n1 + 1).
  assert (Hy4 : (y - 1) / 4 = 100 * n400 + 25 * n100 + n4) by (apply div_in; lia).
  assert (Hy100 : (y - 1) / 100 = 4 * n400 + n100) by (apply div_in; lia).
  assert (Hy400 : (y - 1) / 400 = n400) by (apply div_in; lia).
  split; [unfold days_before_year; rewrite Hy4, Hy100, Hy400; lia|]. split; [lia|].
  unfold year_length. destruct Hn1 as (Hb & Hy0 & [Hlt|(H3' & Hlt & Hc)]).
  { destruct (is_leap y); lia. }
  assert (Hm4 : y mod 4 = 0) by (apply Z.mod_divide; [lia|]; exists (100 * n400 + 25 * n100 + n4 + 1); lia).
  unfold is_leap. rewrite Hm4. cbn [Z.eqb andb].
  destruct (decide (n4 = 24)) as [H24|H24].
  - assert (Hm : y mod 400 = 0) by (apply Z.mod_divide; [lia|]; exists (n400 + 1); lia).
    rewrite Hm. cbn [Z.eqb]. rewrite orb_true_r. lia.
  - assert (Hm : y mod 100 ≠ 0).
    { rewrite <- (Z.mod_unique y 100 (4 * n400 + n100) (4 * n4 + n1 + 1)); lia. }
    apply Z.eqb_neq in Hm. rewrite Hm. cbn [negb orb]. lia.
Qed.

Lemma days_before_year_mono y y' : y ≤ y' → days_before_year y ≤ days_before_year y'.
Proof.
  intros Hy. unfold days_before_year.
  pose proof (Z.div_mod (y - 1) 4 ltac:(lia)). pose proof (Z.mod_pos_bound (y - 1) 4 ltac:(lia)).
  pose proof (Z.div_mod (y' - 1) 4 ltac:(lia)). pose proof (Z.mod_pos_bound (y' - 1) 4 ltac:(lia)).
  pose proof (Z.div_mod (y - 1) 100 ltac:(lia)). pose proof (Z.mod_pos_bound (y - 1) 100 ltac:(lia)).
  pose proof (Z.div_mod (y' - 1) 100 ltac:(lia)). pose proof (Z.mod_pos_bound (y' - 1) 100 ltac:(lia)).
  pose proof (Z.div_mod (y - 1) 400 ltac:(lia)). pose proof (Z.mod_pos_bound (y - 1) 400 ltac:(lia)).
  pose proof (Z.div_mod (y' - 1) 400 ltac:(lia)). pose proof (Z.mod_pos_bound (y' - 1) 400 ltac:(lia)).
  lia.
Qed.

(** ** Dates *)

Ltac compute_closed :=
  repeat match goal with
  | |- context [days_before_month ?l ?m] =>
      let v := eval vm_compute in (days_before_month l m) in change (days_before_month l m) with v
  | |- context [nth ?n (month_lengths ?l) 0] =>
      let v := eval vm_compute in (nth n (month_lengths l) 0) in change (nth n (month_lengths l) 0) with v
  end.

Lemma find_month_spec leap yday :
  0 ≤ yday < (if leap : bool then 366 else 365) →
  let '(m, d) := find_month (month_lengths leap) 1 yday in
  1 ≤ m ≤ 12 ∧ 1 ≤ d ≤ nth (Z.to_nat (m - 1)) (month_lengths leap) 0 ∧
  days_before_month leap m + (d - 1) = yday.
Proof.
  intros Hy. destruct leap.
  - change (find_month (month_lengths true)) with
      (find_month [31; 29; 31; 30; 31; 30; 31; 31; 30; 31; 30; 31]).
    cbn [find_month]. repeat (case_test; to_prop; [compute_closed; lia|]). lia.
  - change (find_month (month_lengths false)) with
      (find_month [31; 28; 31; 30; 31; 30; 31; 31; 30; 31; 30; 31]).
    cbn [find_month]. repeat (case_test; to_prop; [compute_closed; lia|]). lia.
Qed.

Lemma date_of_days_spec z :
  let '(y, m, d) := date_of_days z in
  days_of_date y m d = z ∧ 1 ≤ m ≤ 12 ∧ 1 ≤ d ≤ days_in m y ∧
  days_before_year y ≤ z < days_before_year (y + 1) ∧ d ≤ 31.
Proof.
  unfold date_of_days. pose proof (year_of_days_spec z) as Hy.
  destruct (year_of_days z) as [y yday]. destruct Hy as [Hz Hyd].
  pose proof (find_month_spec (is_leap y) yday Hyd) as Hm.
  destruct (find_month _ 1 yday) as [m d]. destruct Hm as (Hm & Hd & Heq).
  split; [unfold days_of_date; lia|]. split; [done|]. split; [done|]. split.
  - split; [lia|]. assert (Hn : days_before_year (y + 1) = days_before_year y + year_length y); [|lia].
    clear. unfold days_before_year, year_length, is_leap.
    replace (y + 1 - 1) with (y - 1 + 1) by lia. set (n := y - 1). replace y with (n + 1) by lia. clearbody n.
    assert (Hs : ∀ k, 0 < k → (n + 1) / k = n / k + (if (n + 1) mod k =? 0 then 1 else 0)).
    { intros k Hk. pose proof (Z.div_mod (n + 1) k ltac:(lia)). pose proof (Z.mod_pos_bound (n + 1) k Hk).
      destruct (_ =? 0) eqn:Hzero; to_prop; [|symmetry; rewrite Z.add_0_r; apply div_in; lia].
      assert (n / k = (n + 1) / k - 1); [|lia]. apply div_in; lia. }
    rewrite (Hs 4), (Hs 100), (Hs 400) by lia.
    assert (H1 : (n + 1) mod 400 = 0 → (n + 1) mod 100 = 0).
    { intros H%Z.mod_divide; [|lia]. apply Z.mod_divide; [lia|]. etransitivity; [|exact H]. by exists 4. }
    assert (H2 : (n + 1) mod 100 = 0 → (n + 1) mod 4 = 0).
    { intros H%Z.mod_divide; [|lia]. apply Z.mod_divide; [lia|]. etransitivity; [|exact H]. by exists 25. }
    destruct ((n + 1) mod 4 =? 0) eqn:?, ((n + 1) mod 100 =? 0) eqn:?, ((n + 1) mod 400 =? 0) eqn:?;
      cbn [andb orb negb]; to_prop; lia || (exfalso; auto).
  - assert (Hn : ∀ n l, nth n (month_lengths l) 0 ≤ 31); [|pose proof (Hn (Z.to_nat (m - 1)) (is_leap y)); lia].
    intros n l. do 12 (destruct n as [|n]; [destruct l; simpl; lia|]). simpl. destruct n; lia.
Qed.

(** ** Digits *)

Lemma dec_digit_value z : 0 ≤ z < 10 → digit_value (dec_digit z) = Some z.
Proof.
  intros Hz. assert (z = 0 ∨ z = 1 ∨ z = 2 ∨ z = 3 ∨ z = 4 ∨ z = 5 ∨ z = 6 ∨ z = 7 ∨ z = 8 ∨ z = 9)
    by lia. by destruct_or!; subst.
Qed.

Lemma pow_succ_nat n : 10 ^ Z.of_nat (S n) = 10 * 10 ^ Z.of_nat n.
Proof. rewrite Nat2Z.inj_succ, Z.pow_succ_r by lia. done. Qed.

Lemma dec_step n z : 0 ≤ z < 10 ^ Z.of_nat (S n) → 0 ≤ z / 10 < 10 ^ Z.of_nat n ∧ 0 ≤ z mod 10 < 10.
Proof.
  rewrite pow_succ_nat. intros Hz. split; [|by apply Z.mod_pos_bound].
  split; [apply Z.div_pos; lia|apply Z.div_lt_upper_bound; lia].
Qed.

Lemma read_dec_text n k z acc rest :
  0 ≤ z < 10 ^ Z.of_nat n →
  read_digits (n + k) acc (dec_text n z rest) = read_digits k (acc * 10 ^ Z.of_nat n + z) rest.
Proof.
  revert k z rest. induction n as [|n IH]; intros k z rest Hz.
  { simpl in Hz. assert (z = 0) as -> by lia. simpl. by rewrite Z.mul_1_r, Z.add_0_r. }
  destruct (dec_step n z Hz) as [Hq Hr]. cbn [dec_text].
  replace (S n + k)%nat with (n + S k)%nat by lia. rewrite IH by done.
  cbn [read_digits]. rewrite dec_digit_value by done. cbn [mbind option_bind].
  rewrite pow_succ_nat. f_equal. pose proof (Z.div_mod z 10). lia.
Qed.

Lemma read_exact n z rest :
  0 ≤ z < 10 ^ Z.of_nat n → read_digits n 0 (dec_text n z rest) = Some (z, rest).
Proof.
  intros Hz. replace (read_digits n) with (read_digits (n + 0)) by (f_equal; lia).
  by rewrite read_dec_text.
Qed.

Lemma fraction_dec_text n k z rest :
  0 ≤ z < 10 ^ Z.of_nat n →
  fraction_value (n + k) (dec_text n z rest) = z * 10 ^ Z.of_nat k + fraction_value k rest.
Proof.
  revert k z rest. induction n as [|n IH]; intros k z rest Hz.
  { simpl in Hz. assert (z = 0) as -> by lia. done. }
  destruct (dec_step n z Hz) as [Hq Hr]. cbn [dec_text].
  replace (S n + k)%nat with (n + S k)%nat by lia. rewrite IH by done.
  cbn [fraction_value]. rewrite dec_digit_value by done.
  rewrite pow_succ_nat. pose proof (Z.div_mod z 10). nia.
Qed.

(** ** Fractions *)

Definition is_digit (c : ascii) : bool := match digit_value c with Some _ => true | None => false end.

Lemma dec_text_digits n z rest :
  0 ≤ z < 10 ^ Z.of_nat n → all_chars is_digit rest = true → all_chars is_digit (dec_text n z rest) = true.
Proof.
  revert z rest. induction n as [|n IH]; intros z rest Hz Hr; [done|].
  destruct (dec_step n z Hz) as [Hq Hm]. cbn [dec_text]. apply IH; [done|].
  cbn [all_chars]. unfold is_digit. by rewrite dec_digit_value.
Qed.

Lemma trim_zeros_digits s : all_chars is_digit s = true → all_chars is_digit (trim_zeros s) = true.
Proof.
  induction s as [|c s IH]; [done|]. cbn [all_chars trim_zeros]. intros [Hc Hs]%andb_true_iff.
  specialize (IH Hs). destruct (trim_zeros s) as [|c' s'].
  - case_bool_decide; [done|]. cbn [all_chars]. by rewrite Hc.
  - cbn [all_chars] in *. by rewrite Hc.
Qed.

Lemma trim_zeros_value n s : fraction_value n (trim_zeros s) = fraction_value n s.
Proof.
  revert n. induction s as [|c s IH]; intros n; [done|]. cbn [trim_zeros].
  destruct n as [|n]; [by destruct (trim_zeros s); [case_bool_decide|]|].
  specialize (IH n). destruct (trim_zeros s) as [|c' s'] eqn:Ht.
  - assert (Hs : fraction_value n s = 0) by (rewrite <- IH; by destruct n).
    case_bool_decide as Hc.
    + subst c. cbn [fraction_value digit_value]. simpl. lia.
    + cbn [fraction_value]. rewrite Hs. by destruct (digit_value c); [destruct n|].
  - cbn [fraction_value] in *. by rewrite <- IH.
Qed.

Lemma skip_digits_app u c r :
  all_chars is_digit u = true → is_digit c = false →
  skip_digits (u +:+ String c r) = String c r.
Proof.
  unfold is_digit. intros Hu Hc. induction u as [|d u IH].
  - change (EmptyString +:+ String c r) with (String c r). cbn [skip_digits].
    by destruct (digit_value c).
  - change (String d u +:+ String c r) with (String d (u +:+ String c r)). cbn [all_chars] in Hu.
    apply andb_true_iff in Hu as [Hd Hu]. cbn [skip_digits].
    destruct (digit_value d); [by apply IH|done].
Qed.

Lemma fraction_value_app n u c r :
  all_chars is_digit u = true → is_digit c = false →
  fraction_value n (u +:+ String c r) = fraction_value n u.
Proof.
  unfold is_digit. revert n. induction u as [|d u IH]; intros n Hu Hc.
  - change (EmptyString +:+ String c r) with (String c r). destruct n; [done|]. cbn [fraction_value].
    by destruct (digit_value c).
  - change (String d u +:+ String c r) with (String d (u +:+ String c r)). cbn [all_chars] in Hu.
    apply andb_true_iff in Hu as [Hd Hu]. destruct n; [done|]. cbn [fraction_value].
    destruct (digit_value d); [by rewrite IH|done].
Qed.

(** The fraction, written without trailing zeros, reads back. *)
Lemma read_fraction_text nanos c r :
  0 ≤ nanos < Second → is_digit c = false → c ≠ "."%char → c ≠ ","%char →
  read_fraction (fraction_text nanos (String c r)) = (nanos, String c r).
Proof.
  intros Hn Hc Hdot Hcomma.
  assert (Hn' : 0 ≤ nanos < 10 ^ Z.of_nat 9) by exact Hn.
  assert (Hv : fraction_value 9 (trim_zeros (dec_text 9 nanos EmptyString)) = nanos).
  { rewrite trim_zeros_value. pose proof (fraction_dec_text 9 0 nanos EmptyString Hn') as Hf.
    change (9 + 0)%nat with 9%nat in Hf. rewrite Hf. simpl fraction_value. lia. }
  pose proof (trim_zeros_digits _ (dec_text_digits 9 nanos EmptyString Hn' eq_refl)) as Hd.
  unfold fraction_text. destruct (trim_zeros _) as [|d u] eqn:Ht.
  - change (fraction_value 9 EmptyString) with 0 in Hv. subst nanos. unfold read_fraction.
    destruct r as [|c2 r]; [done|]. rewrite bool_decide_eq_false_2 by tauto. done.
  - change (String d u +:+ String c r) with (String d (u +:+ String c r)). unfold read_fraction.
    rewrite bool_decide_eq_true_2 by auto.
    pose proof (skip_digits_app (String d u) c r Hd Hc) as Hs.
    pose proof (fraction_value_app 9 (String d u) c r Hd Hc) as Hf. rewrite Hv in Hf.
    change (String d u +:+ String c r) with (String d (u +:+ String c r)) in Hs, Hf.
    cbn [all_chars] in Hd. apply andb_true_iff in Hd as [Hd _]. unfold is_digit in Hd.
    cbn [skip_digits] in Hs. destruct (digit_value d); [|done]. by rewrite Hs, Hf.
Qed.

(** ** The round trip *)

Definition rfc3339_time (t : Time) : Prop := -62167219200 * Second ≤ t < 253402300800 * Second.

Lemma year_in_range t :
  rfc3339_time t → let '(y, _, _) := date_of_days (unix_days t) in 0 ≤ y ≤ 9999.
Proof.
  intros [Hlo Hhi]. pose proof (date_of_days_spec (unix_days t)) as Hd.
  destruct (date_of_days (unix_days t)) as [[y m] d]. destruct Hd as (_ & _ & _ & [Hy1 Hy2] & _).
  assert (Hs : -62167219200 ≤ t / Second < 253402300800).
  { split; [apply Z.div_le_lower_bound|apply Z.div_lt_upper_bound]; unfold Second in *; lia. }
  assert (Hu : days_before_year 0 ≤ unix_days t < days_before_year 10000).
  { change (days_before_year 0) with (-366). change (days_before_year 10000) with 3652059.
    unfold unix_days, epoch_days.
    pose proof (Z.div_le_mono (-62167219200) (t / Second) 86400 ltac:(lia) ltac:(lia)) as H1.
    pose proof (Z.div_lt_upper_bound (t / Second) 86400 2932897 ltac:(lia) ltac:(lia)) as H2.
    change (-62167219200 / 86400) with (-719528) in H1. lia. }
  split.
  - destruct (decide (y < 0)); [|lia]. pose proof (days_before_year_mono (y + 1) 0 ltac:(lia)). lia.
  - destruct (decide (9999 < y)); [|lia]. pose proof (days_before_year_mono 10000 y ltac:(lia)). lia.
Qed.

Lemma clock_range t :
  0 ≤ day_seconds t < 86400 ∧ 0 ≤ nanosecond t < Second ∧
  ((unix_days t - epoch_days) * 86400 + day_seconds t) * Second + nanosecond t = t.
Proof.
  unfold day_seconds, nanosecond, unix_days. pose proof (Z.mod_pos_bound (t / Second) 86400 ltac:(lia)).
  pose proof (Z.mod_pos_bound t Second ltac:(done)).
  pose proof (Z.div_mod (t / Second) 86400 ltac:(lia)). pose proof (Z.div_mod t Second ltac:(done)).
  split; [done|]. split; [done|]. nia.
Qed.

Lemma read_zone_Z : read_zone "Z" = Some (0, EmptyString).
Proof. reflexivity. Qed.

Lemma read_hour_text z rest : 0 ≤ z < 100 → read_hour (dec_text 2 z rest) = Some (z, rest).
Proof. intros Hz. unfold read_hour. by rewrite read_exact. Qed.

Lemma parse_format nano t :
  rfc3339_time t → (nano = false → nanosecond t = 0) →
  parse_rfc3339 (format_rfc3339 nano t) = Some t.
Proof.
  intros Ht Hnano. pose proof (year_in_range t Ht) as Hy.
  pose proof (date_of_days_spec (unix_days t)) as Hd. unfold format_rfc3339.
  destruct (date_of_days (unix_days t)) as [[y m] d]. destruct Hd as (Heq & Hm & Hd & _ & H31).
  destruct (clock_range t) as (Hs & Hn & Hsum). set (s := day_seconds t) in *.
  assert (Hh : 0 ≤ s / 3600 < 24) by (split; [apply Z.div_pos|apply Z.div_lt_upper_bound]; lia).
  pose proof (Z.mod_pos_bound (s / 60) 60 ltac:(lia)). pose proof (Z.mod_pos_bound s 60 ltac:(lia)).
  assert (Hclock : s / 3600 * 3600 + s / 60 mod 60 * 60 + s mod 60 = s).
  { replace (s / 3600) with (s / 60 / 60) by (rewrite Z.div_div by lia; done).
    pose proof (Z.div_mod s 60 ltac:(lia)). pose proof (Z.div_mod (s / 60) 60 ltac:(lia)). lia. }
  unfold parse_rfc3339, year_text. rewrite (proj2 (Z.leb_le 0 y)), (proj2 (Z.leb_le y 9999)) by lia.
  cbn [andb]. rewrite read_exact by (simpl; lia).
  assert (Hread : ∀ c rest, read_char c (String c rest) = Some rest).
  { intros c rest. cbn [read_char]. by rewrite bool_decide_eq_true_2. }
  do 12 (cbn [mbind option_bind]; rewrite ?Hread, ?read_exact, ?read_hour_text by (simpl; lia)).
  assert (Hf : read_fraction (if nano then fraction_text (nanosecond t) "Z" else "Z") = (nanosecond t, "Z"%string)).
  { destruct nano; [by apply read_fraction_text|]. by rewrite Hnano. }
  rewrite Hf. cbn [read_zone mbind option_bind]. rewrite bool_decide_eq_true_2 by done.
  cbn [mbind option_bind].
  rewrite !(fun a b => proj2 (Z.leb_le a b)) by lia. rewrite !(fun a b => proj2 (Z.ltb_lt a b)) by lia.
  rewrite bool_decide_eq_true_2 by done. cbn [andb negb]. f_equal. rewrite Heq. lia.
Qed.
