(* ===== verification/JsonDecode.v ===== *)
(** * [json.Unmarshal] into structs

    Literals to values, and a struct as the fold of its members over the zero
    value: names match up to case, unknown members are skipped, the last of
    duplicates wins, and [null] leaves a field that is not a pointer alone. *)
From S2P Require Import Prelude GoBase Ids Text Calendar Json.

(** ** String literals *)

Definition ascii_of (z : Z) : ascii := ascii_of_N (Z.to_N z).

(** A code point in UTF-8; surrogates and values past the last become U+FFFD. *)
Definition utf8_to (r : Z) (rest : string) : string :=
  if r <? 128 then String (ascii_of r) rest
  else if r <? 2048
  then String (ascii_of (192 + r / 64)) (String (ascii_of (128 + r mod 64)) rest)
  else if (1114111 <? r) || ((55296 <=? r) && (r <=? 57343))
  then String "239" (String "191" (String "189" rest))
  else if r <? 65536
  then String (ascii_of (224 + r / 4096))
         (String (ascii_of (128 + r / 64 mod 64)) (String (ascii_of (128 + r mod 64)) rest))
  else String (ascii_of (240 + r / 262144))
         (String (ascii_of (128 + r / 4096 mod 64))
            (String (ascii_of (128 + r / 64 mod 64)) (String (ascii_of (128 + r mod 64)) rest))).

Definition replacement : Z := 65533.
Definition is_surrogate (r : Z) : bool := (55296 <=? r) && (r <=? 57343).

(** A surrogate pair's code point. *)
Definition decode_pair (r1 r2 : Z) : option Z :=
  if (55296 <=? r1) && (r1 <? 56320) && (56320 <=? r2) && (r2 <=? 57343)
  then Some ((r1 - 55296) * 1024 + (r2 - 56320) + 65536)
  else None.

(** The four digits of a [\u] escape at the head. *)
Definition unit_at (s : string) : option (Z * string) :=
  match s with
  | String b (String u (String h1 (String h2 (String h3 (String h4 s))))) =>
      if bool_decide (b = backslash) && bool_decide (u = "u"%char)
      then r ← hex4 h1 h2 h3 h4; Some (r, s)
      else None
  | _ => None
  end.

(** The string a scanned literal stands for: escapes decoded, bytes that are not
    UTF-8 replaced by U+FFFD. *)
Fixpoint unquote (s : string) : string :=
  match s with
  | EmptyString => EmptyString
  | String c s1 =>
      if bool_decide (c = backslash) then
        match s1 with
        | EmptyString => EmptyString
        | String e s2 =>
            match simple_escape e with
            | Some v => String v (unquote s2)
            | None =>
                match s2 with
                | String h1 (String h2 (String h3 (String h4 s3))) =>
                    match hex4 h1 h2 h3 h4 with
                    | None => EmptyString
                    | Some r =>
                        if is_surrogate r then
                          match s3 with
                          | String b (String u (String g1 (String g2 (String g3 (String g4 s4))))) =>
                              if bool_decide (b = backslash) && bool_decide (u = "u"%char) then
                                match r' ← hex4 g1 g2 g3 g4; decode_pair r r' with
                                | Some p => utf8_to p (unquote s4)
                                | None => utf8_to replacement (unquote s3)
                                end
                              else utf8_to replacement (unquote s3)
                          | _ => utf8_to replacement (unquote s3)
                          end
                        else utf8_to r (unquote s3)
                    end
                | _ => EmptyString
                end
            end
        end
      else if byte c <? 128 then String c (unquote s1)
      else
        let bad (_ : unit) := utf8_to replacement (unquote s1) in
        match s1 with
        | EmptyString => bad ()
        | String c2 s2 =>
            if utf8_2 c c2 then String c (String c2 (unquote s2))
            else
              match s2 with
              | EmptyString => bad ()
              | String c3 s3 =>
                  if utf8_3 c c2 c3 then String c (String c2 (String c3 (unquote s3)))
                  else
                    match s3 with
                    | EmptyString => bad ()
                    | String c4 s4 =>
                        if utf8_4 c c2 c3 c4
                        then String c (String c2 (String c3 (String c4 (unquote s4))))
                        else bad ()
                    end
              end
        end
  end.

(** ** Field names

    ASCII letters in upper case; the long s and the Kelvin sign fold to [S] and
    [K]. *)
Definition upper (c : ascii) : ascii :=
  if (97 <=? byte c) && (byte c <=? 122) then ascii_of (byte c - 32) else c.

Fixpoint fold_name (s : string) : string :=
  match s with
  | EmptyString => EmptyString
  | String c s1 =>
      match s1 with
      | String c2 s2 =>
          if (byte c =? 197) && (byte c2 =? 191) then String "S" (fold_name s2)
          else
            match s2 with
            | String c3 s3 =>
                if (byte c =? 226) && (byte c2 =? 132) && (byte c3 =? 170)
                then String "K" (fold_name s3)
                else String (upper c) (fold_name s1)
            | EmptyString => String (upper c) (fold_name s1)
            end
      | EmptyString => String (upper c) (fold_name s1)
      end
  end.

(** ** Fields

    Each decoder takes the field's value so far. *)
Definition decode_string (old : string) (v : jval) : option string :=
  match v with VStr raw => Some (unquote raw) | VNull => Some old | _ => None end.

Definition decode_bool (old : bool) (v : jval) : option bool :=
  match v with VBool b => Some b | VNull => Some old | _ => None end.

Definition decode_int32 (old : Z) (v : jval) : option Z :=
  match v with
  | VNum raw =>
      match ParseInt raw with
      | Ok z => if bool_decide (in_int32 z) then Some z else None
      | Err _ => None
      end
  | VNull => Some old
  | _ => None
  end.

(** [time.Time] reads the literal between its quotes, escapes and all. *)
Definition decode_time (old : Time) (v : jval) : option Time :=
  match v with VStr raw => parse_rfc3339 raw | VNull => Some old | _ => None end.

Definition decode_uuid `{UuidText} (old : UUID) (v : jval) : option UUID :=
  match v with
  | VStr raw => match uuid_Parse (unquote raw) with Ok u => Some u | Err _ => None end
  | VNull => Some old
  | _ => None
  end.

(** A pointer: [null] clears it, anything else goes to a value of its own or the
    one it already had. *)
Definition decode_pointer {A} (zero : A) (decode : A → jval → option A) (old : option A) (v : jval)
    : option (option A) :=
  match v with
  | VNull => Some None
  | _ => Some <$> decode (default zero old) v
  end.

(** ** Structs *)

Definition decode_members {T} (set : string → jval → T → option T)
    (ms : list (string * jval)) (t : option T) : option T :=
  foldl (fun t m => t ← t; set (fold_name (unquote m.1)) m.2 t) t ms.

Definition decode_struct {T} (zero : T) (set : string → jval → T → option T) (v : jval) : option T :=
  match v with
  | VNull => Some zero
  | VObj ms => decode_members set ms (Some zero)
  | _ => None
  end.

Definition json_error : error := OpaqueError "json: cannot unmarshal".

Definition unmarshal {T} (zero : T) (set : string → jval → T → option T) (s : string) : result error T :=
  match v ← json_parse s; decode_struct zero set v with
  | Some t => Ok t
  | None => Err json_error
  end.

(** [json.NewDecoder] on a stream. *)
Definition decode_first {T} (zero : T) (set : string → jval → T → option T) (s : string) : option T :=
  v ← json_first s; decode_struct zero set v.

(** ** Types that go through JSON

    What a component that stores values as JSON needs of their type: [Marshal]
    and [Unmarshal], which recover the values [ok]. *)
Class JsonCodec (A : Type) := {
  Marshal : A → result error string;
  Unmarshal : string → result error A
}.

Class JsonLaws (A : Type) `{JsonCodec A} (ok : A → Prop) : Prop :=
  json_round_trip a : ok a → ∃ s, Marshal a = Ok s ∧ Unmarshal s = Ok a.

(** [time.Time.MarshalJSON]: years of four digits only. *)
Definition encode_time (t : Time) : result error json :=
  let '(y, _, _) := date_of_days (unix_days t) in
  if (0 <=? y) && (y <=? 9999) then Ok (JStr (format_rfc3339 true t))
  else Err (OpaqueError "Time.MarshalJSON: year outside of range [0,9999]").

Definition encode_uuid `{UuidText} (u : UUID) : json := JStr (uuid_String u).

Definition encode_pointer {A} (encode : A → json) (p : option A) : json :=
  match p with None => JNull | Some a => encode a end.
