(* ===== verification/JsonFacts.v ===== *)
(** * JSON text reads back

    What the encoder writes, the scanner splits at the same places and the
    decoder turns into the same values; and the parser's fuel never runs out. *)
From S2P Require Import Prelude GoBase Text Ids Json JsonDecode.

(** ** Characters of a literal *)

Lemma scan_escape c x :
  (byte c <? 128) = true →
  scan_str (escape_ascii c x) = (fun r => (escape_ascii c r.1, r.2)) <$> scan_str x.
Proof.
  destruct c as [[] [] [] [] [] [] [] []]; intros Hc; try discriminate Hc;
    lazy -[scan_str fmap option_fmap option_map]; cbn; by destruct (scan_str x) as [[? ?]|].
Qed.

Lemma unquote_escape c x :
  (byte c <? 128) = true → unquote (escape_ascii c x) = String c (unquote x).
Proof.
  destruct c as [[] [] [] [] [] [] [] []]; intros Hc; try discriminate Hc; reflexivity.
Qed.

Lemma scan_high c x : (byte c <? 128) = false → scan_str (String c x) = push c (scan_str x).
Proof.
  destruct c as [[] [] [] [] [] [] [] []]; intros Hc; try discriminate Hc; reflexivity.
Qed.

Lemma utf8_2_high c1 c2 : utf8_2 c1 c2 = true → (byte c1 <? 128) = false ∧ (byte c2 <? 128) = false.
Proof. unfold utf8_2, cont. intros Hu. to_prop. split; apply Z.ltb_ge; lia. Qed.

Lemma utf8_3_high c1 c2 c3 :
  utf8_3 c1 c2 c3 = true →
  (byte c1 <? 128) = false ∧ (byte c2 <? 128) = false ∧ (byte c3 <? 128) = false.
Proof.
  unfold utf8_3, cont. intros Hu. repeat apply andb_true_iff in Hu as [Hu ?]. to_prop.
  split_and!; apply Z.ltb_ge; lia.
Qed.

Lemma utf8_4_high c1 c2 c3 c4 :
  utf8_4 c1 c2 c3 c4 = true →
  (byte c1 <? 128) = false ∧ (byte c2 <? 128) = false ∧ (byte c3 <? 128) = false ∧ (byte c4 <? 128) = false.
Proof.
  unfold utf8_4, cont. intros Hu. repeat apply andb_true_iff in Hu as [Hu ?]. to_prop.
  split_and!; apply Z.ltb_ge; lia.
Qed.

Lemma byte_inj c c' : byte c = byte c' → c = c'.
Proof. intros Heq%N2Z.inj. rewrite <- (ascii_N_embedding c), <- (ascii_N_embedding c'). by f_equal. Qed.

Lemma line_separator_cases c1 c2 c3 :
  line_separator c1 c2 c3 = true → c1 = "226"%char ∧ c2 = "128"%char ∧ (c3 = "168"%char ∨ c3 = "169"%char).
Proof.
  unfold line_separator. intros [[H1 H2]%andb_true_iff H3]%andb_true_iff. to_prop.
  split; [by apply byte_inj|]. split; [by apply byte_inj|].
  apply orb_true_iff in H3 as [H3|H3]; to_prop; [left|right]; by apply byte_inj.
Qed.

(** Induction along the characters of a string. *)
Lemma string_length_ind (P : string → Prop) :
  (∀ s, (∀ s', (String.length s' < String.length s)%nat → P s') → P s) → ∀ s, P s.
Proof.
  intros H s. remember (String.length s) as n eqn:Hn. revert s Hn.
  induction n as [n IH] using lt_wf_ind. intros s ->. apply H. eauto.
Qed.

Lemma scan_quote s x : scan_str (quote_to s x) = (fun r => (quote_to s r.1, r.2)) <$> scan_str x.
Proof.
  revert x. induction s as [s IH] using string_length_ind. intros x.
  destruct s as [|c1 s1]; [cbn [quote_to]; by destruct (scan_str x) as [[? ?]|]|]. cbn [String.length] in IH.
  assert (Hbad : scan_str (escape_unit "f" "f" "f" "d" (quote_to s1 x)) =
    (fun r => (escape_unit "f" "f" "f" "d" (quote_to s1 r.1), r.2)) <$> scan_str x).
  { lazy -[scan_str fmap option_fmap option_map quote_to]. cbn. rewrite (IH s1) by lia.
    by destruct (scan_str x) as [[? ?]|]. }
  cbn [quote_to]. destruct (byte c1 <? 128) eqn:H1.
  { rewrite scan_escape by done. rewrite (IH s1) by lia. by destruct (scan_str x) as [[? ?]|]. }
  destruct s1 as [|c2 s2]; [exact Hbad|]. destruct (utf8_2 c1 c2) eqn:H2.
  { apply utf8_2_high in H2 as [? ?]. rewrite !scan_high by done. cbn [String.length] in IH.
    rewrite (IH s2) by lia. by destruct (scan_str x) as [[? ?]|]. }
  destruct s2 as [|c3 s3]; [exact Hbad|]. cbn [String.length] in IH. destruct (utf8_3 c1 c2 c3) eqn:H3.
  { destruct (line_separator c1 c2 c3) eqn:Hl.
    - apply line_separator_cases in Hl as (-> & -> & [-> | ->]);
        lazy -[scan_str fmap option_fmap option_map quote_to]; cbn; rewrite (IH s3) by lia;
        by destruct (scan_str x) as [[? ?]|].
    - apply utf8_3_high in H3 as (? & ? & ?). rewrite !scan_high by done.
      rewrite (IH s3) by lia. by destruct (scan_str x) as [[? ?]|]. }
  destruct s3 as [|c4 s4]; [exact Hbad|]. cbn [String.length] in IH.
  destruct (utf8_4 c1 c2 c3 c4) eqn:H4; [|exact Hbad].
  apply utf8_4_high in H4 as (? & ? & ? & ?). rewrite !scan_high by done.
  rewrite (IH s4) by lia. by destruct (scan_str x) as [[? ?]|].
Qed.

(** The literal the encoder writes ends at the encoder's closing quote. *)
Lemma scan_string_to s rest : scan_str (quote_to s (String quote_char rest)) = Some (quote_to s EmptyString, rest).
Proof. by rewrite scan_quote. Qed.

(** ** Literals to strings *)

Lemma unquote_high c :
  (byte c <? 128) = false → bool_decide (c = backslash) = false.
Proof. intros Hc. apply bool_decide_eq_false_2. by intros ->. Qed.

Lemma unquote_quote s x : ValidString s = true → unquote (quote_to s x) = s +:+ unquote x.
Proof.
  revert x. induction s as [s IH] using string_length_ind. intros x.
  destruct s as [|c1 s1]; [done|]. cbn [String.length] in IH. cbn [quote_to ValidString].
  change (String c1 s1 +:+ unquote x) with (String c1 (s1 +:+ unquote x)).
  destruct (byte c1 <? 128) eqn:H1.
  { intros Hv. by rewrite unquote_escape, IH by (done || lia). }
  destruct s1 as [|c2 s2]; [done|]. cbn [String.length] in IH.
  change (String c2 s2 +:+ unquote x) with (String c2 (s2 +:+ unquote x)).
  destruct (utf8_2 c1 c2) eqn:H2.
  { intros Hv. cbn [unquote]. rewrite (unquote_high c1 H1), H1, H2, IH by (done || lia). done. }
  destruct s2 as [|c3 s3]; [done|]. cbn [String.length] in IH.
  change (String c3 s3 +:+ unquote x) with (String c3 (s3 +:+ unquote x)).
  destruct (utf8_3 c1 c2 c3) eqn:H3.
  { intros Hv. destruct (line_separator c1 c2 c3) eqn:Hl.
    - apply line_separator_cases in Hl as (-> & -> & [-> | ->]); rewrite <- IH by (done || lia); reflexivity.
    - cbn [unquote]. rewrite (unquote_high c1 H1), H1, H2, H3, IH by (done || lia). done. }
  destruct s3 as [|c4 s4]; [done|]. cbn [String.length] in IH.
  change (String c4 s4 +:+ unquote x) with (String c4 (s4 +:+ unquote x)).
  intros [H4 Hv]%andb_true_iff. rewrite H4. cbn [unquote].
  rewrite (unquote_high c1 H1), H1, H2, H3, H4, IH by (done || lia). done.
Qed.

(** ** Numbers *)

Lemma string_app_nil s : s +:+ EmptyString = s.
Proof. induction s as [|c s IH]; [done|]. change (String c (s +:+ EmptyString) = String c s). by rewrite IH. Qed.

(** What may follow a number. *)
Definition ends_number (s : string) : bool :=
  match s with
  | EmptyString => true
  | String c _ =>
      match digit_value c with
      | Some _ => false
      | None => negb (bool_decide (c = "."%char ∨ c = "e"%char ∨ c = "E"%char))
      end
  end.

Definition numeral (s : string) : bool :=
  all_chars (fun c => match digit_value c with Some _ => true | None => false end) s.

Lemma span_digits_app u rest :
  numeral u = true →
  ends_number rest = true → span_digits (u +:+ rest) = (u, rest).
Proof.
  intros Hu Hr. induction u as [|c u IH].
  - change (EmptyString +:+ rest) with rest. destruct rest as [|c r]; [done|].
    cbn [ends_number] in Hr. cbn [span_digits]. by destruct (digit_value c).
  - change (String c u +:+ rest) with (String c (u +:+ rest)). unfold numeral in *. cbn [all_chars] in Hu.
    apply andb_true_iff in Hu as [Hc Hu]. cbn [span_digits].
    destruct (digit_value c); [|done]. by rewrite IH.
Qed.

(** The decimal text of a natural number: digits, no leading zero. *)
Lemma pretty_N_go_digits x s :
  numeral s = true → numeral (pretty_N_go x s) = true.
Proof.
  revert s. induction (N.lt_wf_0 x) as [x _ IH]. intros s Hs.
  destruct (decide (x = 0)%N) as [->|Hx]; [by rewrite pretty_N_go_0|].
  rewrite pretty_N_go_step by lia. apply IH; [apply N.div_lt; lia|].
  unfold numeral. cbn [all_chars]. rewrite digit_value_pretty by (by apply N.mod_lt). exact Hs.
Qed.

Lemma pretty_N_go_first x s :
  (0 < x)%N → ∃ d s', (0 < d < 10)%N ∧ pretty_N_go x s = String (pretty_N_char d) s'.
Proof.
  revert s. induction (N.lt_wf_0 x) as [x _ IH]. intros s Hx. rewrite pretty_N_go_step by done.
  destruct (decide (x < 10)%N) as [Hlt|Hge].
  - rewrite N.div_small, pretty_N_go_0 by done. exists (x `mod` 10)%N, s.
    rewrite N.mod_small by done. done.
  - apply IH; [by apply N.div_lt|]. apply N.div_str_pos. lia.
Qed.

Lemma scan_int_pretty (x : N) rest :
  ends_number rest = true → scan_int (pretty x +:+ rest) = Some (pretty x, rest).
Proof.
  intros Hr. unfold pretty, pretty_N. case_decide as H0.
  { change ("0" +:+ rest) with (String "0" rest). reflexivity. }
  pose proof (pretty_N_go_digits x EmptyString eq_refl) as Hd.
  destruct (pretty_N_go_first x EmptyString ltac:(lia)) as (d & s' & Hdig & Heq).
  pose proof (span_digits_app _ _ Hd Hr) as Hs. rewrite Heq in *.
  change (String (pretty_N_char d) s' +:+ rest) with (String (pretty_N_char d) (s' +:+ rest)) in *.
  unfold scan_int. rewrite bool_decide_eq_false_2; [unfold some_digits; by rewrite Hs|].
  assert (d = 1 ∨ d = 2 ∨ d = 3 ∨ d = 4 ∨ d = 5 ∨ d = 6 ∨ d = 7 ∨ d = 8 ∨ d = 9)%N by lia.
  by destruct_or!; subst.
Qed.

Lemma scan_tail rest :
  ends_number rest = true → scan_fraction rest = Some (EmptyString, rest) ∧ scan_exponent rest = Some (EmptyString, rest).
Proof.
  destruct rest as [|c rest]; [done|]. cbn [ends_number]. destruct (digit_value c); [done|].
  intros Hc. apply negb_true_iff, bool_decide_eq_false_1 in Hc.
  unfold scan_fraction, scan_exponent. rewrite !bool_decide_eq_false_2 by tauto. done.
Qed.

Lemma pretty_nonempty (n : N) : pretty n ≠ EmptyString.
Proof.
  unfold pretty, pretty_N. case_decide; [done|].
  destruct (pretty_N_go_head n EmptyString) as (d & s & _ & ->); [lia|done].
Qed.

Lemma scan_num_pretty (n : N) rest :
  ends_number rest = true → scan_num (pretty n +:+ rest) = Some (pretty n, rest).
Proof.
  intros Hr. destruct (scan_tail rest Hr) as [Hf He]. unfold scan_num.
  pose proof (scan_int_pretty n rest Hr) as Hi. pose proof (strip_sign_pretty n) as Hs.
  pose proof (pretty_nonempty n) as Hne. destruct (pretty n) as [|c s]; [done|].
  change (String c s +:+ rest) with (String c (s +:+ rest)) in *.
  cbv beta iota. rewrite (bool_decide_eq_false_2 (c = "-"%char)) by (intros ->; discriminate Hs). rewrite Hi. cbn [mbind option_bind]. rewrite Hf. cbn [mbind option_bind]. rewrite He.
  cbn [mbind option_bind]. by rewrite !string_app_nil.
Qed.

Lemma scan_num_format z rest :
  ends_number rest = true → scan_num (FormatInt z +:+ rest) = Some (FormatInt z, rest).
Proof.
  intros Hr. unfold FormatInt. destruct z as [|p|p].
  - exact (scan_num_pretty 0 rest Hr).
  - exact (scan_num_pretty (N.pos p) rest Hr).
  - change (pretty (Z.neg p)) with (String "-" (pretty (N.pos p))).
    change (String "-" (pretty (N.pos p)) +:+ rest) with (String "-" (pretty (N.pos p) +:+ rest)).
    destruct (scan_tail rest Hr) as [Hf He]. unfold scan_num. rewrite bool_decide_eq_true_2 by done.
    rewrite scan_int_pretty by done. cbn [mbind option_bind]. rewrite Hf.
    cbn [mbind option_bind]. rewrite He. cbn [mbind option_bind].
    change (String "-" EmptyString +:+ ?x) with (String "-" x). by rewrite !string_app_nil.
Qed.
