(* ===== verification/JsonRoundTrip.v ===== *)
(** * Encoded values parse to themselves

    The parser on what the encoder wrote, and the sufficiency of its fuel. *)
From S2P Require Import Prelude GoBase Ids Text Json JsonDecode JsonFacts.

(** ** The tree an encoded value parses to *)

Fixpoint to_val (j : json) : jval :=
  match j with
  | JNull => VNull
  | JBool b => VBool b
  | JInt z => VNum (FormatInt z)
  | JStr s => VStr (quote_to s EmptyString)
  | JArr l => VArr (map to_val l)
  | JObj ms => VObj (map (fun m => (quote_to m.1 EmptyString, to_val m.2)) ms)
  end.

Fixpoint jfuel (j : json) : nat :=
  match j with
  | JArr l => S (foldr (fun j n => S (jfuel j + n)) 0 l)
  | JObj ms => S (foldr (fun m n => S (jfuel m.2 + n)) 0 ms)
  | _ => 1
  end%nat.

Fixpoint jdepth (j : json) : Z :=
  match j with
  | JArr l => 1 + foldr (fun j z => Z.max (jdepth j) z) 0 l
  | JObj ms => 1 + foldr (fun m z => Z.max (jdepth m.2) z) 0 ms
  | _ => 0
  end.

Lemma json_nested_ind (P : json → Prop) :
  P JNull → (∀ b, P (JBool b)) → (∀ z, P (JInt z)) → (∀ s, P (JStr s)) →
  (∀ l, Forall P l → P (JArr l)) → (∀ ms, Forall (fun m => P m.2) ms → P (JObj ms)) → ∀ j, P j.
Proof.
  intros Hn Hb Hi Hs Ha Ho. fix IH 1. intros [|b|z|s|l|ms].
  - exact Hn.
  - apply Hb.
  - apply Hi.
  - apply Hs.
  - apply Ha. induction l as [|j l IHl]; constructor; [apply IH|exact IHl].
  - apply Ho. induction ms as [|[k j] ms IHms]; constructor; [apply IH|exact IHms].
Qed.

Lemma jdepth_nonneg j : 0 ≤ jdepth j.
Proof.
  induction j as [| | | |l Hl|ms Hms] using json_nested_ind; cbn [jdepth]; try lia.
  - clear Hl. assert (0 ≤ foldr (fun j z => Z.max (jdepth j) z) 0 l) by (induction l; simpl; lia). lia.
  - clear Hms. assert (0 ≤ foldr (fun m z => Z.max (jdepth m.2) z) 0 ms) by
      (induction ms; simpl; lia). lia.
Qed.

(** ** The text of arrays and objects *)

Fixpoint items_to (l : list json) (rest : string) : string :=
  match l with
  | [] => String "]" rest
  | j :: l => encode_to j (match l with [] => String "]" rest | _ => String "," (items_to l rest) end)
  end.

Fixpoint members_to (l : list (string * json)) (rest : string) : string :=
  match l with
  | [] => String "}" rest
  | (k, j) :: l =>
      string_to k (String ":" (encode_to j
        (match l with [] => String "}" rest | _ => String "," (members_to l rest) end)))
  end.

Lemma encode_arr l rest : encode_to (JArr l) rest = String "[" (items_to l rest).
Proof.
  cbn [encode_to]. f_equal. induction l as [|j l IH]; [done|]. destruct l as [|j' l]; [done|].
  cbn [items_to] in *. by rewrite IH.
Qed.

Lemma encode_obj ms rest : encode_to (JObj ms) rest = String "{" (members_to ms rest).
Proof.
  cbn [encode_to]. f_equal. induction ms as [|[k j] ms IH]; [done|]. destruct ms as [|[k' j'] ms]; [done|].
  cbn [members_to] in *. by rewrite IH.
Qed.

(** ** First characters *)

Definition starts_value (c : ascii) : bool :=
  negb (json_space c) && negb (bool_decide (c = "]"%char ∨ c = "}"%char)).

Lemma format_head z : ∃ c s, FormatInt z = String c s ∧ (c = "-"%char ∨ is_Some (digit_value c)).
Proof.
  assert (Hn : ∀ n : N, ∃ c s, pretty n = String c s ∧ is_Some (digit_value c)).
  { intros n. unfold pretty, pretty_N. case_decide as H0; [by exists "0"%char, EmptyString; split; eauto|].
    destruct (pretty_N_go_head n EmptyString) as (d & s & Hd & ->); [lia|].
    exists (pretty_N_char d), s. split; [done|]. rewrite digit_value_pretty by done. eauto. }
  unfold FormatInt. destruct z as [|p|p].
  - destruct (Hn 0%N) as (c & s & Hp & Hc). exists c, s. auto.
  - destruct (Hn (N.pos p)) as (c & s & Hp & Hc). exists c, s. auto.
  - exists "-"%char, (pretty (N.pos p)). auto.
Qed.

Lemma number_head c :
  c = "-"%char ∨ is_Some (digit_value c) →
  starts_value c = true ∧ bool_decide (c = quote_char) = false ∧ bool_decide (c = "{"%char) = false ∧
  bool_decide (c = "["%char) = false ∧
  ∀ s, HasPrefix (String c s) "true" = false ∧ HasPrefix (String c s) "false" = false ∧
    HasPrefix (String c s) "null" = false.
Proof.
  intros [->|[d Hd]]; [done|].
  assert (Hc : 48 ≤ byte c ≤ 57).
  { unfold digit_value in Hd. fold (byte c) in Hd. case_match eqn:Hb; [|done]. by to_prop. }
  assert (Hne : ∀ c', byte c' < 48 ∨ 57 < byte c' → c ≠ c') by (intros c' ? ->; lia).
  assert (Hns : json_space c = false).
  { unfold json_space. by rewrite !(fun a b => proj2 (Z.eqb_neq a b)) by lia. }
  unfold starts_value. rewrite Hns.
  rewrite !(bool_decide_eq_false_2 (c = _)) by (apply Hne; vm_compute; auto).
  rewrite bool_decide_eq_false_2 by (intros [Heq|Heq]; revert Heq; apply Hne; vm_compute; auto).
  split_and!; try done. intros s. cbn [HasPrefix].
  rewrite !(bool_decide_eq_false_2 (_ = c)) by (intros Heq; symmetry in Heq; revert Heq; apply Hne; vm_compute; auto).
  done.
Qed.

Lemma encode_head j rest : ∃ c s, encode_to j rest = String c s ∧ starts_value c = true.
Proof.
  destruct j as [|[]|z|s|l|ms]; try (by eexists _, _; split; [reflexivity|]).
  cbn [encode_to]. destruct (format_head z) as (c & s & -> & Hc). exists c, (s +:+ rest).
  split; [done|]. by apply number_head.
Qed.

Lemma skip_ws_start c s : starts_value c = true → skip_ws (String c s) = String c s.
Proof.
  unfold starts_value. intros [Hs _]%andb_true_iff. cbn [skip_ws].
  apply negb_true_iff in Hs. by rewrite Hs.
Qed.

(** ** Parsing what was encoded *)

Lemma ends_close c rest : c = ","%char ∨ c = "]"%char ∨ c = "}"%char → ends_number (String c rest) = true.
Proof. by intros [->|[->| ->]]. Qed.

Definition parses (j : json) : Prop :=
  ∀ fuel depth rest, (jfuel j ≤ fuel)%nat → depth + jdepth j ≤ max_depth → ends_number rest = true →
    parse_value fuel depth (encode_to j rest) = Some (to_val j, rest).

Lemma parse_items_encoded l fuel depth rest :
  l ≠ [] → Forall parses l → (foldr (fun j n => S (jfuel j + n)) 0 l ≤ fuel)%nat →
  Forall (fun j => depth + jdepth j ≤ max_depth) l →
  parse_items fuel depth (items_to l rest) = Some (map to_val l, rest).
Proof.
  intros Hne Hl. revert fuel. induction Hl as [|j l Hj Hl IH]; intros fuel Hf Hd; [done|].
  apply Forall_cons_1 in Hd as [Hdj Hd]. cbn [foldr] in Hf. destruct fuel as [|fuel]; [lia|].
  cbn [items_to parse_items]. destruct l as [|j' l].
  - rewrite Hj by (done || lia). done.
  - rewrite Hj by (done || lia). cbn [mbind option_bind skip_ws].
    change (json_space ",") with false. cbn iota.
    rewrite bool_decide_eq_false_2, bool_decide_eq_true_2 by done.
    rewrite IH by (done || lia). done.
Qed.

Lemma parse_members_encoded ms fuel depth rest :
  ms ≠ [] → Forall (fun m => parses m.2) ms →
  (foldr (fun m n => S (jfuel m.2 + n)) 0 ms ≤ fuel)%nat →
  Forall (fun m : string * json => depth + jdepth m.2 ≤ max_depth) ms →
  parse_members fuel depth (members_to ms rest) =
    Some (map (fun m => (quote_to m.1 EmptyString, to_val m.2)) ms, rest).
Proof.
  intros Hne Hl. revert fuel. induction Hl as [|[k j] l Hj Hl IH]; intros fuel Hf Hd; [done|].
  apply Forall_cons_1 in Hd as [Hdj Hd]. cbn [foldr snd] in *. destruct fuel as [|fuel]; [lia|].
  cbn [members_to parse_members]. unfold string_to. cbn [skip_ws].
  change (json_space quote_char) with false. cbn iota.
  rewrite (bool_decide_eq_true_2 (quote_char = quote_char)) by done. cbn [negb].
  rewrite scan_string_to. cbn [mbind option_bind skip_ws].
  change (json_space ":") with false. cbn iota.
  rewrite (bool_decide_eq_true_2 (":"%char = ":"%char)) by done. cbn [negb].
  destruct l as [|m' l].
  - rewrite Hj by (done || lia). done.
  - rewrite Hj by (done || lia). cbn [mbind option_bind skip_ws].
    change (json_space ",") with false. cbn iota.
    rewrite (bool_decide_eq_false_2 (","%char = "}"%char)), (bool_decide_eq_true_2 (","%char = ","%char)) by done.
    rewrite IH by (done || lia). done.
Qed.

Lemma depth_items {A} (f : A → json) (l : list A) depth :
  depth + 1 + foldr (fun a z => Z.max (jdepth (f a)) z) 0 l ≤ max_depth →
  Forall (fun a => depth + 1 + jdepth (f a) ≤ max_depth) l.
Proof.
  intros Hd. induction l as [|a l IH]; [constructor|]. cbn [foldr] in Hd.
  constructor; [lia|]. apply IH. lia.
Qed.

Lemma items_head l rest : l ≠ [] → ∃ c s, items_to l rest = String c s ∧ starts_value c = true.
Proof. destruct l as [|j l]; [done|]. intros _. apply encode_head. Qed.

Lemma parse_encoded j : parses j.
Proof.
  induction j as [|b|z|s|l Hl|ms Hms] using json_nested_ind; intros [|fuel] depth rest Hf Hd Hr;
    try (cbn [jfuel] in Hf; lia).
  - reflexivity.
  - by destruct b.
  - cbn [encode_to to_val]. destruct (format_head z) as (c & s & Hz & Hc).
    pose proof (scan_num_format z rest Hr) as Hs. rewrite Hz in *.
    change (String c s +:+ rest) with (String c (s +:+ rest)) in *.
    destruct (number_head c Hc) as (Hst & H1 & H2 & H3 & H4). destruct (H4 (s +:+ rest)) as (H5 & H6 & H7).
    cbn [parse_value]. rewrite skip_ws_start by done. by rewrite H1, H2, H3, H5, H6, H7, Hs.
  - cbn [encode_to to_val parse_value]. unfold string_to. cbn [skip_ws].
    change (json_space quote_char) with false. cbn iota.
    rewrite bool_decide_eq_true_2 by done. by rewrite scan_string_to.
  - rewrite encode_arr. cbn [jfuel jdepth] in Hf, Hd. cbn [parse_value skip_ws].
    change (json_space "[") with false. cbn iota.
    rewrite (bool_decide_eq_false_2 ("["%char = quote_char)), (bool_decide_eq_false_2 ("["%char = "{"%char)),
      (bool_decide_eq_true_2 ("["%char = "["%char)) by done.
    assert (Hnn : 0 ≤ foldr (fun j z => Z.max (jdepth j) z) 0 l) by
      (clear; induction l; cbn [foldr]; lia).
    rewrite (proj2 (Z.leb_gt max_depth depth)) by lia. destruct l as [|j l]; [done|].
    destruct (items_head (j :: l) rest ltac:(done)) as (c & s & Hc & Hst). rewrite Hc.
    rewrite skip_ws_start by done. unfold starts_value in Hst.
    apply andb_true_iff in Hst as [_ Hst%negb_true_iff%bool_decide_eq_false_1].
    rewrite bool_decide_eq_false_2 by tauto. rewrite <- Hc.
    rewrite parse_items_encoded; [done|done|done|lia|].
    apply (depth_items (fun j => j)). lia.
  - rewrite encode_obj. cbn [jfuel jdepth] in Hf, Hd. cbn [parse_value skip_ws].
    change (json_space "{") with false. cbn iota.
    rewrite (bool_decide_eq_false_2 ("{"%char = quote_char)), (bool_decide_eq_true_2 ("{"%char = "{"%char)) by done.
    assert (Hnn : 0 ≤ foldr (fun m z => Z.max (jdepth m.2) z) 0 ms) by
      (clear; induction ms; cbn [foldr]; lia).
    rewrite (proj2 (Z.leb_gt max_depth depth)) by lia. destruct ms as [|[k j] ms]; [done|].
    assert (Hc : ∃ s, members_to ((k, j) :: ms) rest = String quote_char s) by (eexists; reflexivity).
    destruct Hc as [s Hc]. rewrite Hc. cbn [skip_ws]. change (json_space quote_char) with false. cbn iota.
    rewrite (bool_decide_eq_false_2 (quote_char = "}"%char)) by done. rewrite <- Hc.
    rewrite parse_members_encoded; [done|done|done|lia|].
    apply (depth_items (fun m : string * json => m.2)). lia.
Qed.

(** * The parser's fuel is enough

    Every literal consumes bytes, so every call the parser makes is on a shorter
    rest; two steps a byte cover the calls that consume nothing themselves. *)

Local Abbreviation len := String.length.

Lemma skip_ws_len s : (len (skip_ws s) ≤ len s)%nat.
Proof. induction s as [|c s IH]; [done|]. cbn [skip_ws]. case_match; cbn [String.length] in *; lia. Qed.

Lemma push_Some c r raw rest : push c r = Some (raw, rest) → ∃ raw', r = Some (raw', rest).
Proof. destruct r as [[raw' rest']|]; [|done]. intros [= _ <-]. eauto. Qed.

Lemma scan_str_len s raw rest : scan_str s = Some (raw, rest) → (len rest < len s)%nat.
Proof.
  revert raw. induction s as [s IH] using string_length_ind. intros raw.
  destruct s as [|c s]; [done|]. cbn [String.length] in *. cbn [scan_str].
  destruct (bool_decide (c = quote_char)); [intros [= _ <-]; lia|].
  destruct (byte c <? 32); [done|]. destruct (bool_decide (c = backslash)).
  2: { intros [raw' Hr]%push_Some. apply IH in Hr; lia. }
  destruct s as [|e s]; [done|]. cbn [String.length] in *. destruct (simple_escape e).
  { intros [r1 [r2 Hr]%push_Some]%push_Some. apply IH in Hr; lia. }
  destruct (bool_decide (e = "u"%char)); [|done].
  destruct s as [|h1 [|h2 [|h3 [|h4 s]]]]; try done. cbn [String.length] in *.
  destruct (hex4 h1 h2 h3 h4); [|done].
  intros [r1 [r2 [r3 [r4 [r5 [r6 Hr]%push_Some]%push_Some]%push_Some]%push_Some]%push_Some]%push_Some.
  apply IH in Hr; lia.
Qed.

Lemma span_digits_len s : (len (span_digits s).2 + len (span_digits s).1 = len s)%nat.
Proof.
  induction s as [|c s IH]; [done|]. cbn [span_digits]. destruct (digit_value c); [|cbn; lia].
  destruct (span_digits s) as [ds r]. cbn [fst snd String.length] in *. lia.
Qed.

Lemma some_digits_len s raw rest : some_digits s = Some (raw, rest) → (len rest < len s)%nat.
Proof.
  unfold some_digits. pose proof (span_digits_len s) as Hs.
  destruct (span_digits s) as [[|d ds] r]; [done|]. intros [= <- <-]. cbn [fst snd String.length] in *. lia.
Qed.

Lemma scan_num_len s raw rest : scan_num s = Some (raw, rest) → (len rest < len s)%nat.
Proof.
  unfold scan_num. set (p := match s with EmptyString => _ | String _ _ => _ end).
  assert (Hp : (len p.2 ≤ len s)%nat).
  { subst p. destruct s as [|c s]; [done|]. case_match; cbn [fst snd String.length]; lia. }
  destruct p as [sign s0]. cbn [snd] in Hp.
  destruct (scan_int s0) as [[i s1]|] eqn:Hi; [|done]. cbn [mbind option_bind].
  assert (H1 : (len s1 < len s0)%nat).
  { revert Hi. unfold scan_int. destruct s0 as [|c s0]; [done|]. case_match; [|apply some_digits_len].
    intros [= _ <-]. cbn [String.length]. lia. }
  destruct (scan_fraction s1) as [[fr s2]|] eqn:Hf; [|done]. cbn [mbind option_bind].
  assert (H2 : (len s2 ≤ len s1)%nat).
  { revert Hf. unfold scan_fraction. destruct s1 as [|c s1]; [by intros [= _ <-]|].
    case_match; [|by intros [= _ <-]]. intros [raw' Hr%some_digits_len]%push_Some. cbn [String.length]. lia. }
  destruct (scan_exponent s2) as [[ex s3]|] eqn:He; [|done]. cbn [mbind option_bind].
  assert (H3 : (len s3 ≤ len s2)%nat).
  { revert He. unfold scan_exponent. destruct s2 as [|c s2]; [by intros [= _ <-]|].
    case_match; [|by intros [= _ <-]]. destruct s2 as [|sg s2]; [done|]. case_match.
    - intros [r1 [r2 Hr%some_digits_len]%push_Some]%push_Some. cbn [String.length] in *. lia.
    - intros [r1 Hr%some_digits_len]%push_Some. cbn [String.length] in *. lia. }
  intros [= _ <-]. lia.
Qed.

Lemma drop_prefix_len s p :
  HasPrefix s p = true → p ≠ EmptyString → (len (drop_bytes (len p) s) < len s)%nat.
Proof.
  intros [r ->]%HasPrefix_spec Hp. rewrite drop_bytes_app.
  assert (Hl : len (p +:+ r) = (len p + len r)%nat).
  { clear. induction p as [|c p IH]; [done|]. change (String c p +:+ r) with (String c (p +:+ r)).
    cbn [String.length]. lia. }
  destruct p; [done|]. rewrite Hl. cbn [String.length]. lia.
Qed.

(** ** Every call consumes *)

Lemma parse_len fuel :
  (∀ d s v rest, parse_value fuel d s = Some (v, rest) → (len rest < len s)%nat) ∧
  (∀ d s l rest, parse_items fuel d s = Some (l, rest) → (len rest < len s)%nat) ∧
  (∀ d s l rest, parse_members fuel d s = Some (l, rest) → (len rest < len s)%nat).
Proof.
  induction fuel as [|fuel (IHv & IHi & IHm)]; [done|]. split_and!; intros d s v rest.
  - cbn [parse_value]. pose proof (skip_ws_len s) as Hw. destruct (skip_ws s) as [|c s']; [done|].
    cbn [String.length] in Hw. case_match.
    { destruct (scan_str s') as [[raw r]|] eqn:Hs; [|done]. intros [= _ <-].
      apply scan_str_len in Hs. lia. }
    case_match.
    { case_match; [done|]. pose proof (skip_ws_len s') as Hw'. destruct (skip_ws s') as [|c2 s2]; [done|].
      cbn [String.length] in Hw'. case_match; [intros [= _ <-]; lia|].
      destruct (parse_members _ _ s') as [[ms r]|] eqn:Hs; [|done]. intros [= _ <-]. apply IHm in Hs. lia. }
    case_match.
    { case_match; [done|]. pose proof (skip_ws_len s') as Hw'. destruct (skip_ws s') as [|c2 s2]; [done|].
      cbn [String.length] in Hw'. case_match; [intros [= _ <-]; lia|].
      destruct (parse_items _ _ s') as [[l r]|] eqn:Hs; [|done]. intros [= _ <-]. apply IHi in Hs. lia. }
    destruct (HasPrefix (String c s') "true") eqn:Ht.
    { intros Hr. pose proof (drop_prefix_len _ _ Ht ltac:(done)) as Hd. cbn [String.length] in Hd.
      apply (inj Some) in Hr. apply (f_equal snd) in Hr. cbn [snd] in Hr. rewrite Hr in Hd. lia. }
    destruct (HasPrefix (String c s') "false") eqn:Hfa.
    { intros Hr. pose proof (drop_prefix_len _ _ Hfa ltac:(done)) as Hd. cbn [String.length] in Hd.
      apply (inj Some) in Hr. apply (f_equal snd) in Hr. cbn [snd] in Hr. rewrite Hr in Hd. lia. }
    destruct (HasPrefix (String c s') "null") eqn:Hn.
    { intros Hr. pose proof (drop_prefix_len _ _ Hn ltac:(done)) as Hd. cbn [String.length] in Hd.
      apply (inj Some) in Hr. apply (f_equal snd) in Hr. cbn [snd] in Hr. rewrite Hr in Hd. lia. }
    destruct (scan_num (String c s')) as [[raw r]|] eqn:Hs; [|done]. intros [= _ <-].
    apply scan_num_len in Hs. cbn [String.length] in Hs. lia.
  - cbn [parse_items]. destruct (parse_value fuel d s) as [[v1 r]|] eqn:Hv; [|done].
    cbn [mbind option_bind]. apply IHv in Hv. pose proof (skip_ws_len r).
    destruct (skip_ws r) as [|c s']; [done|]. cbn [String.length] in *.
    case_match; [intros [= _ <-]; lia|]. case_match; [|done].
    destruct (parse_items fuel d s') as [[l r']|] eqn:Hl; [|done]. intros [= _ <-]. apply IHi in Hl. lia.
  - cbn [parse_members]. pose proof (skip_ws_len s). destruct (skip_ws s) as [|q s1]; [done|].
    cbn [String.length] in *. case_match; [done|].
    destruct (scan_str s1) as [[k s2]|] eqn:Hk; [|done]. cbn [mbind option_bind]. apply scan_str_len in Hk.
    pose proof (skip_ws_len s2). destruct (skip_ws s2) as [|c s3]; [done|]. cbn [String.length] in *.
    case_match; [done|]. destruct (parse_value fuel d s3) as [[v1 r]|] eqn:Hv; [|done].
    cbn [mbind option_bind]. apply IHv in Hv. pose proof (skip_ws_len r).
    destruct (skip_ws r) as [|c' s']; [done|]. cbn [String.length] in *.
    case_match; [intros [= _ <-]; lia|]. case_match; [|done].
    destruct (parse_members fuel d s') as [[l r']|] eqn:Hl; [|done]. intros [= _ <-]. apply IHm in Hl. lia.
Qed.

Definition parse_value_len fuel := proj1 (parse_len fuel).

(** ** More fuel changes nothing *)

Lemma parse_enough n :
  (∀ s d f f', (len s ≤ n → 2 * len s + 2 ≤ f → 2 * len s + 2 ≤ f' →
     parse_value f d s = parse_value f' d s)%nat) ∧
  (∀ s d f f', (len s ≤ n → 2 * len s + 3 ≤ f → 2 * len s + 3 ≤ f' →
     parse_items f d s = parse_items f' d s)%nat) ∧
  (∀ s d f f', (len s ≤ n → 2 * len s + 3 ≤ f → 2 * len s + 3 ≤ f' →
     parse_members f d s = parse_members f' d s)%nat).
Proof.
  induction n as [|n (IHv & IHi & IHm)].
  { split_and!; intros [|] d [|[|f]] [|[|f']]; cbn [String.length]; try lia; intros _ _ _.
    - done.
    - by destruct f, f'.
    - done. }
  assert (Hv : ∀ s d f f', (len s ≤ S n → 2 * len s + 2 ≤ f → 2 * len s + 2 ≤ f' →
    parse_value f d s = parse_value f' d s)%nat).
  { intros s d [|f] [|f'] Hn Hf Hf'; try lia. cbn [parse_value].
    pose proof (skip_ws_len s) as Hw. destruct (skip_ws s) as [|c s']; [done|]. cbn [String.length] in Hw.
    case_match; [done|]. case_match.
    { case_match; [done|]. destruct (skip_ws s') as [|c2 s2]; [done|]. case_match; [done|].
      by rewrite (IHm s' (d + 1) f f') by lia. }
    case_match; [|done]. case_match; [done|]. destruct (skip_ws s') as [|c2 s2]; [done|].
    case_match; [done|]. by rewrite (IHi s' (d + 1) f f') by lia. }
  split; [exact Hv|]. split; intros s d [|f] [|f'] Hn Hf Hf'; try lia.
  - cbn [parse_items]. rewrite (Hv s d f f') by lia.
    destruct (parse_value f' d s) as [[v r]|] eqn:Hp; [|done]. cbn [mbind option_bind].
    apply parse_value_len in Hp. pose proof (skip_ws_len r). destruct (skip_ws r) as [|c s']; [done|].
    cbn [String.length] in *. case_match; [done|]. case_match; [|done].
    by rewrite (IHi s' d f f') by lia.
  - cbn [parse_members]. pose proof (skip_ws_len s). destruct (skip_ws s) as [|q s1]; [done|].
    cbn [String.length] in *. case_match; [done|].
    destruct (scan_str s1) as [[k s2]|] eqn:Hk; [|done]. cbn [mbind option_bind]. apply scan_str_len in Hk.
    pose proof (skip_ws_len s2). destruct (skip_ws s2) as [|c s3]; [done|]. cbn [String.length] in *.
    case_match; [done|]. rewrite (IHv s3 d f f') by lia.
    destruct (parse_value f' d s3) as [[v r]|] eqn:Hp; [|done]. cbn [mbind option_bind].
    apply parse_value_len in Hp. pose proof (skip_ws_len r). destruct (skip_ws r) as [|c' s']; [done|].
    cbn [String.length] in *. case_match; [done|]. case_match; [|done].
    by rewrite (IHm s' d f f') by lia.
Qed.

Lemma parse_fuel_enough s d f :
  (parse_fuel s ≤ f)%nat → parse_value f d s = parse_value (parse_fuel s) d s.
Proof. intros Hf. apply (parse_enough (len s)); unfold parse_fuel in *; lia. Qed.

(** The tree of an encoded value. *)
Lemma json_parse_text j : jdepth j ≤ max_depth → json_parse (json_text j) = Some (to_val j).
Proof.
  intros Hd. unfold json_parse, json_text.
  rewrite <- (parse_fuel_enough _ 0 (max (jfuel j) (parse_fuel (encode_to j EmptyString)))) by lia.
  rewrite (parse_encoded j) by (done || lia). done.
Qed.
