(* ===== verification/JsonRecords.v ===== *)
(** * Fields that read back

    Each kind of field the stored structs have, encoded and decoded. *)
From S2P Require Import Prelude GoBase Text Ids Calendar Json JsonDecode.
From S2P Require Import JsonFacts JsonRoundTrip.

(** ** Plain text: printable ASCII that needs no escape *)

Definition plain (c : ascii) : bool :=
  graphic c && negb (bool_decide (c ∈ [quote_char; backslash; "<"%char; ">"%char; "&"%char])).

Lemma plain_escape c x : plain c = true → (byte c <? 128) = true ∧ escape_ascii c x = String c x.
Proof.
  destruct c as [[] [] [] [] [] [] [] []]; intros Hc; try discriminate Hc; split; reflexivity.
Qed.

Lemma quote_plain s x : all_chars plain s = true → quote_to s x = s +:+ x.
Proof.
  induction s as [|c s IH]; [done|]. cbn [all_chars]. intros [Hc Hs]%andb_true_iff.
  destruct (plain_escape c (quote_to s x) Hc) as [Ha He]. cbn [quote_to]. rewrite Ha, He, IH by done. done.
Qed.

Lemma plain_valid s : all_chars plain s = true → ValidString s = true.
Proof.
  induction s as [|c s IH]; [done|]. cbn [all_chars]. intros [Hc Hs]%andb_true_iff.
  destruct (plain_escape c EmptyString Hc) as [Ha _]. cbn [ValidString]. rewrite Ha. auto.
Qed.

Lemma all_chars_impl (p q : ascii → bool) s :
  (∀ c, p c = true → q c = true) → all_chars p s = true → all_chars q s = true.
Proof.
  intros Hpq. induction s as [|c s IH]; [done|]. cbn [all_chars]. intros [Hc Hs]%andb_true_iff.
  rewrite Hpq, IH by done. done.
Qed.

Lemma hex_plain c : hex_or_dash c = true → plain c = true.
Proof. by destruct c as [[] [] [] [] [] [] [] []]. Qed.

Lemma digit_plain c : is_digit c = true → plain c = true.
Proof. by destruct c as [[] [] [] [] [] [] [] []]. Qed.

Lemma all_chars_app p s t : all_chars p (s +:+ t) = all_chars p s && all_chars p t.
Proof.
  induction s as [|c s IH]; [done|]. change (String c s +:+ t) with (String c (s +:+ t)).
  cbn [all_chars]. by rewrite IH, andb_assoc.
Qed.

Lemma dec_text_plain n z rest :
  0 ≤ z < 10 ^ Z.of_nat n → all_chars plain rest = true → all_chars plain (dec_text n z rest) = true.
Proof.
  revert z rest. induction n as [|n IH]; intros z rest Hz Hr; [done|].
  destruct (dec_step n z Hz) as [Hq Hm]. cbn [dec_text]. apply IH; [done|]. cbn [all_chars].
  rewrite (digit_plain (dec_digit _)), Hr; [done|]. unfold is_digit. by rewrite dec_digit_value.
Qed.

Lemma rfc3339_plain nano t : rfc3339_time t → all_chars plain (format_rfc3339 nano t) = true.
Proof.
  intros Ht. pose proof (year_in_range t Ht) as Hy. pose proof (date_of_days_spec (unix_days t)) as Hd.
  unfold format_rfc3339. destruct (date_of_days (unix_days t)) as [[y m] d].
  destruct Hd as (_ & Hm & Hd & _ & H31). destruct (clock_range t) as (Hs & Hn & _).
  set (s := day_seconds t) in *.
  assert (Hh : 0 ≤ s / 3600 < 24) by (split; [apply Z.div_pos|apply Z.div_lt_upper_bound]; lia).
  pose proof (Z.mod_pos_bound (s / 60) 60 ltac:(lia)). pose proof (Z.mod_pos_bound s 60 ltac:(lia)).
  unfold year_text. rewrite (proj2 (Z.leb_le 0 y)), (proj2 (Z.leb_le y 9999)) by lia. cbn [andb].
  assert (Hf : all_chars plain (if nano then fraction_text (nanosecond t) "Z" else "Z") = true).
  { destruct nano; [|done]. unfold fraction_text.
    assert (Hdig : all_chars is_digit (trim_zeros (dec_text 9 (nanosecond t) EmptyString)) = true)
      by (apply trim_zeros_digits, dec_text_digits; done).
    destruct (trim_zeros _) as [|c u]; [done|]. cbn [all_chars]. rewrite all_chars_app.
    rewrite (all_chars_impl is_digit plain (String c u)) by (done || apply digit_plain). done. }
  repeat first [apply dec_text_plain; [simpl; lia|]|exact Hf|cbn [all_chars]; apply andb_true_iff; split; [done|]].
Qed.

(** ** Fields *)

Lemma field_string old s : ValidString s = true → decode_string old (to_val (JStr s)) = Some s.
Proof.
  intros Hs. cbn [to_val decode_string]. rewrite unquote_quote by done. cbn [unquote].
  by rewrite string_app_nil.
Qed.

Lemma field_int32 old z : in_int32 z → decode_int32 old (to_val (JInt z)) = Some z.
Proof.
  intros Hz. cbn [to_val decode_int32].
  rewrite ParseInt_FormatInt by (unfold in_int64, in_int32, min_int64, max_int64, min_int32, max_int32 in *; lia).
  by rewrite bool_decide_eq_true_2.
Qed.

Lemma field_bool old b : decode_bool old (to_val (JBool b)) = Some b.
Proof. done. Qed.

Lemma field_time old t :
  rfc3339_time t → ∃ s, encode_time t = Ok (JStr s) ∧ decode_time old (to_val (JStr s)) = Some t.
Proof.
  intros Ht. exists (format_rfc3339 true t). unfold encode_time. pose proof (year_in_range t Ht) as Hy.
  destruct (date_of_days (unix_days t)) as [[y m] d].
  rewrite (proj2 (Z.leb_le 0 y)), (proj2 (Z.leb_le y 9999)) by lia. split; [done|].
  cbn [to_val decode_time]. rewrite quote_plain by (by apply rfc3339_plain).
  rewrite string_app_nil. by apply parse_format.
Qed.

Lemma field_uuid `{UuidLaws} old u : uuid_ok u → decode_uuid old (to_val (encode_uuid u)) = Some u.
Proof.
  intros Hu. unfold encode_uuid. cbn [to_val decode_uuid].
  rewrite unquote_quote.
  - cbn [unquote]. rewrite string_app_nil. by rewrite uuid_Parse_String.
  - apply plain_valid, (all_chars_impl hex_or_dash); [apply hex_plain|by apply uuid_String_chars].
Qed.

Lemma field_pointer {A} (zero : A) encode decode old (p : option A) :
  (∀ a, p = Some a → ∀ old, decode old (to_val (encode a)) = Some a ∧ to_val (encode a) ≠ VNull) →
  decode_pointer zero decode old (to_val (encode_pointer encode p)) = Some p.
Proof.
  intros Hp. destruct p as [a|]; [|done]. cbn [encode_pointer].
  destruct (Hp a eq_refl (default zero old)) as [Hd Hn]. unfold decode_pointer. rewrite Hd.
  by destruct (to_val (encode a)).
Qed.

(** ** Structs *)

Lemma decode_members_cons {T} (set : string → jval → T → option T) k v ms t :
  ValidString k = true →
  decode_members set ((quote_to k EmptyString, v) :: ms) (Some t) =
  decode_members set ms (set (fold_name k) v t).
Proof.
  intros Hk. unfold decode_members. cbn [foldl fst snd mbind option_bind].
  rewrite unquote_quote by done. cbn [unquote]. by rewrite string_app_nil.
Qed.

Lemma unmarshal_object {T} (zero : T) set fields t :
  jdepth (JObj fields) ≤ max_depth →
  decode_members set (map (fun m => (quote_to m.1 EmptyString, to_val m.2)) fields) (Some zero) = Some t →
  unmarshal zero set (json_text (JObj fields)) = Ok t.
Proof.
  intros Hd Ht. unfold unmarshal. rewrite json_parse_text by done. cbn [mbind option_bind to_val].
  unfold decode_struct. by rewrite Ht.
Qed.

Lemma decode_member {T} (set : string → jval → T → option T) k v ms t t' r :
  ValidString k = true → set (fold_name k) v t = Some t' →
  decode_members set ms (Some t') = r →
  decode_members set ((quote_to k EmptyString, v) :: ms) (Some t) = r.
Proof. intros Hk Hs <-. by rewrite decode_members_cons, Hs. Qed.

(** The folded name of a member, compared with the names a struct knows. *)
Ltac decide_names :=
  repeat match goal with
  | |- context [fold_name (String ?c ?n)] =>
      let r := eval vm_compute in (fold_name (String c n)) in change (fold_name (String c n)) with r
  | |- context [bool_decide (?a = ?b :> string)] =>
      let r := eval vm_compute in (bool_decide (a = b)) in change (bool_decide (a = b)) with r; cbv iota
  end.
