(* ===== verification/ApiKeys.v ===== *)
(** * Key material: [internal/auth/apikeys.go]

    Raw keys are a fixed prefix and 32 random bytes in lower-case base32; what is
    stored of them is an HMAC and the first characters. *)
From S2P Require Import Prelude GoBase Text Sha256.

(** ** [encoding/base32] and [encoding/hex]

    A byte is a [Z] below 256.  Base32 reads the bytes as one string of bits,
    most significant first, five at a time, the last group filled with zeros. *)
Definition byte_ok (b : Z) : Prop := 0 ≤ b < 256.

Definition byte_bits (b : Z) : list bool :=
  map (fun i => Z.testbit b i) [7; 6; 5; 4; 3; 2; 1; 0].

Definition bits_value (bs : list bool) : Z :=
  foldl (fun acc (b : bool) => 2 * acc + (if b then 1 else 0)) 0 bs.

Definition b32_digit (v : Z) : ascii :=
  ascii_of_N (Z.to_N (if v <? 26 then v + 65 else v + 24)).

Fixpoint b32_groups (bits : list bool) : string :=
  match bits with
  | a :: b :: c :: d :: e :: rest => String (b32_digit (bits_value [a; b; c; d; e])) (b32_groups rest)
  | [] => EmptyString
  | short => String (b32_digit (bits_value (take 5 (short ++ [false; false; false; false])))) EmptyString
  end.

(** [base32.StdEncoding.WithPadding(base32.NoPadding).EncodeToString]. *)
Definition base32_EncodeToString (src : list Z) : string := b32_groups (src ≫= byte_bits).

(** [strings.ToLower], on ASCII text. *)
Definition lower (c : ascii) : ascii :=
  if (65 <=? byte c) && (byte c <=? 90) then ascii_of_N (Z.to_N (byte c + 32)) else c.
Fixpoint ToLower (s : string) : string :=
  match s with
  | EmptyString => EmptyString
  | String c s => String (lower c) (ToLower s)
  end.

Definition hex_char (v : Z) : ascii :=
  ascii_of_N (Z.to_N (if v <? 10 then v + 48 else v + 87)).
Fixpoint hex_EncodeToString (src : list Z) : string :=
  match src with
  | [] => EmptyString
  | b :: src => String (hex_char (b / 16)) (String (hex_char (b mod 16)) (hex_EncodeToString src))
  end.

(** [[]byte(s)]. *)
Fixpoint string_bytes (s : string) : list Z :=
  match s with
  | EmptyString => []
  | String c s => byte c :: string_bytes s
  end.

(** ** The codec *)

Definition rawKeyPrefix : string := "rls_live_".
Definition displayPrefixLength : nat := 8.

Record APIKeyCodec := mkAPIKeyCodec { pepper : string }.
Definition NewAPIKeyCodec (pepper : string) : APIKeyCodec := mkAPIKeyCodec pepper.

(** What [rand.Read] of 32 bytes gives. *)
Definition entropy : Type := result error (list Z).

Definition Generate (secret : entropy) : result error (string * string) :=
  let? secret := secret in
  let encoded := ToLower (base32_EncodeToString secret) in
  Ok (rawKeyPrefix +:+ encoded, rawKeyPrefix +:+ take_bytes displayPrefixLength encoded).

Definition Hash (c : APIKeyCodec) (rawKey : string) : string :=
  hex_EncodeToString (hmac_sha256 (string_bytes c.(pepper)) (string_bytes rawKey)).

(** [%d] of a small number, in the messages of [Prefix]. *)
Definition Prefix (rawKey : string) : result error string :=
  let rawKey := TrimSpace rawKey in
  if negb (HasPrefix rawKey rawKeyPrefix)
  then Err (OpaqueError ("raw api key must start with " +:+ rawKeyPrefix))
  else
    let prefixLength := (String.length rawKeyPrefix + displayPrefixLength)%nat in
    if decide (String.length rawKey < prefixLength)%nat
    then Err (OpaqueError ("raw api key must be at least " +:+ pretty prefixLength +:+ " characters long"))
    else Ok (take_bytes prefixLength rawKey).

(** ** Keys are well formed and determined by their secret *)

Lemma bits_value_byte b : byte_ok b → bits_value (byte_bits b) = b.
Proof.
  intros Hb. assert (Hn : b = Z.of_nat (Z.to_nat b)) by (unfold byte_ok in Hb; lia).
  assert (Hlt : (Z.to_nat b < 256)%nat) by (unfold byte_ok in Hb; lia). rewrite Hn. clear Hn Hb.
  revert Hlt. generalize (Z.to_nat b) as n. intros n Hlt.
  assert (Hall : Forall (fun n => bits_value (byte_bits (Z.of_nat n)) = Z.of_nat n) (seq 0 256)).
  { apply (bool_decide_unpack _). by vm_compute. }
  apply (proj1 (list.Forall_forall _ _) Hall n). apply elem_of_seq. lia.
Qed.

Lemma byte_bits_length b : length (byte_bits b) = 8%nat.
Proof. done. Qed.

Lemma bits_length l : length (l ≫= byte_bits) = (8 * length l)%nat.
Proof.
  induction l as [|b l IH]; [done|]. rewrite bind_cons, length_app, IH, byte_bits_length. simpl. lia.
Qed.

Lemma bits_inj l l' :
  Forall byte_ok l → Forall byte_ok l' → length l = length l' →
  l ≫= byte_bits = l' ≫= byte_bits → l = l'.
Proof.
  intros Hl. revert l'. induction Hl as [|b l Hb Hl IH]; intros [|b' l'] Hl' Hlen; try done.
  apply Forall_cons_1 in Hl' as [Hb' Hl']. rewrite !bind_cons. intros Heq.
  apply app_inj_1 in Heq as [Heq1 Heq2]; [|done]. f_equal.
  - rewrite <- (bits_value_byte b), <- (bits_value_byte b') by done. by rewrite Heq1.
  - apply IH; [done|by injection Hlen|done].
Qed.

(** All words of [n] bits. *)
Fixpoint words (n : nat) : list (list bool) :=
  match n with
  | O => [[]]
  | S n => map (cons true) (words n) ++ map (cons false) (words n)
  end.

Lemma elem_of_words l : l ∈ words (length l).
Proof.
  induction l as [|b l IH]; [by left|]. cbn [length words]. apply elem_of_app.
  destruct b; [left|right]; by apply list_elem_of_fmap_2.
Qed.

(** The alphabet tells the values of five bits apart, and is in plain sight. *)
Definition b32_char (l : list bool) : ascii := lower (b32_digit (bits_value l)).

Lemma b32_char_table :
  Forall (fun l => graphic (b32_char l) = true ∧
            Forall (fun l' => b32_char l = b32_char l' → l = l') (words 5)) (words 5).
Proof. apply (bool_decide_unpack _). by vm_compute. Qed.

Lemma b32_char_spec l :
  length l = 5%nat →
  graphic (b32_char l) = true ∧
  ∀ l', length l' = 5%nat → b32_char l = b32_char l' → l = l'.
Proof.
  intros Hl. pose proof (elem_of_words l) as Hin. rewrite Hl in Hin.
  destruct (proj1 (list.Forall_forall _ _) b32_char_table l Hin) as [Hg Hall].
  split; [done|]. intros l' Hl'. pose proof (elem_of_words l') as Hin'. rewrite Hl' in Hin'.
  exact (proj1 (list.Forall_forall _ _) Hall l' Hin').
Qed.

(** The encoded text, character by character. *)
Fixpoint b32_text (bits : list bool) : string :=
  match bits with
  | a :: b :: c :: d :: e :: rest => String (b32_char [a; b; c; d; e]) (b32_text rest)
  | [] => EmptyString
  | short => String (b32_char (take 5 (short ++ [false; false; false; false]))) EmptyString
  end.

Lemma five_ind (P : list bool → Prop) :
  P [] → (∀ a, P [a]) → (∀ a b, P [a; b]) → (∀ a b c, P [a; b; c]) → (∀ a b c d, P [a; b; c; d]) →
  (∀ a b c d e l, P l → P (a :: b :: c :: d :: e :: l)) → ∀ l, P l.
Proof.
  intros H0 H1 H2 H3 H4 H5.
  fix IH 1. intros [|a [|b [|c [|d [|e l]]]]].
  all: [> exact H0|exact (H1 a)|exact (H2 a b)|exact (H3 a b c)|exact (H4 a b c d)
       |exact (H5 a b c d e l (IH l))].
Qed.

Lemma b32_text_lower bits : ToLower (b32_groups bits) = b32_text bits.
Proof.
  induction bits using five_ind; try done. cbn [b32_groups ToLower b32_text]. by rewrite IHbits.
Qed.

Lemma b32_text_inj bits bits' :
  length bits = length bits' → b32_text bits = b32_text bits' → bits = bits'.
Proof.
  revert bits'. induction bits as [|a|a b|a b c|a b c d|a b c d e l IH] using five_ind;
    intros [|a' [|b' [|c' [|d' [|e' l']]]]] Hlen; try (by simpl in Hlen); cbn [b32_text]; try done.
  5: { intros [= Hc Ht]. apply b32_char_spec in Hc; [|done..]. injection Hc as -> -> -> -> ->.
       do 5 f_equal. apply IH; [by injection Hlen|done]. }
  all: intros [= Hc]; apply b32_char_spec in Hc; [|done..]; by simplify_eq/=.
Qed.

Lemma b32_text_length bits :
  (5 * String.length (b32_text bits) < length bits + 5 ∧
   length bits ≤ 5 * String.length (b32_text bits))%nat.
Proof.
  induction bits using five_ind; cbn [b32_text String.length length] in *; lia.
Qed.

Fixpoint all_graphic (s : string) : bool :=
  match s with EmptyString => true | String c s => graphic c && all_graphic s end.

Lemma b32_text_graphic bits : all_graphic (b32_text bits) = true.
Proof.
  assert (Hg : ∀ l, length l = 5%nat → graphic (b32_char l) = true) by (intros; by apply b32_char_spec).
  induction bits using five_ind; cbn [b32_text all_graphic]; [done|..]; by rewrite Hg.
Qed.

Lemma all_graphic_snoc s :
  all_graphic s = true → s ≠ EmptyString →
  ∃ s' d, s = s' +:+ String d EmptyString ∧ graphic d = true.
Proof.
  induction s as [|c s IH]; [done|]. cbn [all_graphic]. intros [Hc Hs]%andb_true_iff _.
  destruct s as [|c' s]; [by exists EmptyString, c|].
  destruct (IH Hs) as (s' & d & Heq & Hd); [done|]. exists (String c s'), d.
  split; [|done]. by rewrite Heq.
Qed.

Lemma TrimSpace_all_graphic s : all_graphic s = true → TrimSpace s = s.
Proof.
  intros Hs. destruct s as [|c [|c' s]]; [done| |].
  - cbn [all_graphic] in Hs. apply andb_true_iff in Hs as [Hc _].
    unfold TrimSpace, TrimLeft. rewrite trim_start_graphic;
      [|done|intros; exact (proj1 (space2_graphic c _ Hc))|intros; exact (proj1 (space3_graphic c _ _ Hc))].
    unfold TrimRight. cbn [rev_string]. rewrite trim_start_graphic;
      [done|done|intros; exact (proj2 (space2_graphic c _ Hc))|intros; exact (proj2 (space3_graphic c _ _ Hc))].
  - cbn [all_graphic] in Hs. apply andb_true_iff in Hs as [Hc Hs].
    destruct (all_graphic_snoc (String c' s)) as (s' & d & -> & Hd); [done..|].
    by apply TrimSpace_graphic.
Qed.

Lemma take_bytes_over p s n :
  take_bytes (String.length p + n) (p +:+ s) = p +:+ take_bytes n s.
Proof.
  induction p as [|c p IH]; [done|]. change (String c p +:+ s) with (String c (p +:+ s)).
  cbn [String.length take_bytes Nat.add]. by rewrite IH.
Qed.

Lemma hex_length l : String.length (hex_EncodeToString l) = (2 * length l)%nat.
Proof. induction l as [|b l IH]; [done|]. cbn [hex_EncodeToString String.length length]. lia. Qed.

Lemma Hash_length c raw : String.length (Hash c raw) = 64%nat.
Proof. unfold Hash. by rewrite hex_length, hmac_sha256_length. Qed.

(** Keys are well formed.  From any 32 bytes [Generate] makes a raw key of
    61 printable characters, which trimming leaves alone, and the display prefix
    it returns is the one [Prefix] computes from the raw key; and two secrets
    never give the same raw key, so keys carry all 256 bits. *)
Theorem Generate_keys secret secret' :
  Forall byte_ok secret → Forall byte_ok secret' → length secret = 32%nat → length secret' = 32%nat →
  ∃ raw prefix, Generate (Ok secret) = Ok (raw, prefix) ∧
    String.length raw = 61%nat ∧ TrimSpace raw = raw ∧ Prefix raw = Ok prefix ∧
    (fst <$> (match Generate (Ok secret') with Ok p => Some p | Err _ => None end) = Some raw →
     secret = secret').
Proof.
  intros Hs Hs' Hl Hl'. unfold Generate, base32_EncodeToString. cbn [res_bind].
  rewrite !b32_text_lower. set (text := b32_text (secret ≫= byte_bits)).
  assert (Hlen : String.length text = 52%nat).
  { pose proof (b32_text_length (secret ≫= byte_bits)) as Hb. rewrite bits_length, Hl in Hb.
    fold text in Hb. lia. }
  assert (Hg : all_graphic (rawKeyPrefix +:+ text) = true) by
    (apply (b32_text_graphic (secret ≫= byte_bits))).
  exists (rawKeyPrefix +:+ text), (rawKeyPrefix +:+ take_bytes displayPrefixLength text).
  split; [done|]. split; [rewrite string_length_app, Hlen; done|].
  split; [by apply TrimSpace_all_graphic|]. split.
  - unfold Prefix. rewrite TrimSpace_all_graphic, HasPrefix_app by done. cbn [negb].
    rewrite decide_False by
      (rewrite string_length_app, Hlen; change (String.length rawKeyPrefix) with 9%nat;
       unfold displayPrefixLength; lia).
    by rewrite take_bytes_over.
  - cbn [fmap option_fmap option_map fst]. intros Heq. apply (inj Some), (inj (String.append rawKeyPrefix)) in Heq.
    apply b32_text_inj in Heq; [|by rewrite !bits_length, Hl, Hl'].
    apply bits_inj; congruence.
Qed.
