(* ===== verification/Database.v ===== *)
(** * The database: [internal/db/sqlc] and [db/schema/schema.sql]

    The tables, and the statements of the generated query layer as functions
    from a database to a result and a database: what the SQL text of each
    statement says, with the constraints of the schema it runs under. *)
From S2P Require Import Prelude GoBase Ids.

(** ** Column values of the driver

    A nullable column scans into a value with a flag; [Valid = false] is NULL. *)
Record pgtype_UUID := mkPgUUID { Bytes : UUID; Valid : bool }.
Record pgtype_Timestamptz := mkPgTime { pg_Time : Time; pg_TimeValid : bool }.

#[global] Instance pgtype_UUID_eq_dec : EqDecision pgtype_UUID.
Proof. solve_decision. Defined.
#[global] Instance pgtype_Timestamptz_eq_dec : EqDecision pgtype_Timestamptz.
Proof. solve_decision. Defined.

Definition pg_null_UUID : pgtype_UUID := mkPgUUID 0 false.
Definition pg_null_time : pgtype_Timestamptz := mkPgTime zero_Time false.

(** What a query of no rows reports. *)
Definition pgx_ErrNoRows : error := ErrorsNew "pgx.ErrNoRows" "no rows in result set".

(** ** Rows *)

Record User := mkUser {
  usr_ID : UUID; usr_Name : string; usr_Email : string; usr_CreatedAt : pgtype_Timestamptz
}.

Record ApiKey := mkApiKey {
  ak_ID : UUID;
  ak_UserID : pgtype_UUID;
  ak_Name : string;
  ak_KeyPrefix : string;
  ak_KeyHash : string;
  ak_IsActive : bool;
  ak_CreatedAt : pgtype_Timestamptz;
  ak_LastUsedAt : pgtype_Timestamptz
}.

Record RateLimitPolicy := mkRateLimitPolicy {
  rlp_ID : UUID;
  rlp_ScopeType : string;
  rlp_ScopeIdentifier : pgtype_UUID;
  rlp_RoutePattern : option string;
  rlp_Capacity : Z;
  rlp_RefillTokens : Z;
  rlp_RefillIntervalSeconds : Z;
  rlp_IsActive : bool;
  rlp_CreatedAt : pgtype_Timestamptz;
  rlp_UpdatedAt : pgtype_Timestamptz
}.

Record RequestAuditLog := mkRequestAuditLog {
  log_ID : Z;
  log_ApiKeyID : pgtype_UUID;
  log_RouteID : string;
  log_PolicyID : pgtype_UUID;
  log_Outcome : string;
  log_RequestCost : Z;
  log_TokensRemaining : Z;
  log_BlockedAt : pgtype_Timestamptz
}.

(** The tables; the instant [NOW()] shows; the values [gen_random_uuid()] will
    draw; the sequence of the audit log. *)
Record database := mkDatabase {
  users : gmap UUID User;
  api_keys : gmap UUID ApiKey;
  rate_limit_policies : gmap UUID RateLimitPolicy;
  request_audit_logs : list RequestAuditLog;
  NOW : Time;
  gen_random_uuid : nat → UUID;
  drawn : nat;
  log_seq : Z
}.

Definition fresh_uuid (db : database) : UUID := db.(gen_random_uuid) db.(drawn).
Definition now_value (db : database) : pgtype_Timestamptz := mkPgTime db.(NOW) true.

Definition draw (db : database) : database :=
  mkDatabase db.(users) db.(api_keys) db.(rate_limit_policies) db.(request_audit_logs)
    db.(NOW) db.(gen_random_uuid) (S db.(drawn)) db.(log_seq).
Definition with_users (t : gmap UUID User) (db : database) : database :=
  mkDatabase t db.(api_keys) db.(rate_limit_policies) db.(request_audit_logs)
    db.(NOW) db.(gen_random_uuid) db.(drawn) db.(log_seq).
Definition with_api_keys (t : gmap UUID ApiKey) (db : database) : database :=
  mkDatabase db.(users) t db.(rate_limit_policies) db.(request_audit_logs)
    db.(NOW) db.(gen_random_uuid) db.(drawn) db.(log_seq).
Definition with_policies (t : gmap UUID RateLimitPolicy) (db : database) : database :=
  mkDatabase db.(users) db.(api_keys) t db.(request_audit_logs)
    db.(NOW) db.(gen_random_uuid) db.(drawn) db.(log_seq).
Definition with_logs (t : list RequestAuditLog) (seq : Z) (db : database) : database :=
  mkDatabase db.(users) db.(api_keys) db.(rate_limit_policies) t
    db.(NOW) db.(gen_random_uuid) db.(drawn) seq.

(** ** Constraints

    SQLSTATE codes: a CHECK fails before a unique index does, and foreign keys
    are looked at when the statement ends. *)
Definition check_violation : string := "23514".
Definition unique_violation : string := "23505".
Definition foreign_key_violation : string := "23503".

(** [column REFERENCES table(id)]: NULL references nothing. *)
Definition references {A} (column : pgtype_UUID) (table : gmap UUID A) : bool :=
  if column.(Valid) then bool_decide (is_Some (table !! column.(Bytes))) else true.

(** [chk_rate_limit_scope_type], [chk_rate_limit_route_pattern] and the checks
    on the three numbers. *)
Definition scope_types : list string := ["global"; "api_key"; "route"; "api_key_route"].
Definition route_patterns : list string := ["ping"; "orders"; "report"].

(** [chk_rate_limit_scope_shape]. *)
Definition chk_scope_shape (scope_type : string) (has_identifier has_pattern : bool) : bool :=
  bool_decide (scope_type = "global") && negb has_identifier && negb has_pattern ||
  bool_decide (scope_type = "api_key") && has_identifier && negb has_pattern ||
  bool_decide (scope_type = "route") && negb has_identifier && has_pattern ||
  bool_decide (scope_type = "api_key_route") && has_identifier && has_pattern.

Definition policy_checks (r : RateLimitPolicy) : bool :=
  (0 <? r.(rlp_Capacity)) && (0 <? r.(rlp_RefillTokens)) &&
  (0 <? r.(rlp_RefillIntervalSeconds)) &&
  bool_decide (r.(rlp_ScopeType) ∈ scope_types) &&
  match r.(rlp_RoutePattern) with
  | None => true
  | Some p => bool_decide (p ∈ route_patterns)
  end &&
  chk_scope_shape r.(rlp_ScopeType) r.(rlp_ScopeIdentifier).(Valid)
    (bool_decide (is_Some r.(rlp_RoutePattern))).

(** The entry a row has in the partial unique indexes
    [uniq_active_global_policy], [uniq_active_api_key_policy],
    [uniq_active_route_policy] and [uniq_active_api_key_route_policy]; a row
    with NULL in an indexed column conflicts with none. *)
Inductive index_entry :=
| uniq_global
| uniq_api_key (scope_identifier : UUID)
| uniq_route (route_pattern : string)
| uniq_api_key_route (scope_identifier : UUID) (route_pattern : string).

#[global] Instance index_entry_eq_dec : EqDecision index_entry.
Proof. solve_decision. Defined.

Definition policy_entry (r : RateLimitPolicy) : option index_entry :=
  if negb r.(rlp_IsActive) then None
  else if bool_decide (r.(rlp_ScopeType) = "global") then Some uniq_global
  else
    let id := r.(rlp_ScopeIdentifier) in
    if bool_decide (r.(rlp_ScopeType) = "api_key") then
      if id.(Valid) then Some (uniq_api_key id.(Bytes)) else None
    else if bool_decide (r.(rlp_ScopeType) = "route") then uniq_route <$> r.(rlp_RoutePattern)
    else if bool_decide (r.(rlp_ScopeType) = "api_key_route") then
      if id.(Valid) then uniq_api_key_route id.(Bytes) <$> r.(rlp_RoutePattern) else None
    else None.

Definition clashes (r r' : RateLimitPolicy) : Prop :=
  r.(rlp_ID) ≠ r'.(rlp_ID) ∧ policy_entry r ≠ None ∧ policy_entry r = policy_entry r'.

#[global] Instance clashes_dec r r' : Decision (clashes r r').
Proof. unfold clashes. apply _. Defined.

(** Why the database refuses the row [r], if it does; [id_taken] says that an
    insert drew the primary key of another row. *)
Definition policy_refused (id_taken : bool) (r : RateLimitPolicy) (db : database)
    : option string :=
  if negb (policy_checks r) then Some check_violation
  else if id_taken || negb (bool_decide (map_Forall (fun _ r' => ¬ clashes r r')
                                           db.(rate_limit_policies)))
  then Some unique_violation
  else if references r.(rlp_ScopeIdentifier) db.(api_keys) then None
  else Some foreign_key_violation.

Definition put_policy (r : RateLimitPolicy) (db : database) : database :=
  with_policies (<[r.(rlp_ID) := r]> db.(rate_limit_policies)) db.

(** ** Ordering: the order of ties is left open by SQL and used nowhere. *)
Definition newest_first {A} (created : A → pgtype_Timestamptz) (a b : A) : Prop :=
  (created b).(pg_Time) ≤ (created a).(pg_Time).

#[global] Instance newest_first_dec {A} (created : A → pgtype_Timestamptz) a b :
  Decision (newest_first created a b).
Proof. unfold newest_first. apply _. Defined.

Definition rows {A} (table : gmap UUID A) : list A := (map_to_list table).*2.
