(* ===== verification/Queries.v ===== *)
(** * The generated queries: [internal/db/sqlc/*.sql.go]

    Each statement as the function its SQL text describes.  A statement that
    fails changes no row. *)
From stdpp Require Import sorting.
From S2P Require Import Prelude GoBase Ids Text Database.

Definition statement (A : Type) : Type := database → result error A * database.

(** The row of a [:one] query. *)
Definition one_row {A} (r : option A) : result error A :=
  match r with Some a => Ok a | None => Err pgx_ErrNoRows end.

(** ** Policies *)

Record CreateRateLimitPolicyParams := mkCreateRateLimitPolicyParams {
  crp_ScopeType : string;
  crp_ScopeIdentifier : pgtype_UUID;
  crp_RoutePattern : option string;
  crp_Capacity : Z;
  crp_RefillTokens : Z;
  crp_RefillIntervalSeconds : Z
}.

Definition CreateRateLimitPolicy (arg : CreateRateLimitPolicyParams)
    : statement RateLimitPolicy := fun db =>
  let row := {|
    rlp_ID := fresh_uuid db;
    rlp_ScopeType := arg.(crp_ScopeType);
    rlp_ScopeIdentifier := arg.(crp_ScopeIdentifier);
    rlp_RoutePattern := arg.(crp_RoutePattern);
    rlp_Capacity := arg.(crp_Capacity);
    rlp_RefillTokens := arg.(crp_RefillTokens);
    rlp_RefillIntervalSeconds := arg.(crp_RefillIntervalSeconds);
    rlp_IsActive := true;
    rlp_CreatedAt := now_value db;
    rlp_UpdatedAt := now_value db
  |} in
  match policy_refused (bool_decide (is_Some (db.(rate_limit_policies) !! row.(rlp_ID)))) row db with
  | Some code => (Err (PgError code), draw db)
  | None => (Ok row, put_policy row (draw db))
  end.

(** [UPDATE ... RETURNING] with the trigger [trg_rate_limit_policies_updated_at]. *)
Definition store_policy (row : RateLimitPolicy) : statement RateLimitPolicy := fun db =>
  match policy_refused false row db with
  | Some code => (Err (PgError code), db)
  | None => (Ok row, put_policy row db)
  end.

Definition DeactivateRateLimitPolicy (id : UUID) : statement RateLimitPolicy := fun db =>
  match db.(rate_limit_policies) !! id with
  | None => (Err pgx_ErrNoRows, db)
  | Some r =>
      store_policy
        (mkRateLimitPolicy r.(rlp_ID) r.(rlp_ScopeType) r.(rlp_ScopeIdentifier)
           r.(rlp_RoutePattern) r.(rlp_Capacity) r.(rlp_RefillTokens)
           r.(rlp_RefillIntervalSeconds) false r.(rlp_CreatedAt) (now_value db)) db
  end.

Record FindRateLimitPolicyByScopeParams := mkFindRateLimitPolicyByScopeParams {
  frp_ScopeType : string;
  frp_ScopeIdentifier : pgtype_UUID;
  frp_RoutePattern : option string
}.

(** [a IS NOT DISTINCT FROM b] on nullable UUIDs. *)
Definition not_distinct (a b : pgtype_UUID) : bool :=
  if a.(Valid) then b.(Valid) && (a.(Bytes) =? b.(Bytes)) else negb b.(Valid).

Definition FindRateLimitPolicyByScope (arg : FindRateLimitPolicyByScopeParams)
    : statement RateLimitPolicy := fun db =>
  (one_row (head (filter (fun r : RateLimitPolicy =>
      r.(rlp_IsActive) = true ∧ r.(rlp_ScopeType) = arg.(frp_ScopeType) ∧
      not_distinct r.(rlp_ScopeIdentifier) arg.(frp_ScopeIdentifier) = true ∧
      r.(rlp_RoutePattern) = arg.(frp_RoutePattern)) (rows db.(rate_limit_policies)))), db).

Definition GetRateLimitPolicy (id : UUID) : statement RateLimitPolicy := fun db =>
  (one_row (db.(rate_limit_policies) !! id), db).

(** [ORDER BY scope_type, created_at DESC]. *)
Definition scope_then_newest (a b : RateLimitPolicy) : Prop :=
  a.(rlp_ScopeType) ≠ b.(rlp_ScopeType) ∧
    String.leb a.(rlp_ScopeType) b.(rlp_ScopeType) = true ∨
  a.(rlp_ScopeType) = b.(rlp_ScopeType) ∧ newest_first rlp_CreatedAt a b.

#[global] Instance scope_then_newest_dec a b : Decision (scope_then_newest a b).
Proof. unfold scope_then_newest. apply _. Defined.

Definition ListActiveRateLimitPolicies : statement (list RateLimitPolicy) := fun db =>
  (Ok (merge_sort scope_then_newest
        (filter (fun r : RateLimitPolicy => r.(rlp_IsActive) = true)
           (rows db.(rate_limit_policies)))), db).

Definition ListRateLimitPolicies : statement (list RateLimitPolicy) := fun db =>
  (Ok (merge_sort (newest_first rlp_CreatedAt) (rows db.(rate_limit_policies))), db).

Record UpdateRateLimitPolicyParams := mkUpdateRateLimitPolicyParams {
  urp_ID : UUID;
  urp_ScopeType : string;
  urp_ScopeIdentifier : pgtype_UUID;
  urp_RoutePattern : option string;
  urp_Capacity : Z;
  urp_RefillTokens : Z;
  urp_RefillIntervalSeconds : Z;
  urp_IsActive : bool
}.

Definition UpdateRateLimitPolicy (arg : UpdateRateLimitPolicyParams)
    : statement RateLimitPolicy := fun db =>
  match db.(rate_limit_policies) !! arg.(urp_ID) with
  | None => (Err pgx_ErrNoRows, db)
  | Some r =>
      store_policy
        (mkRateLimitPolicy r.(rlp_ID) arg.(urp_ScopeType) arg.(urp_ScopeIdentifier)
           arg.(urp_RoutePattern) arg.(urp_Capacity) arg.(urp_RefillTokens)
           arg.(urp_RefillIntervalSeconds) arg.(urp_IsActive) r.(rlp_CreatedAt)
           (now_value db)) db
  end.

(** ** API keys *)

Record CreateAPIKeyParams := mkCreateAPIKeyParams {
  cak_UserID : pgtype_UUID;
  cak_Name : string;
  cak_KeyPrefix : string;
  cak_KeyHash : string
}.

Definition put_api_key (r : ApiKey) (db : database) : database :=
  with_api_keys (<[r.(ak_ID) := r]> db.(api_keys)) db.

(** A text value is UTF-8 without a zero byte. *)
Fixpoint has_nul (s : string) : bool :=
  match s with
  | EmptyString => false
  | String c s => bool_decide (c = "000"%char) || has_nul s
  end.
Definition text_refused (s : string) : bool := has_nul s || negb (ValidString s).
Definition character_not_in_repertoire : string := "22021".

Definition CreateAPIKey (arg : CreateAPIKeyParams) : statement ApiKey := fun db =>
  let row := mkApiKey (fresh_uuid db) arg.(cak_UserID) arg.(cak_Name) arg.(cak_KeyPrefix)
               arg.(cak_KeyHash) true (now_value db) pg_null_time in
  if text_refused row.(ak_Name) || text_refused row.(ak_KeyPrefix) || text_refused row.(ak_KeyHash)
  then (Err (PgError character_not_in_repertoire), db)
  else if bool_decide (is_Some (db.(api_keys) !! row.(ak_ID)) ∨
                  ¬ map_Forall (fun _ r => r.(ak_KeyHash) ≠ row.(ak_KeyHash)) db.(api_keys))
  then (Err (PgError unique_violation), draw db)
  else if references row.(ak_UserID) db.(users) then (Ok row, put_api_key row (draw db))
  else (Err (PgError foreign_key_violation), draw db).

Definition with_active (active : bool) (r : ApiKey) : ApiKey :=
  mkApiKey r.(ak_ID) r.(ak_UserID) r.(ak_Name) r.(ak_KeyPrefix) r.(ak_KeyHash) active
    r.(ak_CreatedAt) r.(ak_LastUsedAt).
Definition with_last_used (t : pgtype_Timestamptz) (r : ApiKey) : ApiKey :=
  mkApiKey r.(ak_ID) r.(ak_UserID) r.(ak_Name) r.(ak_KeyPrefix) r.(ak_KeyHash)
    r.(ak_IsActive) r.(ak_CreatedAt) t.

Definition update_api_key (f : ApiKey → ApiKey) (id : UUID) : statement ApiKey := fun db =>
  match db.(api_keys) !! id with
  | None => (Err pgx_ErrNoRows, db)
  | Some r => (Ok (f r), put_api_key (f r) db)
  end.

Definition DeactivateAPIKey (id : UUID) : statement ApiKey :=
  update_api_key (with_active false) id.

Definition GetAPIKeyByHash (keyHash : string) : statement ApiKey := fun db =>
  (one_row (head (filter (fun r : ApiKey => r.(ak_KeyHash) = keyHash ∧ r.(ak_IsActive) = true)
                    (rows db.(api_keys)))), db).

Definition GetAPIKeyByID (id : UUID) : statement ApiKey := fun db =>
  (one_row (db.(api_keys) !! id), db).

Definition ListAPIKeys : statement (list ApiKey) := fun db =>
  (Ok (merge_sort (newest_first ak_CreatedAt) (rows db.(api_keys))), db).

Definition TouchAPIKeyLastUsed (id : UUID) : statement ApiKey := fun db =>
  update_api_key (with_last_used (now_value db)) id db.

(** ** The audit log *)

Record CreateRequestAuditLogParams := mkCreateRequestAuditLogParams {
  cal_ApiKeyID : pgtype_UUID;
  cal_RouteID : string;
  cal_PolicyID : pgtype_UUID;
  cal_Outcome : string;
  cal_RequestCost : Z;
  cal_TokensRemaining : Z
}.

(** [chk_request_audit_route], [chk_request_audit_outcome] and the checks on
    the two numbers. *)
Definition log_checks (r : RequestAuditLog) : bool :=
  (0 <? r.(log_RequestCost)) && (0 <=? r.(log_TokensRemaining)) &&
  bool_decide (r.(log_RouteID) ∈ route_patterns) && bool_decide (r.(log_Outcome) = "blocked").

Definition CreateRequestAuditLog (arg : CreateRequestAuditLogParams)
    : statement RequestAuditLog := fun db =>
  let row := mkRequestAuditLog db.(log_seq) arg.(cal_ApiKeyID) arg.(cal_RouteID)
               arg.(cal_PolicyID) arg.(cal_Outcome) arg.(cal_RequestCost)
               arg.(cal_TokensRemaining) (now_value db) in
  let taken logs := with_logs logs (db.(log_seq) + 1) db in
  if negb (log_checks row) then (Err (PgError check_violation), taken db.(request_audit_logs))
  else if references row.(log_ApiKeyID) db.(api_keys) &&
          references row.(log_PolicyID) db.(rate_limit_policies)
  then (Ok row, taken (row :: db.(request_audit_logs)))
  else (Err (PgError foreign_key_violation), taken db.(request_audit_logs)).

Definition ListRecentRequestAuditLogs (limit : Z) : statement (list RequestAuditLog) := fun db =>
  if limit <? 0 then (Err (PgError "2201W"), db)
  else (Ok (take (Z.to_nat limit)
              (merge_sort (newest_first log_BlockedAt) db.(request_audit_logs))), db).

(** ** Users *)

Record CreateUserParams := mkCreateUserParams { cu_Name : string; cu_Email : string }.

Definition CreateUser (arg : CreateUserParams) : statement User := fun db =>
  let row := mkUser (fresh_uuid db) arg.(cu_Name) arg.(cu_Email) (now_value db) in
  if text_refused row.(usr_Name) || text_refused row.(usr_Email)
  then (Err (PgError character_not_in_repertoire), db)
  else if bool_decide (is_Some (db.(users) !! row.(usr_ID)) ∨
                  ¬ map_Forall (fun _ r => r.(usr_Email) ≠ row.(usr_Email)) db.(users))
  then (Err (PgError unique_violation), draw db)
  else (Ok row, with_users (<[row.(usr_ID) := row]> db.(users)) (draw db)).

Definition GetUser (id : UUID) : statement User := fun db => (one_row (db.(users) !! id), db).

Definition ListUsers : statement (list User) := fun db =>
  (Ok (merge_sort (newest_first usr_CreatedAt) (rows db.(users))), db).
