(* ===== verification/DatabaseSpec.v ===== *)
(** * The database's invariant

    What the schema promises of every reachable database, that every statement
    of the query layer keeps it, and the active policy of a scope. *)
From stdpp Require Import sorting.
From S2P Require Import Prelude GoBase Ids Text Database Queries.

(** Instants that [time.Time] can put in JSON: years 0 to 9999. *)
Definition json_time (t : Time) : Prop := -62167219200 * Second ≤ t < 253402300800 * Second.

Definition pg_time_ok (t : pgtype_Timestamptz) : Prop :=
  t.(pg_TimeValid) = true ∧ json_time t.(pg_Time).

Record policy_row_ok (db : database) (id : UUID) (r : RateLimitPolicy) : Prop := {
  pr_id : r.(rlp_ID) = id;
  pr_uuid : uuid_ok id;
  pr_checks : policy_checks r = true;
  pr_capacity : in_int32 r.(rlp_Capacity);
  pr_tokens : in_int32 r.(rlp_RefillTokens);
  pr_interval : in_int32 r.(rlp_RefillIntervalSeconds);
  pr_scope : references r.(rlp_ScopeIdentifier) db.(api_keys) = true;
  pr_created : pg_time_ok r.(rlp_CreatedAt);
  pr_updated : pg_time_ok r.(rlp_UpdatedAt)
}.

Record api_key_row_ok (db : database) (id : UUID) (r : ApiKey) : Prop := {
  kr_id : r.(ak_ID) = id;
  kr_uuid : uuid_ok id;
  kr_user : references r.(ak_UserID) db.(users) = true;
  kr_name : ValidString r.(ak_Name) = true;
  kr_prefix : ValidString r.(ak_KeyPrefix) = true;
  kr_created : pg_time_ok r.(ak_CreatedAt);
  kr_last : r.(ak_LastUsedAt).(pg_TimeValid) = true → json_time r.(ak_LastUsedAt).(pg_Time)
}.

Record log_row_ok (db : database) (r : RequestAuditLog) : Prop := {
  lr_checks : log_checks r = true;
  lr_key : references r.(log_ApiKeyID) db.(api_keys) = true;
  lr_policy : references r.(log_PolicyID) db.(rate_limit_policies) = true
}.

Record db_ok (db : database) : Prop := {
  ok_policies : map_Forall (policy_row_ok db) db.(rate_limit_policies);
  ok_unique : ∀ id id' r r', db.(rate_limit_policies) !! id = Some r →
    db.(rate_limit_policies) !! id' = Some r' → policy_entry r ≠ None →
    policy_entry r = policy_entry r' → id = id';
  ok_api_keys : map_Forall (api_key_row_ok db) db.(api_keys);
  ok_hashes : ∀ id id' r r', db.(api_keys) !! id = Some r → db.(api_keys) !! id' = Some r' →
    r.(ak_KeyHash) = r'.(ak_KeyHash) → id = id';
  ok_users : map_Forall (fun id r => r.(usr_ID) = id ∧ uuid_ok id) db.(users);
  ok_emails : ∀ id id' r r', db.(users) !! id = Some r → db.(users) !! id' = Some r' →
    r.(usr_Email) = r'.(usr_Email) → id = id';
  ok_logs : Forall (log_row_ok db) db.(request_audit_logs);
  ok_now : json_time db.(NOW);
  ok_uuids : ∀ k, uuid_ok (db.(gen_random_uuid) k)
}.

(** ** Statements that write *)

Definition numbers_fit (capacity tokens seconds : Z) : Prop :=
  in_int32 capacity ∧ in_int32 tokens ∧ in_int32 seconds.

Inductive db_step : database → database → Prop :=
| step_create_policy arg db :
    numbers_fit arg.(crp_Capacity) arg.(crp_RefillTokens) arg.(crp_RefillIntervalSeconds) →
    db_step db (CreateRateLimitPolicy arg db).2
| step_update_policy arg db :
    numbers_fit arg.(urp_Capacity) arg.(urp_RefillTokens) arg.(urp_RefillIntervalSeconds) →
    db_step db (UpdateRateLimitPolicy arg db).2
| step_deactivate_policy id db : db_step db (DeactivateRateLimitPolicy id db).2
| step_create_key arg db : db_step db (CreateAPIKey arg db).2
| step_deactivate_key id db : db_step db (DeactivateAPIKey id db).2
| step_touch_key id db : db_step db (TouchAPIKeyLastUsed id db).2
| step_audit arg db : db_step db (CreateRequestAuditLog arg db).2
| step_create_user arg db : db_step db (CreateUser arg db).2.

(** ** Which rows a change of one table leaves valid *)

Lemma references_insert {A} c (t : gmap UUID A) id a :
  references c t = true → references c (<[id := a]> t) = true.
Proof.
  unfold references. destruct (Valid c); [|done]. rewrite !bool_decide_eq_true, lookup_insert_is_Some'.
  auto.
Qed.

Definition refs_grow {A} (t t' : gmap UUID A) : Prop :=
  ∀ c, references c t = true → references c t' = true.

Lemma refs_grow_insert {A} (t : gmap UUID A) id a : refs_grow t (<[id := a]> t).
Proof. intros c. apply references_insert. Qed.

Lemma refs_grow_refl {A} (t : gmap UUID A) : refs_grow t t.
Proof. by intros c. Qed.

#[export] Hint Resolve refs_grow_insert refs_grow_refl : rl.

(** Rows stay valid while the tables they reference grow. *)
Lemma policies_mono db db' (t : gmap UUID RateLimitPolicy) :
  refs_grow db.(api_keys) db'.(api_keys) →
  map_Forall (policy_row_ok db) t → map_Forall (policy_row_ok db') t.
Proof. intros Hk Ht id r Hr. destruct (Ht id r Hr). split; auto. Qed.

Lemma keys_mono db db' (t : gmap UUID ApiKey) :
  refs_grow db.(users) db'.(users) →
  map_Forall (api_key_row_ok db) t → map_Forall (api_key_row_ok db') t.
Proof. intros Hk Ht id r Hr. destruct (Ht id r Hr). split; auto. Qed.

Lemma logs_mono db db' l :
  refs_grow db.(api_keys) db'.(api_keys) →
  refs_grow db.(rate_limit_policies) db'.(rate_limit_policies) →
  Forall (log_row_ok db) l → Forall (log_row_ok db') l.
Proof. rewrite !list.Forall_forall. intros Hk Hp Hl r Hr. destruct (Hl r Hr). split; auto. Qed.

#[export] Hint Resolve policies_mono keys_mono logs_mono : rl.

Lemma draw_ok db : db_ok db → db_ok (draw db).
Proof.
  intros []. split; simpl; auto.
  - apply (policies_mono db); simpl; auto with rl.
  - apply (keys_mono db); simpl; auto with rl.
  - apply (logs_mono db); simpl; auto with rl.
Qed.

Lemma policy_refused_None taken r db :
  policy_refused taken r db = None ↔
  policy_checks r = true ∧ taken = false ∧
  map_Forall (fun _ r' => ¬ clashes r r') db.(rate_limit_policies) ∧
  references r.(rlp_ScopeIdentifier) db.(api_keys) = true.
Proof.
  unfold policy_refused. destruct (policy_checks r); simpl; [|intuition discriminate].
  destruct taken; simpl; [intuition discriminate|].
  destruct (bool_decide _) eqn:Hf; simpl.
  - apply bool_decide_eq_true_1 in Hf. destruct (references _ _); intuition discriminate.
  - apply bool_decide_eq_false_1 in Hf. intuition discriminate.
Qed.

(** A row the constraints accept can be stored. *)
Lemma put_policy_ok db r :
  db_ok db → uuid_ok r.(rlp_ID) →
  numbers_fit r.(rlp_Capacity) r.(rlp_RefillTokens) r.(rlp_RefillIntervalSeconds) →
  pg_time_ok r.(rlp_CreatedAt) → pg_time_ok r.(rlp_UpdatedAt) →
  policy_checks r = true → references r.(rlp_ScopeIdentifier) db.(api_keys) = true →
  map_Forall (fun _ r' => ¬ clashes r r') db.(rate_limit_policies) →
  db_ok (put_policy r db).
Proof.
  intros [Hp Hu Hk Hh Hus He Hl Hn Hg] Hid (Hc1 & Hc2 & Hc3) Ht1 Ht2 Hck Href Hcl.
  split; simpl; auto.
  - apply map_Forall_insert_2; [by split|]. eapply policies_mono; [|exact Hp]; simpl; auto with rl.
  - intros id id' q q' Hq Hq' Hne Heq.
    apply lookup_insert_Some in Hq as [[<- <-]|[Hi Hq]];
      apply lookup_insert_Some in Hq' as [[<- <-]|[Hi' Hq']]; auto.
    + destruct (Hcl id' q' Hq'). split_and!; auto. by rewrite (pr_id _ _ _ (Hp _ _ Hq')).
    + destruct (Hcl id q Hq). split_and!; [by rewrite (pr_id _ _ _ (Hp _ _ Hq))|congruence|done].
    + by eapply Hu.
  - eapply keys_mono; [|exact Hk]; simpl; auto with rl.
  - eapply logs_mono; [..|exact Hl]; simpl; auto with rl.
Qed.

Lemma put_api_key_ok db r :
  db_ok db → api_key_row_ok db r.(ak_ID) r →
  map_Forall (fun id r' => id ≠ r.(ak_ID) → r'.(ak_KeyHash) ≠ r.(ak_KeyHash)) db.(api_keys) →
  db_ok (put_api_key r db).
Proof.
  intros [Hp Hu Hk Hh Hus He Hl Hn Hg] Hr Hcl. split; simpl; auto.
  - eapply policies_mono; [|exact Hp]; simpl; auto with rl.
  - apply map_Forall_insert_2; [by destruct Hr; split|]. eapply keys_mono; [|exact Hk]; simpl; auto with rl.
  - intros id id' q q' Hq Hq' Heq.
    apply lookup_insert_Some in Hq as [[<- <-]|[Hi Hq]];
      apply lookup_insert_Some in Hq' as [[<- <-]|[Hi' Hq']]; auto.
    + by destruct (Hcl id' q' Hq').
    + by destruct (Hcl id q Hq).
    + by eapply Hh.
  - eapply logs_mono; [..|exact Hl]; simpl; auto with rl.
Qed.

(** ** Every statement keeps the invariant *)

Lemma now_value_ok db : db_ok db → pg_time_ok (now_value db).
Proof. intros []. by split. Qed.

Lemma store_policy_ok db r :
  db_ok db → uuid_ok r.(rlp_ID) →
  numbers_fit r.(rlp_Capacity) r.(rlp_RefillTokens) r.(rlp_RefillIntervalSeconds) →
  pg_time_ok r.(rlp_CreatedAt) → pg_time_ok r.(rlp_UpdatedAt) →
  db_ok (store_policy r db).2.
Proof.
  intros Hdb Hid Hn Ht1 Ht2. unfold store_policy.
  destruct (policy_refused false r db) as [code|] eqn:Hr; [done|].
  apply policy_refused_None in Hr as (Hc & _ & Hcl & Href). by apply put_policy_ok.
Qed.

Lemma CreateRateLimitPolicy_ok arg db :
  db_ok db → numbers_fit arg.(crp_Capacity) arg.(crp_RefillTokens) arg.(crp_RefillIntervalSeconds) →
  db_ok (CreateRateLimitPolicy arg db).2.
Proof.
  intros Hdb Hn. pose proof (draw_ok db Hdb) as Hdraw. unfold CreateRateLimitPolicy.
  destruct (policy_refused _ _ db) as [code|] eqn:Hr; [done|].
  apply policy_refused_None in Hr as (Hc & _ & Hcl & Href).
  apply put_policy_ok; simpl; auto; try by apply now_value_ok. apply Hdb.
Qed.

Lemma update_api_key_ok f id db :
  (∀ r, (f r).(ak_ID) = r.(ak_ID) ∧ (f r).(ak_KeyHash) = r.(ak_KeyHash)) →
  (∀ r, api_key_row_ok db id r → api_key_row_ok db id (f r)) →
  db_ok db → db_ok (update_api_key f id db).2.
Proof.
  intros Hf Hkeep Hdb. unfold update_api_key. destruct (api_keys db !! id) as [r|] eqn:Hr; [|done].
  destruct (Hf r) as (Hi & Hh). pose proof (ok_api_keys db Hdb id r Hr) as Hrow.
  pose proof (kr_id _ _ _ Hrow) as Hid.
  apply put_api_key_ok; [done|rewrite Hi, Hid; by apply Hkeep|].
  intros id' r' Hr' Hne Heq. apply Hne. rewrite Hi, Hid.
  apply (ok_hashes db Hdb id' id r' r Hr' Hr). congruence.
Qed.

Lemma text_accepted s : text_refused s = false → ValidString s = true.
Proof. unfold text_refused. intros [_ H]%orb_false_iff. by apply negb_false_iff. Qed.

Lemma CreateAPIKey_ok arg db : db_ok db → db_ok (CreateAPIKey arg db).2.
Proof.
  intros Hdb. pose proof (draw_ok db Hdb) as Hdraw. unfold CreateAPIKey.
  cbn [ak_ID ak_KeyHash ak_UserID ak_Name ak_KeyPrefix].
  destruct (_ || _) eqn:Htext; [done|]. apply orb_false_iff in Htext as [Htext _].
  apply orb_false_iff in Htext as [Hname Hpre]. case_bool_decide as Hc; [done|]. case_match; [|done].
  apply put_api_key_ok; [done| |].
  - split; simpl; auto using text_accepted; [apply Hdb|by apply now_value_ok|done].
  - intros id r Hr _. simpl in Hr.
    destruct (decide (map_Forall (fun _ r => r.(ak_KeyHash) ≠ arg.(cak_KeyHash)) db.(api_keys)));
      [|naive_solver]. eauto.
Qed.

Lemma CreateRequestAuditLog_ok arg db : db_ok db → db_ok (CreateRequestAuditLog arg db).2.
Proof.
  intros [Hp Hu Hk Hh Hus He Hl Hn Hg]. unfold CreateRequestAuditLog.
  set (row := mkRequestAuditLog _ _ _ _ _ _ _ _).
  assert (Hsame : ∀ logs, Forall (log_row_ok db) logs →
    db_ok (with_logs logs (db.(log_seq) + 1) db)).
  { intros logs Hlogs. split; simpl; auto.
    - apply (policies_mono db); simpl; auto with rl.
    - apply (keys_mono db); simpl; auto with rl.
    - apply (logs_mono db); simpl; auto with rl. }
  destruct (log_checks row) eqn:Hc; cbn [negb]; [|by apply Hsame].
  case_match eqn:Href; [|by apply Hsame]. apply andb_true_iff in Href as [Hr1 Hr2].
  apply Hsame. by constructor.
Qed.

Lemma CreateUser_ok arg db : db_ok db → db_ok (CreateUser arg db).2.
Proof.
  intros Hdb. pose proof (draw_ok db Hdb) as Hdraw. unfold CreateUser. cbn [usr_ID usr_Email].
  case_match; [done|]. case_bool_decide as Hc; [done|].
  destruct (decide (map_Forall (fun _ r => r.(usr_Email) ≠ arg.(cu_Email)) db.(users))) as [Hem|];
    [|naive_solver].
  destruct Hdb as [Hp Hu Hk Hh Hus He Hl Hn Hg]. split; simpl; auto.
  - apply (policies_mono db); simpl; auto with rl.
  - apply (keys_mono db); simpl; auto with rl.
  - apply map_Forall_insert_2; [|done]. split; [done|apply Hg].
  - intros id id' q q' Hq Hq' Heq.
    apply lookup_insert_Some in Hq as [[<- <-]|[Hi Hq]];
      apply lookup_insert_Some in Hq' as [[<- <-]|[Hi' Hq']]; auto; simpl in *.
    + by destruct (Hem id' q' Hq').
    + by destruct (Hem id q Hq).
    + by eapply He.
  - apply (logs_mono db); simpl; auto with rl.
Qed.

Lemma db_step_ok db db' : db_ok db → db_step db db' → db_ok db'.
Proof.
  intros Hdb Hs. destruct Hs as [arg d Hn|arg d Hn|id d|arg d|id d|id d|arg d|arg d].
  - by apply CreateRateLimitPolicy_ok.
  - unfold UpdateRateLimitPolicy. destruct (_ !! _) as [r|] eqn:Hr; [|done].
    destruct (ok_policies d Hdb _ _ Hr) as [Hid Hu _ _ _ _ _ Hc _].
    apply store_policy_ok; simpl; auto; [by rewrite Hid|by apply now_value_ok].
  - unfold DeactivateRateLimitPolicy. destruct (_ !! _) as [r|] eqn:Hr; [|done].
    destruct (ok_policies d Hdb _ _ Hr) as [Hid Hu _ ? ? ? _ Hc _].
    apply store_policy_ok; simpl; auto; [by rewrite Hid|done|by apply now_value_ok].
  - by apply CreateAPIKey_ok.
  - apply update_api_key_ok; [done| |done]. by intros r [].
  - apply update_api_key_ok; [done| |done]. intros r []. split; auto. intros _. apply Hdb.
  - by apply CreateRequestAuditLog_ok.
  - by apply CreateUser_ok.
Qed.

(** C27: the schema's invariant.  Whatever statement of the query layer runs,
    with whatever arguments and whether or not the database refuses it, rows
    keep satisfying the CHECKs, ids and key hashes and the scopes of active
    policies stay unique, and every foreign key points at a row. *)
Theorem db_step_preserves db db' : db_ok db → db_step db db' → db_ok db'.
Proof. apply db_step_ok. Qed.

(** ** The active policy of a scope *)

Lemma elem_of_rows {A} (t : gmap UUID A) a : a ∈ rows t ↔ ∃ id, t !! id = Some a.
Proof.
  unfold rows. rewrite list_elem_of_fmap. split.
  - intros ([id a'] & -> & Hin). exists id. by apply elem_of_map_to_list.
  - intros [id Hid]. exists (id, a). split; [done|]. by apply elem_of_map_to_list.
Qed.
