(* ===== verification/World.v ===== *)
(** * The two servers together

    The service talks to Redis and to the database.  [world] holds both, so one
    list of round trips orders everything that happens to a request; Redis
    commands and SQL statements each act on their own part. *)
From S2P Require Import Prelude GoBase Ids Redis Database Queries.

Record world (D : Type) := mkWorld { redis : D; pg : database }.
Arguments mkWorld {D}.
Arguments redis {D}.
Arguments pg {D}.

Definition with_now (t : Time) (db : database) : database :=
  mkDatabase db.(users) db.(api_keys) db.(rate_limit_policies) db.(request_audit_logs)
    t db.(gen_random_uuid) db.(drawn) db.(log_seq).

Section World.
Context {D : Type} `{RedisServer D}.

#[export] Instance world_server : RedisServer (world D) := {
  hash_view w := hash_view w.(redis);
  string_view w := string_view w.(redis);
  ttl_view w := ttl_view w.(redis);
  live_keys w := live_keys w.(redis);
  stamp w := stamp w.(redis);
  run_cmd c w := mkWorld (run_cmd c w.(redis)) w.(pg);
  elapse t w := mkWorld (elapse t w.(redis)) (with_now (NOW w.(pg) + t) w.(pg))
}.

Lemma world_evolves (w w' : world D) : evolves w.(redis) w'.(redis) → evolves w w'.
Proof. intros He k. destruct (He k) as [? Hs]. split; [done|]. intros Heq. by destruct (Hs Heq). Qed.

#[export] Instance world_laws `{!RedisLaws D} : RedisLaws (world D).
Proof.
  split; simpl.
  - intros c d k Hk. destruct (run_frame c d.(redis) k Hk) as ([] & ? & ?). by split_and!.
  - intros k fs d. apply run_hset.
  - intros k ttl d Ht. destruct (run_expire_later k ttl d.(redis) Ht) as [[] ?]. by split.
  - intros k ttl d. apply run_expire_now.
  - intros k f n d old. apply run_hincrby.
  - intros k p ttl d. apply run_set.
  - intros ks d k. apply run_del.
  - intros c d. apply world_evolves, run_evolves.
  - intros d k. apply (live_keys_spec d.(redis) k).
  - intros t d k Ht Hl. destruct (elapse_live t d.(redis) k Ht Hl) as [[] ?]. by split.
  - intros t d k p. apply (elapse_gone t d.(redis)).
  - intros t d Ht. by apply world_evolves, elapse_evolves.
Qed.

(** One SQL statement over the connection: the driver's own failure, or what
    the statement reports. *)
Definition sql {A} (st : statement A) (n : net (world D)) : result error A * net (world D) :=
  let '(r, n) := call (fun w =>
    let '(r, db) := st w.(pg) in (r, mkWorld w.(redis) db)) n in
  (let? r := r in r, n).

Lemma sql_quiet {A} (st : statement A) (w : world D) :
  sql st (quiet w) = ((st w.(pg)).1, quiet (mkWorld w.(redis) (st w.(pg)).2)).
Proof. unfold sql, call, quiet; simpl. by destruct (st (pg w)). Qed.

Lemma exec_world cs (w : world D) : exec_cmds cs w = mkWorld (exec_cmds cs w.(redis)) w.(pg).
Proof.
  revert w. induction cs as [|c cs IH]; intros w; [by destruct w|].
  change (exec_cmds (c :: cs) w) with (exec_cmds cs (run_cmd c w)). by rewrite IH.
Qed.

Lemma command_quiet cs (w : world D) :
  command cs (quiet w) = (Ok (), quiet (mkWorld (exec_cmds cs w.(redis)) w.(pg))).
Proof. unfold command, call, quiet; simpl. by rewrite exec_world. Qed.
End World.
