(* ===== verification/Policies.v ===== *)
(** * Policies: [internal/policies/service.go]

    Policies live in the database; a projector keeps a copy where the request
    path reads it.  The service validates, writes the row, then tells the
    projector. *)
From S2P Require Import Prelude GoBase Ids Text Redis Database Queries World.

Definition ScopeGlobal : string := "global".
Definition ScopeAPIKey : string := "api_key".
Definition ScopeRoute : string := "route".
Definition ScopeAPIKeyRoute : string := "api_key_route".

Definition ErrInvalidScopeType : error :=
  ErrorsNew "policies.ErrInvalidScopeType" "scope_type is invalid".
Definition ErrInvalidScopeShape : error :=
  ErrorsNew "policies.ErrInvalidScopeShape"
    "scope_type requires a different scope_identifier and route_pattern combination".
Definition ErrInvalidRoutePattern : error :=
  ErrorsNew "policies.ErrInvalidRoutePattern" "route_pattern must be one of ping, orders, or report".
Definition ErrInvalidCapacity : error :=
  ErrorsNew "policies.ErrInvalidCapacity" "capacity must be greater than zero".
Definition ErrInvalidRefillTokens : error :=
  ErrorsNew "policies.ErrInvalidRefillTokens" "refill_tokens must be greater than zero".
Definition ErrInvalidRefillInterval : error :=
  ErrorsNew "policies.ErrInvalidRefillInterval" "refill_interval_seconds must be greater than zero".
Definition ErrPolicyConflict : error :=
  ErrorsNew "policies.ErrPolicyConflict" "an active policy already exists for that scope".
Definition ErrScopedAPIKeyNotFound : error :=
  ErrorsNew "policies.ErrScopedAPIKeyNotFound"
    "scope_identifier does not reference an existing api key".
Definition ErrPolicyNotFound : error :=
  ErrorsNew "policies.ErrPolicyNotFound" "policy not found".

Definition validRoutePatterns : gset string := {["ping"; "orders"; "report"]}.

Record Policy := mkPolicy {
  pol_ID : UUID;
  pol_ScopeType : string;
  pol_ScopeIdentifier : option UUID;
  pol_RoutePattern : option string;
  pol_Capacity : Z;
  pol_RefillTokens : Z;
  pol_RefillIntervalSeconds : Z;
  pol_IsActive : bool;
  pol_CreatedAt : Time;
  pol_UpdatedAt : Time
}.

#[global] Instance Policy_eq_dec : EqDecision Policy.
Proof. solve_decision. Defined.

Record CreatePolicyInput := mkCreatePolicyInput {
  in_ScopeType : string;
  in_ScopeIdentifier : option UUID;
  in_RoutePattern : option string;
  in_Capacity : Z;
  in_RefillTokens : Z;
  in_RefillIntervalSeconds : Z
}.

#[global] Instance CreatePolicyInput_eq_dec : EqDecision CreatePolicyInput.
Proof. solve_decision. Defined.

(** [UpdatePolicyInput] has the same fields, copied one by one into a
    [CreatePolicyInput] for validation. *)
Record UpdatePolicyInput := mkUpdatePolicyInput {
  up_ScopeType : string;
  up_ScopeIdentifier : option UUID;
  up_RoutePattern : option string;
  up_Capacity : Z;
  up_RefillTokens : Z;
  up_RefillIntervalSeconds : Z
}.

(** What the service asks of a projector. *)
Record Projector (W : Type) := mkProjector {
  SyncPolicy : option Policy → Policy → net W → result error unit * net W;
  RemovePolicy : Policy → net W → result error unit * net W;
  ReplacePolicies : list Policy → net W → result error unit * net W
}.
Arguments mkProjector {W}.
Arguments SyncPolicy {W}.
Arguments RemovePolicy {W}.
Arguments ReplacePolicies {W}.

Definition noopProjector {W} : Projector W :=
  mkProjector (fun _ _ n => (Ok (), n)) (fun _ n => (Ok (), n)) (fun _ n => (Ok (), n)).

Record Service (W : Type) := mkService { projector : Projector W }.
Arguments mkService {W}.
Arguments projector {W}.

Definition NewService {W} (projector : option (Projector W)) : Service W :=
  mkService (match projector with None => noopProjector | Some p => p end).

(** ** Conversions *)

Definition nullableUUID (value : option UUID) : pgtype_UUID :=
  match value with
  | None => pg_null_UUID
  | Some id => mkPgUUID id true
  end.

Definition pointerUUID (value : pgtype_UUID) : option UUID :=
  if negb value.(Valid) then None else Some value.(Bytes).

Definition pointerTime (value : pgtype_Timestamptz) : option Time :=
  if negb value.(pg_TimeValid) then None else Some (time_UTC value.(pg_Time)).

Definition policyFromRecord (record : RateLimitPolicy) : Policy := {|
  pol_ID := record.(rlp_ID);
  pol_ScopeType := record.(rlp_ScopeType);
  pol_ScopeIdentifier := pointerUUID record.(rlp_ScopeIdentifier);
  pol_RoutePattern := record.(rlp_RoutePattern);
  pol_Capacity := record.(rlp_Capacity);
  pol_RefillTokens := record.(rlp_RefillTokens);
  pol_RefillIntervalSeconds := record.(rlp_RefillIntervalSeconds);
  pol_IsActive := record.(rlp_IsActive);
  pol_CreatedAt := default zero_Time (pointerTime record.(rlp_CreatedAt));
  pol_UpdatedAt := default zero_Time (pointerTime record.(rlp_UpdatedAt))
|}.

Definition translateWriteError (err : error) : error :=
  match errors_As_PgError err with
  | None => err
  | Some code =>
      if bool_decide (code = "23503") then ErrScopedAPIKeyNotFound
      else if bool_decide (code = "23505") then ErrPolicyConflict
      else err
  end.

(** ** Validation *)

(** The [switch] on the scope type: the fields it allows. *)
Definition scope_shape (scope_type : string) (has_identifier has_pattern : bool)
    : result error unit :=
  if bool_decide (scope_type = ScopeGlobal) then
    if has_identifier || has_pattern then Err ErrInvalidScopeShape else Ok ()
  else if bool_decide (scope_type = ScopeAPIKey) then
    if negb has_identifier || has_pattern then Err ErrInvalidScopeShape else Ok ()
  else if bool_decide (scope_type = ScopeRoute) then
    if has_identifier || negb has_pattern then Err ErrInvalidScopeShape else Ok ()
  else if bool_decide (scope_type = ScopeAPIKeyRoute) then
    if negb has_identifier || negb has_pattern then Err ErrInvalidScopeShape else Ok ()
  else Err ErrInvalidScopeType.

Definition validateCreateInput (input : CreatePolicyInput) : result error CreatePolicyInput :=
  let scopeType := TrimSpace input.(in_ScopeType) in
  if bool_decide (scopeType = EmptyString) then Err ErrInvalidScopeType
  else
    let routePattern := TrimSpace <$> input.(in_RoutePattern) in
    if input.(in_Capacity) <=? 0 then Err ErrInvalidCapacity
    else if input.(in_RefillTokens) <=? 0 then Err ErrInvalidRefillTokens
    else if input.(in_RefillIntervalSeconds) <=? 0 then Err ErrInvalidRefillInterval
    else
      let? _ := scope_shape scopeType (bool_decide (is_Some input.(in_ScopeIdentifier)))
                  (bool_decide (is_Some routePattern)) in
      let normalized :=
        mkCreatePolicyInput scopeType input.(in_ScopeIdentifier) routePattern
          input.(in_Capacity) input.(in_RefillTokens) input.(in_RefillIntervalSeconds) in
      match routePattern with
      | Some p => if bool_decide (p ∈ validRoutePatterns) then Ok normalized
                  else Err ErrInvalidRoutePattern
      | None => Ok normalized
      end.

(** ** The service *)

Section Service.
Context {D : Type}.
Implicit Types (s : Service (world D)) (n : net (world D)).

Definition Create s (input : CreatePolicyInput) n : result error Policy * net (world D) :=
  match validateCreateInput input with
  | Err err => (Err err, n)
  | Ok normalized =>
      let '(r, n) := sql (CreateRateLimitPolicy {|
        crp_ScopeType := normalized.(in_ScopeType);
        crp_ScopeIdentifier := nullableUUID normalized.(in_ScopeIdentifier);
        crp_RoutePattern := normalized.(in_RoutePattern);
        crp_Capacity := normalized.(in_Capacity);
        crp_RefillTokens := normalized.(in_RefillTokens);
        crp_RefillIntervalSeconds := normalized.(in_RefillIntervalSeconds)
      |}) n in
      match r with
      | Err err => (Err (translateWriteError err), n)
      | Ok record =>
          let policy := policyFromRecord record in
          let '(r, n) := s.(projector).(SyncPolicy) None policy n in
          (let? _ := wrap_err "sync policy projection" r in Ok policy, n)
      end
  end.

Definition List (s : Service (world D)) n : result error (list Policy) * net (world D) :=
  let '(r, n) := sql ListRateLimitPolicies n in
  (let? records := wrap_err "list policies" r in Ok (map policyFromRecord records), n).

Definition RebuildProjection s n : result error unit * net (world D) :=
  let '(r, n) := sql ListActiveRateLimitPolicies n in
  match r with
  | Err err => (Err (Wrapf "list active policies" err), n)
  | Ok records =>
      let '(r, n) := s.(projector).(ReplacePolicies) (map policyFromRecord records) n in
      (wrap_err "replace policy projection" r, n)
  end.

Definition Update s (id : UUID) (input : UpdatePolicyInput) n
    : result error Policy * net (world D) :=
  let '(r, n) := sql (GetRateLimitPolicy id) n in
  match r with
  | Err err =>
      (Err (if errors_Is err pgx_ErrNoRows then ErrPolicyNotFound else Wrapf "get policy" err), n)
  | Ok existing =>
      match validateCreateInput {|
        in_ScopeType := input.(up_ScopeType);
        in_ScopeIdentifier := input.(up_ScopeIdentifier);
        in_RoutePattern := input.(up_RoutePattern);
        in_Capacity := input.(up_Capacity);
        in_RefillTokens := input.(up_RefillTokens);
        in_RefillIntervalSeconds := input.(up_RefillIntervalSeconds)
      |} with
      | Err err => (Err err, n)
      | Ok normalized =>
          let '(r, n) := sql (UpdateRateLimitPolicy {|
            urp_ID := id;
            urp_ScopeType := normalized.(in_ScopeType);
            urp_ScopeIdentifier := nullableUUID normalized.(in_ScopeIdentifier);
            urp_RoutePattern := normalized.(in_RoutePattern);
            urp_Capacity := normalized.(in_Capacity);
            urp_RefillTokens := normalized.(in_RefillTokens);
            urp_RefillIntervalSeconds := normalized.(in_RefillIntervalSeconds);
            urp_IsActive := existing.(rlp_IsActive)
          |}) n in
          match r with
          | Err err => (Err (translateWriteError err), n)
          | Ok record =>
              let previous := policyFromRecord existing in
              let policy := policyFromRecord record in
              let '(r, n) := s.(projector).(SyncPolicy) (Some previous) policy n in
              (let? _ := wrap_err "sync policy projection" r in Ok policy, n)
          end
      end
  end.

Definition Deactivate s (id : UUID) n : result error Policy * net (world D) :=
  let '(r, n) := sql (DeactivateRateLimitPolicy id) n in
  match r with
  | Err err =>
      (Err (if errors_Is err pgx_ErrNoRows then ErrPolicyNotFound
            else Wrapf "deactivate policy" err), n)
  | Ok record =>
      let policy := policyFromRecord record in
      let '(r, n) := s.(projector).(RemovePolicy) policy n in
      (let? _ := wrap_err "remove policy projection" r in Ok policy, n)
  end.
End Service.
