(* ===== verification/PolicyJson.v ===== *)
(** * A policy as JSON

    [json.Marshal] and [json.Unmarshal] on the [Policy] struct of
    internal/policies/service.go, whose fields carry no tags. *)
From S2P Require Import Prelude GoBase Ids Text Json Calendar JsonDecode JsonRoundTrip JsonRecords.
From S2P Require Import Database DatabaseSpec Policies.

Section PolicyJson.
Context `{UuidText}.

Definition policy_json (p : Policy) : result error json :=
  let? created := encode_time p.(pol_CreatedAt) in
  let? updated := encode_time p.(pol_UpdatedAt) in
  Ok (JObj [("ID", encode_uuid p.(pol_ID));
            ("ScopeType", JStr p.(pol_ScopeType));
            ("ScopeIdentifier", encode_pointer encode_uuid p.(pol_ScopeIdentifier));
            ("RoutePattern", encode_pointer JStr p.(pol_RoutePattern));
            ("Capacity", JInt p.(pol_Capacity));
            ("RefillTokens", JInt p.(pol_RefillTokens));
            ("RefillIntervalSeconds", JInt p.(pol_RefillIntervalSeconds));
            ("IsActive", JBool p.(pol_IsActive));
            ("CreatedAt", created);
            ("UpdatedAt", updated)]).

Definition zero_Policy : Policy :=
  mkPolicy 0 EmptyString None None 0 0 0 false zero_Time zero_Time.

(** The member with this folded name, if the struct has the field. *)
Definition set_policy_field (name : string) (v : jval) (p : Policy) : option Policy :=
  let 'mkPolicy id ty sid route cap tok secs active created updated := p in
  if bool_decide (name = "ID") then
    x ← decode_uuid id v; Some (mkPolicy x ty sid route cap tok secs active created updated)
  else if bool_decide (name = "SCOPETYPE") then
    x ← decode_string ty v; Some (mkPolicy id x sid route cap tok secs active created updated)
  else if bool_decide (name = "SCOPEIDENTIFIER") then
    x ← decode_pointer 0 decode_uuid sid v;
    Some (mkPolicy id ty x route cap tok secs active created updated)
  else if bool_decide (name = "ROUTEPATTERN") then
    x ← decode_pointer EmptyString decode_string route v;
    Some (mkPolicy id ty sid x cap tok secs active created updated)
  else if bool_decide (name = "CAPACITY") then
    x ← decode_int32 cap v; Some (mkPolicy id ty sid route x tok secs active created updated)
  else if bool_decide (name = "REFILLTOKENS") then
    x ← decode_int32 tok v; Some (mkPolicy id ty sid route cap x secs active created updated)
  else if bool_decide (name = "REFILLINTERVALSECONDS") then
    x ← decode_int32 secs v; Some (mkPolicy id ty sid route cap tok x active created updated)
  else if bool_decide (name = "ISACTIVE") then
    x ← decode_bool active v; Some (mkPolicy id ty sid route cap tok secs x created updated)
  else if bool_decide (name = "CREATEDAT") then
    x ← decode_time created v; Some (mkPolicy id ty sid route cap tok secs active x updated)
  else if bool_decide (name = "UPDATEDAT") then
    x ← decode_time updated v; Some (mkPolicy id ty sid route cap tok secs active created x)
  else Some p.

#[export] Instance policy_codec : JsonCodec Policy := {
  Marshal p := let? j := policy_json p in Ok (json_text j);
  Unmarshal := unmarshal zero_Policy set_policy_field
}.
End PolicyJson.

(** * A stored policy reads back as it was written *)

(** The policies JSON has to carry: those of valid rows. *)
Record policy_json_ok (p : Policy) : Prop := {
  pj_id : uuid_ok p.(pol_ID);
  pj_scope_id : ∀ u, p.(pol_ScopeIdentifier) = Some u → uuid_ok u;
  pj_type : p.(pol_ScopeType) ∈ scope_types;
  pj_route : ∀ r, p.(pol_RoutePattern) = Some r → r ∈ route_patterns;
  pj_numbers : numbers_fit p.(pol_Capacity) p.(pol_RefillTokens) p.(pol_RefillIntervalSeconds);
  pj_created : json_time p.(pol_CreatedAt);
  pj_updated : json_time p.(pol_UpdatedAt)
}.

Section PolicyJson.
Context `{UL : UuidLaws}.

Lemma word_valid (l : list string) s :
  forallb ValidString l = true → s ∈ l → ValidString s = true.
Proof. intros Hl Hs. apply (proj1 (forallb_forall _ _) Hl). by apply list_elem_of_In. Qed.

Ltac member field :=
  eapply decode_member;
  [reflexivity|unfold set_policy_field, zero_Policy; decide_names; field; reflexivity|].

Lemma policy_round_trip p : policy_json_ok p → ∃ s, Marshal p = Ok s ∧ Unmarshal s = Ok p.
Proof.
  intros [Hid Hsid Hty Hroute (Hc & Ht & Hi) Hcr Hup].
  destruct p as [id ty sid route cap tok secs active created updated]; cbn in *.
  destruct (field_time zero_Time created Hcr) as (sc & Hsc & Hrc).
  destruct (field_time zero_Time updated Hup) as (su & Hsu & Hru).
  unfold policy_json; cbn. rewrite Hsc, Hsu. cbn [res_bind]. eexists. split; [done|].
  apply unmarshal_object.
  { destruct sid, route; done. }
  cbn [map fst snd].
  assert (Hscope : ValidString ty = true) by (by apply (word_valid scope_types)).
  assert (Hpat : ∀ r, route = Some r → ValidString r = true).
  { intros r ->. apply (word_valid route_patterns); [done|]. by apply Hroute. }
  member ltac:(rewrite field_uuid by done).
  member ltac:(rewrite field_string by done).
  member ltac:(rewrite field_pointer by (intros u ->; split; [apply field_uuid, Hsid|]; done)).
  member ltac:(rewrite field_pointer by (intros r ->; split; [apply field_string, Hpat|]; done)).
  do 3 member ltac:(rewrite field_int32 by done).
  member idtac.
  member ltac:(rewrite Hrc).
  member ltac:(rewrite Hru).
  done.
Qed.

#[export] Instance policy_codec_laws : JsonLaws Policy policy_json_ok.
Proof. intros p Hp. by apply policy_round_trip. Qed.
End PolicyJson.
