(* ===== verification/PolicySpec.v ===== *)
(** * What the policy service promises about policies

    Its validation is the schema's, and a scope has at most one active policy:
    the one the database's own lookup finds. *)
From S2P Require Import Prelude GoBase Ids Text Redis Database Queries DatabaseSpec World Policies.

(** ** Scopes *)

Record scope := mkScope { sc_type : string; sc_id : option UUID; sc_route : option string }.

#[global] Instance scope_eq_dec : EqDecision scope.
Proof. solve_decision. Defined.

Definition scope_of (r : RateLimitPolicy) : scope :=
  mkScope r.(rlp_ScopeType) (pointerUUID r.(rlp_ScopeIdentifier)) r.(rlp_RoutePattern).

(** The active policy of a scope, by the database's own query. *)
Definition active_policy (db : database) (sc : scope) : option RateLimitPolicy :=
  match (FindRateLimitPolicyByScope
           (mkFindRateLimitPolicyByScopeParams sc.(sc_type) (nullableUUID sc.(sc_id)) sc.(sc_route))
           db).1 with
  | Ok r => Some r
  | Err _ => None
  end.

Lemma pointer_nullable i : pointerUUID (nullableUUID i) = i.
Proof. by destruct i. Qed.

Lemma not_distinct_spec a i : not_distinct a (nullableUUID i) = true ↔ pointerUUID a = i.
Proof.
  unfold not_distinct, pointerUUID. destruct a as [u []], i as [v|]; simpl; try done.
  rewrite Z.eqb_eq. naive_solver.
Qed.

(** The shape constraint, case by case. *)
Inductive shape : string → bool → bool → Prop :=
| shape_global : shape ScopeGlobal false false
| shape_api_key : shape ScopeAPIKey true false
| shape_route : shape ScopeRoute false true
| shape_api_key_route : shape ScopeAPIKeyRoute true true.

Lemma chk_scope_shape_spec t i p : chk_scope_shape t i p = true ↔ shape t i p.
Proof.
  split.
  - unfold chk_scope_shape. intros H.
    destruct i, p; rewrite ?andb_false_r, ?andb_true_r, ?orb_false_r in H; simpl in H;
      apply bool_decide_eq_true_1 in H as ->; constructor.
  - by intros [].
Qed.

Lemma scope_shape_spec t i p : scope_shape t i p = Ok () ↔ shape t i p.
Proof.
  split; [|by intros []]. unfold scope_shape.
  repeat case_bool_decide; subst; destruct i, p; try done; constructor.
Qed.

Lemma shape_type t i p : shape t i p → t ∈ scope_types.
Proof. intros []; by apply (bool_decide_unpack _). Qed.

Record row_valid (r : RateLimitPolicy) : Prop := {
  rv_capacity : 0 < r.(rlp_Capacity);
  rv_tokens : 0 < r.(rlp_RefillTokens);
  rv_interval : 0 < r.(rlp_RefillIntervalSeconds);
  rv_route : ∀ p, r.(rlp_RoutePattern) = Some p → p ∈ route_patterns;
  rv_shape : shape r.(rlp_ScopeType) r.(rlp_ScopeIdentifier).(Valid)
               (bool_decide (is_Some r.(rlp_RoutePattern)))
}.

Lemma policy_checks_spec r : policy_checks r = true ↔ row_valid r.
Proof.
  unfold policy_checks. rewrite !andb_true_iff, !Z.ltb_lt, bool_decide_eq_true, chk_scope_shape_spec.
  split.
  - intros (((((H1 & H2) & H3) & _) & Hp) & Hs). split; auto.
    intros p Heq. rewrite Heq in Hp. by apply bool_decide_eq_true_1 in Hp.
  - intros []. split_and!; auto; [by eapply shape_type|].
    destruct (rlp_RoutePattern r) as [p|]; [|done]. apply bool_decide_eq_true. auto.
Qed.

(** Among valid rows the unique indexes index the active scopes. *)
Lemma policy_entry_active r : row_valid r → policy_entry r ≠ None ↔ r.(rlp_IsActive) = true.
Proof.
  intros [_ _ _ _ Hs]. unfold policy_entry. destruct (rlp_IsActive r); simpl; [|naive_solver].
  split; [done|intros _].
  inversion Hs as [Ht Hi Hp|Ht Hi Hp|Ht Hi Hp|Ht Hi Hp]; rewrite <- ?Hi; try done;
    symmetry in Hp; apply bool_decide_eq_true_1 in Hp as [p ->]; done.
Qed.

Lemma policy_entry_scope r r' :
  row_valid r → row_valid r' → r.(rlp_IsActive) = true → r'.(rlp_IsActive) = true →
  policy_entry r = policy_entry r' ↔ scope_of r = scope_of r'.
Proof.
  intros [_ _ _ _ Hs] [_ _ _ _ Hs'] Ha Ha'. unfold policy_entry, scope_of, pointerUUID.
  rewrite Ha, Ha'. destruct r as [id t [b v] p ? ? ? ? ? ?], r' as [id' t' [b' v'] p' ? ? ? ? ? ?].
  simpl in *. destruct p as [p|], p' as [p'|]; simpl in *;
    inversion Hs; inversion Hs'; subst; simpl; naive_solver.
Qed.

Lemma ok_row_valid db id r : db_ok db → db.(rate_limit_policies) !! id = Some r → row_valid r.
Proof. intros Hdb Hr. apply policy_checks_spec, (ok_policies db Hdb id r Hr). Qed.

(** The lookup finds the active policy of the scope if there is one. *)
Lemma active_policy_spec db sc r :
  db_ok db →
  active_policy db sc = Some r ↔
  ∃ id, db.(rate_limit_policies) !! id = Some r ∧ r.(rlp_IsActive) = true ∧ scope_of r = sc.
Proof.
  intros Hdb. unfold active_policy, FindRateLimitPolicyByScope. simpl.
  set (l := filter _ _). assert (Hin : ∀ r', r' ∈ l ↔
    ∃ id, db.(rate_limit_policies) !! id = Some r' ∧ r'.(rlp_IsActive) = true ∧ scope_of r' = sc).
  { intros r'. unfold l. rewrite list_elem_of_filter, elem_of_rows, not_distinct_spec.
    unfold scope_of. destruct sc as [t i p]; simpl. naive_solver. }
  assert (Huniq : ∀ r1 r2, r1 ∈ l → r2 ∈ l → r1 = r2).
  { intros r1 r2 (id1 & H1 & Ha1 & Hs1)%Hin (id2 & H2 & Ha2 & Hs2)%Hin.
    pose proof (ok_row_valid _ _ _ Hdb H1) as V1. pose proof (ok_row_valid _ _ _ Hdb H2) as V2.
    assert (id1 = id2) as ->; [|congruence].
    apply (ok_unique db Hdb id1 id2 r1 r2 H1 H2); [by apply policy_entry_active|].
    apply policy_entry_scope; congruence. }
  rewrite <- Hin. destruct l as [|r0 l]; simpl.
  - split; [done|]. intros H. by apply not_elem_of_nil in H.
  - split; [intros [= <-]; by left|]. intros Hr. f_equal. apply Huniq; [by left|done].
Qed.

Lemma active_policy_None db sc :
  db_ok db →
  active_policy db sc = None ↔
  ∀ id r, db.(rate_limit_policies) !! id = Some r → r.(rlp_IsActive) = true → scope_of r ≠ sc.
Proof.
  intros Hdb. split.
  - intros Hn id r Hr Ha Hs. assert (Hex : active_policy db sc = Some r); [|congruence].
    apply active_policy_spec; eauto.
  - intros Hall. destruct (active_policy db sc) as [r|] eqn:Hr; [|done].
    apply active_policy_spec in Hr as (id & Hr & Ha & Hs); [|done]. by destruct (Hall id r Hr Ha).
Qed.

(** ** Validation *)

Definition trimmed (input : CreatePolicyInput) : CreatePolicyInput :=
  mkCreatePolicyInput (TrimSpace input.(in_ScopeType)) input.(in_ScopeIdentifier)
    (TrimSpace <$> input.(in_RoutePattern)) input.(in_Capacity) input.(in_RefillTokens)
    input.(in_RefillIntervalSeconds).

(** The row a policy with these fields is stored as. *)
Definition row_of (id : UUID) (input : CreatePolicyInput) (active : bool)
    (created updated : pgtype_Timestamptz) : RateLimitPolicy :=
  mkRateLimitPolicy id input.(in_ScopeType) (nullableUUID input.(in_ScopeIdentifier))
    input.(in_RoutePattern) input.(in_Capacity) input.(in_RefillTokens)
    input.(in_RefillIntervalSeconds) active created updated.

Lemma Valid_nullable i : (nullableUUID i).(Valid) = bool_decide (is_Some i).
Proof. by destruct i. Qed.

Lemma validateCreateInput_schema input n id active created updated :
  validateCreateInput input = Ok n ↔
  n = trimmed input ∧ policy_checks (row_of id n active created updated) = true.
Proof.
  rewrite policy_checks_spec. unfold validateCreateInput. split.
  - repeat case_test; to_prop; try done. destruct (scope_shape _ _ _) as [[]|] eqn:Hs; [|done].
    apply scope_shape_spec in Hs. simpl. intros Hn.
    assert (n = trimmed input ∧ ∀ p, TrimSpace <$> in_RoutePattern input = Some p →
      p ∈ validRoutePatterns) as [-> Hp].
    { destruct (in_RoutePattern input) as [p|] eqn:Hp; simpl in *.
      - case_bool_decide; [|done]. injection Hn as <-. unfold trimmed. rewrite Hp.
        split; [done|]. by intros ? [= <-].
      - injection Hn as <-. unfold trimmed. rewrite Hp. done. }
    split; [done|]. split; simpl; try lia.
    + intros p Heq%Hp. unfold validRoutePatterns in Heq. unfold route_patterns. set_solver.
    + by rewrite Valid_nullable.
  - intros [-> [Hc Ht Hi Hp Hs]]. simpl in *. rewrite Valid_nullable in Hs.
    rewrite bool_decide_eq_false_2 by (intros He; rewrite He in Hs; by inversion Hs).
    rewrite !(proj2 (Z.leb_gt _ _)) by done.
    rewrite (proj2 (scope_shape_spec _ _ _) Hs). simpl. unfold trimmed.
    destruct (in_RoutePattern input) as [p|] eqn:Hr; simpl in *; [|done].
    rewrite bool_decide_eq_true_2; [done|].
    specialize (Hp _ eq_refl). unfold route_patterns in Hp. unfold validRoutePatterns. set_solver.
Qed.

(** C33: the service's validation is the schema's.  [validateCreateInput]
    accepts an input exactly when its trimmed form satisfies every CHECK
    constraint of the table, and then returns that form: nothing it accepts can
    fail a CHECK, and nothing the schema allows is turned away. *)
Theorem validateCreateInput_is_schema input n id active created updated :
  validateCreateInput input = Ok n ↔
  n = trimmed input ∧ policy_checks (row_of id n active created updated) = true.
Proof. apply validateCreateInput_schema. Qed.
