(* ===== verification/Projection.v ===== *)
(** * The policy projection: [internal/redisstate/policy_projection.go]

    The copy of the active policies that the request path reads: one string key
    per scope, holding the policy as JSON. *)
From S2P Require Import Prelude GoBase Ids Text JsonDecode Redis Database World Policies PolicyJson.

(** ** What the projection stands on *)

(** [SCAN cursor MATCH prefix* COUNT count]: a page of keys and the next
    cursor. *)
Class RedisScan (D : Type) := scan_page : D → Z → string → Z → list string * Z.

Fixpoint scan_pages {D} `{RedisScan D} (pages : nat) (d : D) (cursor : Z) (prefix : string)
    (count : Z) : option (list string) :=
  match pages with
  | O => None
  | S pages =>
      let '(batch, next) := scan_page d cursor prefix count in
      if next =? 0 then Some batch
      else app batch <$> scan_pages pages d next prefix count
  end.

(** Documented: on a data set that stays as it is, a full iteration ends and
    returns the matching keys, each at least once. *)
Class ScanLaws (D : Type) `{RedisServer D, RedisScan D} : Prop :=
  scan_complete (d : D) prefix count : 0 < count →
    ∃ pages keys, scan_pages pages d 0 prefix count = Some keys ∧
      ∀ k, k ∈ keys ↔ k ∈ live_keys d ∧ HasPrefix k prefix = true.

(** The world scans its Redis. *)
#[export] Instance world_scan {D} `{RedisScan D} : RedisScan (world D) :=
  fun w => scan_page w.(redis).

Lemma world_scan_pages {D} `{RedisScan D} pages (w : world D) c prefix count :
  scan_pages pages w c prefix count = scan_pages pages w.(redis) c prefix count.
Proof.
  revert c. induction pages as [|pages IH]; intros c; [done|]. cbn [scan_pages].
  unfold scan_page at 1, world_scan at 1. destruct (scan_page (redis w) c prefix count).
  by rewrite IH.
Qed.

#[export] Instance world_scan_laws {D} `{ScanLaws D} : ScanLaws (world D).
Proof.
  intros w prefix count Hc. destruct (scan_complete w.(redis) prefix count Hc) as (pages & keys & Hs & Hk).
  exists pages, keys. rewrite world_scan_pages. split; [done|exact Hk].
Qed.

(** ** Keys *)

Definition policyProjectionPrefix : string := "ratelimit:policy".
Definition policyProjectionDefaultKey : string := "default".
Definition policyProjectionAllRouteKey : string := "ALL".

Section Keys.
Context `{UuidText}.

Definition projectionScopeIdentifier (scopeIdentifier : option UUID) : string :=
  match scopeIdentifier with
  | None => policyProjectionDefaultKey
  | Some id => uuid_String id
  end.

Definition projectionRoutePattern (routePattern : option string) : string :=
  match routePattern with
  | None => policyProjectionAllRouteKey
  | Some p => p
  end.

Definition policyProjectionKeyFromParts (scopeType : string) (scopeIdentifier : option UUID)
    (routePattern : option string) : string :=
  policyProjectionPrefix +:+ ":" +:+ scopeType +:+ ":" +:+
  projectionScopeIdentifier scopeIdentifier +:+ ":" +:+ projectionRoutePattern routePattern.

Definition policyProjectionKey (policy : Policy) : string :=
  policyProjectionKeyFromParts policy.(pol_ScopeType) policy.(pol_ScopeIdentifier)
    policy.(pol_RoutePattern).
End Keys.

(** ** The store *)

Section Store.
Context {D : Type} `{RedisServer D} `{RedisScan D} `{UuidText}.

Definition set_policy (policy : Policy) : result error redis_cmd :=
  let? payload := Marshal policy in Ok (SetStr (policyProjectionKey policy) payload 0).

Fixpoint set_policies (items : list Policy) : result error (list redis_cmd) :=
  match items with
  | [] => Ok []
  | policy :: items =>
      let? c := set_policy policy in
      let? cs := set_policies items in
      Ok (c :: cs)
  end.

Definition projection_SyncPolicy (previous : option Policy) (current : Policy) (n : net D)
    : result error unit * net D :=
  match set_policy current with
  | Err err => (Err err, n)
  | Ok c =>
      let deletions :=
        match previous with
        | Some p =>
            if bool_decide (policyProjectionKey p = policyProjectionKey current) then []
            else [DelKeys [policyProjectionKey p]]
        | None => []
        end in
      command (c :: deletions) n
  end.

Definition projection_RemovePolicy (policy : Policy) (n : net D) : result error unit * net D :=
  command [DelKeys [policyProjectionKey policy]] n.

(** Out of fuel: the loop over the pages of [SCAN] has not ended. *)
Definition scanning : error := OpaqueError "scanning".

Fixpoint scan_keys (pages : nat) (cursor : Z) (keys : list string) (n : net D)
    : result error (list string) * net D :=
  match pages with
  | O => (Err scanning, n)
  | S pages =>
      let '(r, n) := query (fun d => scan_page d cursor (policyProjectionPrefix +:+ ":") 100) n in
      match r with
      | Err err => (Err err, n)
      | Ok (batch, nextCursor) =>
          let keys := keys ++ batch in
          if nextCursor =? 0 then (Ok keys, n) else scan_keys pages nextCursor keys n
      end
  end.

Definition projectionKeys (pages : nat) (n : net D) : result error (list string) * net D :=
  scan_keys pages 0 [] n.

Definition projection_ReplacePolicies (pages : nat) (items : list Policy) (n : net D)
    : result error unit * net D :=
  let '(r, n) := projectionKeys pages n in
  match r with
  | Err err => (Err err, n)
  | Ok keys =>
      if bool_decide (keys = []) && bool_decide (items = []) then (Ok (), n)
      else
        match set_policies items with
        | Err err => (Err err, n)
        | Ok sets => command ((if bool_decide (keys = []) then [] else [DelKeys keys]) ++ sets) n
        end
  end.

(** The policy, or none: [redis.Nil] is no error here. *)
Definition GetProjectedPolicy (scopeType : string) (scopeIdentifier : option UUID)
    (routePattern : option string) (n : net D) : result error (option Policy) * net D :=
  let '(r, n) := redis_Get (policyProjectionKeyFromParts scopeType scopeIdentifier routePattern) n in
  (match r with
   | Err err => if bool_decide (err = redis_Nil) then Ok None else Err err
   | Ok payload => let? policy := Unmarshal payload in Ok (Some policy)
   end, n).

(** [NewPolicyProjectionStore]: the store as the service's projector. *)
Definition PolicyProjectionStore (pages : nat) : Projector D :=
  mkProjector projection_SyncPolicy projection_RemovePolicy (projection_ReplacePolicies pages).
End Store.
