(* ===== verification/ProjectionSpec.v ===== *)
(** * The projection mirrors the database

    [synced]: every scope's key holds its active policy, and nothing when it has
    none.  Rebuilding establishes it from any state; each operation of the
    service keeps it, as long as it is aimed at an active policy. *)
From S2P Require Import Prelude GoBase Ids Text Redis Database Queries DatabaseSpec World.
From S2P Require Import JsonDecode Policies PolicyJson PolicySpec Projection.

(** ** Scopes and their keys *)

Definition scope_ok (sc : scope) : Prop := tail_ok sc.(sc_type) sc.(sc_id) sc.(sc_route).

Lemma scope_type_no_colon t : t ∈ scope_types → no_colon t = true.
Proof. unfold scope_types. rewrite !elem_of_cons, elem_of_nil. intros [-> |[-> |[-> |[-> |[]]]]]; done. Qed.

Lemma ok_scope db id r : db_ok db → db.(rate_limit_policies) !! id = Some r → scope_ok (scope_of r).
Proof.
  intros Hdb Hr. destruct (ok_row_valid _ _ _ Hdb Hr) as [_ _ _ Hp Hs].
  destruct (ok_policies db Hdb id r Hr) as [_ _ _ _ _ _ Href _ _]. split; simpl.
  - by eapply scope_type_no_colon, shape_type.
  - intros u Hu. unfold references, pointerUUID in *. destruct (rlp_ScopeIdentifier r) as [b []];
      simpl in *; [|done]. injection Hu as ->.
    apply bool_decide_eq_true_1 in Href as [k Hk]. apply (ok_api_keys db Hdb u k Hk).
  - intros Heq%Hp. revert Heq. by apply (bool_decide_unpack _).
Qed.

Lemma ok_json db id r :
  db_ok db → db.(rate_limit_policies) !! id = Some r → policy_json_ok (policyFromRecord r).
Proof.
  intros Hdb Hr. destruct (ok_row_valid _ _ _ Hdb Hr) as [_ _ _ Hp Hs].
  destruct (ok_scope _ _ _ Hdb Hr) as [_ Hi _].
  destruct (ok_policies db Hdb id r Hr) as [Hid Hu _ ? ? ? _ [Hv1 Hc] [Hv2 Hup]].
  split; simpl; auto.
  - by rewrite Hid.
  - by eapply shape_type.
  - done.
  - unfold pointerTime. by rewrite Hv1.
  - unfold pointerTime. by rewrite Hv2.
Qed.

(** How one stored row changes the active policies. *)
Lemma active_policy_put db r sc :
  db_ok db → db_ok (put_policy r db) →
  active_policy (put_policy r db) sc =
    if bool_decide (r.(rlp_IsActive) = true ∧ scope_of r = sc) then Some r
    else match active_policy db sc with
         | Some r' => if bool_decide (r'.(rlp_ID) = r.(rlp_ID)) then None else Some r'
         | None => None
         end.
Proof.
  intros Hdb Hdb'. case_bool_decide as Hnew.
  { destruct Hnew as [Ha Hs]. apply active_policy_spec; [done|]. exists r.(rlp_ID).
    split; [apply lookup_insert_eq|done]. }
  destruct (active_policy db sc) as [r'|] eqn:Hold.
  - apply active_policy_spec in Hold as (id & Hr' & Ha & Hs); [|done].
    pose proof (pr_id _ _ _ (ok_policies db Hdb id r' Hr')) as Hid.
    case_bool_decide as Heq.
    + apply active_policy_None; [done|]. intros id' q Hq Haq Hsq.
      simpl in Hq. apply lookup_insert_Some in Hq as [[<- <-]|[Hne Hq]]; [by apply Hnew|].
      apply Hne. rewrite <- Heq, Hid.
      assert (Hq' : active_policy db sc = Some q) by (apply active_policy_spec; eauto).
      assert (Hr'' : active_policy db sc = Some r') by (apply active_policy_spec; eauto).
      assert (q = r') as -> by congruence.
      by rewrite <- (pr_id _ _ _ (ok_policies db Hdb id' r' Hq)), Hid.
    + apply active_policy_spec; [done|]. exists id. split; [|done].
      simpl. rewrite lookup_insert_ne; [done|congruence].
  - apply active_policy_None; [done|]. intros id q Hq Haq Hsq.
    simpl in Hq. apply lookup_insert_Some in Hq as [[<- <-]|[Hne Hq]]; [by apply Hnew|].
    by apply (proj1 (active_policy_None db sc Hdb) Hold id q).
Qed.

Lemma active_policy_same db db' sc :
  db'.(rate_limit_policies) = db.(rate_limit_policies) → active_policy db' sc = active_policy db sc.
Proof. unfold active_policy, FindRateLimitPolicyByScope; simpl. by intros ->. Qed.

Section Sync.
Context {D : Type} `{RL : RedisLaws D} `{RedisScan D} `{UL : UuidLaws}.
Implicit Types (w : world D) (sc : scope).

Definition sc_key sc : string := policyProjectionKeyFromParts sc.(sc_type) sc.(sc_id) sc.(sc_route).

#[local] Arguments sc_key : simpl never.

Lemma sc_key_inj sc1 sc2 : scope_ok sc1 → scope_ok sc2 → sc_key sc1 = sc_key sc2 → sc1 = sc2.
Proof.
  intros Hs1 Hs2 Heq. apply (inj (String.append "ratelimit:policy:")) in Heq.
  destruct (scope_tail_inj _ _ _ _ _ _ Hs1 Hs2 Heq) as (? & ? & ?).
  destruct sc1, sc2; simpl in *; congruence.
Qed.

(** What the key of a scope should hold. *)
Definition mirrors w sc : Prop :=
  match active_policy w.(pg) sc with
  | Some r => ∃ payload, Marshal (policyFromRecord r) = Ok payload ∧
                string_view w.(redis) (sc_key sc) = Some payload
  | None => string_view w.(redis) (sc_key sc) = None
  end.

Definition synced w : Prop := ∀ sc, scope_ok sc → mirrors w sc.

Lemma marshal_row db id r :
  db_ok db → db.(rate_limit_policies) !! id = Some r →
  ∃ payload, Marshal (policyFromRecord r) = Ok payload ∧
    Unmarshal payload = Ok (policyFromRecord r).
Proof. intros Hdb Hr. apply json_round_trip. by eapply ok_json. Qed.

(** The string a key holds after a write of the projection. *)
Lemma string_after_set k p d k' :
  string_view (run_cmd (SetStr k p 0) d) k' =
    if bool_decide (k' = k) then Some p else string_view d k'.
Proof.
  case_bool_decide as Hk; [subst; apply run_set|].
  destruct (run_frame (SetStr k p 0) d k') as ([] & _); [by apply not_in_one|done].
Qed.

Lemma string_after_del ks d k' :
  string_view (run_cmd (DelKeys ks) d) k' =
    if bool_decide (k' ∈ ks) then None else string_view d k'.
Proof.
  case_bool_decide as Hk; [by apply run_del|].
  by destruct (run_frame (DelKeys ks) d k') as ([] & _).
Qed.

Lemma sync_quiet previous current payload w :
  Marshal current = Ok payload →
  let deletions :=
    match previous with
    | Some p => if bool_decide (policyProjectionKey p = policyProjectionKey current) then []
                else [DelKeys [policyProjectionKey p]]
    | None => []
    end in
  projection_SyncPolicy previous current (quiet w) =
  (Ok (), quiet (mkWorld
    (exec_cmds (SetStr (policyProjectionKey current) payload 0 :: deletions) w.(redis)) w.(pg))).
Proof.
  intros Hm deletions. unfold projection_SyncPolicy, set_policy. rewrite Hm. cbn [res_bind].
  apply command_quiet.
Qed.

Lemma remove_quiet policy w :
  projection_RemovePolicy policy (quiet w) =
  (Ok (), quiet (mkWorld (run_cmd (DelKeys [policyProjectionKey policy]) w.(redis)) w.(pg))).
Proof. exact (command_quiet [DelKeys [policyProjectionKey policy]] w). Qed.

Lemma key_of_record r : policyProjectionKey (policyFromRecord r) = sc_key (scope_of r).
Proof. done. Qed.

(** ** One row stored and projected *)

Definition deletions (previous : option RateLimitPolicy) (r : RateLimitPolicy) : list redis_cmd :=
  match previous with
  | Some p => if bool_decide (sc_key (scope_of p) = sc_key (scope_of r)) then []
              else [DelKeys [sc_key (scope_of p)]]
  | None => []
  end.

Lemma string_after_write (pk : option string) k payload d k' :
  string_view (exec_cmds (SetStr k payload 0 ::
    match pk with
    | Some p => if bool_decide (p = k) then [] else [DelKeys [p]]
    | None => []
    end) d) k' =
  if bool_decide (k' = k) then Some payload
  else if bool_decide (Some k' = pk) then None
  else string_view d k'.
Proof.
  unfold exec_cmds. cbn [foldl]. destruct pk as [p|]; cbn [foldl].
  2: { rewrite string_after_set. case_bool_decide; [done|]. by rewrite bool_decide_eq_false_2. }
  destruct (decide (p = k)) as [->|Hne].
  - rewrite (bool_decide_eq_true_2 (k = k)) by done. cbn [foldl]. rewrite string_after_set.
    case_bool_decide; [done|]. by rewrite bool_decide_eq_false_2 by congruence.
  - rewrite (bool_decide_eq_false_2 (p = k)) by done. cbn [foldl].
    rewrite string_after_del, string_after_set.
    destruct (decide (k' = p)) as [->|Hk].
    + rewrite bool_decide_eq_true_2 by (by left).
      by rewrite bool_decide_eq_false_2, bool_decide_eq_true_2.
    + rewrite (bool_decide_eq_false_2 (k' ∈ [p])) by (by apply not_in_one).
      rewrite (bool_decide_eq_false_2 (Some k' = Some p)) by congruence. done.
Qed.

Lemma string_after_sync previous r payload d k :
  string_view (exec_cmds (SetStr (sc_key (scope_of r)) payload 0 :: deletions previous r) d) k =
  if bool_decide (k = sc_key (scope_of r)) then Some payload
  else if bool_decide (Some k = (fun p => sc_key (scope_of p)) <$> previous) then None
  else string_view d k.
Proof.
  rewrite <- (string_after_write ((fun p => sc_key (scope_of p)) <$> previous)).
  by destruct previous.
Qed.

Lemma sync_row_synced w db r previous payload :
  synced w → db_ok w.(pg) → db_ok db → db_ok (put_policy r db) →
  db.(rate_limit_policies) = w.(pg).(rate_limit_policies) →
  r.(rlp_IsActive) = true →
  w.(pg).(rate_limit_policies) !! r.(rlp_ID) = previous →
  (∀ r0, previous = Some r0 → r0.(rlp_IsActive) = true) →
  Marshal (policyFromRecord r) = Ok payload →
  synced (mkWorld
    (exec_cmds (SetStr (sc_key (scope_of r)) payload 0 :: deletions previous r) w.(redis))
    (put_policy r db)).
Proof.
  intros Hsync Hdb Hdb0 Hdb' Htab Hact Hprev Hpact Hm sc Hsc. unfold mirrors. cbn [pg redis].
  rewrite string_after_sync, active_policy_put, (active_policy_same w.(pg) db) by done.
  assert (Hr : scope_ok (scope_of r)).
  { apply (ok_scope (put_policy r db) r.(rlp_ID)); [done|]. apply lookup_insert_eq. }
  specialize (Hsync sc Hsc). unfold mirrors in Hsync.
  destruct (decide (scope_of r = sc)) as [<-|Hne].
  { rewrite !bool_decide_eq_true_2 by done. eauto. }
  rewrite bool_decide_eq_false_2 by (by intros []).
  rewrite (bool_decide_eq_false_2 (_ = sc_key (scope_of r))) by (intros Hk; by apply sc_key_inj in Hk).
  assert (Hgone : ∀ p, previous = Some p →
    (Some (sc_key sc) = sc_key ∘ scope_of <$> previous ↔ scope_of p = sc) ∧
    active_policy w.(pg) (scope_of p) = Some p).
  { intros p ->. pose proof (ok_scope _ _ _ Hdb Hprev). split.
    - cbn. split; [intros Hk%(inj Some)|by intros ->]. symmetry. by apply sc_key_inj in Hk.
    - apply active_policy_spec; [done|]. exists r.(rlp_ID). auto. }
  destruct (active_policy w.(pg) sc) as [q|] eqn:Hq.
  - pose proof (proj1 (active_policy_spec _ _ _ Hdb) Hq) as (idq & Hlq & _ & Hsq).
    pose proof (pr_id _ _ _ (ok_policies _ Hdb _ _ Hlq)) as Hidq.
    destruct (decide (rlp_ID q = rlp_ID r)) as [Heq|Hneq].
    + rewrite (bool_decide_eq_true_2 (rlp_ID q = rlp_ID r)) by done.
      assert (previous = Some q) as -> by (rewrite <- Hprev, <- Heq, Hidq; done).
      rewrite bool_decide_eq_true_2; [done|]. by apply (Hgone q).
    + rewrite (bool_decide_eq_false_2 (rlp_ID q = rlp_ID r)) by done.
      rewrite bool_decide_eq_false_2; [done|]. intros Hk.
      destruct previous as [p|]; [|done]. destruct (Hgone p eq_refl) as [Hiff Hap].
      apply Hiff in Hk as Hps. rewrite Hps, Hq in Hap. injection Hap as ->.
      apply Hneq. by rewrite (pr_id _ _ _ (ok_policies _ Hdb _ _ Hprev)).
  - case_bool_decide; [done|]. exact Hsync.
Qed.

(** One row turned off and its key removed. *)
Lemma remove_row_synced w r :
  synced w → db_ok w.(pg) → db_ok (put_policy r w.(pg)) → r.(rlp_IsActive) = false →
  active_policy w.(pg) (scope_of r) = w.(pg).(rate_limit_policies) !! r.(rlp_ID) →
  is_Some (w.(pg).(rate_limit_policies) !! r.(rlp_ID)) →
  synced (mkWorld (run_cmd (DelKeys [sc_key (scope_of r)]) w.(redis)) (put_policy r w.(pg))).
Proof.
  intros Hsync Hdb Hdb' Hact Hcur [r0 Hr0] sc Hsc. unfold mirrors. cbn [pg redis].
  rewrite string_after_del, active_policy_put by done.
  rewrite bool_decide_eq_false_2 by (intros []; congruence).
  assert (Hr : scope_ok (scope_of r)).
  { apply (ok_scope (put_policy r w.(pg)) r.(rlp_ID)); [done|]. apply lookup_insert_eq. }
  specialize (Hsync sc Hsc). unfold mirrors in Hsync.
  rewrite Hr0 in Hcur. pose proof (pr_id _ _ _ (ok_policies _ Hdb _ _ Hr0)) as Hid0.
  destruct (decide (scope_of r = sc)) as [<-|Hne].
  { rewrite Hcur, Hid0, !bool_decide_eq_true_2; [done|by left|done]. }
  rewrite (bool_decide_eq_false_2 (_ ∈ _)).
  2: { intros Hk%list_elem_of_singleton. by apply sc_key_inj in Hk. }
  destruct (active_policy w.(pg) sc) as [q|] eqn:Hq; [|done].
  rewrite bool_decide_eq_false_2; [done|]. intros Hidq.
  apply (active_policy_spec _ _ _ Hdb) in Hq as (idq & Hlq & _ & Hsq).
  apply (active_policy_spec _ _ _ Hdb) in Hcur as (id0 & Hl0 & _ & Hs0).
  pose proof (pr_id _ _ _ (ok_policies _ Hdb _ _ Hlq)) as Hi1. congruence.
Qed.

(** C32: A policy of a valid database written to the projection, as JSON and over
    whatever Redis held, is what the next read of its scope decodes: every field
    of the row, its nullable ones and its timestamps. *)
Theorem projected_policy_reads_back db id r previous w :
  db_ok db → db.(rate_limit_policies) !! id = Some r →
  let p := policyFromRecord r in
  ∃ w', projection_SyncPolicy previous p (quiet w) = (Ok (), quiet w') ∧ w'.(pg) = w.(pg) ∧
    GetProjectedPolicy p.(pol_ScopeType) p.(pol_ScopeIdentifier) p.(pol_RoutePattern) (quiet w') =
      (Ok (Some p), quiet w').
Proof.
  intros Hdb Hr p. destruct (marshal_row db id r Hdb Hr) as (payload & Hm & Hu). eexists.
  split; [by apply sync_quiet|]. split; [done|].
  unfold GetProjectedPolicy, redis_Get. rewrite query_quiet. cbn [res_bind].
  match goal with |- context [string_view ?d ?k] => assert (string_view d k = Some payload) as -> end.
  { unfold string_view at 1. cbn [redis]. trans (string_view (exec_cmds
      (SetStr (policyProjectionKey p) payload 0 ::
       match policyProjectionKey <$> previous with
       | Some q => if bool_decide (q = policyProjectionKey p) then [] else [DelKeys [q]]
       | None => []
       end) w.(redis)) (policyProjectionKey p)).
    - by destruct previous.
    - by rewrite string_after_write, bool_decide_eq_true_2. }
  cbn [res_bind]. by rewrite Hu.
Qed.
End Sync.
