(* ===== verification/PolicyService.v ===== *)
(** * The policy service on the projection

    Rebuilding establishes the mirror, the service's operations keep it, the
    outcome of each is the database's verdict; and what goes wrong when an
    operation is aimed at an inactive policy. *)
From stdpp Require Import sorting relations.
From S2P Require Import Prelude GoBase Ids Text JsonDecode PolicyJson Redis Database Queries DatabaseSpec World.
From S2P Require Import Policies PolicySpec Projection ProjectionSpec.

Section Service.
Context {D : Type} `{RL : RedisLaws D} `{RS : RedisScan D} `{!ScanLaws D} `{UL : UuidLaws}.
Implicit Types (w : world D) (sc : scope).

Definition policy_service (pages : nat) : Service (world D) :=
  NewService (Some (PolicyProjectionStore pages)).

(** ** Rebuilding *)

Lemma scan_keys_quiet pages c acc w :
  scan_keys pages c acc (quiet w) =
  match scan_pages pages w.(redis) c (policyProjectionPrefix +:+ ":") 100 with
  | Some keys => (Ok (acc ++ keys), quiet w)
  | None => (Err scanning, quiet w)
  end.
Proof.
  revert c acc. induction pages as [|pages IH]; intros c acc; [done|]. cbn [scan_keys scan_pages].
  rewrite query_quiet. change (scan_page w c) with (scan_page w.(redis) c).
  destruct (scan_page (redis w) c _ 100) as [batch next]. case_match; [done|].
  rewrite IH. destruct (scan_pages pages _ next _ 100); simpl; [by rewrite app_assoc|done].
Qed.

Lemma scan_pages_more pages pages' (d : D) c prefix count keys :
  (pages ≤ pages')%nat → scan_pages pages d c prefix count = Some keys →
  scan_pages pages' d c prefix count = Some keys.
Proof.
  revert pages' c keys. induction pages as [|pages IH]; intros [|pages'] c keys Hle; try done; [lia|].
  cbn [scan_pages]. destruct (scan_page d c prefix count) as [batch next]. case_match; [done|].
  destruct (scan_pages pages d next prefix count) as [ks|] eqn:Hs; [|done].
  by rewrite (IH pages' next ks) by (done || lia).
Qed.

(** A run of [SET]s leaves the keys it does not name... *)
Lemma sets_miss items cs (d : D) k :
  set_policies items = Ok cs → (∀ p, p ∈ items → policyProjectionKey p ≠ k) →
  string_view (exec_cmds cs d) k = string_view d k.
Proof.
  revert cs d. induction items as [|q items IH]; intros cs d; cbn [set_policies].
  { by intros [= <-]. }
  unfold set_policy. destruct (Marshal q) as [payload|]; cbn [res_bind]; [|done].
  destruct (set_policies items) as [cs'|]; cbn [res_bind]; [|done]. intros [= <-] Hk.
  change (exec_cmds (?c :: cs') d) with (exec_cmds cs' (run_cmd c d)).
  rewrite IH; [|done|intros p Hp; apply Hk; by right].
  rewrite string_after_set, bool_decide_eq_false_2; [done|].
  intros ->. apply (Hk q); [by left|done].
Qed.

(** ... and gives the others their policy. *)
Lemma sets_hit items cs (d : D) p payload :
  set_policies items = Ok cs → p ∈ items →
  (∀ p', p' ∈ items → policyProjectionKey p' = policyProjectionKey p → p' = p) →
  Marshal p = Ok payload → string_view (exec_cmds cs d) (policyProjectionKey p) = Some payload.
Proof.
  intros Hcs Hp Huniq Hm. revert cs d Hcs Hp Huniq.
  induction items as [|q items IH]; intros cs d; cbn [set_policies].
  { intros _ Hp. by apply not_elem_of_nil in Hp. }
  unfold set_policy. destruct (Marshal q) as [payload'|] eqn:Hq; cbn [res_bind]; [|done].
  destruct (set_policies items) as [cs'|] eqn:Hcs'; cbn [res_bind]; [|done]. intros [= <-] Hp Huniq.
  change (exec_cmds (?c :: cs') d) with (exec_cmds cs' (run_cmd c d)).
  destruct (decide (p ∈ items)) as [Hin|Hnin].
  { apply IH; [done|done|]. intros p' Hp'. apply Huniq. by right. }
  apply elem_of_cons in Hp as [->|?]; [|done].
  rewrite (sets_miss items cs'); [|done|].
  - rewrite string_after_set, bool_decide_eq_true_2 by done. congruence.
  - intros p' Hp' Hk. apply Hnin. rewrite <- (Huniq p'); [done|by right|done].
Qed.

Lemma set_policies_total items :
  (∀ p, p ∈ items → policy_json_ok p) → ∃ cs, set_policies items = Ok cs.
Proof.
  induction items as [|q items IH]; intros Hok; [by exists []|]. cbn [set_policies].
  destruct (json_round_trip q) as (payload & Hm & _); [apply Hok; by left|].
  destruct IH as [cs Hcs]; [intros p Hp; apply Hok; by right|].
  unfold set_policy. rewrite Hm, Hcs. cbn [res_bind]. eauto.
Qed.

Definition active_rows (db : database) : list RateLimitPolicy :=
  merge_sort scope_then_newest
    (filter (fun r : RateLimitPolicy => r.(rlp_IsActive) = true) (rows db.(rate_limit_policies))).

Lemma elem_of_active_rows db r :
  r ∈ active_rows db ↔
  ∃ id, db.(rate_limit_policies) !! id = Some r ∧ r.(rlp_IsActive) = true.
Proof.
  unfold active_rows. rewrite merge_sort_Permutation, list_elem_of_filter, elem_of_rows. naive_solver.
Qed.

Lemma replace_quiet pages items keys cs w :
  scan_pages pages w.(redis) 0 (policyProjectionPrefix +:+ ":") 100 = Some keys →
  set_policies items = Ok cs →
  ∃ d', projection_ReplacePolicies pages items (quiet w) = (Ok (), quiet (mkWorld d' w.(pg))) ∧
    d' = exec_cmds ((if bool_decide (keys = []) then [] else [DelKeys keys]) ++ cs) w.(redis).
Proof.
  intros Hk Hcs. unfold projection_ReplacePolicies, projectionKeys.
  rewrite scan_keys_quiet, Hk. cbn [app]. destruct (_ && _) eqn:Hnil.
  - apply andb_true_iff in Hnil as [->%bool_decide_eq_true_1 ->%bool_decide_eq_true_1].
    injection Hcs as <-. exists w.(redis). split; [by destruct w|done].
  - rewrite Hcs. eexists. split; [apply command_quiet|done].
Qed.

Lemma key_has_prefix sc : HasPrefix (sc_key sc) (policyProjectionPrefix +:+ ":") = true.
Proof. apply (HasPrefix_app "ratelimit:policy:"). Qed.

Lemma rebuild_from_keys pages w keys :
  db_ok w.(pg) →
  scan_pages pages w.(redis) 0 (policyProjectionPrefix +:+ ":") 100 = Some keys →
  (∀ k, k ∈ keys ↔ k ∈ live_keys w.(redis) ∧ HasPrefix k (policyProjectionPrefix +:+ ":") = true) →
  ∃ w', RebuildProjection (policy_service pages) (quiet w) = (Ok (), quiet w') ∧
    synced w' ∧ w'.(pg) = w.(pg) ∧
    ∀ k, HasPrefix k (policyProjectionPrefix +:+ ":") = false →
      string_view w'.(redis) k = string_view w.(redis) k.
Proof.
  intros Hdb Hsc Hkeys.
  set (items := map policyFromRecord (active_rows w.(pg))).
  assert (Hitems : ∀ p, p ∈ items ↔ ∃ id r, p = policyFromRecord r ∧
    w.(pg).(rate_limit_policies) !! id = Some r ∧ r.(rlp_IsActive) = true).
  { intros p. unfold items. rewrite list_elem_of_fmap. setoid_rewrite elem_of_active_rows. naive_solver. }
  destruct (set_policies_total items) as [cs Hcs].
  { intros p (id & r & -> & Hr & _)%Hitems. by eapply ok_json. }
  destruct (replace_quiet pages items keys cs w Hsc Hcs) as (d' & Hrep & Hd').
  exists (mkWorld d' w.(pg)). split_and!; [|clear Hrep|done|].
  { unfold RebuildProjection. rewrite sql_quiet. cbn [ListActiveRateLimitPolicies fst snd].
    replace (mkWorld w.(redis) w.(pg)) with w by (by destruct w).
    change (ReplacePolicies (projector (policy_service pages))) with
      (projection_ReplacePolicies (D := world D) pages).
    change (map policyFromRecord _) with items. by rewrite Hrep. }
  { intros sc Hok. unfold mirrors. cbn [pg redis]. subst d'. rewrite exec_cmds_app.
  set (d1 := exec_cmds _ w.(redis)).
  destruct (active_policy w.(pg) sc) as [r|] eqn:Hr.
  - apply (active_policy_spec _ _ _ Hdb) in Hr as (id & Hr & Ha & Hs).
    destruct (marshal_row _ _ _ Hdb Hr) as (payload & Hm & _). exists payload. split; [done|].
    rewrite <- Hs, <- key_of_record. apply (sets_hit items); auto; [apply Hitems; eauto|].
    intros p' (id' & r' & -> & Hr' & Ha')%Hitems Hk. f_equal.
    rewrite !key_of_record in Hk.
    apply sc_key_inj in Hk; [|by eapply ok_scope..].
    assert (E1 : active_policy w.(pg) sc = Some r') by (apply active_policy_spec; [done|exists id'; split_and!; congruence]).
    assert (E2 : active_policy w.(pg) sc = Some r) by (apply active_policy_spec; eauto).
    congruence.
  - rewrite (sets_miss items cs); [|done|].
    + unfold d1. case_bool_decide as Hnil.
      * destruct (string_view w.(redis) (sc_key sc)) as [p|] eqn:Hp; [|done].
        assert (Hin : sc_key sc ∈ keys); [|by rewrite Hnil in Hin; apply not_elem_of_nil in Hin].
        apply Hkeys. split; [|apply key_has_prefix]. apply live_keys_spec. intros [_ Hn]. congruence.
      * unfold exec_cmds; cbn [foldl]. rewrite string_after_del. case_bool_decide as Hin; [done|].
        destruct (string_view w.(redis) (sc_key sc)) as [p|] eqn:Hp; [|done].
        destruct Hin. apply Hkeys. split; [|apply key_has_prefix].
        apply live_keys_spec. intros [_ Hn]. congruence.
    + intros p (id & r & -> & Hlr & Ha)%Hitems Hk. rewrite key_of_record in Hk.
      apply sc_key_inj in Hk; [|by eapply ok_scope|done].
      apply (proj1 (active_policy_None _ _ Hdb) Hr id r Hlr Ha Hk).
  }
  intros k Hk. cbn [redis]. subst d'. rewrite exec_cmds_app, (sets_miss items cs); [|done|].
  - case_bool_decide; [done|]. unfold exec_cmds; cbn [foldl]. rewrite string_after_del.
    rewrite bool_decide_eq_false_2; [done|]. intros [_ Hp]%Hkeys. congruence.
  - intros p _ <-.
    pose proof (key_has_prefix (mkScope (pol_ScopeType p) (pol_ScopeIdentifier p) (pol_RoutePattern p))) as Hp.
    unfold sc_key in Hp. cbn [sc_type sc_id sc_route] in Hp. unfold policyProjectionKey in Hk. congruence.
Qed.

Lemma scan_ends (d : D) :
  ∃ pages0 keys,
    (∀ k, k ∈ keys ↔ k ∈ live_keys d ∧ HasPrefix k (policyProjectionPrefix +:+ ":") = true) ∧
    ∀ pages,
      let r := scan_pages pages d 0 (policyProjectionPrefix +:+ ":") 100 in
      ((pages0 ≤ pages)%nat → r = Some keys) ∧ (r = None ∨ r = Some keys).
Proof.
  destruct (scan_complete d (policyProjectionPrefix +:+ ":") 100) as (pages0 & keys & Hsc & Hkeys);
    [done|]. exists pages0, keys. split; [done|]. intros pages r. subst r.
  split; [intros Hle; by eapply scan_pages_more|].
  destruct (scan_pages pages d 0 _ 100) as [keys'|] eqn:Hsc'; [right|by left].
  apply (scan_pages_more _ (pages0 + pages)) in Hsc; [|lia].
  apply (scan_pages_more _ (pages0 + pages)) in Hsc'; [|lia]. congruence.
Qed.

(** Rebuilding establishes the mirror.  From any contents of Redis, stale
    or foreign keys included, [RebuildProjection] ends, succeeds, leaves the
    database alone, and makes every scope's key hold its active policy and the
    key of every other scope empty. *)
Theorem RebuildProjection_mirrors w :
  db_ok w.(pg) →
  ∃ pages0, ∀ pages, (pages0 ≤ pages)%nat → ∃ w',
    RebuildProjection (policy_service pages) (quiet w) = (Ok (), quiet w') ∧
    synced w' ∧ w'.(pg) = w.(pg).
Proof.
  intros Hdb. destruct (scan_ends w.(redis)) as (pages0 & keys & Hkeys & Hsc).
  exists pages0. intros pages Hle.
  destruct (rebuild_from_keys pages w keys) as (w' & Hr & Hs & Hpg & _); [done|by apply Hsc|done|]. by exists w'.
Qed.

(** ** The other operations, one at a time *)

Definition create_params (n : CreatePolicyInput) : CreateRateLimitPolicyParams :=
  mkCreateRateLimitPolicyParams n.(in_ScopeType) (nullableUUID n.(in_ScopeIdentifier))
    n.(in_RoutePattern) n.(in_Capacity) n.(in_RefillTokens) n.(in_RefillIntervalSeconds).

(** The input an update hands to the validation. *)
Definition update_input (input : UpdatePolicyInput) : CreatePolicyInput := {|
  in_ScopeType := input.(up_ScopeType);
  in_ScopeIdentifier := input.(up_ScopeIdentifier);
  in_RoutePattern := input.(up_RoutePattern);
  in_Capacity := input.(up_Capacity);
  in_RefillTokens := input.(up_RefillTokens);
  in_RefillIntervalSeconds := input.(up_RefillIntervalSeconds)
|}.

Definition update_params (id : UUID) (existing : RateLimitPolicy) (n : CreatePolicyInput)
    : UpdateRateLimitPolicyParams := {|
  urp_ID := id;
  urp_ScopeType := n.(in_ScopeType);
  urp_ScopeIdentifier := nullableUUID n.(in_ScopeIdentifier);
  urp_RoutePattern := n.(in_RoutePattern);
  urp_Capacity := n.(in_Capacity);
  urp_RefillTokens := n.(in_RefillTokens);
  urp_RefillIntervalSeconds := n.(in_RefillIntervalSeconds);
  urp_IsActive := existing.(rlp_IsActive)
|}.

Definition input_fits (input : CreatePolicyInput) : Prop :=
  numbers_fit input.(in_Capacity) input.(in_RefillTokens) input.(in_RefillIntervalSeconds).

Lemma validate_fits input n : validateCreateInput input = Ok n → input_fits input → input_fits n.
Proof.
  intros Hv. apply (validateCreateInput_schema _ _ 0 true pg_null_time pg_null_time) in Hv as [-> _].
  done.
Qed.

(** A stored active row reaches its key. *)
Lemma sync_stores w db r previous :
  synced w → db_ok w.(pg) → db_ok db → db_ok (put_policy r db) →
  db.(rate_limit_policies) = w.(pg).(rate_limit_policies) →
  r.(rlp_IsActive) = true →
  w.(pg).(rate_limit_policies) !! r.(rlp_ID) = previous →
  (∀ r0, previous = Some r0 → r0.(rlp_IsActive) = true) →
  ∃ d', projection_SyncPolicy (policyFromRecord <$> previous) (policyFromRecord r)
          (quiet (mkWorld w.(redis) (put_policy r db))) =
        (Ok (), quiet (mkWorld d' (put_policy r db))) ∧
    synced (mkWorld d' (put_policy r db)).
Proof.
  intros Hsync Hdb Hdb0 Hdb' Htab Hact Hprev Hpact.
  destruct (marshal_row (put_policy r db) r.(rlp_ID) r) as (payload & Hm & _);
    [done|apply lookup_insert_eq|].
  eexists. split; [rewrite (sync_quiet _ _ payload) by done; cbn [redis pg]; reflexivity|].
  pose proof (sync_row_synced w db r previous payload) as Hs.
  destruct previous as [p|]; apply Hs; auto.
Qed.

Lemma Create_keeps pages input w r n' :
  synced w → db_ok w.(pg) → input_fits input →
  Create (policy_service pages) input (quiet w) = (r, n') →
  ∃ w1, n' = quiet w1 ∧ synced w1 ∧ db_ok w1.(pg).
Proof.
  intros Hsync Hdb Hfit. unfold Create.
  destruct (validateCreateInput input) as [n|e] eqn:Hv; [|intros [= _ <-]; eauto].
  pose proof (validate_fits _ _ Hv Hfit) as Hn. rewrite sql_quiet.
  change (mkCreateRateLimitPolicyParams _ _ _ _ _ _) with (create_params n).
  pose proof (CreateRateLimitPolicy_ok (create_params n) w.(pg) Hdb Hn) as Hdb'.
  unfold CreateRateLimitPolicy in *. destruct (policy_refused _ _ _) as [code|] eqn:Href; cbn [fst snd] in *.
  - intros [= _ <-]. exists (mkWorld w.(redis) (draw w.(pg))). split; [done|]. split; [|done].
    intros sc Hsc. specialize (Hsync sc Hsc). unfold mirrors in *. cbn [pg redis].
    by rewrite (active_policy_same w.(pg)).
  - apply policy_refused_None in Href as (_ & Hfree & _). apply bool_decide_eq_false_1 in Hfree.
    set (row := mkRateLimitPolicy _ _ _ _ _ _ _ _ _ _) in *.
    destruct (sync_stores w (draw w.(pg)) row None) as (d' & Hs & Hsync'); auto using draw_ok.
    { apply eq_None_not_Some. exact Hfree. }
    { by intros ? [=]. }
    change (SyncPolicy (projector (policy_service pages)) None (policyFromRecord row)) with
      (projection_SyncPolicy (policyFromRecord <$> None) (policyFromRecord row) (D := world D)).
    rewrite Hs. intros [= _ <-]. eauto.
Qed.

Lemma Update_keeps pages id input w r n' :
  synced w → db_ok w.(pg) →
  numbers_fit input.(up_Capacity) input.(up_RefillTokens) input.(up_RefillIntervalSeconds) →
  (∀ r0, w.(pg).(rate_limit_policies) !! id = Some r0 → r0.(rlp_IsActive) = true) →
  Update (policy_service pages) id input (quiet w) = (r, n') →
  ∃ w1, n' = quiet w1 ∧ synced w1 ∧ db_ok w1.(pg).
Proof.
  intros Hsync Hdb Hfit Hact. unfold Update. rewrite sql_quiet. cbn [GetRateLimitPolicy fst snd].
  replace (mkWorld w.(redis) w.(pg)) with w by (by destruct w).
  destruct (rate_limit_policies w.(pg) !! id) as [r0|] eqn:Hr0; cbn [one_row];
    [|intros [= _ <-]; eauto].
  specialize (Hact r0 eq_refl).
  destruct (validateCreateInput _) as [n|e] eqn:Hv; [|intros [= _ <-]; eauto].
  pose proof (validate_fits _ _ Hv Hfit) as Hn. rewrite sql_quiet.
  set (arg := mkUpdateRateLimitPolicyParams _ _ _ _ _ _ _ _).
  assert (Hdb' : db_ok (UpdateRateLimitPolicy arg w.(pg)).2) by
    (apply (db_step_ok w.(pg)); [done|by constructor]).
  unfold UpdateRateLimitPolicy in *. cbn [urp_ID arg] in *. subst arg. rewrite Hr0 in *.
  unfold store_policy in *. destruct (policy_refused _ _ _) as [code|]; cbn [fst snd] in *.
  { replace (mkWorld w.(redis) w.(pg)) with w by (by destruct w). intros [= _ <-]; eauto. }
  set (row := mkRateLimitPolicy _ _ _ _ _ _ _ _ _ _) in *.
  pose proof (pr_id _ _ _ (ok_policies _ Hdb _ _ Hr0)) as Hid.
  destruct (sync_stores w w.(pg) row (Some r0)) as (d' & Hs & Hsync'); auto.
  { simpl. by rewrite Hid. }
  { by intros ? [= <-]. }
  change (SyncPolicy (projector (policy_service pages))) with
    (projection_SyncPolicy (D := world D)).
  change (Some (policyFromRecord r0)) with (policyFromRecord <$> Some r0).
  rewrite Hs. intros [= _ <-]. eauto.
Qed.

Lemma Deactivate_keeps pages id w r n' :
  synced w → db_ok w.(pg) →
  (∀ r0, w.(pg).(rate_limit_policies) !! id = Some r0 → r0.(rlp_IsActive) = true) →
  Deactivate (policy_service pages) id (quiet w) = (r, n') →
  ∃ w1, n' = quiet w1 ∧ synced w1 ∧ db_ok w1.(pg).
Proof.
  intros Hsync Hdb Hact. unfold Deactivate. rewrite sql_quiet.
  assert (Hdb' : db_ok (DeactivateRateLimitPolicy id w.(pg)).2) by
    (apply (db_step_ok w.(pg)); [done|constructor]).
  unfold DeactivateRateLimitPolicy in *.
  destruct (rate_limit_policies w.(pg) !! id) as [r0|] eqn:Hr0; cbn [fst snd] in *.
  2: { replace (mkWorld w.(redis) w.(pg)) with w by (by destruct w). intros [= _ <-]; eauto. }
  specialize (Hact r0 eq_refl). pose proof (pr_id _ _ _ (ok_policies _ Hdb _ _ Hr0)) as Hid.
  unfold store_policy in *. destruct (policy_refused _ _ _) as [code|]; cbn [fst snd] in *.
  { replace (mkWorld w.(redis) w.(pg)) with w by (by destruct w). intros [= _ <-]; eauto. }
  set (row := mkRateLimitPolicy _ _ _ _ _ _ _ _ _ _) in *.
  change (RemovePolicy (projector (policy_service pages))) with
    (projection_RemovePolicy (D := world D)).
  rewrite remove_quiet. intros [= _ <-]. eexists. split; [done|]. split; [|done].
  apply (remove_row_synced w row); auto.
  - change (scope_of row) with (scope_of r0). simpl. rewrite Hid, Hr0.
    apply active_policy_spec; eauto.
  - simpl. rewrite Hid, Hr0. eauto.
Qed.

Lemma Rebuild_keeps pages w r n' :
  db_ok w.(pg) → synced w →
  RebuildProjection (policy_service pages) (quiet w) = (r, n') →
  ∃ w1, n' = quiet w1 ∧ synced w1 ∧ db_ok w1.(pg).
Proof.
  intros Hdb Hsync Hr. destruct (scan_ends w.(redis)) as (pages0 & keys & Hkeys & Hsc).
  destruct (Hsc pages) as [_ [Hnone|Hsome]].
  - revert Hr. unfold RebuildProjection. rewrite sql_quiet. cbn [ListActiveRateLimitPolicies fst snd].
    replace (mkWorld w.(redis) w.(pg)) with w by (by destruct w).
    change (ReplacePolicies (projector (policy_service pages))) with
      (projection_ReplacePolicies (D := world D) pages).
    unfold projection_ReplacePolicies, projectionKeys. rewrite scan_keys_quiet, Hnone.
    intros [= _ <-]. eauto.
  - destruct (rebuild_from_keys pages w keys) as (w1 & Hr1 & Hs1 & Hpg & _); auto.
    rewrite Hr1 in Hr. injection Hr as _ <-. exists w1. rewrite Hpg. auto.
Qed.

(** ** Runs of the service *)

Inductive policy_op :=
| OpCreate (input : CreatePolicyInput)
| OpUpdate (id : UUID) (input : UpdatePolicyInput)
| OpDeactivate (id : UUID)
| OpRebuild.

Definition run_op (s : Service (world D)) (op : policy_op) (n : net (world D)) : net (world D) :=
  match op with
  | OpCreate input => (Create s input n).2
  | OpUpdate id input => (Update s id input n).2
  | OpDeactivate id => (Deactivate s id n).2
  | OpRebuild => (RebuildProjection s n).2
  end.

Definition op_fits (op : policy_op) : Prop :=
  match op with
  | OpCreate input => input_fits input
  | OpUpdate _ input =>
      numbers_fit input.(up_Capacity) input.(up_RefillTokens) input.(up_RefillIntervalSeconds)
  | _ => True
  end.

(** The policy an operation names, if there is one, is active. *)
Definition aimed_at_active (db : database) (op : policy_op) : Prop :=
  match op with
  | OpUpdate id _ | OpDeactivate id =>
      ∀ r, db.(rate_limit_policies) !! id = Some r → r.(rlp_IsActive) = true
  | _ => True
  end.

Inductive service_step (pages : nat) : world D → world D → Prop :=
| service_step_op w op w' :
    op_fits op → aimed_at_active w.(pg) op →
    run_op (policy_service pages) op (quiet w) = quiet w' → service_step pages w w'.

(** The service keeps the mirror.  Along any run of creations, updates,
    deactivations and rebuilds, successful or refused, whose updates and
    deactivations name active policies, the request path reads exactly the
    database's active policies, and the schema's invariant holds. *)
Theorem service_keeps_mirror pages w w' :
  synced w → db_ok w.(pg) → rtc (service_step pages) w w' → synced w' ∧ db_ok w'.(pg).
Proof.
  intros Hsync Hdb Hrun. revert Hsync Hdb.
  induction Hrun as [w|w w1 w' Hstep _ IH]; intros Hsync Hdb; [done|].
  destruct Hstep as [w op w1 Hfit Haim Hop].
  enough (∃ w2, quiet w1 = quiet w2 ∧ synced w2 ∧ db_ok w2.(pg)) as (? & [= <-] & ? & ?) by auto.
  rewrite <- Hop. destruct op as [input|id input|id|]; simpl in *.
  - destruct (Create _ _ _) as [r n'] eqn:Hr. by eapply Create_keeps.
  - destruct (Update _ _ _ _) as [r n'] eqn:Hr. by eapply Update_keeps.
  - destruct (Deactivate _ _ _) as [r n'] eqn:Hr. by eapply Deactivate_keeps.
  - destruct (RebuildProjection _ _) as [r n'] eqn:Hr. by eapply Rebuild_keeps.
Qed.
End Service.
