(* ===== verification/PolicyOutcomes.v ===== *)
(** * Outcomes of the policy service

    Which input and database give which result of [Create], and what an update
    or a deactivation of an already inactive policy does to the request path. *)
From S2P Require Import Prelude GoBase Redis Ids Text JsonDecode Database Queries DatabaseSpec World Policies.
From S2P Require Import PolicyJson PolicySpec Projection ProjectionSpec PolicyService.

Section Outcomes.
Context {D : Type} `{RL : RedisLaws D} `{RS : RedisScan D} `{!ScanLaws D} `{UL : UuidLaws}.
Implicit Types (w : world D) (sc : scope).

(** The request path's read of a scope. *)
Definition read_scope sc : net (world D) → result error (option Policy) * net (world D) :=
  GetProjectedPolicy sc.(sc_type) sc.(sc_id) sc.(sc_route).

Lemma read_quiet sc w :
  read_scope sc (quiet w) =
  (match string_view w.(redis) (sc_key sc) with
   | None => Ok None
   | Some payload => let? p := Unmarshal payload in Ok (Some p)
   end, quiet w).
Proof.
  unfold read_scope, GetProjectedPolicy, redis_Get. rewrite query_quiet. cbn [res_bind].
  change (string_view w _) with (string_view w.(redis) (sc_key sc)).
  destruct (string_view _ _); cbn [res_bind]; [done|].
  by rewrite bool_decide_eq_true_2.
Qed.

(** On a mirror the read is the database's answer. *)
Lemma read_mirror sc w :
  mirrors w sc → db_ok w.(pg) →
  read_scope sc (quiet w) = (Ok (policyFromRecord <$> active_policy w.(pg) sc), quiet w).
Proof.
  intros Hs Hdb. unfold mirrors in Hs. rewrite read_quiet.
  destruct (active_policy w.(pg) sc) as [r|] eqn:Hr; [|by rewrite Hs].
  destruct Hs as (payload & Hm & ->).
  apply (active_policy_spec _ _ _ Hdb) in Hr as (id & Hr & _).
  destruct (marshal_row _ _ _ Hdb Hr) as (payload' & Hm' & Hu). assert (payload' = payload) as -> by congruence.
  by rewrite Hu.
Qed.

Lemma read_mirrored sc w :
  synced w → db_ok w.(pg) → scope_ok sc →
  read_scope sc (quiet w) = (Ok (policyFromRecord <$> active_policy w.(pg) sc), quiet w).
Proof. intros Hs Hdb Hsc. by apply read_mirror; [apply Hs|]. Qed.

(** ** Creation *)

Definition scope_of_input (n : CreatePolicyInput) : scope :=
  mkScope n.(in_ScopeType) n.(in_ScopeIdentifier) n.(in_RoutePattern).

(** Only the active policy of its own scope is in the way of a row. *)
Lemma no_clash_iff db r :
  db_ok db → row_valid r → r.(rlp_IsActive) = true →
  map_Forall (fun _ r' => ¬ clashes r r') db.(rate_limit_policies) ↔
  ∀ q, active_policy db (scope_of r) = Some q → q.(rlp_ID) = r.(rlp_ID).
Proof.
  intros Hdb Hv Ha. split.
  - intros Hall q (id & Hq & Haq & Hsc)%active_policy_spec; [|done].
    destruct (decide (q.(rlp_ID) = r.(rlp_ID))) as [|Hne]; [done|].
    pose proof (ok_row_valid _ _ _ Hdb Hq) as Hv'. destruct (Hall id q Hq). split_and!; [done| |].
    + by apply policy_entry_active.
    + by apply policy_entry_scope.
  - intros Hall id r' Hr' (Hne & Hn & Heq). apply Hne. symmetry. apply Hall, active_policy_spec; [done|].
    pose proof (ok_row_valid _ _ _ Hdb Hr') as Hv'.
    assert (Ha' : r'.(rlp_IsActive) = true) by (apply policy_entry_active; [done|congruence]).
    exists id. split_and!; [done..|]. symmetry. by apply policy_entry_scope.
Qed.

(** A scope is taken when it has an active policy, or the drawn id a row. *)
Definition create_conflict (db : database) (n : CreatePolicyInput) : Prop :=
  is_Some (active_policy db (scope_of_input n)) ∨ is_Some (db.(rate_limit_policies) !! fresh_uuid db).

Definition create_known (db : database) (n : CreatePolicyInput) : bool :=
  references (nullableUUID n.(in_ScopeIdentifier)) db.(api_keys).

(** The row the statement stores. *)
Definition create_row (db : database) (n : CreatePolicyInput) : RateLimitPolicy :=
  row_of (fresh_uuid db) n true (now_value db) (now_value db).

Lemma scope_of_create_row db n : scope_of (create_row db n) = scope_of_input n.
Proof. unfold scope_of, create_row, row_of, scope_of_input. cbn. by rewrite pointer_nullable. Qed.

(** The statement behind a creation, on every branch. *)
Lemma create_statement input n db :
  db_ok db → validateCreateInput input = Ok n → input_fits input →
  CreateRateLimitPolicy (create_params n) db =
    (if bool_decide (is_Some (db.(rate_limit_policies) !! fresh_uuid db)) ||
        bool_decide (is_Some (active_policy db (scope_of_input n)))
     then (Err (PgError unique_violation), draw db)
     else if create_known db n then (Ok (create_row db n), put_policy (create_row db n) (draw db))
     else (Err (PgError foreign_key_violation), draw db)) ∧
  (¬ create_conflict db n → create_known db n = true →
     db_ok (put_policy (create_row db n) (draw db)) ∧
     active_policy (put_policy (create_row db n) (draw db)) (scope_of_input n) = Some (create_row db n)).
Proof.
  intros Hdb Hv Hfit. pose proof (validate_fits _ _ Hv Hfit) as Hn.
  apply (validateCreateInput_schema _ _ (fresh_uuid db) true (now_value db) (now_value db)) in Hv as [_ Hck].
  change (row_of _ _ _ _ _) with (create_row db n) in Hck.
  pose proof (proj1 (policy_checks_spec _) Hck) as Hval.
  assert (Hcl : db.(rate_limit_policies) !! fresh_uuid db = None →
    map_Forall (fun _ r' => ¬ clashes (create_row db n) r') db.(rate_limit_policies) ↔
    active_policy db (scope_of_input n) = None).
  { intros Hfree. rewrite no_clash_iff, scope_of_create_row by done.
    split; [|by intros ->]. intros Hall. destruct (active_policy db _) as [q|] eqn:Hq; [|done].
    apply active_policy_spec in Hq as (id & Hq & _); [|done]. specialize (Hall q eq_refl).
    rewrite (pr_id _ _ _ (ok_policies _ Hdb _ _ Hq)) in Hall. subst id. change (rlp_ID _) with (fresh_uuid db) in Hq.
    congruence. }
  split.
  - unfold CreateRateLimitPolicy. cbn [rlp_ID]. change (mkRateLimitPolicy _ _ _ _ _ _ _ _ _ _) with (create_row db n).
    unfold policy_refused. rewrite Hck. cbn [negb].
    change (references (rlp_ScopeIdentifier (create_row db n)) (api_keys db)) with (create_known db n).
    case_bool_decide as Htaken; cbn [orb]; [done|]. apply eq_None_not_Some in Htaken.
    destruct (active_policy db (scope_of_input n)) as [q|] eqn:Hq.
    + rewrite (bool_decide_eq_false_2 (map_Forall _ _)) by (by rewrite Hcl).
      by rewrite bool_decide_eq_true_2.
    + rewrite (bool_decide_eq_true_2 (map_Forall _ _)) by (by apply Hcl).
      rewrite bool_decide_eq_false_2 by (by intros []). cbn [negb]. by destruct (create_known db n).
  - intros Hcf Hk. apply Decidable.not_or in Hcf as [Hna Hnt]. apply eq_None_not_Some in Hna, Hnt.
    assert (Hput : db_ok (put_policy (create_row db n) (draw db))).
    { apply put_policy_ok; auto using draw_ok; [apply Hdb|by apply now_value_ok..|by apply Hcl]. }
    split; [done|]. rewrite <- (scope_of_create_row db n). apply active_policy_spec; [done|].
    exists (fresh_uuid db). split; [apply lookup_insert_eq|done].
Qed.

(** A creation nothing stands in the way of. *)
Lemma Create_stores pages input n w :
  synced w → db_ok w.(pg) → validateCreateInput input = Ok n → input_fits input →
  ¬ create_conflict w.(pg) n → create_known w.(pg) n = true →
  let row := create_row w.(pg) n in
  ∃ w', Create (policy_service pages) input (quiet w) = (Ok (policyFromRecord row), quiet w') ∧
    w'.(pg) = put_policy row (draw w.(pg)) ∧ synced w' ∧ db_ok w'.(pg).
Proof.
  intros Hsync Hdb Hv Hfit Hcf Hk row.
  destruct (create_statement input n w.(pg) Hdb Hv Hfit) as [Hst Hstored].
  destruct (Hstored Hcf Hk) as [Hput _]. fold row in Hput.
  pose proof Hcf as [Hna Hnt]%Decidable.not_or.
  destruct (sync_stores w (draw w.(pg)) row None) as (d' & Hs & Hsync'); auto using draw_ok.
  { by apply eq_None_not_Some. }
  { by intros ? [=]. }
  eexists. split; [|by split; [|split; [exact Hsync'|]]].
  unfold Create. rewrite Hv, sql_quiet. change (mkCreateRateLimitPolicyParams _ _ _ _ _ _) with (create_params n).
  rewrite Hst, !bool_decide_eq_false_2, Hk by done. cbn [orb fst snd].
  change (SyncPolicy (projector (policy_service pages)) None ?p) with
    (projection_SyncPolicy (policyFromRecord <$> None) p (D := world D)). fold row.
  by rewrite Hs.
Qed.

(** Creation is the database's verdict.  An invalid input changes nothing
    and returns its validation error; a valid one is refused with
    [ErrPolicyConflict] exactly when its scope already has an active policy (or
    the drawn id is taken), with [ErrScopedAPIKeyNotFound] exactly when it names
    a key that does not exist, without touching the policies; otherwise the
    returned policy is active in the database and is what the request path
    reads for that scope. *)
Theorem Create_outcome pages input w :
  synced w → db_ok w.(pg) → input_fits input →
  ∃ r w', Create (policy_service pages) input (quiet w) = (r, quiet w') ∧
  match validateCreateInput input with
  | Err e => r = Err e ∧ w' = w
  | Ok n =>
      let sc := scope_of_input n in
      let conflict := is_Some (active_policy w.(pg) sc) ∨
                      is_Some (w.(pg).(rate_limit_policies) !! fresh_uuid w.(pg)) in
      let known := references (nullableUUID n.(in_ScopeIdentifier)) w.(pg).(api_keys) in
      (r = Err ErrPolicyConflict ↔ conflict) ∧
      (r = Err ErrScopedAPIKeyNotFound ↔ ¬ conflict ∧ known = false) ∧
      (¬ conflict → known = true → ∃ row, r = Ok (policyFromRecord row) ∧
         active_policy w'.(pg) sc = Some row ∧
         row = row_of (fresh_uuid w.(pg)) n true (now_value w.(pg)) (now_value w.(pg)) ∧
         read_scope sc (quiet w') = (Ok (Some (policyFromRecord row)), quiet w')) ∧
      (r = Err ErrPolicyConflict ∨ r = Err ErrScopedAPIKeyNotFound →
         w'.(redis) = w.(redis) ∧
         w'.(pg).(rate_limit_policies) = w.(pg).(rate_limit_policies))
  end.
Proof.
  intros Hsync Hdb Hfit. destruct (Create _ _ _) as [r n'] eqn:Hc.
  destruct (Create_keeps _ _ _ _ _ Hsync Hdb Hfit Hc) as (w1 & -> & Hsync1 & Hdb1).
  exists r, w1. split; [done|]. destruct (validateCreateInput input) as [n|e] eqn:Hv.
  2: { revert Hc. unfold Create. rewrite Hv. by intros [= <- <-]. }
  cbv zeta. fold (create_conflict w.(pg) n). fold (create_known w.(pg) n).
  destruct (create_statement input n w.(pg) Hdb Hv Hfit) as [Hst Hstored].
  destruct (decide (create_conflict w.(pg) n)) as [Hcf|Hcf]; [|destruct (create_known _ _) eqn:Hk].
  2: { destruct (Create_stores pages input n w Hsync Hdb Hv Hfit Hcf Hk) as (w2 & Hc2 & Hpg & _).
    rewrite Hc in Hc2. injection Hc2 as -> <-. destruct (Hstored Hcf eq_refl) as [Hput Hact].
    split; [naive_solver|]. split; [naive_solver|]. split; [|by intros [[=]|[=]]].
    intros _ _. exists (create_row w.(pg) n). rewrite Hpg. do 3 (split; [done|]).
    rewrite read_mirrored by (done || (rewrite <- (scope_of_create_row w.(pg)); eapply ok_scope;
      [exact Hput|apply lookup_insert_eq])). by rewrite Hpg, Hact. }
  all: revert Hc; unfold Create; rewrite Hv, sql_quiet;
    change (mkCreateRateLimitPolicyParams _ _ _ _ _ _) with (create_params n); rewrite Hst.
  - assert (bool_decide (is_Some (rate_limit_policies (pg w) !! fresh_uuid (pg w))) ||
            bool_decide (is_Some (active_policy (pg w) (scope_of_input n))) = true) as ->.
    { apply orb_true_iff. rewrite !bool_decide_eq_true. by destruct Hcf; auto. }
    intros [= <- <-]. cbn. naive_solver.
  - pose proof Hcf as [Hna Hnt]%Decidable.not_or. rewrite !bool_decide_eq_false_2 by done. cbn [orb].
    intros [= <- <-]. cbn. naive_solver.
Qed.

(** ** Aimed at an inactive policy *)

Lemma inactive_accepted db r :
  r.(rlp_IsActive) = false → policy_checks r = true →
  references r.(rlp_ScopeIdentifier) db.(api_keys) = true → policy_refused false r db = None.
Proof.
  intros Ha Hc Hr. apply policy_refused_None. split_and!; auto.
  intros id r' _ (_ & Hne & _). apply Hne. unfold policy_entry. by rewrite Ha.
Qed.

(** Rewriting an inactive row as an inactive one leaves its scope's active
    policy alone. *)
Lemma inactive_put_scope db id r0 row :
  db_ok db → db_ok (put_policy row db) → db.(rate_limit_policies) !! id = Some r0 →
  r0.(rlp_IsActive) = false → row.(rlp_ID) = r0.(rlp_ID) → row.(rlp_IsActive) = false →
  active_policy (put_policy row db) (scope_of row) = active_policy db (scope_of row).
Proof.
  intros Hdb Hdb' Hr0 Hina Hrow Hrina. pose proof (pr_id _ _ _ (ok_policies _ Hdb _ _ Hr0)) as Hid.
  rewrite active_policy_put by done.
  rewrite bool_decide_eq_false_2 by (rewrite Hrina; by intros []).
  destruct (active_policy db _) as [q|] eqn:Hq; [|done].
  apply (active_policy_spec _ _ _ Hdb) in Hq as (idq & Hlq & Haq & _).
  pose proof (pr_id _ _ _ (ok_policies _ Hdb _ _ Hlq)) as Hidq.
  rewrite bool_decide_eq_false_2; [done|]. intros Heq. congruence.
Qed.

(** A projection that shows an inactive row is not the mirror. *)
Lemma inactive_read_breaks w row payload :
  db_ok w.(pg) → scope_ok (scope_of row) → row.(rlp_IsActive) = false →
  Unmarshal payload = Ok (policyFromRecord row) →
  string_view w.(redis) (sc_key (scope_of row)) = Some payload → ¬ synced w.
Proof.
  intros Hdb Hsc Hina Hu Hread Hsync. specialize (Hsync _ Hsc). unfold mirrors in Hsync.
  rewrite Hread in Hsync. destruct (active_policy w.(pg) (scope_of row)) as [q|] eqn:Hq; [|done].
  destruct Hsync as (payload' & Hm' & [= <-]).
  apply (active_policy_spec _ _ _ Hdb) in Hq as (idq & Hlq & Haq & _).
  destruct (marshal_row _ _ _ Hdb Hlq) as (payload'' & Hm'' & Hu'').
  assert (policyFromRecord q = policyFromRecord row) as Heq by congruence.
  apply (f_equal pol_IsActive) in Heq. simpl in Heq. congruence.
Qed.

(** C40: editing an inactive policy puts it in force.  An update of a policy
    that is not active succeeds, leaves it inactive in the database, and yet
    makes it the policy the request path reads for its scope, in place of the
    scope's active policy if there is one: the mirror is broken. *)
Theorem Update_inactive_enforced pages id input n r0 w :
  db_ok w.(pg) → w.(pg).(rate_limit_policies) !! id = Some r0 → r0.(rlp_IsActive) = false →
  validateCreateInput (mkCreatePolicyInput input.(up_ScopeType) input.(up_ScopeIdentifier)
    input.(up_RoutePattern) input.(up_Capacity) input.(up_RefillTokens)
    input.(up_RefillIntervalSeconds)) = Ok n →
  numbers_fit input.(up_Capacity) input.(up_RefillTokens) input.(up_RefillIntervalSeconds) →
  references (nullableUUID n.(in_ScopeIdentifier)) w.(pg).(api_keys) = true →
  ∃ p w', Update (policy_service pages) id input (quiet w) = (Ok p, quiet w') ∧
    p.(pol_IsActive) = false ∧
    read_scope (scope_of_input n) (quiet w') = (Ok (Some p), quiet w') ∧
    active_policy w'.(pg) (scope_of_input n) = active_policy w.(pg) (scope_of_input n) ∧
    ¬ synced w'.
Proof.
  intros Hdb Hr0 Hina Hv Hfit Href. unfold Update. rewrite sql_quiet. cbn [GetRateLimitPolicy fst snd].
  replace (mkWorld w.(redis) w.(pg)) with w by (by destruct w). rewrite Hr0. cbn [one_row]. rewrite Hv.
  rewrite sql_quiet. set (arg := mkUpdateRateLimitPolicyParams _ _ _ _ _ _ _ _).
  pose proof (validate_fits _ _ Hv Hfit) as Hn.
  assert (Hdb' : db_ok (UpdateRateLimitPolicy arg w.(pg)).2) by
    (apply (db_step_ok w.(pg)); [done|by constructor]).
  unfold UpdateRateLimitPolicy in *. cbn [urp_ID arg] in *. subst arg. rewrite Hr0 in *.
  apply (validateCreateInput_schema _ _ r0.(rlp_ID) r0.(rlp_IsActive) r0.(rlp_CreatedAt)
    (now_value w.(pg))) in Hv as [_ Hck].
  unfold store_policy in *. set (row := mkRateLimitPolicy _ _ _ _ _ _ _ _ _ _) in *.
  rewrite (inactive_accepted _ row) in * by done. cbn [fst snd] in *.
  destruct (marshal_row _ row.(rlp_ID) row Hdb') as (payload & Hm & Hu); [apply lookup_insert_eq|].
  change (SyncPolicy (projector (policy_service pages))) with
    (projection_SyncPolicy (D := world D)).
  rewrite (sync_quiet _ _ payload) by done. cbn [wrap_err res_map_err res_bind].
  assert (Hscope : scope_of row = scope_of_input n) by
    (unfold scope_of, row, scope_of_input; simpl; by rewrite pointer_nullable).
  pose proof (pr_id _ _ _ (ok_policies _ Hdb _ _ Hr0)) as Hid.
  assert (Hsc : scope_ok (scope_of row)) by (eapply ok_scope; [done|apply lookup_insert_eq]).
  set (d' := exec_cmds _ _).
  assert (Hread : string_view d' (sc_key (scope_of row)) = Some payload).
  { pose proof (string_after_sync (Some r0) row payload w.(redis) (sc_key (scope_of row))) as Hs.
    rewrite bool_decide_eq_true_2 in Hs by done. exact Hs. }
  assert (Hact : active_policy (put_policy row w.(pg)) (scope_of row) =
    active_policy w.(pg) (scope_of row)) by (by eapply inactive_put_scope).
  eexists _, (mkWorld d' (put_policy row w.(pg))). rewrite <- Hscope.
  split; [done|]. split; [exact Hina|]. split; [rewrite read_quiet; cbn [redis]; by rewrite Hread, Hu|].
  split; [exact Hact|]. by apply (inactive_read_breaks _ row payload).
Qed.

(** Retiring a policy twice unlimits its successor.  When a policy that is
    already inactive is deactivated again while another policy is active for
    the same scope, the call succeeds and the successor stays active in the
    database, but the request path finds no policy for the scope any more. *)
Theorem Deactivate_inactive_unlimits pages id r0 r1 w :
  db_ok w.(pg) → w.(pg).(rate_limit_policies) !! id = Some r0 → r0.(rlp_IsActive) = false →
  active_policy w.(pg) (scope_of r0) = Some r1 →
  ∃ p w', Deactivate (policy_service pages) id (quiet w) = (Ok p, quiet w') ∧
    active_policy w'.(pg) (scope_of r0) = Some r1 ∧
    read_scope (scope_of r0) (quiet w') = (Ok None, quiet w') ∧ ¬ synced w'.
Proof.
  intros Hdb Hr0 Hina Hact. unfold Deactivate. rewrite sql_quiet.
  assert (Hdb' : db_ok (DeactivateRateLimitPolicy id w.(pg)).2) by
    (apply (db_step_ok w.(pg)); [done|constructor]).
  unfold DeactivateRateLimitPolicy in *. rewrite Hr0 in *.
  pose proof (pr_id _ _ _ (ok_policies _ Hdb _ _ Hr0)) as Hid.
  unfold store_policy in *. set (row := mkRateLimitPolicy _ _ _ _ _ _ _ _ _ _) in *.
  rewrite (inactive_accepted _ row) in * by (done || apply (ok_policies _ Hdb _ _ Hr0)).
  cbn [fst snd] in *.
  change (RemovePolicy (projector (policy_service pages))) with
    (projection_RemovePolicy (D := world D)).
  rewrite remove_quiet. cbn [wrap_err res_map_err res_bind pg redis].
  eexists _, (mkWorld (run_cmd (DelKeys [sc_key (scope_of row)]) w.(redis)) (put_policy row w.(pg))).
  split; [done|]. change (scope_of r0) with (scope_of row) in *.
  assert (Hsc : scope_ok (scope_of row)) by (eapply ok_scope; [done|apply lookup_insert_eq]).
  assert (Hnew : active_policy (put_policy row w.(pg)) (scope_of row) = Some r1).
  { rewrite <- Hact. by eapply inactive_put_scope. }
  assert (Hgone : string_view (run_cmd (DelKeys [sc_key (scope_of row)]) w.(redis))
    (sc_key (scope_of row)) = None).
  { rewrite string_after_del. rewrite bool_decide_eq_true_2; [done|by left]. }
  split; [exact Hnew|]. split; [rewrite read_quiet; cbn [redis]; by rewrite Hgone|].
  intros Hsync. specialize (Hsync _ Hsc). unfold mirrors in Hsync. cbn [pg redis] in Hsync.
  rewrite Hnew, Hgone in Hsync. by destruct Hsync as (? & _ & ?).
Qed.
End Outcomes.

(** * Changing and retiring a policy

    What [Update] and [Deactivate] answer and leave behind, on every branch,
    when they are aimed at an active policy or at none. *)

Lemma references_scope {A} (r : RateLimitPolicy) i (t : gmap UUID A) :
  pointerUUID r.(rlp_ScopeIdentifier) = i → references r.(rlp_ScopeIdentifier) t = true →
  references (nullableUUID i) t = true.
Proof. intros <-. unfold references, pointerUUID. by destruct (rlp_ScopeIdentifier r) as [u []]. Qed.

Lemma scope_of_row_of id n active created updated : scope_of (row_of id n active created updated) = scope_of_input n.
Proof. unfold scope_of, row_of, scope_of_input. cbn. by rewrite pointer_nullable. Qed.

(** ** One row stored, as each scope sees it *)

Section Put.
Context (db : database) (row : RateLimitPolicy).
Context (Hdb : db_ok db) (Hdb' : db_ok (put_policy row db)).

Lemma put_elsewhere sc :
  scope_of row ≠ sc → (∀ q, db.(rate_limit_policies) !! row.(rlp_ID) = Some q → scope_of q ≠ sc) →
  active_policy (put_policy row db) sc = active_policy db sc.
Proof.
  intros Hne Hold. rewrite active_policy_put by done. rewrite bool_decide_eq_false_2 by (by intros []).
  destruct (active_policy db sc) as [q|] eqn:Hq; [|done].
  apply (active_policy_spec _ _ _ Hdb) in Hq as (id & Hl & _ & Hs).
  rewrite bool_decide_eq_false_2; [done|]. intros Heq. apply (Hold q); [|done].
  by rewrite <- Heq, (pr_id _ _ _ (ok_policies _ Hdb _ _ Hl)).
Qed.

Lemma put_new : row.(rlp_IsActive) = true → active_policy (put_policy row db) (scope_of row) = Some row.
Proof. intros Ha. apply active_policy_spec; [done|]. exists row.(rlp_ID). split; [apply lookup_insert_eq|done]. Qed.

Lemma put_old q :
  db.(rate_limit_policies) !! row.(rlp_ID) = Some q → q.(rlp_IsActive) = true →
  (row.(rlp_IsActive) = true → scope_of q ≠ scope_of row) →
  active_policy (put_policy row db) (scope_of q) = None.
Proof.
  intros Hq Ha Hne. rewrite active_policy_put by done.
  rewrite bool_decide_eq_false_2 by (intros [Hr Hs]; by apply Hne).
  assert (active_policy db (scope_of q) = Some q) as -> by (apply active_policy_spec; eauto).
  by rewrite (pr_id _ _ _ (ok_policies _ Hdb _ _ Hq)), bool_decide_eq_true_2.
Qed.
End Put.

(** ** The statement behind an update *)

(** Another policy is active for the scope. *)
Definition update_conflict (db : database) (id : UUID) (n : CreatePolicyInput) : bool :=
  match active_policy db (scope_of_input n) with
  | Some q => negb (q.(rlp_ID) =? id)
  | None => false
  end.

Definition update_row (db : database) (id : UUID) (r : RateLimitPolicy) (n : CreatePolicyInput) : RateLimitPolicy :=
  row_of id n true r.(rlp_CreatedAt) (now_value db).

Lemma update_statement db id r existing input n :
  db_ok db → db.(rate_limit_policies) !! id = Some r → existing.(rlp_IsActive) = true →
  validateCreateInput input = Ok n → input_fits input →
  let row := update_row db id r n in
  UpdateRateLimitPolicy (update_params id existing n) db =
    (if update_conflict db id n then (Err (PgError unique_violation), db)
     else if create_known db n then (Ok row, put_policy row db)
     else (Err (PgError foreign_key_violation), db)) ∧
  (update_conflict db id n = false → create_known db n = true → db_ok (put_policy row db)).
Proof.
  intros Hdb Hr Hex Hv Hfit row. pose proof (validate_fits _ _ Hv Hfit) as Hn.
  pose proof (pr_id _ _ _ (ok_policies _ Hdb _ _ Hr)) as Hid.
  apply (validateCreateInput_schema _ _ id true r.(rlp_CreatedAt) (now_value db)) in Hv as [_ Hck].
  change (row_of _ _ _ _ _) with row in Hck.
  assert (Hval : row_valid row) by (by apply policy_checks_spec).
  assert (Hcl : map_Forall (fun _ r' => ¬ clashes row r') db.(rate_limit_policies) ↔ update_conflict db id n = false).
  { rewrite no_clash_iff by done. unfold row at 1, update_row, update_conflict. rewrite scope_of_row_of.
    destruct (active_policy db _) as [q|]; [|naive_solver].
    rewrite negb_false_iff, Z.eqb_eq. split; [intros Hq; by apply Hq|by intros <- ? [= <-]]. }
  assert (Hu : UpdateRateLimitPolicy (update_params id existing n) db =
    if update_conflict db id n then (Err (PgError unique_violation), db)
    else if create_known db n then (Ok row, put_policy row db)
    else (Err (PgError foreign_key_violation), db)).
  { unfold UpdateRateLimitPolicy. change (urp_ID (update_params id existing n)) with id. rewrite Hr, Hid.
    unfold update_params. cbn. rewrite Hex. unfold store_policy, policy_refused.
    change (mkRateLimitPolicy _ _ _ _ _ _ _ _ _ _) with row. rewrite Hck. cbn [negb orb].
    change (references (rlp_ScopeIdentifier row) (api_keys db)) with (create_known db n).
    destruct (update_conflict db id n).
    - by rewrite bool_decide_eq_false_2 by (by rewrite Hcl).
    - rewrite bool_decide_eq_true_2 by (by apply Hcl). by destruct (create_known db n). }
  split; [done|]. intros Hcf Hk. rewrite Hcf, Hk in Hu.
  assert (Hs : db_ok (UpdateRateLimitPolicy (update_params id existing n) db).2)
    by (apply (db_step_ok db); [done|by constructor]).
  by rewrite Hu in Hs.
Qed.

(** Rewritten within its scope, an active row is accepted. *)
Lemma update_in_scope db id r existing input n :
  db_ok db → db.(rate_limit_policies) !! id = Some r → r.(rlp_IsActive) = true →
  existing.(rlp_IsActive) = true → validateCreateInput input = Ok n → input_fits input →
  scope_of_input n = scope_of r →
  UpdateRateLimitPolicy (update_params id existing n) db =
    (Ok (update_row db id r n), put_policy (update_row db id r n) db) ∧
  db_ok (put_policy (update_row db id r n) db).
Proof.
  intros Hdb Hr Ha Hex Hv Hfit Hsc.
  destruct (update_statement db id r existing input n Hdb Hr Hex Hv Hfit) as [Hst Hok].
  assert (Hcf : update_conflict db id n = false).
  { unfold update_conflict. rewrite Hsc. assert (active_policy db (scope_of r) = Some r) as ->
      by (apply active_policy_spec; eauto).
    by rewrite (pr_id _ _ _ (ok_policies _ Hdb _ _ Hr)), Z.eqb_refl. }
  assert (Hk : create_known db n = true).
  { apply (references_scope r); [by injection Hsc|]. apply (ok_policies _ Hdb _ _ Hr). }
  rewrite Hcf, Hk in Hst. auto.
Qed.

Section Changes.
Context {D : Type} `{RL : RedisLaws D} `{RS : RedisScan D} `{!ScanLaws D} `{UL : UuidLaws}.
Implicit Types (w : world D) (sc : scope).

Lemma same_world w : mkWorld w.(redis) w.(pg) = w.
Proof. by destruct w. Qed.

(** What an update answers and leaves behind, on a mirror and aimed at an
    active policy or at none. *)
Lemma Update_outcome pages id input w :
  synced w → db_ok w.(pg) → input_fits (update_input input) →
  (∀ r, w.(pg).(rate_limit_policies) !! id = Some r → r.(rlp_IsActive) = true) →
  ∃ res w', Update (policy_service pages) id input (quiet w) = (res, quiet w') ∧ synced w' ∧ db_ok w'.(pg) ∧
  match w.(pg).(rate_limit_policies) !! id with
  | None => res = Err ErrPolicyNotFound ∧ w' = w
  | Some r =>
      match validateCreateInput (update_input input) with
      | Err e => res = Err e ∧ w' = w
      | Ok n =>
          let row := update_row w.(pg) id r n in
          if update_conflict w.(pg) id n then res = Err ErrPolicyConflict ∧ w' = w
          else if create_known w.(pg) n then
            res = Ok (policyFromRecord row) ∧ w'.(pg) = put_policy row w.(pg) ∧
            read_scope (scope_of_input n) (quiet w') = (Ok (Some (policyFromRecord row)), quiet w') ∧
            (scope_of r ≠ scope_of_input n → read_scope (scope_of r) (quiet w') = (Ok None, quiet w'))
          else res = Err ErrScopedAPIKeyNotFound ∧ w' = w
      end
  end.
Proof.
  intros Hsync Hdb Hfit Haim. destruct (Update _ _ _ _) as [res n'] eqn:Hu.
  destruct (Update_keeps _ _ _ _ _ _ Hsync Hdb Hfit Haim Hu) as (w1 & -> & Hsync1 & Hdb1).
  exists res, w1. split_and!; [done..|]. revert Hu. unfold Update. rewrite sql_quiet. unfold GetRateLimitPolicy.
  cbn [fst snd]. rewrite same_world.
  destruct (rate_limit_policies (pg w) !! id) as [r|] eqn:Hr; cbn [one_row]; [|by intros [= <- <-]].
  specialize (Haim r eq_refl). fold (update_input input).
  destruct (validateCreateInput _) as [n|e] eqn:Hv; [|by intros [= <- <-]].
  destruct (update_statement _ id r r _ n Hdb Hr Haim Hv Hfit) as [Hst Hok].
  cbv zeta. rewrite sql_quiet. change (mkUpdateRateLimitPolicyParams _ _ _ _ _ _ _ _) with (update_params id r n).
  rewrite Hst. destruct (update_conflict _ _ _); cbn [fst snd]; [rewrite same_world; by intros [= <- <-]|].
  destruct (create_known _ _); cbn [fst snd]; [|rewrite same_world; by intros [= <- <-]].
  specialize (Hok eq_refl eq_refl). set (row := update_row _ _ _ _) in *.
  pose proof (pr_id _ _ _ (ok_policies _ Hdb _ _ Hr)) as Hid.
  assert (Hrow : scope_of row = scope_of_input n) by apply scope_of_row_of.
  assert (Hprev : w.(pg).(rate_limit_policies) !! row.(rlp_ID) = Some r) by done.
  destruct (sync_stores w w.(pg) row (Some r)) as (d' & Hs & _); auto; [by intros ? [= <-]|].
  change (SyncPolicy (projector (policy_service pages))) with (projection_SyncPolicy (D := world D)).
  change (Some (policyFromRecord r)) with (policyFromRecord <$> Some r).
  rewrite Hs. intros [= <- <-]. split; [done|]. split; [done|]. rewrite <- Hrow. split.
  - rewrite read_mirrored; [cbn [pg]; by rewrite put_new|done..|].
    apply (ok_scope _ row.(rlp_ID) _ Hok), lookup_insert_eq.
  - intros Hne. rewrite read_mirrored; [cbn [pg]; by rewrite (put_old _ row)|done..|exact (ok_scope _ _ _ Hdb Hr)].
Qed.

(** The same of a deactivation, which is never refused. *)
Lemma Deactivate_outcome pages id w :
  synced w → db_ok w.(pg) →
  (∀ r, w.(pg).(rate_limit_policies) !! id = Some r → r.(rlp_IsActive) = true) →
  ∃ res w', Deactivate (policy_service pages) id (quiet w) = (res, quiet w') ∧ synced w' ∧ db_ok w'.(pg) ∧
  match w.(pg).(rate_limit_policies) !! id with
  | None => res = Err ErrPolicyNotFound ∧ w' = w
  | Some r =>
      ∃ row, res = Ok (policyFromRecord row) ∧ row.(rlp_ID) = id ∧ row.(rlp_IsActive) = false ∧
        scope_of row = scope_of r ∧ w'.(pg) = put_policy row w.(pg) ∧
        read_scope (scope_of r) (quiet w') = (Ok None, quiet w')
  end.
Proof.
  intros Hsync Hdb Haim. destruct (Deactivate _ _ _) as [res n'] eqn:Hu.
  destruct (Deactivate_keeps _ _ _ _ _ Hsync Hdb Haim Hu) as (w1 & -> & Hsync1 & Hdb1).
  exists res, w1. split_and!; [done..|]. revert Hu. unfold Deactivate. rewrite sql_quiet.
  unfold DeactivateRateLimitPolicy.
  destruct (rate_limit_policies (pg w) !! id) as [r|] eqn:Hr; cbn [fst snd]; [|rewrite same_world; by intros [= <- <-]].
  pose proof (pr_id _ _ _ (ok_policies _ Hdb _ _ Hr)) as Hid. specialize (Haim r eq_refl).
  set (row := mkRateLimitPolicy _ _ _ _ _ _ _ _ _ _). unfold store_policy.
  rewrite (inactive_accepted _ row) by (done || apply (ok_policies _ Hdb _ _ Hr)). cbn [fst snd].
  change (RemovePolicy (projector (policy_service pages))) with (projection_RemovePolicy (D := world D)).
  rewrite remove_quiet. intros [= <- <-]. exists row. cbn [pg] in *. split_and!; [done..|].
  rewrite read_mirrored; [|done..|by apply (ok_scope _ _ _ Hdb Hr)]. cbn [pg].
  rewrite (put_old _ row); [done..| |done|done]. change (rlp_ID row) with (rlp_ID r). by rewrite Hid.
Qed.
End Changes.
