(* ===== verification/Resolver.v ===== *)
(** * The effective policy: [internal/policies/resolver.go] *)
From S2P Require Import Prelude GoBase Ids Text Redis Policies.

Definition ErrInvalidRouteID : error :=
  ErrorsNew "policies.ErrInvalidRouteID" "route_id must be one of ping, orders, or report".

Record ResolveInput := mkResolveInput { APIKeyID : option UUID; RouteID : string }.

Record Resolution := mkResolution {
  res_Policy : Policy;
  MatchedScopeType : string;
  MatchedScopeIdentifier : option UUID;
  MatchedRoutePattern : option string
}.

#[global] Instance Resolution_eq_dec : EqDecision Resolution.
Proof. solve_decision. Defined.

(** What the resolver reads policies from. *)
Definition ProjectedPolicyReader (W : Type) : Type :=
  string → option UUID → option string → net W → result error (option Policy) * net W.

Record Resolver (W : Type) := mkResolver { reader : option (ProjectedPolicyReader W) }.
Arguments mkResolver {W}.
Arguments reader {W}.

Definition NewResolver {W} (r : option (ProjectedPolicyReader W)) : option (Resolver W) :=
  Some (mkResolver r).

Record resolutionCandidate := mkCandidate {
  scopeType : string;
  scopeIdentifier : option UUID;
  routePattern : option string
}.

Definition isValidRouteID (routeID : string) : bool := bool_decide (routeID ∈ validRoutePatterns).

(** Most specific first. *)
Definition candidates (apiKeyID : option UUID) (routeID : string) : list resolutionCandidate :=
  match apiKeyID with
  | None => []
  | Some _ => [mkCandidate ScopeAPIKeyRoute apiKeyID (Some routeID);
               mkCandidate ScopeAPIKey apiKeyID None]
  end ++ [mkCandidate ScopeRoute None (Some routeID); mkCandidate ScopeGlobal None None].

Section Resolver.
Context {W : Type}.

Fixpoint first_found (read : ProjectedPolicyReader W) (cs : list resolutionCandidate) (n : net W)
    : result error (option Resolution) * net W :=
  match cs with
  | [] => (Ok None, n)
  | c :: cs =>
      let '(r, n) := read c.(scopeType) c.(scopeIdentifier) c.(routePattern) n in
      match r with
      | Err err => (Err (Wrapf ("read projected policy for scope " +:+ c.(scopeType)) err), n)
      | Ok (Some policy) =>
          (Ok (Some (mkResolution policy c.(scopeType) c.(scopeIdentifier) c.(routePattern))), n)
      | Ok None => first_found read cs n
      end
  end.

(** A nil resolver, or one without a reader, finds nothing. *)
Definition Resolve (r : option (Resolver W)) (input : ResolveInput) (n : net W)
    : result error (option Resolution) * net W :=
  match r ≫= reader with
  | None => (Ok None, n)
  | Some read =>
      let routeID := TrimSpace input.(RouteID) in
      if negb (isValidRouteID routeID) then (Err ErrInvalidRouteID, n)
      else first_found read (candidates input.(APIKeyID) routeID) n
  end.
End Resolver.
