(* ===== verification/ResolverSpec.v ===== *)
(** * The most specific policy wins

    On a mirror, the resolver returns the active policy of the database that
    applies to the request and is the most specific of those. *)
From S2P Require Import Prelude GoBase Ids Text JsonDecode PolicyJson Redis Database Queries DatabaseSpec World.
From S2P Require Import Policies PolicySpec Projection ProjectionSpec PolicyService PolicyOutcomes.
From S2P Require Import Resolver.

(** A policy applies to a request when each part it names is the request's. *)
Definition applies (key : option UUID) (route : string) (r : RateLimitPolicy) : Prop :=
  ((scope_of r).(sc_id) = None ∨ (scope_of r).(sc_id) = key) ∧
  ((scope_of r).(sc_route) = None ∨ (scope_of r).(sc_route) = Some route).

(** Naming the key outweighs naming the route. *)
Definition specificity (r : RateLimitPolicy) : Z :=
  (if (scope_of r).(sc_id) is Some _ then 2 else 0) +
  (if (scope_of r).(sc_route) is Some _ then 1 else 0).

Definition candidate_scope (c : resolutionCandidate) : scope :=
  mkScope c.(scopeType) c.(scopeIdentifier) c.(routePattern).

(** The scopes tried, and that those are the scopes that apply. *)
Lemma candidates_spec key route r :
  row_valid r →
  applies key route r ↔ Exists (fun c => candidate_scope c = scope_of r) (candidates key route).
Proof.
  intros [_ _ _ _ Hs]. unfold applies, candidates, scope_of. simpl.
  destruct r as [id t [b v] p ? ? ? ? ? ?]; simpl in *. unfold pointerUUID; simpl.
  destruct p as [p|]; simpl in Hs; inversion Hs; subst; simpl;
    destruct key as [k|]; simpl; rewrite ?Exists_cons, ?Exists_nil; unfold candidate_scope; simpl;
    split; intros HH; destruct_and?; destruct_or?; simplify_eq; naive_solver.
Qed.

(** They are tried from the most specific down. *)
Lemma candidates_sorted key route pre c post c' :
  candidates key route = pre ++ c :: post → c' ∈ c :: post →
  (if (candidate_scope c').(sc_id) is Some _ then 2 else 0) +
  (if (candidate_scope c').(sc_route) is Some _ then 1 else 0) ≤
  (if (candidate_scope c).(sc_id) is Some _ then 2 else 0) +
  (if (candidate_scope c).(sc_route) is Some _ then 1 else 0).
Proof.
  unfold candidates. intros Hcs Hin.
  destruct key as [k|]; destruct pre as [|? [|? [|? [|? [|? pre]]]]]; simplify_eq/=;
    repeat (apply elem_of_cons in Hin as [->|Hin]); simpl; try lia;
    by apply not_elem_of_nil in Hin.
Qed.

Section Resolve.
Context {D : Type} `{RL : RedisLaws D} `{UL : UuidLaws}.
Implicit Types (w : world D).

(** The first candidate with an active policy. *)
Fixpoint first_active (db : database) (cs : list resolutionCandidate) : option Resolution :=
  match cs with
  | [] => None
  | c :: cs =>
      match active_policy db (candidate_scope c) with
      | Some r => Some (mkResolution (policyFromRecord r) c.(scopeType) c.(scopeIdentifier)
                          c.(routePattern))
      | None => first_active db cs
      end
  end.

Lemma first_found_mirrored cs w :
  synced w → db_ok w.(pg) → Forall (fun c => scope_ok (candidate_scope c)) cs →
  first_found GetProjectedPolicy cs (quiet w) = (Ok (first_active w.(pg) cs), quiet w).
Proof.
  intros Hs Hdb. induction cs as [|c cs IH]; intros Hcs; [done|].
  apply Forall_cons_1 in Hcs as [Hc Hcs]. cbn [first_found first_active].
  pose proof (read_mirrored (candidate_scope c) w Hs Hdb Hc) as Hr.
  unfold read_scope in Hr. cbn [candidate_scope sc_type sc_id sc_route] in Hr. rewrite Hr.
  change (mkScope _ _ _) with (candidate_scope c).
  destruct (active_policy _ _); simpl; [done|]. by apply IH.
Qed.

Lemma candidates_ok key route :
  (∀ u, key = Some u → uuid_ok u) → route ∈ route_patterns →
  Forall (fun c => scope_ok (candidate_scope c)) (candidates key route).
Proof.
  intros Hk Hr. assert (Hall : Some route ≠ Some "ALL").
  { intros [= ->]. revert Hr. by apply (bool_decide_unpack _). }
  unfold candidates. destruct key as [k|]; simpl; repeat constructor; simpl; try done; naive_solver.
Qed.

(** What [first_active] returns, read as a choice among the rows. *)
Lemma first_active_best db key route :
  db_ok db →
  match first_active db (candidates key route) with
  | Some res => ∃ r, active_policy db (scope_of r) = Some r ∧ applies key route r ∧
      res = mkResolution (policyFromRecord r) (scope_of r).(sc_type) (scope_of r).(sc_id)
              (scope_of r).(sc_route) ∧
      ∀ r', active_policy db (scope_of r') = Some r' → applies key route r' →
        specificity r' ≤ specificity r
  | None => ∀ r, active_policy db (scope_of r) = Some r → ¬ applies key route r
  end.
Proof.
  intros Hdb.
  assert (Hact : ∀ sc r, active_policy db sc = Some r → scope_of r = sc ∧ row_valid r).
  { intros sc r (id & Hr & _ & Hs)%active_policy_spec; [|done]. split; [done|by eapply ok_row_valid]. }
  assert (Hgen : ∀ cs, match first_active db cs with
    | Some res => ∃ pre c post r, cs = pre ++ c :: post ∧
        active_policy db (candidate_scope c) = Some r ∧
        Forall (fun c => active_policy db (candidate_scope c) = None) pre ∧
        res = mkResolution (policyFromRecord r) c.(scopeType) c.(scopeIdentifier) c.(routePattern)
    | None => Forall (fun c => active_policy db (candidate_scope c) = None) cs end).
  { induction cs as [|c cs IH]; simpl; [constructor|].
    destruct (active_policy db (candidate_scope c)) as [r|] eqn:Hr.
    - exists [], c, cs, r. by split_and!.
    - destruct (first_active db cs) as [res|]; [|by constructor].
      destruct IH as (pre & c' & post & r & -> & ? & ? & ?). exists (c :: pre), c', post, r.
      split_and!; auto. }
  specialize (Hgen (candidates key route)).
  destruct (first_active db _) as [res|].
  - destruct Hgen as (pre & c & post & r & Hcs & Hr & Hpre & ->).
    destruct (Hact _ _ Hr) as [Hs Hv]. exists r. rewrite Hs. split; [done|]. split.
    { apply candidates_spec; [done|]. rewrite Hcs, Exists_app, Exists_cons. auto. }
    split; [done|]. intros r' Hr' Happ. destruct (Hact _ _ Hr') as [_ Hv'].
    apply candidates_spec in Happ; [|done]. rewrite Hcs, Exists_app, Exists_cons in Happ.
    unfold specificity. rewrite Hs. destruct Happ as [Hp|Hc].
    { apply list.Exists_exists in Hp as (c' & Hin & Hc').
      pose proof (proj1 (list.Forall_forall _ _) Hpre _ Hin) as Hnone. simpl in Hnone.
      rewrite Hc', Hr' in Hnone. done. }
    assert (Hsub : Exists (fun c => candidate_scope c = scope_of r') (c :: post)) by
      (apply Exists_cons; tauto).
    apply list.Exists_exists in Hsub as (c' & Hin & Hc'). rewrite <- Hc'.
    by apply (candidates_sorted key route pre c post).
  - intros r Hr Happ. destruct (Hact _ _ Hr) as [_ Hv]. apply candidates_spec in Happ; [|done].
    apply list.Exists_exists in Happ as (c & Hin & Hc).
    pose proof (proj1 (list.Forall_forall _ _) Hgen _ Hin) as Hnone. simpl in Hnone. congruence.
Qed.

Lemma resolve_mirrored key routeID w :
  synced w → db_ok w.(pg) → (∀ u, key = Some u → uuid_ok u) →
  TrimSpace routeID ∈ route_patterns →
  Resolve (NewResolver (Some (GetProjectedPolicy (D := world D)))) (mkResolveInput key routeID) (quiet w) =
    (Ok (first_active w.(pg) (candidates key (TrimSpace routeID))), quiet w).
Proof.
  intros Hs Hdb Hk Hr. unfold Resolve. cbn [NewResolver reader mbind option_bind RouteID APIKeyID].
  unfold isValidRouteID. rewrite bool_decide_eq_true_2.
  2: { unfold route_patterns in Hr. unfold validRoutePatterns. set_solver. }
  apply first_found_mirrored; auto. by apply candidates_ok.
Qed.

(** The policy in force for a request. *)
Record in_force (db : database) (key : option UUID) (route : string) (r : RateLimitPolicy) : Prop := {
  if_active : active_policy db (scope_of r) = Some r;
  if_applies : applies key route r;
  if_best : ∀ r', active_policy db (scope_of r') = Some r' → applies key route r' →
    specificity r' ≤ specificity r
}.

Definition resolution_of (r : RateLimitPolicy) : Resolution :=
  mkResolution (policyFromRecord r) (scope_of r).(sc_type) (scope_of r).(sc_id) (scope_of r).(sc_route).

(** Two applicable policies of the same specificity have the same scope. *)
Lemma in_force_unique db key route r r' :
  db_ok db → in_force db key route r → in_force db key route r' → r = r'.
Proof.
  intros Hdb [Ha Hap Hb] [Ha' Hap' Hb']. enough (scope_of r = scope_of r') by congruence.
  pose proof (Hb r' Ha' Hap') as H1. pose proof (Hb' r Ha Hap) as H2.
  assert (Hv : ∀ q, active_policy db (scope_of q) = Some q → row_valid q).
  { intros q (id & Hq & _)%active_policy_spec; [|done]. by eapply ok_row_valid. }
  apply Hv in Ha as [_ _ _ _ Hs]. apply Hv in Ha' as [_ _ _ _ Hs'].
  clear Hb Hb' Hv. destruct Hap as [Hi Hp], Hap' as [Hi' Hp'].
  destruct r as [id t [b v] p ? ? ? ? ? ?], r' as [id' t' [b' v'] p' ? ? ? ? ? ?].
  unfold specificity, scope_of, pointerUUID in *. simpl in *.
  destruct p, p'; simpl in *; inversion Hs; inversion Hs'; subst; simpl in *; try lia;
    f_equal; destruct_or?; congruence.
Qed.

Lemma first_active_in_force db key route r :
  db_ok db → in_force db key route r → first_active db (candidates key route) = Some (resolution_of r).
Proof.
  intros Hdb Hr. pose proof (first_active_best db key route Hdb) as Hf.
  destruct (first_active db _) as [res|].
  - destruct Hf as (r' & Ha & Hap & -> & Hb). f_equal.
    by rewrite (in_force_unique db key route r r').
  - by destruct (Hf r (if_active _ _ _ _ Hr) (if_applies _ _ _ _ Hr)).
Qed.

(** C6: the most specific active policy wins.  On a mirror the resolver
    succeeds without touching the store; it finds a policy exactly when some
    active policy of the database applies to the key and route, and then
    returns one that no other applicable active policy beats, where naming the
    key outweighs naming the route. *)
Theorem Resolve_most_specific key routeID w :
  synced w → db_ok w.(pg) → (∀ u, key = Some u → uuid_ok u) →
  TrimSpace routeID ∈ route_patterns →
  ∃ found,
    Resolve (NewResolver (Some (GetProjectedPolicy (D := world D)))) (mkResolveInput key routeID) (quiet w) =
      (Ok found, quiet w) ∧
    match found with
    | Some res => ∃ r, active_policy w.(pg) (scope_of r) = Some r ∧
        applies key (TrimSpace routeID) r ∧
        res = mkResolution (policyFromRecord r) (scope_of r).(sc_type) (scope_of r).(sc_id)
                (scope_of r).(sc_route) ∧
        ∀ r', active_policy w.(pg) (scope_of r') = Some r' → applies key (TrimSpace routeID) r' →
          specificity r' ≤ specificity r
    | None => ∀ r, active_policy w.(pg) (scope_of r) = Some r → ¬ applies key (TrimSpace routeID) r
    end.
Proof.
  intros Hs Hdb Hk Hr. exists (first_active w.(pg) (candidates key (TrimSpace routeID))).
  split; [by apply resolve_mirrored|by apply first_active_best].
Qed.
End Resolve.
