(* ===== verification/Auth.v ===== *)
(** * API keys: [internal/auth/service.go] and its Redis cache

    Keys live in the database under the hash of their raw form; the request path
    asks a cache first.  A failing cache is never an error: the code logs a
    warning and goes on (the log itself is not modelled). *)
From S2P Require Import Prelude GoBase Ids Text ApiKeys Redis Database Queries World Calendar Json JsonDecode.

Definition ErrAPIKeyNotFound : error := ErrorsNew "auth.ErrAPIKeyNotFound" "api key not found".
Definition ErrInvalidAPIKeyName : error :=
  ErrorsNew "auth.ErrInvalidAPIKeyName" "api key name is required".
Definition ErrInvalidRawAPIKey : error :=
  ErrorsNew "auth.ErrInvalidRawAPIKey" "raw api key is required".
Definition ErrUserNotFound : error := ErrorsNew "auth.ErrUserNotFound" "user not found".

Record APIKey := mkAPIKey {
  key_ID : UUID;
  key_UserID : option UUID;
  key_Name : string;
  key_KeyPrefix : string;
  key_IsActive : bool;
  key_CreatedAt : Time;
  key_LastUsedAt : option Time
}.

#[global] Instance APIKey_eq_dec : EqDecision APIKey.
Proof. solve_decision. Defined.

Record CreatedAPIKey := mkCreatedAPIKey { created_APIKey : APIKey; RawKey : string }.
Record CreateAPIKeyInput := mkCreateAPIKeyInput { new_Name : string; new_UserID : option UUID }.

Record APIKeyCache (W : Type) := mkAPIKeyCache {
  GetByHash : string → net W → result error (option APIKey) * net W;
  SetByHash : string → APIKey → net W → result error unit * net W;
  DeleteByHash : string → net W → result error unit * net W
}.
Arguments mkAPIKeyCache {W}.
Arguments GetByHash {W}.
Arguments SetByHash {W}.
Arguments DeleteByHash {W}.

Definition noopAPIKeyCache {W} : APIKeyCache W :=
  mkAPIKeyCache (fun _ n => (Ok None, n)) (fun _ _ n => (Ok (), n)) (fun _ n => (Ok (), n)).

Record APIKeyService (W : Type) := mkAPIKeyService { codec : APIKeyCodec; cache : APIKeyCache W }.
Arguments mkAPIKeyService {W}.
Arguments codec {W}.
Arguments cache {W}.

Definition NewAPIKeyService {W} (codec : APIKeyCodec) (cache : option (APIKeyCache W))
    : APIKeyService W :=
  mkAPIKeyService codec (match cache with None => noopAPIKeyCache | Some c => c end).

(** ** Conversions *)

Definition auth_nullableUUID (value : option UUID) : pgtype_UUID :=
  match value with
  | None => pg_null_UUID
  | Some id => mkPgUUID id true
  end.

Definition auth_pointerUUID (value : pgtype_UUID) : option UUID :=
  if negb value.(Valid) then None else Some value.(Bytes).

Definition auth_pointerTime (value : pgtype_Timestamptz) : option Time :=
  if negb value.(pg_TimeValid) then None else Some (time_UTC value.(pg_Time)).

Definition apiKeyFromRecord (record : ApiKey) : APIKey := {|
  key_ID := record.(ak_ID);
  key_UserID := auth_pointerUUID record.(ak_UserID);
  key_Name := record.(ak_Name);
  key_KeyPrefix := record.(ak_KeyPrefix);
  key_IsActive := record.(ak_IsActive);
  key_CreatedAt := time_UTC record.(ak_CreatedAt).(pg_Time);
  key_LastUsedAt := auth_pointerTime record.(ak_LastUsedAt)
|}.

Definition auth_translateWriteError (err : error) : error :=
  if bool_decide (errors_As_PgError err = Some "23503") then ErrUserNotFound else err.

(** ** The service *)

Section Service.
Context {D : Type}.
Implicit Types (s : APIKeyService (world D)) (n : net (world D)).

Definition CreateKey s (secret : entropy) (input : CreateAPIKeyInput) n
    : result error CreatedAPIKey * net (world D) :=
  let name := TrimSpace input.(new_Name) in
  if bool_decide (name = EmptyString) then (Err ErrInvalidAPIKeyName, n)
  else
    match Generate secret with
    | Err err => (Err (Wrapf "generate api key" err), n)
    | Ok (rawKey, keyPrefix) =>
        let keyHash := Hash s.(codec) rawKey in
        let '(r, n) := sql (CreateAPIKey
          (mkCreateAPIKeyParams (auth_nullableUUID input.(new_UserID)) name keyPrefix keyHash)) n in
        match r with
        | Err err => (Err (auth_translateWriteError err), n)
        | Ok record =>
            let apiKey := apiKeyFromRecord record in
            let '(_, n) := s.(cache).(SetByHash) keyHash apiKey n in
            (Ok (mkCreatedAPIKey apiKey rawKey), n)
        end
    end.

Definition ListKeys (s : APIKeyService (world D)) n : result error (list APIKey) * net (world D) :=
  let '(r, n) := sql ListAPIKeys n in
  (let? records := wrap_err "list api keys" r in Ok (map apiKeyFromRecord records), n).

Definition DeactivateKey s (id : UUID) n : result error APIKey * net (world D) :=
  let '(r, n) := sql (GetAPIKeyByID id) n in
  match r with
  | Err err =>
      (Err (if errors_Is err pgx_ErrNoRows then ErrAPIKeyNotFound else Wrapf "get api key" err), n)
  | Ok existing =>
      let '(r, n) := sql (DeactivateAPIKey id) n in
      match r with
      | Err err => (Err (Wrapf "deactivate api key" err), n)
      | Ok record =>
          let apiKey := apiKeyFromRecord record in
          let '(_, n) := s.(cache).(DeleteByHash) existing.(ak_KeyHash) n in
          (Ok apiKey, n)
      end
  end.

Definition ResolveActiveByRawKey s (rawKey : string) n : result error APIKey * net (world D) :=
  let rawKey := TrimSpace rawKey in
  if bool_decide (rawKey = EmptyString) then (Err ErrInvalidRawAPIKey, n)
  else
    let keyHash := Hash s.(codec) rawKey in
    let '(r, n) := s.(cache).(GetByHash) keyHash n in
    match r with
    | Ok (Some cached) => (Ok cached, n)
    | _ =>
        let '(r, n) := sql (GetAPIKeyByHash keyHash) n in
        match r with
        | Err err =>
            (Err (if errors_Is err pgx_ErrNoRows then ErrAPIKeyNotFound
                  else Wrapf "resolve api key" err), n)
        | Ok record =>
            let apiKey := apiKeyFromRecord record in
            let '(_, n) := s.(cache).(SetByHash) keyHash apiKey n in
            (Ok apiKey, n)
        end
    end.
End Service.

(** ** A key as JSON

    [json.Marshal] and [json.Unmarshal] on the [APIKey] struct. *)
Section KeyJson.
Context `{UuidText}.

Definition encode_time_pointer (t : option Time) : result error json :=
  match t with None => Ok JNull | Some t => encode_time t end.

Definition api_key_json (k : APIKey) : result error json :=
  let? created := encode_time k.(key_CreatedAt) in
  let? last := encode_time_pointer k.(key_LastUsedAt) in
  Ok (JObj [("ID", encode_uuid k.(key_ID));
            ("UserID", encode_pointer encode_uuid k.(key_UserID));
            ("Name", JStr k.(key_Name));
            ("KeyPrefix", JStr k.(key_KeyPrefix));
            ("IsActive", JBool k.(key_IsActive));
            ("CreatedAt", created);
            ("LastUsedAt", last)]).

Definition zero_APIKey : APIKey := mkAPIKey 0 None EmptyString EmptyString false zero_Time None.

Definition set_key_field (name : string) (v : jval) (k : APIKey) : option APIKey :=
  let 'mkAPIKey id user nm prefix active created last := k in
  if bool_decide (name = "ID") then
    x ← decode_uuid id v; Some (mkAPIKey x user nm prefix active created last)
  else if bool_decide (name = "USERID") then
    x ← decode_pointer 0 decode_uuid user v; Some (mkAPIKey id x nm prefix active created last)
  else if bool_decide (name = "NAME") then
    x ← decode_string nm v; Some (mkAPIKey id user x prefix active created last)
  else if bool_decide (name = "KEYPREFIX") then
    x ← decode_string prefix v; Some (mkAPIKey id user nm x active created last)
  else if bool_decide (name = "ISACTIVE") then
    x ← decode_bool active v; Some (mkAPIKey id user nm prefix x created last)
  else if bool_decide (name = "CREATEDAT") then
    x ← decode_time created v; Some (mkAPIKey id user nm prefix active x last)
  else if bool_decide (name = "LASTUSEDAT") then
    x ← decode_pointer zero_Time decode_time last v; Some (mkAPIKey id user nm prefix active created x)
  else Some k.

#[export] Instance api_key_codec : JsonCodec APIKey := {
  Marshal k := let? j := api_key_json k in Ok (json_text j);
  Unmarshal := unmarshal zero_APIKey set_key_field
}.
End KeyJson.

(** ** [internal/redisstate/apikey_cache.go] *)

Definition authCacheKey (keyHash : string) : string := "apikey:by_hash:" +:+ keyHash.

Section Cache.
Context {D : Type} `{RedisServer D} `{UuidText}.

(** A plain [SET] with the expiry, or [DEL]. *)
Definition cache_GetByHash (keyHash : string) (n : net D) : result error (option APIKey) * net D :=
  let '(r, n) := redis_Get (authCacheKey keyHash) n in
  (match r with
   | Err err => if bool_decide (err = redis_Nil) then Ok None else Err err
   | Ok payload => let? apiKey := Unmarshal payload in Ok (Some apiKey)
   end, n).

Definition cache_SetByHash (ttl : Duration) (keyHash : string) (apiKey : APIKey) (n : net D)
    : result error unit * net D :=
  match Marshal apiKey with
  | Err err => (Err err, n)
  | Ok payload => command [SetStr (authCacheKey keyHash) payload ttl] n
  end.

Definition cache_DeleteByHash (keyHash : string) (n : net D) : result error unit * net D :=
  command [DelKeys [authCacheKey keyHash]] n.

Definition NewAPIKeyAuthCache (ttl : Duration) : APIKeyCache D :=
  mkAPIKeyCache cache_GetByHash (cache_SetByHash ttl) cache_DeleteByHash.
End Cache.
