(* ===== verification/AuthSpec.v ===== *)
(** * Key resolution and its cache

    A cached key reads back; then what resolution promises on such a cache. *)
From stdpp Require Import relations.
From S2P Require Import Prelude GoBase Redis Ids Text Json Calendar JsonDecode JsonRoundTrip.
From S2P Require Import JsonRecords ApiKeys Database Queries DatabaseSpec World Auth.

(** The keys JSON has to carry: those of valid rows. *)
Record key_json_ok (k : APIKey) : Prop := {
  kj_id : uuid_ok k.(key_ID);
  kj_user : ∀ u, k.(key_UserID) = Some u → uuid_ok u;
  kj_name : ValidString k.(key_Name) = true;
  kj_prefix : ValidString k.(key_KeyPrefix) = true;
  kj_created : json_time k.(key_CreatedAt);
  kj_last : ∀ t, k.(key_LastUsedAt) = Some t → json_time t
}.

Section KeyJson.
Context `{UL : UuidLaws}.

Ltac member field :=
  eapply decode_member;
  [reflexivity|unfold set_key_field, zero_APIKey; decide_names; field; reflexivity|].

Lemma key_round_trip k : key_json_ok k → ∃ s, Marshal k = Ok s ∧ Unmarshal s = Ok k.
Proof.
  intros [Hid Huser Hname Hprefix Hcr Hlast].
  destruct k as [id user name prefix active created last]; cbn in *.
  destruct (field_time zero_Time created Hcr) as (sc & Hsc & Hrc).
  assert (∃ j, encode_time_pointer last = Ok j ∧
               decode_pointer zero_Time decode_time None (to_val j) = Some last ∧
               jdepth j = 0) as (jl & Hjl & Hrl & Hdl).
  { destruct last as [t|]; [|by exists JNull].
    destruct (field_time zero_Time t (Hlast t eq_refl)) as (sl & Hsl & Hrl). exists (JStr sl).
    split; [done|]. split; [|done]. unfold decode_pointer. cbn [default]. cbn [to_val] in *. by rewrite Hrl. }
  unfold api_key_json; cbn. rewrite Hsc, Hjl. cbn [res_bind]. eexists. split; [done|].
  apply unmarshal_object.
  { cbn [jdepth foldr snd]. rewrite Hdl. by destruct user. }
  cbn [map fst snd].
  member ltac:(rewrite field_uuid by done).
  member ltac:(rewrite field_pointer by (intros u ->; split; [apply field_uuid, Huser|]; done)).
  do 2 member ltac:(rewrite field_string by done).
  member idtac.
  member ltac:(rewrite Hrc).
  member ltac:(rewrite Hrl).
  done.
Qed.

#[export] Instance key_codec_laws : JsonLaws APIKey key_json_ok.
Proof. intros k Hk. by apply key_round_trip. Qed.
End KeyJson.

(** * What key resolution promises

    While the cache only holds keys the database has active, resolving a raw key
    is the database's own lookup; the service keeps it that way one call at a
    time.  Two calls that overlap can leave a deactivated key in the cache, and
    then its time to live is the bound. *)

Lemma row_key_json db id r :
  db_ok db → db.(api_keys) !! id = Some r → key_json_ok (apiKeyFromRecord r).
Proof.
  intros Hdb Hr. destruct (ok_api_keys db Hdb id r Hr) as [Hid Hu Husr Hn Hp [_ Hc] Hl].
  split; simpl; auto.
  - by rewrite Hid.
  - intros u Hu'. unfold references, auth_pointerUUID in *.
    destruct (ak_UserID r) as [b []]; simpl in *; [|done]. injection Hu' as ->.
    apply bool_decide_eq_true_1 in Husr as [usr Husr]. apply (ok_users db Hdb u usr Husr).
  - intros t. unfold auth_pointerTime. destruct (ak_LastUsedAt r) as [t' []]; simpl in *; [|done].
    intros [= <-]. auto.
Qed.

(** The active key with a hash. *)
Definition active_key (db : database) (h : string) : option ApiKey :=
  match (GetAPIKeyByHash h db).1 with Ok r => Some r | Err _ => None end.

Lemma active_key_spec db h r :
  db_ok db →
  active_key db h = Some r ↔
  ∃ id, db.(api_keys) !! id = Some r ∧ r.(ak_KeyHash) = h ∧ r.(ak_IsActive) = true.
Proof.
  intros Hdb. unfold active_key, GetAPIKeyByHash. simpl. set (l := filter _ _).
  assert (Hin : ∀ r', r' ∈ l ↔
    ∃ id, db.(api_keys) !! id = Some r' ∧ r'.(ak_KeyHash) = h ∧ r'.(ak_IsActive) = true).
  { intros r'. unfold l. rewrite list_elem_of_filter, elem_of_rows. naive_solver. }
  assert (Huniq : ∀ r1 r2, r1 ∈ l → r2 ∈ l → r1 = r2).
  { intros r1 r2 (id1 & H1 & Hh1 & _)%Hin (id2 & H2 & Hh2 & _)%Hin.
    assert (id1 = id2) as -> by (apply (ok_hashes db Hdb id1 id2 r1 r2 H1 H2); congruence).
    congruence. }
  rewrite <- Hin. destruct l as [|r0 l]; simpl.
  - split; [done|]. intros Hx. by apply not_elem_of_nil in Hx.
  - split; [intros [= <-]; by left|]. intros Hr. f_equal. apply Huniq; [by left|done].
Qed.

Section Auth.
Context {D : Type} `{RL : RedisLaws D}.
Context `{UL : UuidLaws}.
Context (c : APIKeyCodec) (ttl : Duration).
Implicit Types (w : world D).

Definition key_service : APIKeyService (world D) := NewAPIKeyService c (Some (NewAPIKeyAuthCache ttl)).

(** The cache holds nothing but active keys, as they are. *)
Definition coherent w : Prop :=
  ∀ h payload, string_view w.(redis) (authCacheKey h) = Some payload →
    ∃ r, active_key w.(pg) h = Some r ∧ Unmarshal payload = Ok (apiKeyFromRecord r).

Lemma authCacheKey_inj h h' : authCacheKey h = authCacheKey h' → h = h'.
Proof. apply (inj (String.append "apikey:by_hash:")). Qed.

(** The verdict of the database on a raw key. *)
Definition verdict (db : database) (rawKey : string) : result error APIKey :=
  if bool_decide (TrimSpace rawKey = EmptyString) then Err ErrInvalidRawAPIKey
  else
    match active_key db (Hash c (TrimSpace rawKey)) with
    | Some r => Ok (apiKeyFromRecord r)
    | None => Err ErrAPIKeyNotFound
    end.

(** ** Effects on the cache, on a quiet connection *)

Lemma marshal_key db h r :
  db_ok db → active_key db h = Some r →
  ∃ payload, Marshal (apiKeyFromRecord r) = Ok payload ∧
    Unmarshal payload = Ok (apiKeyFromRecord r).
Proof.
  intros Hdb Hr. apply active_key_spec in Hr as (id & Hr & _); [|done].
  apply json_round_trip. by eapply row_key_json.
Qed.

Lemma get_quiet h w :
  cache_GetByHash h (quiet w) =
  (match string_view w.(redis) (authCacheKey h) with
   | None => Ok None
   | Some payload => let? k := Unmarshal payload in Ok (Some k)
   end, quiet w).
Proof.
  unfold cache_GetByHash, redis_Get. rewrite query_quiet. cbn [res_bind].
  change (string_view w _) with (string_view w.(redis) (authCacheKey h)).
  destruct (string_view _ _); cbn [res_bind]; [done|]. by rewrite bool_decide_eq_true_2.
Qed.

Lemma set_quiet h k payload w :
  Marshal k = Ok payload →
  cache_SetByHash ttl h k (quiet w) =
  (Ok (), quiet (mkWorld (run_cmd (SetStr (authCacheKey h) payload ttl) w.(redis)) w.(pg))).
Proof. intros Hm. unfold cache_SetByHash. rewrite Hm. apply (command_quiet [_] w). Qed.

Lemma string_after_cache_set h payload d h' :
  string_view (run_cmd (SetStr (authCacheKey h) payload ttl) d) (authCacheKey h') =
  if bool_decide (h' = h) then Some payload else string_view d (authCacheKey h').
Proof.
  case_bool_decide as Hk; [subst; apply run_set|].
  destruct (run_frame (SetStr (authCacheKey h) payload ttl) d (authCacheKey h')) as ([] & _); [|done].
  apply not_in_one. intros Heq. by apply Hk, authCacheKey_inj.
Qed.

Lemma string_after_cache_del h d h' :
  string_view (run_cmd (DelKeys [authCacheKey h]) d) (authCacheKey h') =
  if bool_decide (h' = h) then None else string_view d (authCacheKey h').
Proof.
  case_bool_decide as Hk; [subst; apply run_del; by left|].
  destruct (run_frame (DelKeys [authCacheKey h]) d (authCacheKey h')) as ([] & _); [|done].
  apply not_in_one. intros Heq. by apply Hk, authCacheKey_inj.
Qed.

(** A key of a valid database put in the cache, as JSON and over whatever it
    held, is what the next lookup of its hash decodes: every field of the row,
    its nullable ones and its timestamps. *)
Theorem cached_key_reads_back db id r w :
  db_ok db → db.(api_keys) !! id = Some r →
  let k := apiKeyFromRecord r in
  ∃ w', cache_SetByHash ttl r.(ak_KeyHash) k (quiet w) = (Ok (), quiet w') ∧ w'.(pg) = w.(pg) ∧
    cache_GetByHash r.(ak_KeyHash) (quiet w') = (Ok (Some k), quiet w').
Proof.
  intros Hdb Hr k. destruct (json_round_trip k (row_key_json db id r Hdb Hr)) as (payload & Hm & Hu).
  eexists. split; [by apply set_quiet|]. split; [done|]. rewrite get_quiet. cbn [redis].
  rewrite string_after_cache_set, bool_decide_eq_true_2 by done. by rewrite Hu.
Qed.

(** Storing an active key keeps the cache coherent. *)
Lemma coherent_set w h r payload :
  coherent w → active_key w.(pg) h = Some r → Unmarshal payload = Ok (apiKeyFromRecord r) →
  coherent (mkWorld (run_cmd (SetStr (authCacheKey h) payload ttl) w.(redis)) w.(pg)).
Proof.
  intros Hc Hr Hu h' payload'. cbn [redis pg]. rewrite string_after_cache_set.
  case_bool_decide as Hk; [intros [= <-]; subst; eauto|apply Hc].
Qed.

(** Nothing changed but the cache. *)
Definition cache_only w w' : Prop :=
  ∀ k, (∀ h, k ≠ authCacheKey h) → same_key k w.(redis) w'.(redis).

Lemma cache_only_refl w : cache_only w w.
Proof. intros k _. reflexivity. Qed.

Lemma cache_only_set w h payload db :
  cache_only w (mkWorld (run_cmd (SetStr (authCacheKey h) payload ttl) w.(redis)) db).
Proof. intros k Hk. apply run_frame. apply not_in_one. intros Heq. by apply (Hk h). Qed.

Lemma resolve_quiet rawKey w :
  coherent w → db_ok w.(pg) →
  ∃ w', ResolveActiveByRawKey key_service rawKey (quiet w) = (verdict w.(pg) rawKey, quiet w') ∧
    coherent w' ∧ w'.(pg) = w.(pg) ∧ cache_only w w'.
Proof.
  intros Hc Hdb. unfold ResolveActiveByRawKey, verdict.
  case_bool_decide; [exists w; auto using cache_only_refl|]. set (h := Hash c (TrimSpace rawKey)).
  change (Hash (codec key_service) _) with h.
  change (GetByHash (cache key_service)) with (cache_GetByHash (D := world D)).
  change (SetByHash (cache key_service)) with (cache_SetByHash (D := world D) ttl).
  rewrite get_quiet. destruct (string_view w.(redis) (authCacheKey h)) as [payload|] eqn:Hp.
  { destruct (Hc h payload Hp) as (r & Hr & Hu). rewrite Hu, Hr. cbn [res_bind].
    exists w. auto using cache_only_refl. }
  rewrite sql_quiet. replace (mkWorld w.(redis) (GetAPIKeyByHash h w.(pg)).2) with w by (by destruct w).
  destruct (active_key w.(pg) h) as [r|] eqn:Hr.
  - unfold active_key in Hr. destruct ((GetAPIKeyByHash h w.(pg)).1) as [r'|e] eqn:Hq; [|done].
    injection Hr as ->. assert (Hr : active_key w.(pg) h = Some r) by (unfold active_key; by rewrite Hq).
    destruct (marshal_key _ _ _ Hdb Hr) as (payload & Hm & Hu).
    rewrite (set_quiet _ _ payload) by done. eexists. split; [done|].
    split; [by apply (coherent_set w h r)|]. split; [done|apply cache_only_set].
  - unfold active_key, GetAPIKeyByHash, one_row in *. cbn [fst] in *.
    destruct (head _); [done|]. exists w. auto using cache_only_refl.
Qed.

Lemma active_key_put db r h :
  db_ok db → db_ok (put_api_key r db) →
  active_key (put_api_key r db) h =
    if bool_decide (r.(ak_KeyHash) = h ∧ r.(ak_IsActive) = true) then Some r
    else match active_key db h with
         | Some q => if bool_decide (q.(ak_ID) = r.(ak_ID)) then None else Some q
         | None => None
         end.
Proof.
  intros Hdb Hdb'. case_bool_decide as Hnew.
  { apply active_key_spec; [done|]. exists r.(ak_ID). split; [apply lookup_insert_eq|done]. }
  assert (Hold : ∀ q, active_key (put_api_key r db) h = Some q ↔
    active_key db h = Some q ∧ q.(ak_ID) ≠ r.(ak_ID)).
  { intros q. rewrite !active_key_spec by done. split.
    - intros (id & Hq & Hh & Ha). simpl in Hq. apply lookup_insert_Some in Hq as [[<- <-]|[Hne Hq]].
      { by destruct Hnew. }
      split; [eauto|]. by rewrite (kr_id _ _ _ (ok_api_keys _ Hdb _ _ Hq)).
    - intros ((id & Hq & Hh & Ha) & Hne). exists id. split; [|done]. simpl.
      rewrite lookup_insert_ne; [done|]. by rewrite <- (kr_id _ _ _ (ok_api_keys _ Hdb _ _ Hq)). }
  destruct (active_key db h) as [q|].
  - case_bool_decide as Hid; [|by apply Hold].
    destruct (active_key (put_api_key r db) h) as [q'|]; [|done].
    destruct (proj1 (Hold q') eq_refl) as [[= <-] ?]. done.
  - destruct (active_key (put_api_key r db) h) as [q'|]; [|done].
    by destruct (proj1 (Hold q') eq_refl) as [? _].
Qed.

Lemma coherent_same w db :
  coherent w → db.(api_keys) = w.(pg).(api_keys) → coherent (mkWorld w.(redis) db).
Proof.
  intros Hc Heq h payload Hp. destruct (Hc h payload Hp) as (r & Hr & Hu). exists r.
  unfold active_key, GetAPIKeyByHash in *. cbn [pg]. by rewrite Heq.
Qed.

(** A new key, active or not, leaves what the cache holds true. *)
Lemma coherent_added w row :
  coherent w → db_ok w.(pg) → db_ok (put_api_key row (draw w.(pg))) →
  ¬ (is_Some (w.(pg).(api_keys) !! row.(ak_ID)) ∨
     ¬ map_Forall (fun _ r => r.(ak_KeyHash) ≠ row.(ak_KeyHash)) w.(pg).(api_keys)) →
  coherent (mkWorld w.(redis) (put_api_key row (draw w.(pg)))).
Proof.
  intros Hc Hdb Hdb' Hfree h p Hp. destruct (Hc h p Hp) as (q & Hq & Huq). exists q. split; [|done]. cbn [pg].
  rewrite active_key_put by auto using draw_ok.
  change (active_key (draw w.(pg)) h) with (active_key w.(pg) h). rewrite Hq.
  apply active_key_spec in Hq as (id & Hlq & Hhq & _); [|done].
  rewrite bool_decide_eq_false_2.
  2: { intros [Hh _]. apply Hfree. right. intros Hall. by apply (Hall id q Hlq); rewrite Hhq. }
  rewrite bool_decide_eq_false_2; [done|]. intros Hid. apply Hfree. left.
  rewrite <- Hid, (kr_id _ _ _ (ok_api_keys _ Hdb _ _ Hlq)). eauto.
Qed.

Lemma create_keeps secret input w r n' :
  coherent w → db_ok w.(pg) → CreateKey key_service secret input (quiet w) = (r, n') →
  ∃ w', n' = quiet w' ∧ coherent w' ∧ db_ok w'.(pg).
Proof.
  intros Hc Hdb. unfold CreateKey. case_bool_decide; [intros [= _ <-]; eauto|].
  destruct (Generate secret) as [[raw pre]|e]; [|intros [= _ <-]; eauto].
  rewrite sql_quiet. set (arg := mkCreateAPIKeyParams _ _ _ _).
  pose proof (CreateAPIKey_ok arg w.(pg) Hdb) as Hdb'.
  unfold CreateAPIKey in *. set (row := mkApiKey _ _ _ _ _ _ _ _) in *.
  destruct (_ || _); cbn [fst snd] in *.
  { intros [= _ <-]. eexists. split; [done|]. split; [by apply coherent_same|done]. }
  case_bool_decide as Hfree; cbn [fst snd] in *.
  { intros [= _ <-]. eexists. split; [done|]. split; [by apply coherent_same|done]. }
  destruct (references _ _); cbn [fst snd] in *.
  2: { intros [= _ <-]. eexists. split; [done|]. split; [by apply coherent_same|done]. }
  assert (Hnew : active_key (put_api_key row (draw w.(pg))) row.(ak_KeyHash) = Some row).
  { apply active_key_spec; [done|]. exists row.(ak_ID). split; [apply lookup_insert_eq|done]. }
  destruct (marshal_key _ _ _ Hdb' Hnew) as (payload & Hm & Hu).
  change (SetByHash (cache key_service)) with (cache_SetByHash (D := world D) ttl).
  rewrite (set_quiet _ _ payload) by done. intros [= _ <-]. eexists. split; [done|]. split; [|done].
  apply (coherent_set (mkWorld w.(redis) (put_api_key row (draw w.(pg)))) _ row); [|done|done].
  by apply coherent_added.
Qed.

(** A deactivated key is out of the database and of the cache. *)
Lemma deactivate_quiet id r w :
  db_ok w.(pg) → w.(pg).(api_keys) !! id = Some r →
  let r' := with_active false r in
  DeactivateKey key_service id (quiet w) =
    (Ok (apiKeyFromRecord r'),
     quiet (mkWorld (run_cmd (DelKeys [authCacheKey r.(ak_KeyHash)]) w.(redis))
              (put_api_key r' w.(pg)))).
Proof.
  intros Hdb Hr r'. unfold DeactivateKey. rewrite sql_quiet. cbn [GetAPIKeyByID fst snd].
  replace (mkWorld w.(redis) w.(pg)) with w by (by destruct w). rewrite Hr. cbn [one_row].
  rewrite sql_quiet. unfold DeactivateAPIKey, update_api_key. rewrite Hr. cbn [fst snd].
  change (DeleteByHash (cache key_service)) with (cache_DeleteByHash (D := world D)).
  unfold cache_DeleteByHash. by rewrite command_quiet.
Qed.

Lemma put_inactive_ok db id r :
  db_ok db → db.(api_keys) !! id = Some r → db_ok (put_api_key (with_active false r) db).
Proof.
  intros Hdb Hr. assert (Hstep : db_ok (DeactivateAPIKey id db).2) by
    (apply (db_step_ok db); [done|constructor]).
  unfold DeactivateAPIKey, update_api_key in Hstep. by rewrite Hr in Hstep.
Qed.

Lemma deactivate_coherent w id r :
  coherent w → db_ok w.(pg) → w.(pg).(api_keys) !! id = Some r →
  coherent (mkWorld (run_cmd (DelKeys [authCacheKey r.(ak_KeyHash)]) w.(redis))
              (put_api_key (with_active false r) w.(pg))).
Proof.
  intros Hc Hdb Hr h payload. cbn [redis pg]. rewrite string_after_cache_del.
  case_bool_decide as Hh; [done|]. intros Hp. destruct (Hc h payload Hp) as (q & Hq & Hu).
  exists q. split; [|done]. rewrite active_key_put by eauto using put_inactive_ok.
  rewrite bool_decide_eq_false_2 by (by intros []). rewrite Hq.
  apply active_key_spec in Hq as (idq & Hlq & Hhq & _); [|done].
  rewrite bool_decide_eq_false_2; [done|]. simpl. intros Hid.
  pose proof (kr_id _ _ _ (ok_api_keys _ Hdb _ _ Hlq)). pose proof (kr_id _ _ _ (ok_api_keys _ Hdb _ _ Hr)).
  congruence.
Qed.

(** ** Runs of the service *)

Inductive key_op :=
| KeyCreate (secret : entropy) (input : CreateAPIKeyInput)
| KeyDeactivate (id : UUID)
| KeyResolve (rawKey : string).

Definition run_key_op (op : key_op) (n : net (world D)) : net (world D) :=
  match op with
  | KeyCreate secret input => (CreateKey key_service secret input n).2
  | KeyDeactivate id => (DeactivateKey key_service id n).2
  | KeyResolve rawKey => (ResolveActiveByRawKey key_service rawKey n).2
  end.

(** One call, or the passing of time. *)
Inductive key_step : world D → world D → Prop :=
| key_step_op w op w' : run_key_op op (quiet w) = quiet w' → key_step w w'
| key_step_expire w d' : (∀ k, string_view d' k = string_view w.(redis) k ∨ string_view d' k = None) →
    key_step w (mkWorld d' w.(pg)).

Lemma key_step_keeps w w' :
  key_step w w' → coherent w → db_ok w.(pg) → coherent w' ∧ db_ok w'.(pg).
Proof.
  intros Hs Hc Hdb. destruct Hs as [w op w' Hop|w d' Hd'].
  2: { split; [|done]. intros h payload Hp. cbn [redis pg] in *.
       destruct (Hd' (authCacheKey h)) as [Heq|Heq]; rewrite Heq in Hp; [eauto|done]. }
  enough (∃ w2, quiet w' = quiet w2 ∧ coherent w2 ∧ db_ok w2.(pg)) as (? & [= <-] & ? & ?) by auto.
  rewrite <- Hop. destruct op as [secret input|id|rawKey]; simpl.
  - destruct (CreateKey _ _ _ _) as [r n'] eqn:Hr. by eapply create_keeps.
  - destruct (api_keys w.(pg) !! id) as [r|] eqn:Hr.
    + rewrite (deactivate_quiet id r) by done. eexists. split; [done|].
      split; [by eapply deactivate_coherent|by eapply put_inactive_ok].
    + exists w. split; [|done]. unfold DeactivateKey. rewrite sql_quiet. cbn [GetAPIKeyByID fst snd].
      replace (mkWorld w.(redis) w.(pg)) with w by (by destruct w). by rewrite Hr.
  - destruct (resolve_quiet rawKey w Hc Hdb) as (w1 & Hr & Hc1 & Hpg & _). rewrite Hr. cbn [snd].
    exists w1. rewrite Hpg. done.
Qed.

(** C29: resolution is the database's lookup.  After any run of creations,
    deactivations and resolutions, one at a time, with entries of the cache
    expiring whenever they like, resolving a raw key returns exactly the active
    key of the database with its hash, and [ErrAPIKeyNotFound] when there is
    none: the cache is invisible and a deactivation takes effect at once. *)
Theorem Resolve_is_lookup rawKey w w' :
  coherent w → db_ok w.(pg) → rtc key_step w w' →
  ∃ w'', ResolveActiveByRawKey key_service rawKey (quiet w') = (verdict w'.(pg) rawKey, quiet w'') ∧
    w''.(pg) = w'.(pg).
Proof.
  intros Hc Hdb Hrun. revert Hc Hdb. induction Hrun as [w|w w1 w' Hstep _ IH]; intros Hc Hdb.
  - destruct (resolve_quiet rawKey w Hc Hdb) as (w'' & ? & _ & ? & _). eauto.
  - apply key_step_keeps in Hstep as [? ?]; auto.
Qed.

(** ** Overlapping calls *)

(** A resolution that misses the cache, reads the key, and is overtaken by its
    deactivation before it fills the cache. *)
Definition overtaken (id : UUID) (w : world D) : net (world D) :=
  mkNet w [mkRound (fun w => w) Delivered; mkRound (fun w => w) Delivered;
           mkRound (fun w => (DeactivateKey key_service id (quiet w)).2.(server)) Delivered].

Lemma deactivated_verdict id r rawKey w :
  db_ok w.(pg) → w.(pg).(api_keys) !! id = Some r →
  r.(ak_KeyHash) = Hash c (TrimSpace rawKey) → TrimSpace rawKey ≠ EmptyString →
  verdict (put_api_key (with_active false r) w.(pg)) rawKey = Err ErrAPIKeyNotFound.
Proof.
  intros Hdb Hr Hh Hraw. unfold verdict. rewrite bool_decide_eq_false_2 by done.
  rewrite active_key_put by eauto using put_inactive_ok.
  rewrite bool_decide_eq_false_2 by (by intros []).
  destruct (active_key w.(pg) _) as [q|] eqn:Hq; [|done].
  apply active_key_spec in Hq as (idq & Hlq & Hhq & _); [|done].
  assert (idq = id) as -> by (apply (ok_hashes _ Hdb idq id q r); congruence).
  rewrite bool_decide_eq_true_2; [done|]. simpl.
  rewrite (kr_id _ _ _ (ok_api_keys _ Hdb _ _ Hlq)). by rewrite (kr_id _ _ _ (ok_api_keys _ Hdb _ _ Hr)).
Qed.

Lemma overtaken_run id r rawKey payload w :
  let h := Hash c (TrimSpace rawKey) in
  db_ok w.(pg) → w.(pg).(api_keys) !! id = Some r → r.(ak_IsActive) = true → r.(ak_KeyHash) = h →
  TrimSpace rawKey ≠ EmptyString → string_view w.(redis) (authCacheKey h) = None →
  Marshal (apiKeyFromRecord r) = Ok payload →
  ∃ d, ResolveActiveByRawKey key_service rawKey (overtaken id w) =
    (Ok (apiKeyFromRecord r),
     quiet (mkWorld (run_cmd (SetStr (authCacheKey h) payload ttl) d)
              (put_api_key (with_active false r) w.(pg)))).
Proof.
  intros h Hdb Hr Ha Hh Hraw Hmiss Hm.
  assert (Hact : active_key w.(pg) h = Some r) by (apply active_key_spec; eauto).
  exists (run_cmd (DelKeys [authCacheKey r.(ak_KeyHash)]) w.(redis)).
  unfold ResolveActiveByRawKey. rewrite bool_decide_eq_false_2 by done.
  change (Hash (codec key_service) _) with h.
  change (GetByHash (cache key_service)) with (cache_GetByHash (D := world D)).
  change (SetByHash (cache key_service)) with (cache_SetByHash (D := world D) ttl).
  unfold cache_GetByHash, redis_Get, query, call, overtaken. cbn [rounds outcome others server].
  change (string_view w (authCacheKey h)) with (string_view w.(redis) (authCacheKey h)).
  rewrite Hmiss. cbn [res_bind]. rewrite bool_decide_eq_true_2 by done.
  unfold sql, call. cbn [rounds outcome others server].
  unfold active_key in Hact. destruct (GetAPIKeyByHash h w.(pg)) as [[r0|e] db0] eqn:Hq; [|done].
  cbn [fst] in Hact. injection Hact as ->.
  assert (db0 = w.(pg)) as -> by (unfold GetAPIKeyByHash in Hq; congruence).
  cbn [res_bind]. unfold cache_SetByHash. rewrite Hm. unfold command, call.
  cbn [rounds outcome others server]. replace (mkWorld w.(redis) w.(pg)) with w by (by destruct w).
  rewrite (deactivate_quiet id r) by done. cbn [snd server quiet].
  by rewrite exec_world.
Qed.

(** C39: a deactivated key can outlive its deactivation, but not the cache's time
    to live.  When a key is deactivated between the moment a resolution reads
    it and the moment that resolution fills the cache, the deactivation
    succeeds and yet the key is still accepted by the calls that follow; once
    the cache's time to live has passed, it is rejected. *)
Theorem deactivation_overtaken id r rawKey w :
  let h := Hash c (TrimSpace rawKey) in
  db_ok w.(pg) → w.(pg).(api_keys) !! id = Some r → r.(ak_IsActive) = true → r.(ak_KeyHash) = h →
  TrimSpace rawKey ≠ EmptyString → string_view w.(redis) (authCacheKey h) = None →
  Millisecond ≤ ttl →
  ∃ w1, ResolveActiveByRawKey key_service rawKey (overtaken id w) = (Ok (apiKeyFromRecord r), quiet w1) ∧
    verdict w1.(pg) rawKey = Err ErrAPIKeyNotFound ∧
    (ResolveActiveByRawKey key_service rawKey (quiet w1)).1 = Ok (apiKeyFromRecord r) ∧
    ∀ t, ttl ≤ t →
      (ResolveActiveByRawKey key_service rawKey (quiet (elapse t w1))).1 = Err ErrAPIKeyNotFound.
Proof.
  intros h Hdb Hr Ha Hh Hraw Hmiss Httl.
  destruct (json_round_trip _ (row_key_json _ _ _ Hdb Hr)) as (payload & Hm & Hu).
  destruct (overtaken_run id r rawKey payload w) as [d Hrun]; auto. fold h in Hrun.
  pose proof (deactivated_verdict id r rawKey w Hdb Hr Hh Hraw) as Hv.
  eexists. split; [exact Hrun|]. split; [exact Hv|].
  unfold verdict in Hv. rewrite bool_decide_eq_false_2 in Hv by done. fold h in Hv.
  assert (Hnone : active_key (put_api_key (with_active false r) w.(pg)) h = None) by
    (destruct (active_key _ h); [done|done]).
  unfold ResolveActiveByRawKey. rewrite (bool_decide_eq_false_2 (TrimSpace rawKey = _)) by done.
  change (Hash (codec key_service) _) with h.
  change (GetByHash (cache key_service)) with (cache_GetByHash (D := world D)). split.
  - rewrite get_quiet. cbn [redis]. rewrite string_after_cache_set, bool_decide_eq_true_2 by done.
    by rewrite Hu.
  - intros t Ht. rewrite get_quiet. cbn [elapse redis world_server].
    destruct (run_set (authCacheKey h) payload ttl d) as (_ & _ & _ & Hexp).
    destruct (Hexp Httl) as (p & Hp & Hpt).
    destruct (elapse_gone t _ (authCacheKey h) p Hp ltac:(lia)) as [_ ->]. cbn [fst].
    rewrite sql_quiet. cbn [pg]. set (db := with_now _ _).
    assert (Hnone' : active_key db h = None) by exact Hnone. revert Hnone'.
    unfold active_key, GetAPIKeyByHash, one_row. cbn [fst]. by destruct (head _).
Qed.
End Auth.
