(* ===== verification/Http.v ===== *)
(** * HTTP: the parts of [net/http] in use, and [internal/handlers/respond.go]

    A handler is a function of the request, the response writer and the two
    servers; it may panic. *)
From S2P Require Import Prelude GoBase Ids Text Json Redis Auth.

Definition headers : Type := gmap string string.

(** Header names are in canonical form; [Get] of a missing one is empty. *)
Definition header_Get (h : headers) (name : string) : string := default EmptyString (h !! name).

(** The request's context carries the parameters the router found in the path
    and the authenticated key. *)
Record request := mkRequest {
  Method : string;
  URLPath : string;
  RawQuery : string;
  Header : headers;
  Body : string;
  ctx_URLParams : list (string * string);
  ctx_APIKey : option APIKey
}.

(** The header map being built; the status and the headers that went out; the
    body. *)
Record writer := mkWriter {
  w_header : headers;
  w_sent : option (Z * headers);
  w_body : string
}.

Definition new_writer : writer := mkWriter ∅ None EmptyString.

Definition header_Set (name value : string) (w : writer) : writer :=
  mkWriter (<[name := value]> w.(w_header)) w.(w_sent) w.(w_body).

(** A second [WriteHeader] is ignored. *)
Definition WriteHeader (status : Z) (w : writer) : writer :=
  match w.(w_sent) with
  | Some _ => w
  | None => mkWriter w.(w_header) (Some (status, w.(w_header))) w.(w_body)
  end.

(** [json.NewEncoder(w).Encode]: the value and a newline. *)
Definition Encode (payload : json) (w : writer) : writer :=
  let w := WriteHeader 200 w in
  mkWriter w.(w_header) w.(w_sent) (w.(w_body) +:+ encode_to payload (String "010" EmptyString)).

(** What a handler leaves: it returned, or it panicked. *)
Record served (W : Type) := mkServed { s_writer : writer; s_net : net W; s_panicked : bool }.
Arguments mkServed {W}.
Arguments s_writer {W}.
Arguments s_net {W}.
Arguments s_panicked {W}.

Definition Handler (W : Type) : Type := writer → request → net W → served W.

Definition reply {W} (w : writer) (n : net W) : served W := mkServed w n false.

(** ** [context.WithValue] for the key: [internal/auth/context.go] *)
Definition WithAPIKey (r : request) (apiKey : APIKey) : request :=
  mkRequest r.(Method) r.(URLPath) r.(RawQuery) r.(Header) r.(Body) r.(ctx_URLParams) (Some apiKey).
Definition APIKeyFromContext (r : request) : option APIKey := r.(ctx_APIKey).

(** ** Statuses *)
Definition StatusOK : Z := 200.
Definition StatusCreated : Z := 201.
Definition StatusNoContent : Z := 204.
Definition StatusBadRequest : Z := 400.
Definition StatusUnauthorized : Z := 401.
Definition StatusForbidden : Z := 403.
Definition StatusNotFound : Z := 404.
Definition StatusConflict : Z := 409.
Definition StatusTooManyRequests : Z := 429.
Definition StatusInternalServerError : Z := 500.
Definition StatusNotImplemented : Z := 501.
Definition StatusServiceUnavailable : Z := 503.

(** ** [respond.go] *)

(** [errorResponse]: an empty message is omitted. *)
Definition errorResponse (code message : string) : json :=
  JObj (("error", JStr code) ::
    (if bool_decide (message = EmptyString) then [] else [("message", JStr message)])).

Definition writeJSON (status : Z) (payload : option json) (w : writer) : writer :=
  let w := WriteHeader status (header_Set "Content-Type" "application/json" w) in
  match payload with
  | None => w
  | Some p => Encode p w
  end.

Definition writeError (status : Z) (code message : string) : writer → writer :=
  writeJSON status (Some (errorResponse code message)).

Definition WriteUnauthorized := writeError StatusUnauthorized.
Definition WriteBadRequest := writeError StatusBadRequest.
Definition WriteConflict := writeError StatusConflict.
Definition WriteForbidden := writeError StatusForbidden.
Definition WriteInternalServerError : writer → writer :=
  writeError StatusInternalServerError "internal_server_error" "an unexpected error occurred".
Definition WriteServiceUnavailable := writeError StatusServiceUnavailable.
Definition WriteTooManyRequests := writeError StatusTooManyRequests.
Definition WriteNotFound : writer → writer :=
  writeError StatusNotFound "not_found" "resource not found".

Lemma header_Set_same name value w : (header_Set name value w).(w_header) !! name = Some value.
Proof. apply (lookup_insert_eq (M := gmap string)). Qed.

Lemma header_Set_other name name' value w :
  name ≠ name' → (header_Set name value w).(w_header) !! name' = w.(w_header) !! name'.
Proof. apply (lookup_insert_ne (M := gmap string)). Qed.

(** ** What the client sees *)

Definition status (w : writer) : Z := match w.(w_sent) with Some (s, _) => s | None => 200 end.
Definition sent_header (w : writer) (name : string) : option string :=
  match w.(w_sent) with Some (_, h) => h !! name | None => w.(w_header) !! name end.

Lemma status_writeError s code msg w : w.(w_sent) = None → status (writeError s code msg w) = s.
Proof. intros Hw. unfold status, writeError, writeJSON, Encode, WriteHeader. simpl. by rewrite Hw. Qed.

Lemma header_writeError s code msg w name :
  w.(w_sent) = None → name ≠ "Content-Type" →
  sent_header (writeError s code msg w) name = w.(w_header) !! name.
Proof.
  intros Hw Hn. destruct w as [h sent body]; simpl in Hw; subst sent.
  by apply (lookup_insert_ne h "Content-Type" name).
Qed.
