(* ===== verification/Url.v ===== *)
(** * [net/url]: the query of a request

    [url.ParseQuery] drops what it cannot read; [Values.Get] gives the first
    value of a key. *)
From S2P Require Import Prelude GoBase Text Json.

(** [strings.Cut]: before and after the first separator, and all of it when
    there is none. *)
Fixpoint Cut (sep : ascii) (s : string) : string * string :=
  match s with
  | EmptyString => (EmptyString, EmptyString)
  | String c s =>
      if bool_decide (c = sep) then (EmptyString, s)
      else let '(before, after) := Cut sep s in (String c before, after)
  end.

Fixpoint contains (c : ascii) (s : string) : bool :=
  match s with
  | EmptyString => false
  | String c' s => bool_decide (c' = c) || contains c s
  end.

(** [QueryUnescape]: [%XX] is a byte, [+] a space. *)
Fixpoint QueryUnescape (s : string) : option string :=
  match s with
  | EmptyString => Some EmptyString
  | String c s1 =>
      if bool_decide (c = "%"%char) then
        match s1 with
        | String h1 (String h2 s3) =>
            a ← hex_any h1; b ← hex_any h2; r ← QueryUnescape s3;
            Some (String (ascii_of_N (Z.to_N (a * 16 + b))) r)
        | _ => None
        end
      else
        r ← QueryUnescape s1;
        Some (String (if bool_decide (c = "+"%char) then " "%char else c) r)
  end.

(** The parts between ampersands, as the loop over them sees them: every part
    is at least a byte shorter. *)
Fixpoint split_query (fuel : nat) (query : string) : list string :=
  match fuel, query with
  | S fuel, String _ _ =>
      let '(part, rest) := Cut "&" query in part :: split_query fuel rest
  | _, _ => []
  end.

Definition parse_part (part : string) : option (string * string) :=
  if contains ";" part || bool_decide (part = EmptyString) then None
  else
    let '(key, value) := Cut "=" part in
    key ← QueryUnescape key; value ← QueryUnescape value; Some (key, value).

(** [URL.Query]. *)
Definition Query (raw : string) : list (string * string) :=
  omap parse_part (split_query (String.length raw) raw).

Definition values_Get (values : list (string * string)) (key : string) : string :=
  match filter (fun kv => kv.1 = key) values with
  | (_, v) :: _ => v
  | [] => EmptyString
  end.

Example query_get : values_Get (Query "a=1&route_id=%20or+ders&&x;y=2&bad=%zz&route_id=2") "route_id" = " or ders".
Proof. reflexivity. Qed.
