(* ===== verification/Keeps.v ===== *)
(** * What an operation leaves alone

    [R] relates two states of the servers that agree on some part of them.  An
    operation keeps that part if it is related before and after, given that the
    others on the connection keep it too; whatever fails on the way.  The
    lemmas follow the shape of the operations. *)
From S2P Require Import Prelude GoBase Redis Database Queries World Http.

Create HintDb keep.

Section Keeps.
Context {W : Type} (R : relation W) `{!PreOrder R}.
Implicit Types (n : net W).

Definition respects n : Prop := Forall (fun r => ∀ d, R d (r.(others) d)) n.(rounds).

(** Related, still respected, and still quiet if it was. *)
Record kept n n' : Prop := {
  kept_related : R n.(server) n'.(server);
  kept_respects : respects n';
  kept_quiet : n.(rounds) = [] → n'.(rounds) = []
}.

Definition keeps {A} (f : net W → A * net W) : Prop := ∀ n, respects n → kept n (f n).2.
Definition serves (h : net W → served W) : Prop := ∀ n, respects n → kept n (h n).(s_net).
Definition handler_keeps (h : Handler W) : Prop := ∀ w r, serves (h w r).

Lemma kept_refl n : respects n → kept n n.
Proof. intros Hn. by split. Qed.

Lemma kept_trans n1 n2 n3 : kept n1 n2 → (respects n2 → kept n2 n3) → kept n1 n3.
Proof.
  intros [H12 Hn2 Hq2] H23. destruct (H23 Hn2) as [H Hn3 Hq3].
  split; [by transitivity (server n2)|done|auto].
Qed.

Lemma keeps_ret {A} (a : A) : keeps (fun n => (a, n)).
Proof. intros n. apply kept_refl. Qed.

Lemma keeps_bind {A B} (f : net W → A * net W) (g : A → net W → B * net W) :
  keeps f → (∀ a, keeps (g a)) → keeps (fun n => let '(a, n) := f n in g a n).
Proof.
  intros Hf Hg n Hn. specialize (Hf n Hn). destruct (f n) as [a n1]. cbn in *.
  apply (kept_trans n n1); [done|]. apply (Hg a n1).
Qed.

Lemma serves_reply w : serves (reply w).
Proof. intros n. apply kept_refl. Qed.

Lemma serves_bind {A} (f : net W → A * net W) (h : A → net W → served W) :
  keeps f → (∀ a, serves (h a)) → serves (fun n => let '(a, n) := f n in h a n).
Proof.
  intros Hf Hh n Hn. specialize (Hf n Hn). destruct (f n) as [a n1]. cbn in *.
  apply (kept_trans n n1); [done|]. apply (Hh a n1).
Qed.

(** An effect whose result is not looked at. *)
Lemma serves_after {A} (f : net W → A * net W) (h : net W → served W) :
  keeps f → serves h → serves (fun n => h (f n).2).
Proof.
  intros Hf Hh n Hn. apply (kept_trans n (f n).2); [by apply Hf|]. apply Hh.
Qed.

Lemma keeps_call {A} (f : W → A * W) : (∀ d, R d (f d).2) → keeps (call f).
Proof.
  intros Hf [d rs] Hn. unfold respects, call in *; cbn in *. destruct rs as [|[o out] rs]; cbn.
  { specialize (Hf d). by destruct (f d). }
  apply Forall_cons_1 in Hn as [Ho Hn]. cbn in Ho. specialize (Hf (o d)).
  destruct out; cbn; [destruct (f (o d))|..|destruct (f (o d))]; cbn in *;
    (split; [|done|done]); cbn; by (etransitivity; [apply Ho|]) || apply Ho.
Qed.

Lemma keeps_query {A} (f : W → A) : keeps (query f).
Proof. apply keeps_call. by intros d. Qed.

(** On a connection where nothing else happens. *)
Lemma quiet_respects w : respects (quiet w).
Proof. apply list.Forall_nil_2. Qed.

Lemma kept_from_quiet w n : kept (quiet w) n → ∃ w', n = quiet w' ∧ R w w'.
Proof.
  intros [HR _ Hq]. exists n.(server). split; [|done]. specialize (Hq eq_refl).
  destruct n; cbn in *. by subst.
Qed.

Lemma keeps_quiet {A} (f : net W → A * net W) w :
  keeps f → ∃ w', (f (quiet w)).2 = quiet w' ∧ R w w'.
Proof. intros Hf. apply kept_from_quiet, Hf, quiet_respects. Qed.

Lemma serves_quiet (h : net W → served W) w :
  serves h → ∃ w', (h (quiet w)).(s_net) = quiet w' ∧ R w w'.
Proof. intros Hh. apply kept_from_quiet, Hh, quiet_respects. Qed.
End Keeps.

Section Server.
Context {D : Type} `{RedisServer D} (R : relation (world D)) `{!PreOrder R}.

Lemma keeps_command cs : (∀ d, R d (exec_cmds cs d)) → keeps R (command cs).
Proof. intros Hf. by apply keeps_call. Qed.

Lemma keeps_redis_Get k : keeps R (redis_Get k).
Proof. unfold redis_Get. apply keeps_bind; [done|by apply keeps_query|]. intros r. by apply keeps_ret. Qed.

Lemma keeps_sql {A} (st : statement A) :
  (∀ d, R d (mkWorld d.(redis) (st d.(pg)).2)) → keeps R (sql st).
Proof.
  intros Hf. unfold sql. apply keeps_bind; [done| |intros r; by apply keeps_ret].
  apply keeps_call; [done|]. intros d. specialize (Hf d). by destruct (st (pg d)).
Qed.

Lemma keeps_redis_exec k st cs : (∀ d, R d (exec_cmds cs d)) → keeps R (redis_exec k st cs).
Proof.
  intros Hf. unfold redis_exec. apply keeps_bind; [done| |intros r; by apply keeps_ret].
  apply keeps_call; [done|]. intros d. by case_match.
Qed.

Lemma keeps_redis_Watch {A} k (body : Z → net (world D) → result error A * net (world D)) :
  (∀ st, keeps R (body st)) → keeps R (redis_Watch k body).
Proof.
  intros Hb. unfold redis_Watch. apply keeps_bind; [done|by apply keeps_query|]. intros [st|e]; [apply Hb|by apply keeps_ret].
Qed.
End Server.

(** Follow the tests and the calls of an operation down to its returns. *)
Ltac keep_step :=
  first
  [ assumption
  | solve [eauto with keep nocore]
  | apply keeps_ret; apply _
  | apply serves_reply; apply _
  | apply keeps_query; apply _
  | apply keeps_redis_Get; apply _
  | apply keeps_bind; [apply _| |]
  | apply serves_bind; [apply _| |]
  | match goal with |- forall _, _ => intro end
  | match goal with
    | |- keeps _ (fun n => match ?x with _ => _ end) => destruct x
    | |- serves _ (fun n => match ?x with _ => _ end) => destruct x
    | |- keeps _ (fun n => if ?x then _ else _) => destruct x
    | |- serves _ (fun n => if ?x then _ else _) => destruct x
    | |- keeps _ (match ?x with _ => _ end) => destruct x
    | |- serves _ (match ?x with _ => _ end) => destruct x
    end
  | progress cbv beta zeta ].
Ltac keep := repeat keep_step.
