(* ===== verification/Duration.v ===== *)
(** * [time.ParseDuration] and [strconv.ParseBool]

    A duration is a sign and a sequence of decimal numbers with units.  Whole
    parts are [uint64] arithmetic; a fraction goes through [float64], which
    [SpecFloat] computes with. *)
From Stdlib Require Import SpecFloat.
From S2P Require Import Prelude GoBase Text Json.

(** ** Floating point *)

Definition float64_of (z : Z) : spec_float := binary_normalize 53 1024 z 0 false.
Definition float64_mul : spec_float → spec_float → spec_float := SFmul 53 1024.
Definition float64_div : spec_float → spec_float → spec_float := SFdiv 53 1024.

(** The conversion to [uint64] of a number from zero on: the whole part. *)
Definition float64_trunc (f : spec_float) : Z :=
  match f with
  | S754_finite false m e =>
      if 0 <=? e then Zpos m * 2 ^ e else Zpos m / 2 ^ (- e)
  | _ => 0
  end.

(** ** The parts of a duration *)

Definition wrap_u64 (z : Z) : Z := z mod 18446744073709551616.
Definition two63 : Z := 9223372036854775808.

(** [leadingInt]: [None] on overflow. *)
Fixpoint leadingInt (s : string) (x : Z) : option (Z * string) :=
  match s with
  | EmptyString => Some (x, s)
  | String c s' =>
      match digit_value c with
      | None => Some (x, s)
      | Some d =>
          if x >? two63 / 10 then None
          else
            let x := wrap_u64 (x * 10 + d) in
            if x >? two63 then None else leadingInt s' x
      end
  end.

(** [leadingFraction]: digits past what a [uint64] holds are passed over. *)
Fixpoint leadingFraction (s : string) (x : Z) (scale : spec_float) (overflow : bool)
    : Z * spec_float * string :=
  match s with
  | EmptyString => (x, scale, s)
  | String c s' =>
      match digit_value c with
      | None => (x, scale, s)
      | Some d =>
          if overflow then leadingFraction s' x scale true
          else if x >? max_int64 / 10 then leadingFraction s' x scale true
          else
            let y := wrap_u64 (x * 10 + d) in
            if y >? two63 then leadingFraction s' x scale true
            else leadingFraction s' y (float64_mul scale (float64_of 10)) false
      end
  end.

(** Up to the next digit or point. *)
Fixpoint span_unit (s : string) : string * string :=
  match s with
  | EmptyString => (EmptyString, s)
  | String c s' =>
      if bool_decide (c = "."%char) || bool_decide (is_Some (digit_value c)) then (EmptyString, s)
      else let '(u, rest) := span_unit s' in (String c u, rest)
  end.

Definition Microsecond : Duration := 1000.
Definition Minute : Duration := 60 * Second.
Definition Hour : Duration := 60 * Minute.

(** The micro sign U+00B5 and the Greek mu U+03BC are both micro. *)
Definition micro_sign : string := String "194" (String "181" "s").
Definition greek_mu : string := String "206" (String "188" "s").

Definition unitMap : list (string * Duration) :=
  [("ns", 1); ("us", Microsecond); (micro_sign, Microsecond); (greek_mu, Microsecond);
   ("ms", Millisecond); ("s", Second); ("m", Minute); ("h", Hour)].

Definition unit_of (u : string) : option Duration := (list_to_map unitMap : gmap string Duration) !! u.

(** ** Its error texts *)

(** [quote] of the [time] package, byte by byte. *)
Fixpoint time_quote_to (s rest : string) : string :=
  match s with
  | EmptyString => rest
  | String c s =>
      let rest := time_quote_to s rest in
      let b := byte c in
      if (128 <=? b) || (b <? 32)
      then String backslash (String "x" (String (hex_lower (b / 16)) (String (hex_lower (b mod 16)) rest)))
      else if bool_decide (c = quote_char ∨ c = backslash) then String backslash (String c rest)
      else String c rest
  end.
Definition time_quote (s : string) : string :=
  String quote_char (time_quote_to s (String quote_char EmptyString)).

Definition invalid_duration (orig : string) : error :=
  OpaqueError ("time: invalid duration " +:+ time_quote orig).
Definition missing_unit (orig : string) : error :=
  OpaqueError ("time: missing unit in duration " +:+ time_quote orig).
Definition unknown_unit (u orig : string) : error :=
  OpaqueError ("time: unknown unit " +:+ time_quote u +:+ " in duration " +:+ time_quote orig).

(** ** The loop *)

(** The point and the fraction, when there are any. *)
Definition read_scale (s : string) : Z * spec_float * string * bool :=
  match s with
  | String c s' =>
      if bool_decide (c = "."%char) then
        let '(f, scale, rest) := leadingFraction s' 0 (float64_of 1) false in
        (f, scale, rest, negb (bool_decide (rest = s')))
      else (0, float64_of 1, s, false)
  | EmptyString => (0, float64_of 1, s, false)
  end.

(** One number and its unit: the nanoseconds and what follows. *)
Definition parse_segment (orig s : string) : result error (Z * string) :=
  match s with
  | EmptyString => Err (invalid_duration orig)
  | String c _ =>
      if negb (bool_decide (c = "."%char) || bool_decide (is_Some (digit_value c)))
      then Err (invalid_duration orig)
      else
        match leadingInt s 0 with
        | None => Err (invalid_duration orig)
        | Some (v, s1) =>
            let pre := negb (bool_decide (s1 = s)) in
            let '(f, scale, s2, post) := read_scale s1 in
            if negb pre && negb post then Err (invalid_duration orig)
            else
              let '(u, rest) := span_unit s2 in
              if bool_decide (u = EmptyString) then Err (missing_unit orig)
              else
                match unit_of u with
                | None => Err (unknown_unit u orig)
                | Some unit =>
                    if v >? two63 / unit then Err (invalid_duration orig)
                    else
                      let v := wrap_u64 (v * unit) in
                      if f >? 0 then
                        let v := wrap_u64 (v + float64_trunc (float64_mul (float64_of f)
                                                (float64_div (float64_of unit) scale))) in
                        if v >? two63 then Err (invalid_duration orig) else Ok (v, rest)
                      else Ok (v, rest)
                end
        end
  end.

(** Every segment is at least two bytes. *)
Fixpoint parse_segments (fuel : nat) (orig s : string) (d : Z) : result error Z :=
  match s with
  | EmptyString => Ok d
  | _ =>
      match fuel with
      | O => Err (invalid_duration orig)
      | S fuel =>
          let? vr := parse_segment orig s in
          let d := wrap_u64 (d + vr.1) in
          if d >? two63 then Err (invalid_duration orig) else parse_segments fuel orig vr.2 d
      end
  end.

Definition ParseDuration (orig : string) : result error Duration :=
  let '(neg, s) := strip_sign orig in
  if bool_decide (s = "0") then Ok 0
  else if bool_decide (s = EmptyString) then Err (invalid_duration orig)
  else
    let? d := parse_segments (String.length s) orig s 0 in
    if neg then Ok (wrap64 (- wrap64 d))
    else if d >? max_int64 then Err (invalid_duration orig)
    else Ok d.

(** ** [strconv.ParseBool] *)
Definition ParseBool (s : string) : result error bool :=
  if bool_decide (s ∈ ["1"; "t"; "T"; "TRUE"; "true"; "True"]) then Ok true
  else if bool_decide (s ∈ ["0"; "f"; "F"; "FALSE"; "false"; "False"]) then Ok false
  else Err ErrSyntax.

Example parse_15m : ParseDuration "15m" = Ok (15 * Minute).
Proof. vm_compute. reflexivity. Qed.
Example parse_mixed : ParseDuration "-1h2.5s" = Ok (- (Hour + 2500000000)).
Proof. vm_compute. reflexivity. Qed.
Example parse_tenths : ParseDuration "0.1h" = Ok (6 * Minute).
Proof. vm_compute. reflexivity. Qed.
Example parse_no_unit : ParseDuration "15" = Err (OpaqueError (String.append "time: missing unit in duration " (time_quote "15"))).
Proof. vm_compute. reflexivity. Qed.
Example parse_wraps : ParseDuration "9223372036854775808ns9223372036854775808ns" = Ok 0.
Proof. vm_compute. reflexivity. Qed.
