(* ===== verification/Migrator.v ===== *)
(** * Migrations: [internal/db/migrator/migrator.go], [cmd/migrate/main.go]

    The libraries that hold the migrations, connect and apply them are
    parameters; what is here is the waiting for the server, the order of the
    steps and what is closed when one fails. *)
From S2P Require Import Prelude GoBase Text Config.

(** [W] is all there is outside.  [Ping] has its own five seconds; [Wait] is the
    [select] between the end of the context, whose error it returns, and two
    seconds. *)
Class MigrationLibraries (W : Type) := {
  ConnConfig : Type;
  SourceDriver : Type;
  DatabaseDriver : Type;
  Migrate : Type;
  iofs_New : result error SourceDriver;
  pgx_ParseConfig : string → result error ConnConfig;
  OpenDB : ConnConfig → W → Z * W;
  Ping : Z → W → result error unit * W;
  Close : Z → W → W;
  Wait : W → option error * W;
  WithInstance : Z → W → result error DatabaseDriver * W;
  NewWithInstance : SourceDriver → DatabaseDriver → W → result error Migrate * W;
  Migrate_Up : Migrate → W → result error unit * W;
  Migrate_Close : Migrate → W → W
}.

Definition ErrNoChange : error := ErrorsNew "migrate.ErrNoChange" "no change".

Section Migrator.
Context {W : Type} `{MigrationLibraries W}.
Implicit Types (w : W).

(** The text of [fmt] for an error that is nil. *)
Definition nil_error : error := OpaqueError "%!w(<nil>)".

(** The loop, with the attempts it has left and the last error. *)
Fixpoint open_attempts (attempts : nat) (dsn : string) (lastErr : option error) w : result error Z * W :=
  match attempts with
  | O => (Err (Wrapf "wait for postgres" (default nil_error lastErr)), w)
  | S attempts =>
      match pgx_ParseConfig dsn with
      | Err err => (Err (Wrapf "parse postgres config" err), w)
      | Ok connConfig =>
          let '(db, w) := OpenDB connConfig w in
          let '(r, w) := Ping db w in
          match r with
          | Ok _ => (Ok db, w)
          | Err err =>
              let w := Close db w in
              let '(done, w) := Wait w in
              match done with
              | Some ctxErr => (Err (Wrapf "wait for postgres" ctxErr), w)
              | None => open_attempts attempts dsn (Some err) w
              end
          end
      end
  end.

Definition openWithRetry (dsn : string) w : result error Z * W := open_attempts 10 dsn None w.

Definition Up (dsn : string) w : result error unit * W :=
  match iofs_New with
  | Err err => (Err (Wrapf "open embedded migrations" err), w)
  | Ok sourceDriver =>
      let '(r, w) := openWithRetry dsn w in
      match r with
      | Err err => (Err err, w)
      | Ok db =>
          let '(r, w) := WithInstance db w in
          match r with
          | Err err => (Err (Wrapf "create postgres migration driver" err), Close db w)
          | Ok driver =>
              let '(r, w) := NewWithInstance sourceDriver driver w in
              match r with
              | Err err => (Err (Wrapf "create migrator" err), Close db w)
              | Ok m =>
                  let '(r, w) := Migrate_Up m w in
                  let w := Close db (Migrate_Close m w) in
                  match r with
                  | Err err => if errors_Is err ErrNoChange then (Ok (), w)
                               else (Err (Wrapf "apply migrations" err), w)
                  | Ok _ => (Ok (), w)
                  end
              end
          end
      end
  end.

(** [cmd/migrate]: what it exits with. *)
Definition migrate_main (env : string → option string) w : result error unit * W :=
  match Load env with
  | Err err => (Err err, w)
  | Ok cfg => Up cfg.(cfg_Postgres).(DSN) w
  end.
End Migrator.

(** ** The connections it opens *)

(** Which handles are open.  [OpenDB] gives one that was not; nothing but
    [OpenDB] and [Close] changes them, except that a migrator closes, with its
    driver, the connection it was made with. *)
Class MigrationLaws (W : Type) `{MigrationLibraries W} := {
  open_handles : W → gset Z;
  handles_OpenDB c w : ¬ ((OpenDB c w).1 ∈ open_handles w) ∧
    open_handles (OpenDB c w).2 = {[ (OpenDB c w).1 ]} ∪ open_handles w;
  handles_Ping db w : open_handles (Ping db w).2 = open_handles w;
  handles_Close db w : open_handles (Close db w) = open_handles w ∖ {[ db ]};
  handles_Wait w : open_handles (Wait w).2 = open_handles w;
  handles_WithInstance db w : open_handles (WithInstance db w).2 = open_handles w;
  handles_NewWithInstance s d w : open_handles (NewWithInstance s d w).2 = open_handles w;
  handles_Migrate_Up m w : open_handles (Migrate_Up m w).2 = open_handles w;
  handles_Migrate_Close m db w1 w2 w3 s d :
    (WithInstance db w1).1 = Ok d → (NewWithInstance s d w2).1 = Ok m →
    open_handles w3 ∖ {[ db ]} ⊆ open_handles (Migrate_Close m w3) ⊆ open_handles w3
}.

Section Handles.
Context {W : Type} `{ML : MigrationLaws W}.
Implicit Types (w : W).

Lemma open_attempts_handles attempts dsn e w :
  let '(r, w') := open_attempts attempts dsn e w in
  match r with
  | Ok db => ¬ (db ∈ open_handles w) ∧ open_handles w' = {[ db ]} ∪ open_handles w
  | Err _ => open_handles w' = open_handles w
  end.
Proof.
  revert e w. induction attempts as [|attempts IH]; intros e w; cbn [open_attempts]; [done|].
  destruct (pgx_ParseConfig dsn) as [c|err]; [|done].
  pose proof (handles_OpenDB c w) as [Hnew Ho]. destruct (OpenDB c w) as [db w1]. cbn [fst snd] in *.
  pose proof (handles_Ping db w1) as Hp. destruct (Ping db w1) as [[u|err] w2]; cbn [fst snd] in *.
  { split; [done|]. by rewrite Hp, Ho. }
  pose proof (handles_Close db w2) as Hc. pose proof (handles_Wait (Close db w2)) as Hw.
  destruct (Wait (Close db w2)) as [done w3]. cbn [snd] in Hw.
  assert (Hback : open_handles w3 = open_handles w) by (rewrite Hw, Hc, Hp, Ho; set_solver).
  destruct done as [ctxErr|]; [done|]. specialize (IH (Some err) w3).
  destruct (open_attempts attempts dsn (Some err) w3) as [[db'|e'] w']; by rewrite <- Hback.
Qed.

Lemma closed_again db w w' :
  ¬ (db ∈ open_handles w) → open_handles w ⊆ open_handles w' ∪ {[ db ]} →
  open_handles w' ⊆ {[ db ]} ∪ open_handles w → open_handles (Close db w') = open_handles w.
Proof. intros Hn H1 H2. rewrite handles_Close. set_solver. Qed.

(** A step that failed is the answer. *)
Ltac refused :=
  cbn [fst snd]; split; [discriminate|];
  let H := fresh in intros H; decompose [ex and] H; congruence.

(** C34: a migration leaves no connection open.  Wherever it fails, in parsing,
    in waiting for the server, in setting up the driver or the migrator, or in a
    migration, the connections open afterwards are those that were open
    before; and all failures but "no change" are reported. *)
Theorem Up_closes_connections dsn w :
  open_handles (Up dsn w).2 = open_handles w ∧
  ((Up dsn w).1 = Ok () ↔
   ∃ s db w1 d w2 m w3, iofs_New = Ok s ∧ openWithRetry dsn w = (Ok db, w1) ∧
     WithInstance db w1 = (Ok d, w2) ∧ NewWithInstance s d w2 = (Ok m, w3) ∧
     ((Migrate_Up m w3).1 = Ok () ∨ ∃ e, (Migrate_Up m w3).1 = Err e ∧ errors_Is e ErrNoChange = true)).
Proof.
  unfold Up. destruct iofs_New as [s|err] eqn:Hs; [|split; [done|]; by refused].
  pose proof (open_attempts_handles 10 dsn None w) as Ho. fold (openWithRetry dsn w) in Ho.
  destruct (openWithRetry dsn w) as [[db|err] w1] eqn:Hdb; [|split; [done|]; by refused].
  destruct Ho as [Hn Ho]. pose proof (handles_WithInstance db w1) as H1.
  destruct (WithInstance db w1) as [[d|err] w2] eqn:Hd; cbn [snd] in H1.
  2: { split; [apply closed_again; set_solver|]. by refused. }
  pose proof (handles_NewWithInstance s d w2) as H2.
  destruct (NewWithInstance s d w2) as [[m|err] w3] eqn:Hm; cbn [snd] in H2.
  2: { split; [apply closed_again; set_solver|]. by refused. }
  pose proof (handles_Migrate_Up m w3) as H3.
  destruct (Migrate_Up m w3) as [r w4] eqn:Hu. cbn [snd] in H3.
  destruct (handles_Migrate_Close m db w1 w2 w4 s d) as [Hc1 Hc2]; [by rewrite Hd|by rewrite Hm|].
  assert (Hclosed : open_handles (Close db (Migrate_Close m w4)) = open_handles w).
  { apply closed_again; [done|set_solver|set_solver]. }
  split; [by repeat case_match|]. split.
  - intros Hr. exists s, db, w1, d, w2, m, w3. rewrite Hu. split_and!; [done..|]. cbn [fst] in *.
    destruct r as [[]|e]; [by left|]. right. exists e. split; [done|]. by destruct (errors_Is e ErrNoChange).
  - intros (s' & db' & w1' & d' & w2' & m' & w3' & Hs' & Hdb' & Hd' & Hm' & Hr).
    injection Hs' as <-. injection Hdb' as <- <-.
    rewrite Hd in Hd'. injection Hd' as <- <-. rewrite Hm in Hm'. injection Hm' as <- <-.
    rewrite Hu in Hr. cbn [fst] in *. destruct Hr as [->|(e & -> & He)]; [done|]. by rewrite He.
Qed.
End Handles.
