(* ===== verification/AuditLog.v ===== *)
(** * The audit log: [internal/audit/service.go] *)
From S2P Require Import Prelude GoBase Ids Redis Database Queries World.

Definition OutcomeBlocked : string := "blocked".

Record BlockedRequest := mkBlockedRequest {
  br_APIKeyID : UUID;
  br_RouteID : string;
  br_PolicyID : UUID;
  br_RequestCost : Z;
  br_TokensRemaining : Z
}.

Definition uuidToPGType (value : UUID) : pgtype_UUID := mkPgUUID value true.

Definition LogBlocked {D} (request : BlockedRequest) (n : net (world D))
    : result error unit * net (world D) :=
  let '(r, n) := sql (CreateRequestAuditLog {|
    cal_ApiKeyID := uuidToPGType request.(br_APIKeyID);
    cal_RouteID := request.(br_RouteID);
    cal_PolicyID := uuidToPGType request.(br_PolicyID);
    cal_Outcome := OutcomeBlocked;
    cal_RequestCost := request.(br_RequestCost);
    cal_TokensRemaining := request.(br_TokensRemaining)
  |}) n in
  (let? _ := wrap_err "create request audit log" r in Ok (), n).
