(* ===== verification/Middleware.v ===== *)
(** * Middleware: [internal/middleware]

    Authentication of API keys and of the admin, the rate limit itself, CORS and
    panic recovery, each a function from handlers to handlers. *)
From S2P Require Import Prelude GoBase Ids Text TokenBucket Redis BucketStore Policies Resolver.
From S2P Require Import Auth AuditLog Http.

Section Middleware.
Context {W : Type}.

(** ** [api_key_auth.go] *)

Definition ProtectedAPIKeyResolver : Type := string → net W → result error APIKey * net W.

Definition APIKeyAuth (resolver : ProtectedAPIKeyResolver) (next : Handler W) : Handler W :=
  fun w r n =>
  let rawKey := TrimSpace (header_Get r.(Header) "X-Api-Key") in
  if bool_decide (rawKey = EmptyString)
  then reply (WriteUnauthorized "missing_api_key" "X-API-Key header is required" w) n
  else
    let '(res, n) := resolver rawKey n in
    match res with
    | Err err =>
        if errors_Is err ErrInvalidRawAPIKey || errors_Is err ErrAPIKeyNotFound
        then reply (WriteUnauthorized "invalid_api_key" "api key is invalid or inactive" w) n
        else reply (WriteServiceUnavailable "api_key_resolution_unavailable"
                      "api key resolution is currently unavailable" w) n
    | Ok apiKey => next w (WithAPIKey r apiKey) n
    end.

(** ** [admin_auth.go] *)

Definition bearerToken (header : string) : string :=
  if negb (HasPrefix header "Bearer ") then EmptyString
  else TrimSpace (TrimPrefix header "Bearer ").

Definition AdminAuth (expectedToken : string) (next : Handler W) : Handler W :=
  fun w r n =>
  let token := bearerToken (header_Get r.(Header) "Authorization") in
  let challenge := header_Set "Www-Authenticate" ("Bearer realm=" +:+ String "034" "admin" +:+ String "034" EmptyString) w in
  if bool_decide (token = EmptyString)
  then reply (WriteUnauthorized "missing_admin_token" "admin bearer token is required" challenge) n
  else if negb (bool_decide (token = expectedToken))
  then reply (WriteUnauthorized "invalid_admin_token" "admin bearer token is invalid" challenge) n
  else next w r n.

(** ** [recover.go] *)

Definition Recoverer (next : Handler W) : Handler W := fun w r n =>
  let s := next w r n in
  if s.(s_panicked) then reply (WriteInternalServerError s.(s_writer)) s.(s_net) else s.

(** ** [cors.go] *)

Definition cors_headers (origin : string) (w : writer) : writer :=
  header_Set "Access-Control-Allow-Methods" "GET, POST, PUT, OPTIONS"
    (header_Set "Access-Control-Allow-Headers" "Authorization, Content-Type, X-API-Key"
       (header_Set "Vary" "Origin" (header_Set "Access-Control-Allow-Origin" origin w))).

Definition CORS (allowedOrigin : string) (next : Handler W) : Handler W :=
  let allowedOrigin := TrimSpace allowedOrigin in
  fun w r n =>
  let origin := TrimSpace (header_Get r.(Header) "Origin") in
  let w :=
    if bool_decide (allowedOrigin = "*") then cors_headers "*" w
    else if negb (bool_decide (origin = EmptyString)) && bool_decide (origin = allowedOrigin)
    then cors_headers allowedOrigin w
    else w in
  if bool_decide (r.(Method) = "OPTIONS") then reply (WriteHeader StatusNoContent w) n
  else next w r n.

(** ** [rate_limit.go] *)

Definition EffectivePolicyResolver : Type :=
  ResolveInput → net W → result error (option Resolution) * net W.
Definition BucketConsumer : Type :=
  BucketRef → Config → Z → Time → net W → result error Decision * net W.
Definition BlockedRequestAuditor : Type := BlockedRequest → net W → result error unit * net W.
(** The instant a clock shows at that point of the run. *)
Definition Clock : Type := net W → Time.

Definition bucketRefFromResolution (resolution : Resolution) : BucketRef :=
  mkBucketRef resolution.(MatchedScopeType) resolution.(MatchedScopeIdentifier)
    resolution.(MatchedRoutePattern).

Definition writeRateLimitHeaders (w : writer) (decision : Decision) : writer :=
  header_Set "X-Ratelimit-Reset" (FormatInt (time_Unix (time_UTC decision.(ResetAt))))
    (header_Set "X-Ratelimit-Remaining" (FormatInt decision.(Remaining))
       (header_Set "X-Ratelimit-Limit" (FormatInt decision.(Limit)) w)).

Definition durationToHeaderSeconds (value : Duration) : Z :=
  if value <=? 0 then 0
  else
    let seconds := div64 value Second in
    if negb (rem64 value Second =? 0) then add64 seconds 1 else seconds.

(** The error of a failed write is logged and dropped. *)
Definition writeBlockedAuditLog (auditor : option BlockedRequestAuditor) (request : BlockedRequest)
    (n : net W) : net W :=
  match auditor with
  | None => n
  | Some logBlocked => (logBlocked request n).2
  end.

(** The configuration of a policy's bucket. *)
Definition policy_config (p : Policy) : Config :=
  mkConfig p.(pol_Capacity) p.(pol_RefillTokens) (mul64 p.(pol_RefillIntervalSeconds) Second).

Definition EnforceRateLimit (routeID : string) (cost : Z) (resolver : EffectivePolicyResolver)
    (buckets : BucketConsumer) (auditor : option BlockedRequestAuditor) (time_Now : Clock)
    (clock : option Clock) (next : Handler W) : Handler W :=
  let clock := default time_Now clock in
  fun w r n =>
  match APIKeyFromContext r with
  | None => reply (WriteInternalServerError w) n
  | Some apiKey =>
      let '(res, n) := resolver (mkResolveInput (Some apiKey.(key_ID)) routeID) n in
      match res with
      | Err _ =>
          reply (WriteServiceUnavailable "rate_limit_resolution_unavailable"
                   "effective policy resolution is currently unavailable" w) n
      | Ok None =>
          reply (WriteServiceUnavailable "missing_rate_limit_policy"
                   "no active rate limit policy matches this request" w) n
      | Ok (Some resolution) =>
          let '(res, n) := buckets (bucketRefFromResolution resolution)
            (policy_config resolution.(res_Policy)) cost (time_UTC (clock n)) n in
          match res with
          | Err _ =>
              reply (WriteServiceUnavailable "rate_limit_unavailable"
                       "rate limit state is currently unavailable" w) n
          | Ok decision =>
              let w := writeRateLimitHeaders w decision in
              if negb decision.(Allowed) then
                let n := writeBlockedAuditLog auditor
                  (mkBlockedRequest apiKey.(key_ID) routeID resolution.(res_Policy).(pol_ID)
                     (wrap32 cost) (wrap32 decision.(Remaining))) n in
                let w := header_Set "Retry-After"
                  (FormatInt (durationToHeaderSeconds decision.(RetryAfter))) w in
                reply (WriteTooManyRequests "rate_limit_exceeded" "rate limit exceeded" w) n
              else next w r n
          end
      end
  end.
End Middleware.
