(* ===== verification/MiddlewareSpec.v ===== *)
(** * What the middleware lets through

    A gate either runs the handler behind it or answers itself, and then its
    answer does not depend on that handler: the cases in which each gate opens,
    and the status of each refusal. *)
From S2P Require Import Prelude GoBase Ids Text TokenBucket Redis BucketStore Policies Resolver.
From S2P Require Import Auth AuditLog Http Middleware.

(** The gate [g] refuses: whatever is behind it, it answers [st] by itself. *)
Definition refuses {W} (g : Handler W → Handler W) (w : writer) (r : request) (n : net W)
    (st : Z) : Prop :=
  ∃ w' n', status w' = st ∧ ∀ next, g next w r n = reply w' n'.

(** ** Whole seconds *)

Lemma header_seconds_exact d :
  in_int64 d → 0 < d → durationToHeaderSeconds d = (d + Second - 1) / Second.
Proof.
  intros Hd Hpos. unfold durationToHeaderSeconds. destruct (d <=? 0) eqn:?; to_prop; [lia|].
  assert (HS : in_int64 Second) by (unfold in_int64, min_int64, max_int64, Second; lia).
  rewrite div64_nonneg, rem64_nonneg by (done || lia).
  pose proof (Z.div_mod d Second ltac:(done)) as Hdm. pose proof (Z.mod_pos_bound d Second ltac:(done)).
  pose proof (Z.div_pos d Second ltac:(lia) ltac:(done)).
  assert (d / Second ≤ d) by (apply Z.div_le_upper_bound; unfold Second; lia).
  destruct (d mod Second =? 0) eqn:Hz; to_prop; cbn [negb].
  - apply Z.div_unique with (Second - 1); unfold Second in *; lia.
  - rewrite add64_id.
    + apply Z.div_unique with (d mod Second - 1); unfold Second in *; lia.
    + unfold in_int64, min_int64, max_int64, Second in *. lia.
Qed.

(** The header rounds up.  [durationToHeaderSeconds] is the least number of
    whole seconds that covers the duration, so a client that waits that long
    never comes back early, nor a second late. *)
Theorem durationToHeaderSeconds_least d s :
  in_int64 d → 0 ≤ s → durationToHeaderSeconds d ≤ s ↔ d ≤ s * Second.
Proof.
  intros Hd Hs. destruct (decide (0 < d)) as [Hpos|Hneg].
  - rewrite header_seconds_exact by done. split; intros H.
    + pose proof (Z.div_mod (d + Second - 1) Second ltac:(done)).
      pose proof (Z.mod_pos_bound (d + Second - 1) Second ltac:(done)). unfold Second in *. nia.
    + apply Z.lt_succ_r, Z.div_lt_upper_bound; unfold Second in *; lia.
  - unfold durationToHeaderSeconds. destruct (d <=? 0) eqn:?; to_prop; [|lia].
    unfold Second. lia.
Qed.

(** ** The gates *)

Section Gates.
Context {W : Type}.
Implicit Types (w : writer) (r : request) (n : net W).

(** C30: the rate limit fails closed.  A request reaches the handler only when
    its key is known, a policy was found, and the bucket answered with an
    allowed decision; the response then carries that decision's headers.  In
    every other case the answer is 429 for a blocked decision, 503 when the
    policy or the bucket could not be read or no policy matches, 500 without a
    key, and the handler never runs. *)
Theorem EnforceRateLimit_fails_closed routeID cost resolver buckets auditor (now : Clock) clock w r n :
  w.(w_sent) = None →
  let gate := EnforceRateLimit (W := W) routeID cost resolver buckets auditor now clock in
  match APIKeyFromContext r with
  | None => refuses gate w r n 500
  | Some k =>
      match resolver (mkResolveInput (Some k.(key_ID)) routeID) n with
      | (Err _, _) | (Ok None, _) => refuses gate w r n 503
      | (Ok (Some res), n1) =>
          match buckets (bucketRefFromResolution res) (policy_config res.(res_Policy)) cost
                  (time_UTC (default now clock n1)) n1 with
          | (Err _, _) => refuses gate w r n 503
          | (Ok dec, n2) =>
              if dec.(Allowed)
              then ∀ next, gate next w r n = next (writeRateLimitHeaders w dec) r n2
              else refuses gate w r n 429
          end
      end
  end.
Proof.
  intros Hw gate.
  assert (Hopen : ∀ next, gate next w r n = EnforceRateLimit routeID cost resolver buckets auditor
    now clock next w r n) by done. unfold EnforceRateLimit in Hopen.
  destruct (APIKeyFromContext r) as [k|].
  2: { eexists _, _. split; [|exact Hopen]. by apply status_writeError. }
  destruct (resolver _ n) as [[[res|]|e] n1].
  2, 3: eexists _, _; split; [|exact Hopen]; by apply status_writeError.
  destruct (buckets _ _ _ _ n1) as [[dec|e] n2].
  2: { eexists _, _. split; [|exact Hopen]. by apply status_writeError. }
  destruct (Allowed dec); cbn [negb] in Hopen; [exact Hopen|].
  eexists _, _. split; [|exact Hopen]. by apply status_writeError.
Qed.

(** Only resolved keys pass.  The handler behind [APIKeyAuth] runs exactly
    when the trimmed header is not empty and the resolver returns a key, which
    is then the key in its context; a missing, unknown or inactive key gets 401,
    and a resolver that fails otherwise 503. *)
Theorem APIKeyAuth_gate (resolver : ProtectedAPIKeyResolver (W := W)) w r n :
  w.(w_sent) = None →
  let gate := APIKeyAuth resolver in
  let rawKey := TrimSpace (header_Get r.(Header) "X-Api-Key") in
  if bool_decide (rawKey = EmptyString) then refuses gate w r n 401
  else
    match resolver rawKey n with
    | (Ok k, n1) => ∀ next, gate next w r n = next w (WithAPIKey r k) n1 ∧
                      APIKeyFromContext (WithAPIKey r k) = Some k
    | (Err e, _) =>
        refuses gate w r n
          (if errors_Is e ErrInvalidRawAPIKey || errors_Is e ErrAPIKeyNotFound then 401 else 503)
    end.
Proof.
  intros Hw gate rawKey.
  assert (Hopen : ∀ next, gate next w r n = APIKeyAuth resolver next w r n) by done.
  unfold APIKeyAuth in Hopen. fold rawKey in Hopen.
  destruct (bool_decide (rawKey = EmptyString)).
  { eexists _, _. split; [|exact Hopen]. by apply status_writeError. }
  destruct (resolver rawKey n) as [[k|e] n1]; [done|].
  destruct (_ || _); eexists _, _; (split; [|exact Hopen]); by apply status_writeError.
Qed.

(** The header carries the token: the word [Bearer], a space and, up to
    surrounding blanks, the token, which is not empty. *)
Definition bears (given token : string) : Prop :=
  token ≠ EmptyString ∧ ∃ rest, given = "Bearer " +:+ rest ∧ TrimSpace rest = token.

Lemma bearerToken_spec given token :
  token ≠ EmptyString → bearerToken given = token ↔ bears given token.
Proof.
  intros Ht. unfold bearerToken, bears. split.
  - destruct (HasPrefix given "Bearer ") eqn:Hp; cbn [negb]; [|congruence]. intros <-.
    apply HasPrefix_spec in Hp as [rest ->]. split; [done|]. exists rest. by rewrite TrimPrefix_app.
  - intros (_ & rest & -> & <-). rewrite HasPrefix_app. cbn [negb]. by rewrite TrimPrefix_app.
Qed.

Lemma AdminAuth_refuses token w r n :
  w.(w_sent) = None → ¬ bears (header_Get r.(Header) "Authorization") token →
  ∃ w', status w' = 401 ∧ ∀ next, AdminAuth (W := W) token next w r n = reply w' n.
Proof.
  intros Hw Hb.
  assert (Hopen : ∀ next, AdminAuth (W := W) token next w r n = AdminAuth token next w r n) by done.
  unfold AdminAuth in Hopen at 2.
  case_bool_decide as Hne; [|case_bool_decide as Heq]; cbn [negb] in Hopen.
  2: { destruct Hb. rewrite Heq in Hne. by apply bearerToken_spec. }
  all: eexists; split; [|exact Hopen]; by apply status_writeError.
Qed.

(** The admin surface opens only to the token.  The handler behind
    [AdminAuth] runs when the request bears the configured token; otherwise the
    answer is 401 and carries a challenge.  An empty configured token opens to
    nobody. *)
Theorem AdminAuth_gate token w r n :
  w.(w_sent) = None →
  let gate := AdminAuth (W := W) token in
  let given := header_Get r.(Header) "Authorization" in
  (bears given token → ∀ next, gate next w r n = next w r n) ∧
  (¬ bears given token → refuses gate w r n 401 ∧ ∀ next,
     sent_header (gate next w r n).(s_writer) "Www-Authenticate" =
       Some ("Bearer realm=" +:+ String "034" "admin" +:+ String "034" EmptyString)).
Proof.
  intros Hw gate given.
  assert (Hopen : ∀ next, gate next w r n = AdminAuth token next w r n) by done.
  unfold AdminAuth in Hopen. fold given in Hopen. set (challenge := header_Set _ _ w) in Hopen. split.
  - intros Hb next. rewrite Hopen. destruct Hb as [Ht Hb].
    rewrite (proj2 (bearerToken_spec given token Ht)) by done.
    rewrite bool_decide_eq_false_2, bool_decide_eq_true_2 by done. done.
  - intros Hb. assert (Hsent : w_sent challenge = None) by done.
    assert (Hh : w_header challenge !! "Www-Authenticate" =
      Some ("Bearer realm=" +:+ String "034" "admin" +:+ String "034" EmptyString)) by
      apply lookup_insert_eq.
    case_bool_decide as Hne; [|case_bool_decide as Heq]; cbn [negb] in Hopen.
    2: { destruct Hb. rewrite Heq in Hne. by apply bearerToken_spec. }
    all: split; [eexists _, _; split; [|exact Hopen]; by apply status_writeError|].
    all: intros next; rewrite Hopen; cbn [reply s_writer]; unfold WriteUnauthorized;
      by rewrite header_writeError.
Qed.

(** Cross-origin access is granted to the configured origin only.  A
    preflight request never reaches the handlers and gets 204, and its
    [Access-Control-Allow-Origin] is ["*"] if that is configured, the
    configured origin if the request comes from it, and absent otherwise. *)
Theorem CORS_preflight allowed r n next :
  r.(Method) = "OPTIONS" →
  let origin := TrimSpace (header_Get r.(Header) "Origin") in
  let s := CORS (W := W) allowed next new_writer r n in
  status s.(s_writer) = 204 ∧ s.(s_net) = n ∧ s.(s_panicked) = false ∧
  sent_header s.(s_writer) "Access-Control-Allow-Origin" =
    if bool_decide (TrimSpace allowed = "*") then Some "*"
    else if bool_decide (origin ≠ EmptyString ∧ origin = TrimSpace allowed) then Some origin
    else None.
Proof.
  intros Hm origin s. unfold s, CORS. fold origin. rewrite (bool_decide_eq_true_2 (Method r = _)) by done.
  cbn [reply s_writer s_net s_panicked]. split; [|split; [done|split; [done|]]].
  - by repeat case_match.
  - destruct (decide (TrimSpace allowed = "*")) as [->|Hs].
    { by rewrite !bool_decide_eq_true_2. }
    rewrite !(bool_decide_eq_false_2 (TrimSpace allowed = "*")) by done.
    destruct (decide (origin = EmptyString)) as [He|He].
    { rewrite (bool_decide_eq_true_2 (origin = EmptyString)) by done. cbn [negb andb].
      rewrite bool_decide_eq_false_2 by (intros []; congruence). done. }
    rewrite (bool_decide_eq_false_2 (origin = EmptyString)) by done. cbn [negb andb].
    destruct (decide (origin = TrimSpace allowed)) as [Ho|Ho].
    + rewrite !bool_decide_eq_true_2 by done. by rewrite <- Ho.
    + rewrite !bool_decide_eq_false_2 by (done || intros []; congruence). done.
Qed.

(** A panic never escapes.  Behind [Recoverer] a handler that panics before
    it has answered is answered for with a 500, and one that returns is left
    alone. *)
Theorem Recoverer_contains next w r n :
  let s := next w r n in
  let s' := Recoverer (W := W) next w r n in
  s'.(s_panicked) = false ∧ s'.(s_net) = s.(s_net) ∧
  (s.(s_panicked) = false → s' = s) ∧
  (s.(s_panicked) = true → s.(s_writer).(w_sent) = None → status s'.(s_writer) = 500).
Proof.
  intros s s'. unfold s', Recoverer. fold s. destruct (s_panicked s) eqn:Hp; [|by rewrite Hp].
  split_and!; [done..|]. intros _ Hw. by apply status_writeError.
Qed.
End Gates.
