(* ===== verification/Mux.v ===== *)
(** * The router the service is built on: [github.com/go-chi/chi]

    The package is not part of the repository.  A router is data here: the
    endpoints of the root and of the routers mounted under it, with their
    patterns; which of them a method and a path lead to is a parameter with the
    documented behaviour of chi's patterns. *)
From S2P Require Import Prelude GoBase Redis Text Http Url.

(** ** Routers *)

Record endpoint (W : Type) := mkEndpoint { ep_Method : string; ep_Pattern : string; ep_Handler : Handler W }.
Arguments mkEndpoint {W}.
Arguments ep_Method {W}.
Arguments ep_Pattern {W}.
Arguments ep_Handler {W}.

(** [Route(prefix, ...)]: a router mounted under a prefix, with middleware of
    its own. *)
Record subrouter (W : Type) := mkSubrouter {
  sub_Prefix : string;
  sub_Use : Handler W → Handler W;
  sub_Endpoints : list (endpoint W)
}.
Arguments mkSubrouter {W}.
Arguments sub_Prefix {W}.
Arguments sub_Use {W}.
Arguments sub_Endpoints {W}.

Record router (W : Type) := mkRouter {
  root_Use : Handler W → Handler W;
  root_Endpoints : list (endpoint W);
  root_Mounts : list (subrouter W);
  root_NotFound : Handler W
}.
Arguments mkRouter {W}.
Arguments root_Use {W}.
Arguments root_Endpoints {W}.
Arguments root_Mounts {W}.
Arguments root_NotFound {W}.

Definition ep_key {W} (e : endpoint W) : string * string := (e.(ep_Method), e.(ep_Pattern)).

(** ** Patterns

    A name in braces stands for any characters up to the next slash. *)
Fixpoint span_until (stop : ascii) (s : string) : string * string :=
  match s with
  | EmptyString => (EmptyString, s)
  | String c s' =>
      if bool_decide (c = stop) then (EmptyString, s)
      else let '(a, b) := span_until stop s' in (String c a, b)
  end.

Fixpoint match_pattern (pattern path : string) : option (list (string * string)) :=
  match pattern with
  | EmptyString => if bool_decide (path = EmptyString) then Some [] else None
  | String c p =>
      if bool_decide (c = "{"%char) then
        let '(value, rest) := span_until "/" path in
        (fix name (q : string) : option (list (string * string)) :=
           match q with
           | EmptyString => None
           | String c q' =>
               if bool_decide (c = "}"%char)
               then params ← match_pattern q' rest; Some ((EmptyString, value) :: params)
               else params ← name q';
                    match params with
                    | (k, v) :: ps => Some ((String c k, v) :: ps)
                    | [] => None
                    end
           end) p
      else
        match path with
        | String c' s => if bool_decide (c' = c) then match_pattern p s else None
        | EmptyString => None
        end
  end.

Example match_params :
  match_pattern "/policies/{policyID}/deactivate" "/policies/7/deactivate" = Some [("policyID", "7")].
Proof. reflexivity. Qed.

(** A path below a mounted router: the prefix itself, or more after a slash. *)
Definition under (prefix path : string) : bool :=
  bool_decide (path = prefix) || HasPrefix path (prefix +:+ "/").

(** ** Dispatch *)

Inductive target :=
| Found (i : nat) (params : list (string * string))
| NotFound
| NotAllowed.

Inductive answer :=
| Root (t : target)
| Mounted (k : nat) (t : target).

(** The tables of patterns, the method and the path to an answer; and what the
    router writes for a path that has another method. *)
Class ChiRouter := {
  chi_find : list (string * string) → list (string * list (string * string)) → string → string → answer;
  chi_not_allowed : writer → writer
}.

Definition known_methods : list string := ["GET"; "POST"; "PUT"; "DELETE"; "OPTIONS"; "HEAD"; "PATCH"].

(** Documented: an endpoint is reached by its method and a path its pattern
    matches; a mounted router gets the paths below its prefix, and what it does
    not find is refused by it, behind its middleware; a registered method and
    a path that matches with no empty parameter is found. *)
Class ChiLaws `{ChiRouter} : Prop := {
  find_root tbl subs m path i ps :
    chi_find tbl subs m path = Root (Found i ps) →
    ∃ p, tbl !! i = Some (m, p) ∧ match_pattern p path = Some ps;
  find_mounted tbl subs m path k t :
    chi_find tbl subs m path = Mounted k t →
    ∃ prefix eps, subs !! k = Some (prefix, eps) ∧ under prefix path = true ∧
      ∀ i ps, t = Found i ps →
        ∃ p, eps !! i = Some (m, p) ∧ match_pattern (prefix +:+ p) path = Some ps;
  find_below tbl subs m path prefix eps t :
    m ∈ known_methods → (prefix, eps) ∈ subs → under prefix path = true →
    chi_find tbl subs m path = Root t → ∃ i ps, t = Found i ps;
  find_registered tbl subs m path p ps :
    ((m, p) ∈ tbl ∨
     ∃ prefix eps p', (prefix, eps) ∈ subs ∧ (m, p') ∈ eps ∧ p = prefix +:+ p' ∧
       contains "{" prefix = false ∧ HasPrefix p' "/" = true) →
    match_pattern p path = Some ps → Forall (fun kv => kv.2 ≠ EmptyString) ps →
    ∃ i ps', chi_find tbl subs m path = Root (Found i ps') ∨
             ∃ k, chi_find tbl subs m path = Mounted k (Found i ps');
  not_allowed_status w : w.(w_sent) = None → status (chi_not_allowed w) = 405
}.

Definition with_params (ps : list (string * string)) (r : request) : request :=
  mkRequest r.(Method) r.(URLPath) r.(RawQuery) r.(Header) r.(Body) (r.(ctx_URLParams) ++ ps)
    r.(ctx_APIKey).

Lemma with_no_params r : with_params [] r = r.
Proof. destruct r. unfold with_params. cbn. by rewrite app_nil_r. Qed.

Section Serve.
Context {W : Type} `{ChiRouter}.

Definition serve_target (eps : list (endpoint W)) (notFound : Handler W) (t : target) : Handler W :=
  fun w r n =>
  match t with
  | Found i ps =>
      match eps !! i with
      | Some e => e.(ep_Handler) w (with_params ps r) n
      | None => notFound w r n
      end
  | NotFound => notFound w r n
  | NotAllowed => reply (chi_not_allowed w) n
  end.

(** The root's middleware runs for every request, a mounted router's for every
    request below its prefix. *)
Definition ServeHTTP (m : router W) : Handler W :=
  m.(root_Use) (fun w r n =>
    match chi_find (map ep_key m.(root_Endpoints))
            (map (fun s => (s.(sub_Prefix), map ep_key s.(sub_Endpoints))) m.(root_Mounts))
            r.(Method) r.(URLPath) with
    | Root t => serve_target m.(root_Endpoints) m.(root_NotFound) t w r n
    | Mounted k t =>
        match m.(root_Mounts) !! k with
        | Some s => s.(sub_Use) (serve_target s.(sub_Endpoints) m.(root_NotFound) t) w r n
        | None => m.(root_NotFound) w r n
        end
    end).
End Serve.

(** * Patterns that lead to one endpoint

    When no two patterns of a router match the same path with the same method,
    what is registered is what is reached. *)

(** ** What matching a pattern says about the path *)

Lemma match_literal p path ps :
  contains "{" p = false → match_pattern p path = Some ps → path = p ∧ ps = [].
Proof.
  revert path. induction p as [|c p IH]; intros path; cbn [contains match_pattern].
  { intros _. case_bool_decide; [subst|done]. by intros [= <-]. }
  intros [Hc Hp]%orb_false_iff. rewrite Hc. clear Hc. destruct path as [|c' path]; [done|].
  case_bool_decide as Hcc; [subst|done]. intros Hm. by apply (IH path Hp) in Hm as [-> ->].
Qed.

Lemma match_prefix p q path ps :
  contains "{" p = false → match_pattern (p +:+ q) path = Some ps →
  ∃ rest, path = p +:+ rest ∧ match_pattern q rest = Some ps.
Proof.
  revert path. induction p as [|c p IH]; intros path; cbn [contains].
  { intros _. by exists path. }
  intros [Hc Hp]%orb_false_iff. change (String c p +:+ q) with (String c (p +:+ q)).
  cbn [match_pattern]. rewrite Hc. clear Hc. destruct path as [|c' path]; [done|].
  case_bool_decide as Hcc; [subst|done]. intros Hm. destruct (IH path Hp Hm) as (rest & -> & Hr).
  by exists rest.
Qed.

Lemma match_literal_self p : contains "{" p = false → match_pattern p p = Some [].
Proof.
  induction p as [|c p IH]; cbn [contains match_pattern]; [done|].
  intros [Hc Hp]%orb_false_iff. rewrite Hc. clear Hc. rewrite bool_decide_eq_true_2 by done. by apply IH.
Qed.

Lemma match_after_prefix p q rest :
  contains "{" p = false → match_pattern (p +:+ q) (p +:+ rest) = match_pattern q rest.
Proof.
  induction p as [|c p IH]; cbn [contains]; [done|]. intros [Hc Hp]%orb_false_iff.
  change (String c p +:+ q) with (String c (p +:+ q)). change (String c p +:+ rest) with (String c (p +:+ rest)).
  cbn [match_pattern]. rewrite Hc. clear Hc. rewrite bool_decide_eq_true_2 by done. by apply IH.
Qed.

(** A segment is taken whole by a parameter, up to the next slash. *)
Lemma span_segment id rest :
  contains "/" id = false → span_until "/" (id +:+ String "/" rest) = (id, String "/" rest).
Proof.
  induction id as [|c id IH]; cbn [contains]; [done|]. intros [Hc Hi]%orb_false_iff.
  change (String c id +:+ String "/" rest) with (String c (id +:+ String "/" rest)). cbn [span_until].
  rewrite Hc. clear Hc. by rewrite IH.
Qed.

Lemma span_all id : contains "/" id = false → span_until "/" id = (id, EmptyString).
Proof.
  induction id as [|c id IH]; cbn [contains]; [done|]. intros [Hc Hi]%orb_false_iff. cbn [span_until].
  rewrite Hc. clear Hc. by rewrite IH.
Qed.

(** A parameter takes a segment. *)
Lemma match_param name q path :
  contains "}" name = false →
  match_pattern (String "{" (name +:+ String "}" q)) path =
    (let '(value, rest) := span_until "/" path in ps ← match_pattern q rest; Some ((name, value) :: ps)).
Proof.
  intros Hn. cbn [match_pattern]. rewrite bool_decide_eq_true_2 by done. destruct (span_until "/" path) as [value rest].
  induction name as [|c name IH]; [done|]. revert Hn. cbn [contains]. intros [Hc Hn]%orb_false_iff.
  change (String c name +:+ String "}" q) with (String c (name +:+ String "}" q)).
  cbn fix match beta. rewrite Hc. clear Hc. rewrite IH by done. by destruct (match_pattern q rest).
Qed.

Lemma match_param_last name id :
  contains "}" name = false → contains "/" id = false →
  match_pattern (String "{" (name +:+ "}")) id = Some [(name, id)].
Proof. intros Hn Hi. by rewrite match_param, span_all. Qed.

Lemma match_param_then name rest id :
  contains "}" name = false → contains "/" id = false → contains "{" rest = false →
  match_pattern (String "{" (name +:+ String "}" (String "/" rest))) (id +:+ String "/" rest) = Some [(name, id)].
Proof.
  intros Hn Hi Hr. rewrite match_param, span_segment by done. rewrite match_literal_self; [done|].
  cbn [contains]. by rewrite Hr.
Qed.

(** The literal part before the first parameter, and whether there is one. *)
Fixpoint head (p : string) : string :=
  match p with
  | EmptyString => EmptyString
  | String c p => if bool_decide (c = "{"%char) then EmptyString else String c (head p)
  end.

Lemma match_head p path ps : match_pattern p path = Some ps → HasPrefix path (head p) = true.
Proof.
  revert path ps. induction p as [|c p IH]; intros path ps; cbn [match_pattern head]; [done|].
  case_bool_decide as Hc; [done|]. destruct path as [|c' path]; [done|].
  case_bool_decide as Hcc; [subst|done]. intros Hm. cbn [HasPrefix].
  by rewrite bool_decide_eq_true_2, (IH path ps).
Qed.

Lemma prefixes_comparable s p q :
  HasPrefix s p = true → HasPrefix s q = true → HasPrefix p q = true ∨ HasPrefix q p = true.
Proof.
  revert p q. induction s as [|c s IH]; intros [|a p] [|b q]; cbn [HasPrefix]; try (by auto).
  intros [->%bool_decide_eq_true_1 Hp]%andb_true_iff [->%bool_decide_eq_true_1 Hq]%andb_true_iff.
  rewrite !bool_decide_eq_true_2 by done. by apply IH.
Qed.

Lemma HasPrefix_refl p : HasPrefix p p = true.
Proof. induction p as [|c p IH]; [done|]. cbn [HasPrefix]. by rewrite bool_decide_eq_true_2, IH. Qed.

(** No path matches both. *)
Definition patterns_apart (p q : string) : bool :=
  if contains "{" p then
    if contains "{" q then negb (HasPrefix (head p) (head q) || HasPrefix (head q) (head p))
    else negb (HasPrefix q (head p))
  else if contains "{" q then negb (HasPrefix p (head q))
  else negb (bool_decide (p = q)).

Lemma patterns_apart_spec p q path ps qs :
  patterns_apart p q = true → match_pattern p path = Some ps → match_pattern q path = Some qs → False.
Proof.
  unfold patterns_apart. intros Ha Hp Hq.
  destruct (contains "{" p) eqn:Cp, (contains "{" q) eqn:Cq; apply negb_true_iff in Ha.
  - apply orb_false_iff in Ha as [H1 H2].
    destruct (prefixes_comparable path (head p) (head q)) as [H|H]; eauto using match_head; congruence.
  - apply match_head in Hp. apply (match_literal q) in Hq as [-> _]; [|done]. congruence.
  - apply match_head in Hq. apply (match_literal p) in Hp as [-> _]; [|done]. congruence.
  - apply (match_literal p) in Hp as [-> _]; [|done]. apply (match_literal q) in Hq as [-> _]; [|done].
    by rewrite bool_decide_eq_true_2 in Ha.
Qed.

Definition keys_apart (k1 k2 : string * string) : bool :=
  negb (bool_decide (k1.1 = k2.1)) || patterns_apart k1.2 k2.2.

Fixpoint all_apart (l : list (string * string)) : bool :=
  match l with
  | [] => true
  | k :: l => forallb (keys_apart k) l && all_apart l
  end.

Lemma all_apart_lookup l i j m p q path ps qs :
  all_apart l = true → l !! i = Some (m, p) → l !! j = Some (m, q) →
  match_pattern p path = Some ps → match_pattern q path = Some qs → i = j.
Proof.
  intros Hl Hi Hj Hp Hq.
  assert (Hlt : ∀ i j p q ps qs, (i < j)%nat → l !! i = Some (m, p) → l !! j = Some (m, q) →
    match_pattern p path = Some ps → match_pattern q path = Some qs → False).
  { clear -Hl. induction l as [|k l IH]; intros i j p q ps qs Hij Hi Hj Hp Hq; [done|].
    cbn [all_apart] in Hl. apply andb_true_iff in Hl as [Hk Hl].
    destruct j as [|j]; [lia|]. cbn in Hj. destruct i as [|i]; cbn in Hi.
    - injection Hi as ->. rewrite forallb_forall in Hk.
      specialize (Hk (m, q) (proj1 (list_elem_of_In _ _) (list_elem_of_lookup_2 _ _ _ Hj))).
      unfold keys_apart in Hk. cbn in Hk. rewrite bool_decide_eq_true_2 in Hk by done.
      exact (patterns_apart_spec p q path ps qs Hk Hp Hq).
    - apply (IH Hl i j p q ps qs); [lia|done..]. }
  destruct (decide (i < j)%nat) as [H|H]; [exfalso; eauto|].
  destruct (decide (j < i)%nat) as [H'|H']; [exfalso; eauto|lia].
Qed.

(** ** Dispatch *)

Section Dispatch.
Context {W : Type} `{ChiLaws}.

Definition mounted_keys (s : subrouter W) : list (string * string) :=
  map (fun e => (e.(ep_Method), s.(sub_Prefix) +:+ e.(ep_Pattern))) s.(sub_Endpoints).

Definition full_table (m : router W) : list (string * string) :=
  map ep_key m.(root_Endpoints) ++ m.(root_Mounts) ≫= mounted_keys.

(** Where an endpoint of a mounted router is in the full table. *)
Lemma full_table_mounted m k s i e :
  m.(root_Mounts) !! k = Some s → s.(sub_Endpoints) !! i = Some e →
  full_table m !! (length m.(root_Endpoints) + length (take k m.(root_Mounts) ≫= mounted_keys) + i)%nat
    = Some (e.(ep_Method), s.(sub_Prefix) +:+ e.(ep_Pattern)).
Proof.
  intros Hk Hi. unfold full_table. rewrite lookup_app_r, length_map by (rewrite length_map; lia).
  replace (_ + _ + i - _)%nat with (length (take k (root_Mounts m) ≫= mounted_keys) + i)%nat by lia.
  rewrite <- (take_drop_middle _ _ _ Hk) at 2.
  rewrite bind_app, lookup_app_r by lia.
  replace (_ + i - _)%nat with i by lia. rewrite bind_cons, lookup_app_l.
  - unfold mounted_keys. by rewrite list_lookup_fmap, Hi.
  - unfold mounted_keys. rewrite length_map. by apply lookup_lt_Some in Hi.
Qed.

Lemma full_table_root m i e :
  m.(root_Endpoints) !! i = Some e → full_table m !! i = Some (ep_key e).
Proof.
  intros Hi. unfold full_table. rewrite lookup_app_l.
  - by rewrite list_lookup_fmap, Hi.
  - rewrite length_map. by apply lookup_lt_Some in Hi.
Qed.

Lemma offset_lt {A B} (f : A → list B) l k k' a :
  l !! k = Some a → (k < k')%nat →
  (length (take k l ≫= f) + length (f a) ≤ length (take k' l ≫= f))%nat.
Proof.
  revert k k'. induction l as [|b l IH]; intros [|k] [|k'] Hk Hlt; simplify_eq/=; try lia.
  - rewrite length_app. lia.
  - rewrite !length_app. specialize (IH k k' Hk ltac:(lia)). lia.
Qed.

Definition find_in (m : router W) (r : request) : answer :=
  chi_find (map ep_key m.(root_Endpoints))
    (map (fun s => (s.(sub_Prefix), map ep_key s.(sub_Endpoints))) m.(root_Mounts))
    r.(Method) r.(URLPath).

(** What an answer found, as a place in the full table. *)
Lemma found_root m r i ps :
  find_in m r = Root (Found i ps) →
  (i < length m.(root_Endpoints))%nat ∧
  ∃ p, full_table m !! i = Some (r.(Method), p) ∧ match_pattern p r.(URLPath) = Some ps.
Proof.
  intros Hf. apply find_root in Hf as (p & Hi & Hp). rewrite list_lookup_fmap in Hi.
  destruct (root_Endpoints m !! i) as [e|] eqn:He; [|done]. injection Hi as Hi.
  split; [by apply lookup_lt_Some in He|]. exists p.
  split; [|done]. rewrite (full_table_root m i e He). unfold ep_key. congruence.
Qed.

Lemma found_mounted m r k i ps :
  find_in m r = Mounted k (Found i ps) →
  ∃ s e, m.(root_Mounts) !! k = Some s ∧ s.(sub_Endpoints) !! i = Some e ∧ e.(ep_Method) = r.(Method) ∧
    match_pattern (s.(sub_Prefix) +:+ e.(ep_Pattern)) r.(URLPath) = Some ps.
Proof.
  intros Hf. apply find_mounted in Hf as (prefix & eps & Hk & _ & Hfound).
  destruct (Hfound i ps eq_refl) as (p & Hi & Hp). rewrite list_lookup_fmap in Hk.
  destruct (root_Mounts m !! k) as [s|] eqn:Hs; [|done]. injection Hk as <- <-.
  rewrite list_lookup_fmap in Hi. destruct (sub_Endpoints s !! i) as [e|] eqn:He; [|done].
  injection Hi as Hm <-. eauto 10.
Qed.

Lemma find_root_endpoint m r i e ps :
  all_apart (full_table m) = true → m.(root_Endpoints) !! i = Some e → r.(Method) = e.(ep_Method) →
  match_pattern e.(ep_Pattern) r.(URLPath) = Some ps → Forall (fun kv => kv.2 ≠ EmptyString) ps →
  find_in m r = Root (Found i ps).
Proof.
  intros Hall Hi Hm Hp Hne. pose proof (full_table_root m i e Hi) as Ht.
  destruct (find_registered (map ep_key (root_Endpoints m))
    (map (fun s => (sub_Prefix s, map ep_key (sub_Endpoints s))) (root_Mounts m))
    (Method r) (URLPath r) (ep_Pattern e) ps) as (j & ps' & [Hf|[k Hf]]); [|done..| |].
  - left. rewrite Hm. apply list_elem_of_fmap. exists e. split; [done|by eapply list_elem_of_lookup_2].
  - fold (find_in m r) in Hf. destruct (found_root m r j ps' Hf) as (_ & p & Hj & Hp').
    unfold ep_key in Ht. rewrite <- Hm in Ht.
    assert (i = j) as <- by (eapply all_apart_lookup; [exact Hall|exact Ht|exact Hj|done..]).
    rewrite Ht in Hj. injection Hj as <-. rewrite Hp in Hp'. by injection Hp' as <-.
  - fold (find_in m r) in Hf. destruct (found_mounted m r k j ps' Hf) as (s & e' & Hk & Hj & Hm' & Hp').
    pose proof (full_table_mounted m k s j e' Hk Hj) as Ht'. unfold ep_key in Ht.
    rewrite <- Hm in Ht. rewrite Hm' in Ht'.
    assert (Hij := all_apart_lookup _ _ _ _ _ _ _ _ _ Hall Ht Ht' Hp Hp').
    apply lookup_lt_Some in Hi. lia.
Qed.

Lemma find_mounted_endpoint m r k s i e ps :
  all_apart (full_table m) = true → m.(root_Mounts) !! k = Some s → s.(sub_Endpoints) !! i = Some e →
  r.(Method) = e.(ep_Method) → contains "{" s.(sub_Prefix) = false → HasPrefix e.(ep_Pattern) "/" = true →
  match_pattern (s.(sub_Prefix) +:+ e.(ep_Pattern)) r.(URLPath) = Some ps →
  Forall (fun kv => kv.2 ≠ EmptyString) ps →
  find_in m r = Mounted k (Found i ps).
Proof.
  intros Hall Hk Hi Hm Hbrace Hslash Hp Hne. pose proof (full_table_mounted m k s i e Hk Hi) as Ht.
  rewrite <- Hm in Ht.
  destruct (find_registered (map ep_key (root_Endpoints m))
    (map (fun s => (sub_Prefix s, map ep_key (sub_Endpoints s))) (root_Mounts m))
    (Method r) (URLPath r) (sub_Prefix s +:+ ep_Pattern e) ps) as (j & ps' & [Hf|[k' Hf]]); [|done..| |].
  - right. exists (sub_Prefix s), (map ep_key (sub_Endpoints s)), (ep_Pattern e).
    split_and!; [|rewrite Hm|done..].
    + apply list_elem_of_fmap. exists s. split; [done|by eapply list_elem_of_lookup_2].
    + apply list_elem_of_fmap. exists e. split; [done|by eapply list_elem_of_lookup_2].
  - fold (find_in m r) in Hf. destruct (found_root m r j ps' Hf) as (Hlt & p & Hj & Hp').
    assert (Hij := all_apart_lookup _ _ _ _ _ _ _ _ _ Hall Ht Hj Hp Hp'). lia.
  - fold (find_in m r) in Hf. destruct (found_mounted m r k' j ps' Hf) as (s' & e' & Hk' & Hj & Hm' & Hp').
    pose proof (full_table_mounted m k' s' j e' Hk' Hj) as Ht'. rewrite Hm' in Ht'.
    assert (Hij := all_apart_lookup _ _ _ _ _ _ _ _ _ Hall Ht Ht' Hp Hp').
    assert (Hli := lookup_lt_Some _ _ _ Hi). assert (Hlj := lookup_lt_Some _ _ _ Hj).
    assert (Hlen : ∀ s, length (mounted_keys s) = length (sub_Endpoints s)) by
      (intros s0; unfold mounted_keys; by rewrite length_map).
    destruct (lt_eq_lt_dec k k') as [[Hkk| <-]|Hkk].
    + pose proof (offset_lt mounted_keys (root_Mounts m) k k' s Hk Hkk). rewrite Hlen in *. lia.
    + rewrite Hk in Hk'. injection Hk' as <-. assert (i = j) as <- by lia.
      rewrite Hi in Hj. injection Hj as <-. rewrite Hp in Hp'. by injection Hp' as <-.
    + pose proof (offset_lt mounted_keys (root_Mounts m) k' k s' Hk' Hkk). rewrite Hlen in *. lia.
Qed.
End Dispatch.
