(* ===== verification/FirstMatch.v ===== *)
(** * A router that satisfies the laws

    It tries the patterns in the order they were registered.  Nothing is proved
    about the service from it: it shows that the laws of [Mux.v] can hold
    together, and runs the closed examples. *)
From S2P Require Import Prelude GoBase Text Http Url Mux.

(** The first entry of a table, behind a prefix. *)
Fixpoint first_entry (prefix : string) (tbl : list (string * string)) (m path : string)
    : option (nat * list (string * string)) :=
  match tbl with
  | [] => None
  | (m', p) :: tbl =>
      match (if bool_decide (m' = m) then match_pattern (prefix +:+ p) path else None) with
      | Some ps => Some (O, ps)
      | None => prod_map S id <$> first_entry prefix tbl m path
      end
  end.

(** The first mount that [f] accepts. *)
Fixpoint first_mount {A} (f : string * list (string * string) → option A)
    (subs : list (string * list (string * string))) : option (nat * A) :=
  match subs with
  | [] => None
  | s :: subs =>
      match f s with
      | Some a => Some (O, a)
      | None => prod_map S id <$> first_mount f subs
      end
  end.

Definition below (path : string) (s : string * list (string * string)) : option () :=
  if under s.1 path then Some () else None.
Definition entry_below (m path : string) (s : string * list (string * string))
    : option (nat * list (string * string)) :=
  if under s.1 path then first_entry s.1 s.2 m path else None.

Definition first_match tbl subs (m path : string) : answer :=
  match first_entry EmptyString tbl m path with
  | Some (i, ps) => Root (Found i ps)
  | None =>
      match first_mount (entry_below m path) subs with
      | Some (k, (i, ps)) => Mounted k (Found i ps)
      | None =>
          match first_mount (below path) subs with
          | Some (k, _) => Mounted k NotFound
          | None => Root NotFound
          end
      end
  end.

#[export] Instance first_match_router : ChiRouter :=
  { chi_find := first_match; chi_not_allowed := WriteHeader 405 }.

Lemma first_entry_Some prefix tbl m path i ps :
  first_entry prefix tbl m path = Some (i, ps) →
  ∃ p, tbl !! i = Some (m, p) ∧ match_pattern (prefix +:+ p) path = Some ps.
Proof.
  revert i. induction tbl as [|[m' p] tbl IH]; intros i; cbn [first_entry]; [done|].
  case_bool_decide as Hm; [subst; destruct (match_pattern _ path) as [ps'|] eqn:Hp|].
  { intros [= <- <-]. by exists p. }
  all: destruct (first_entry prefix tbl m path) as [[j qs]|]; [|done]; intros [= <- <-]; cbn; by apply IH.
Qed.

Lemma first_entry_None prefix tbl (m path p : string) :
  first_entry prefix tbl m path = None → (m, p) ∈ tbl → match_pattern (prefix +:+ p) path = None.
Proof.
  induction tbl as [|[m' q] tbl IH]; cbn [first_entry]; [by intros _ Hx%elem_of_nil|].
  rewrite elem_of_cons. destruct (if bool_decide (m' = m) then _ else _) as [ps|] eqn:Hif; [done|].
  intros Hn%fmap_None [[= -> ->]|Hin]; [|by apply IH]. by rewrite bool_decide_eq_true_2 in Hif.
Qed.

Lemma first_mount_Some {A} (f : string * list (string * string) → option A) subs k a :
  first_mount f subs = Some (k, a) → ∃ s, subs !! k = Some s ∧ f s = Some a.
Proof.
  revert k. induction subs as [|s subs IH]; intros k; cbn [first_mount]; [done|].
  destruct (f s) as [a'|] eqn:Hf; [intros [= <- <-]; by exists s|].
  destruct (first_mount f subs) as [[j b]|]; [|done]. intros [= <- <-]. by apply IH.
Qed.

Lemma first_mount_None {A} (f : string * list (string * string) → option A) subs s :
  first_mount f subs = None → s ∈ subs → f s = None.
Proof.
  induction subs as [|s' subs IH]; cbn [first_mount]; [by intros _ Hx%elem_of_nil|].
  rewrite elem_of_cons. destruct (f s') eqn:Hf; [done|].
  intros Hn%fmap_None [->|Hin]; [done|by apply IH].
Qed.

Lemma registered_under prefix p path ps :
  contains "{" prefix = false → HasPrefix p "/" = true → match_pattern (prefix +:+ p) path = Some ps →
  under prefix path = true.
Proof.
  intros Hb Hs (rest & -> & Hr)%match_prefix; [|done]. apply HasPrefix_spec in Hs as [q ->].
  change ("/" +:+ q) with (String "/" q) in Hr. cbn [match_pattern] in Hr.
  rewrite bool_decide_eq_false_2 in Hr by done. destruct rest as [|c rest]; [done|].
  case_bool_decide as Hc; [subst c|done]. unfold under.
  change (String "/" rest) with ("/" +:+ rest). rewrite append_assoc, HasPrefix_app. by rewrite orb_true_r.
Qed.

#[export] Instance first_match_laws : ChiLaws.
Proof.
  split; cbn [chi_find first_match_router chi_not_allowed]; unfold first_match.
  - intros tbl subs m path i ps.
    destruct (first_entry _ tbl m path) as [[j qs]|] eqn:He.
    + intros [= <- <-]. by apply first_entry_Some in He.
    + by repeat case_match.
  - intros tbl subs m path k t. destruct (first_entry _ tbl m path) as [[j qs]|]; [done|].
    destruct (first_mount (entry_below m path) subs) as [[k' [i ps]]|] eqn:Hm.
    + intros [= <- <-]. apply first_mount_Some in Hm as ([prefix eps] & Hk & Hf). unfold entry_below in Hf.
      cbn [fst snd] in Hf. destruct (under prefix path) eqn:Hu; [|done]. exists prefix, eps.
      split_and!; [done..|]. intros i' ps' [= <- <-]. by apply first_entry_Some in Hf.
    + destruct (first_mount (below path) subs) as [[k' u]|] eqn:Hb; [|done]. intros [= <- <-].
      apply first_mount_Some in Hb as ([prefix eps] & Hk & Hf). unfold below in Hf. cbn [fst] in Hf.
      exists prefix, eps. destruct (under prefix path); [|done]. by split_and!.
  - intros tbl subs m path prefix eps t _ Hs Hu.
    destruct (first_entry _ tbl m path) as [[j qs]|]; [intros [= <-]; by eexists _, _|].
    destruct (first_mount (entry_below m path) subs) as [[k' [i ps]]|]; [done|].
    destruct (first_mount (below path) subs) as [[k' u]|] eqn:Hb; [done|].
    apply (first_mount_None _ _ _ Hb) in Hs. unfold below in Hs. cbn [fst] in Hs. by rewrite Hu in Hs.
  - intros tbl subs m path p ps Hreg Hp _.
    destruct (first_entry _ tbl m path) as [[j qs]|] eqn:He; [exists j, qs; by left|].
    destruct Hreg as [Hin|(prefix & eps & p' & Hs & Hin & -> & Hb & Hsl)].
    { apply (first_entry_None _ _ _ _ _ He) in Hin. change (EmptyString +:+ p) with p in Hin. congruence. }
    destruct (first_mount (entry_below m path) subs) as [[k' [i qs]]|] eqn:Hm.
    { exists i, qs. right. by exists k'. }
    exfalso. apply (first_mount_None _ _ _ Hm) in Hs. unfold entry_below in Hs. cbn [fst snd] in Hs.
    rewrite (registered_under prefix p' path ps) in Hs by done.
    apply (first_entry_None _ _ _ _ _ Hs) in Hin. congruence.
  - intros w Hw. unfold status, WriteHeader. by rewrite Hw.
Qed.
