(* ===== verification/Handlers.v ===== *)
(** * The admin handlers: [internal/handlers/policies.go] and [api_keys.go]

    Requests are decoded, handed to the services, and their answers and errors
    given a status and a body.  The text of a decoding error belongs to
    [encoding/json]; it is a parameter. *)
From S2P Require Import Prelude GoBase Redis Ids BucketStore Text Json Calendar JsonDecode World Policies Resolver.
From S2P Require Import Auth Http Url Config Middleware.

(** [json.Decoder]'s error for a body it refuses. *)
Class DecodeErrors := decode_error : string → error.

(** [chi.URLParam]: the last parameter of that name in the matched path. *)
Definition URLParam (r : request) (key : string) : string :=
  match filter (fun kv => kv.1 = key) (reverse r.(ctx_URLParams)) with
  | (_, v) :: _ => v
  | [] => EmptyString
  end.

(** A field with [omitempty], absent when nil. *)
Definition omitempty (name : string) (value : option string) : list (string * json) :=
  match value with None => [] | Some s => [(name, JStr s)] end.

Section Common.
Context `{DecodeErrors}.

(** [decodeJSON] into a struct whose fields [set] knows; the decoder refuses
    the others. *)
Definition decodeJSON {T} (zero : T) (set : string → jval → T → option T) (r : request) : result error T :=
  match decode_first zero set r.(Body) with
  | Some t => Ok t
  | None => Err (decode_error r.(Body))
  end.
End Common.

Section Values.
Context `{UuidText}.

Definition pointerStringFromUUID (value : option UUID) : option string :=
  match value with None => None | Some u => Some (uuid_String u) end.

Definition pointerStringFromTime (value : option Time) : option string :=
  match value with None => None | Some t => Some (format_rfc3339 false (time_UTC t)) end.

(** An optional identifier of a request: blank counts as absent. *)
Definition parse_optional_uuid (text : option string) : result error (option UUID) :=
  match text with
  | None => Ok None
  | Some s =>
      if bool_decide (TrimSpace s = EmptyString) then Ok None
      else let? u := uuid_Parse (TrimSpace s) in Ok (Some u)
  end.
End Values.

(** ** [policies.go] *)

Record createPolicyRequest := mkCreatePolicyRequest {
  req_ScopeType : string;
  req_ScopeIdentifier : option string;
  req_RoutePattern : option string;
  req_Capacity : Z;
  req_RefillTokens : Z;
  req_RefillIntervalSeconds : Z
}.

Definition zero_createPolicyRequest : createPolicyRequest :=
  mkCreatePolicyRequest EmptyString None None 0 0 0.

Definition set_create_policy_field (name : string) (v : jval) (r : createPolicyRequest)
    : option createPolicyRequest :=
  let 'mkCreatePolicyRequest ty sid route cap tok secs := r in
  if bool_decide (name = "SCOPE_TYPE") then
    x ← decode_string ty v; Some (mkCreatePolicyRequest x sid route cap tok secs)
  else if bool_decide (name = "SCOPE_IDENTIFIER") then
    x ← decode_pointer EmptyString decode_string sid v;
    Some (mkCreatePolicyRequest ty x route cap tok secs)
  else if bool_decide (name = "ROUTE_PATTERN") then
    x ← decode_pointer EmptyString decode_string route v;
    Some (mkCreatePolicyRequest ty sid x cap tok secs)
  else if bool_decide (name = "CAPACITY") then
    x ← decode_int32 cap v; Some (mkCreatePolicyRequest ty sid route x tok secs)
  else if bool_decide (name = "REFILL_TOKENS") then
    x ← decode_int32 tok v; Some (mkCreatePolicyRequest ty sid route cap x secs)
  else if bool_decide (name = "REFILL_INTERVAL_SECONDS") then
    x ← decode_int32 secs v; Some (mkCreatePolicyRequest ty sid route cap tok x)
  else None.

Record policyResponse := mkPolicyResponse {
  resp_ID : string;
  resp_ScopeType : string;
  resp_ScopeIdentifier : option string;
  resp_RoutePattern : option string;
  resp_Capacity : Z;
  resp_RefillTokens : Z;
  resp_RefillIntervalSeconds : Z;
  resp_IsActive : bool;
  resp_CreatedAt : string;
  resp_UpdatedAt : string
}.

Definition policyResponse_json (p : policyResponse) : json :=
  JObj ([("id", JStr p.(resp_ID)); ("scope_type", JStr p.(resp_ScopeType))] ++
        omitempty "scope_identifier" p.(resp_ScopeIdentifier) ++
        omitempty "route_pattern" p.(resp_RoutePattern) ++
        [("capacity", JInt p.(resp_Capacity)); ("refill_tokens", JInt p.(resp_RefillTokens));
         ("refill_interval_seconds", JInt p.(resp_RefillIntervalSeconds));
         ("is_active", JBool p.(resp_IsActive)); ("created_at", JStr p.(resp_CreatedAt));
         ("updated_at", JStr p.(resp_UpdatedAt))]).

Section Policies.
Context {D : Type} `{UuidText} `{DecodeErrors}.
Context (service : Service (world D)).

Definition policyResponseFromDomain (policy : Policy) : policyResponse := {|
  resp_ID := uuid_String policy.(pol_ID);
  resp_ScopeType := policy.(pol_ScopeType);
  resp_ScopeIdentifier := pointerStringFromUUID policy.(pol_ScopeIdentifier);
  resp_RoutePattern := policy.(pol_RoutePattern);
  resp_Capacity := policy.(pol_Capacity);
  resp_RefillTokens := policy.(pol_RefillTokens);
  resp_RefillIntervalSeconds := policy.(pol_RefillIntervalSeconds);
  resp_IsActive := policy.(pol_IsActive);
  resp_CreatedAt := format_rfc3339 false policy.(pol_CreatedAt);
  resp_UpdatedAt := format_rfc3339 false policy.(pol_UpdatedAt)
|}.

Definition policy_body (policy : Policy) : json :=
  JObj (go_map [("policy", policyResponse_json (policyResponseFromDomain policy))]).

(** The errors that say the input is wrong. *)
Definition invalid_policy (err : error) : bool :=
  errors_Is err ErrInvalidScopeType || errors_Is err ErrInvalidScopeShape ||
  errors_Is err ErrInvalidRoutePattern || errors_Is err ErrInvalidCapacity ||
  errors_Is err ErrInvalidRefillTokens || errors_Is err ErrInvalidRefillInterval ||
  errors_Is err ErrScopedAPIKeyNotFound.

Definition write_create_error (err : error) (w : writer) : writer :=
  if invalid_policy err then WriteBadRequest "invalid_policy" (error_text err) w
  else if errors_Is err ErrPolicyConflict
  then WriteConflict "policy_conflict" "an active policy already exists for that scope" w
  else WriteInternalServerError w.

Definition write_update_error (err : error) (w : writer) : writer :=
  if errors_Is err ErrPolicyNotFound then WriteNotFound w else write_create_error err w.

Definition PoliciesHandler_Create : Handler (world D) := fun w r n =>
  match decodeJSON zero_createPolicyRequest set_create_policy_field r with
  | Err err => reply (WriteBadRequest "invalid_request" (error_text err) w) n
  | Ok request =>
      match parse_optional_uuid request.(req_ScopeIdentifier) with
      | Err _ =>
          reply (WriteBadRequest "invalid_scope_identifier" "scope_identifier must be a valid UUID" w) n
      | Ok scopeIdentifier =>
          let '(res, n) := Create service {|
            in_ScopeType := request.(req_ScopeType);
            in_ScopeIdentifier := scopeIdentifier;
            in_RoutePattern := request.(req_RoutePattern);
            in_Capacity := request.(req_Capacity);
            in_RefillTokens := request.(req_RefillTokens);
            in_RefillIntervalSeconds := request.(req_RefillIntervalSeconds)
          |} n in
          match res with
          | Err err => reply (write_create_error err w) n
          | Ok created => reply (writeJSON StatusCreated (Some (policy_body created)) w) n
          end
      end
  end.

Definition PoliciesHandler_List : Handler (world D) := fun w r n =>
  let '(res, n) := Policies.List service n in
  match res with
  | Err _ => reply (WriteInternalServerError w) n
  | Ok items =>
      let response := map (fun item => policyResponse_json (policyResponseFromDomain item)) items in
      reply (writeJSON StatusOK (Some (JObj (go_map [("policies", JArr response)]))) w) n
  end.

Definition PoliciesHandler_Update : Handler (world D) := fun w r n =>
  match uuid_Parse (URLParam r "policyID") with
  | Err _ => reply (WriteBadRequest "invalid_policy_id" "policyID must be a valid UUID" w) n
  | Ok policyID =>
      match decodeJSON zero_createPolicyRequest set_create_policy_field r with
      | Err err => reply (WriteBadRequest "invalid_request" (error_text err) w) n
      | Ok request =>
          match parse_optional_uuid request.(req_ScopeIdentifier) with
          | Err _ =>
              reply (WriteBadRequest "invalid_scope_identifier" "scope_identifier must be a valid UUID" w) n
          | Ok scopeIdentifier =>
              let '(res, n) := Update service policyID {|
                up_ScopeType := request.(req_ScopeType);
                up_ScopeIdentifier := scopeIdentifier;
                up_RoutePattern := request.(req_RoutePattern);
                up_Capacity := request.(req_Capacity);
                up_RefillTokens := request.(req_RefillTokens);
                up_RefillIntervalSeconds := request.(req_RefillIntervalSeconds)
              |} n in
              match res with
              | Err err => reply (write_update_error err w) n
              | Ok updated => reply (writeJSON StatusOK (Some (policy_body updated)) w) n
              end
          end
      end
  end.

Definition PoliciesHandler_Deactivate : Handler (world D) := fun w r n =>
  match uuid_Parse (URLParam r "policyID") with
  | Err _ => reply (WriteBadRequest "invalid_policy_id" "policyID must be a valid UUID" w) n
  | Ok policyID =>
      let '(res, n) := Deactivate service policyID n in
      match res with
      | Err err =>
          if errors_Is err ErrPolicyNotFound then reply (WriteNotFound w) n
          else reply (WriteInternalServerError w) n
      | Ok policy => reply (writeJSON StatusOK (Some (policy_body policy)) w) n
      end
  end.
End Policies.

(** ** [api_keys.go] *)

Record createAPIKeyRequest := mkCreateAPIKeyRequest { req_Name : string; req_UserID : option string }.

Definition zero_createAPIKeyRequest : createAPIKeyRequest := mkCreateAPIKeyRequest EmptyString None.

Definition set_create_key_field (name : string) (v : jval) (r : createAPIKeyRequest)
    : option createAPIKeyRequest :=
  let 'mkCreateAPIKeyRequest nm user := r in
  if bool_decide (name = "NAME") then x ← decode_string nm v; Some (mkCreateAPIKeyRequest x user)
  else if bool_decide (name = "USER_ID") then
    x ← decode_pointer EmptyString decode_string user v; Some (mkCreateAPIKeyRequest nm x)
  else None.

Record apiKeyResponse := mkApiKeyResponse {
  kr_ID : string;
  kr_UserID : option string;
  kr_Name : string;
  kr_KeyPrefix : string;
  kr_IsActive : bool;
  kr_CreatedAt : string;
  kr_LastUsedAt : option string
}.

Definition apiKeyResponse_json (k : apiKeyResponse) : json :=
  JObj ([("id", JStr k.(kr_ID))] ++ omitempty "user_id" k.(kr_UserID) ++
        [("name", JStr k.(kr_Name)); ("key_prefix", JStr k.(kr_KeyPrefix));
         ("is_active", JBool k.(kr_IsActive)); ("created_at", JStr k.(kr_CreatedAt))] ++
        omitempty "last_used_at" k.(kr_LastUsedAt)).

Section APIKeys.
Context {D : Type} `{UuidText} `{DecodeErrors}.
Context (service : APIKeyService (world D)).

Definition apiKeyResponseFromDomain (apiKey : APIKey) : apiKeyResponse := {|
  kr_ID := uuid_String apiKey.(key_ID);
  kr_UserID := pointerStringFromUUID apiKey.(key_UserID);
  kr_Name := apiKey.(key_Name);
  kr_KeyPrefix := apiKey.(key_KeyPrefix);
  kr_IsActive := apiKey.(key_IsActive);
  kr_CreatedAt := format_rfc3339 false apiKey.(key_CreatedAt);
  kr_LastUsedAt := pointerStringFromTime apiKey.(key_LastUsedAt)
|}.

Definition key_body (apiKey : APIKey) : json := apiKeyResponse_json (apiKeyResponseFromDomain apiKey).

(** The secret is what the system's random source gives. *)
Definition APIKeysHandler_Create (secret : net (world D) → ApiKeys.entropy) : Handler (world D) :=
  fun w r n =>
  match decodeJSON zero_createAPIKeyRequest set_create_key_field r with
  | Err err => reply (WriteBadRequest "invalid_request" (error_text err) w) n
  | Ok request =>
      match parse_optional_uuid request.(req_UserID) with
      | Err _ => reply (WriteBadRequest "invalid_user_id" "user_id must be a valid UUID" w) n
      | Ok userID =>
          let '(res, n) := CreateKey service (secret n) (mkCreateAPIKeyInput request.(req_Name) userID) n in
          match res with
          | Err err =>
              reply
                (if errors_Is err ErrInvalidAPIKeyName
                 then WriteBadRequest "invalid_api_key_name" (error_text err) w
                 else if errors_Is err ErrUserNotFound
                 then WriteBadRequest "user_not_found" "user_id does not reference an existing user" w
                 else WriteInternalServerError w) n
          | Ok created =>
              reply (writeJSON StatusCreated (Some (JObj (go_map
                [("api_key", key_body created.(created_APIKey)); ("raw_key", JStr created.(RawKey))]))) w) n
          end
      end
  end.

Definition APIKeysHandler_List : Handler (world D) := fun w r n =>
  let '(res, n) := ListKeys service n in
  match res with
  | Err _ => reply (WriteInternalServerError w) n
  | Ok apiKeys =>
      reply (writeJSON StatusOK (Some (JObj (go_map [("api_keys", JArr (map key_body apiKeys))]))) w) n
  end.

Definition APIKeysHandler_Deactivate : Handler (world D) := fun w r n =>
  match uuid_Parse (URLParam r "apiKeyID") with
  | Err _ => reply (WriteBadRequest "invalid_api_key_id" "apiKeyID must be a valid UUID" w) n
  | Ok apiKeyID =>
      let '(res, n) := DeactivateKey service apiKeyID n in
      match res with
      | Err err =>
          if errors_Is err ErrAPIKeyNotFound then reply (WriteNotFound w) n
          else reply (WriteInternalServerError w) n
      | Ok apiKey => reply (writeJSON StatusOK (Some (JObj (go_map [("api_key", key_body apiKey)]))) w) n
      end
  end.
End APIKeys.

(** * The read-only handlers

    [internal/handlers/inspector.go], [metrics.go], [public_config.go],
    [health.go] and the placeholders of [stub.go]. *)

Section Inspect.
Context {W : Type} `{UuidText}.

(** ** [inspector.go] *)

Definition BucketSnapshotReader : Type :=
  BucketRef → net W → result error (option BucketSnapshot) * net W.

Record InspectorHandler := mkInspectorHandler {
  ins_resolver : EffectivePolicyResolver (W := W);
  ins_buckets : BucketSnapshotReader
}.

(** The input, or the refusal already written. *)
Definition inspectorInputFromRequest (w : writer) (r : request)
    : result writer (ResolveInput * option UUID) :=
  let query := Query r.(RawQuery) in
  let routeID := TrimSpace (values_Get query "route_id") in
  if bool_decide (routeID = EmptyString)
  then Err (WriteBadRequest "missing_route_id" "route_id is required" w)
  else
    let rawAPIKeyID := TrimSpace (values_Get query "api_key_id") in
    if bool_decide (rawAPIKeyID = EmptyString) then Ok (mkResolveInput None routeID, None)
    else
      match uuid_Parse rawAPIKeyID with
      | Err _ => Err (WriteBadRequest "invalid_api_key_id" "api_key_id must be a valid UUID" w)
      | Ok parsed => Ok (mkResolveInput (Some parsed) routeID, Some parsed)
      end.

Definition writeResolveError (w : writer) (err : error) : writer :=
  if errors_Is err ErrInvalidRouteID then WriteBadRequest "invalid_route_id" (error_text err) w
  else WriteInternalServerError w.

(** A nil pointer is [null]. *)
Definition pointer_json (value : option string) : json :=
  match value with None => JNull | Some s => JStr s end.

(** The map; without a resolution, nothing was found. *)
Definition effectivePolicyResponse (routeID : string) (apiKeyID : option UUID)
    (found : option Resolution) : list (string * json) :=
  let response := go_map [("found", JBool (bool_decide (is_Some found))); ("route_id", JStr routeID)] in
  let response :=
    match apiKeyID with
    | Some id => map_set "api_key_id" (JStr (uuid_String id)) response
    | None => response
    end in
  match found with
  | Some resolution =>
      map_set "policy" (policyResponse_json (policyResponseFromDomain resolution.(res_Policy)))
        (map_set "matched_route_pattern" (pointer_json resolution.(MatchedRoutePattern))
           (map_set "matched_scope_identifier"
              (pointer_json (pointerStringFromUUID resolution.(MatchedScopeIdentifier)))
              (map_set "matched_scope_type" (JStr resolution.(MatchedScopeType)) response)))
  | None => map_set "policy" JNull response
  end.

Definition InspectorHandler_EffectivePolicy (h : InspectorHandler) : Handler W := fun w r n =>
  match inspectorInputFromRequest w r with
  | Err w => reply w n
  | Ok (input, apiKeyID) =>
      let '(res, n) := h.(ins_resolver) input n in
      match res with
      | Err err => reply (writeResolveError w err) n
      | Ok found =>
          reply (writeJSON StatusOK
            (Some (JObj (effectivePolicyResponse input.(RouteID) apiKeyID found))) w) n
      end
  end.

Definition snapshot_json (snapshot : BucketSnapshot) : json :=
  JObj (go_map [("key", JStr snapshot.(snap_Key));
                ("tokens_remaining", JInt snapshot.(snap_TokensRemaining));
                ("last_refill_unix_ms", JInt snapshot.(snap_LastRefillUnixMs));
                ("last_refill_at",
                   JStr (format_rfc3339 false (of_UnixMilli snapshot.(snap_LastRefillUnixMs))))]).

Definition InspectorHandler_Bucket (h : InspectorHandler) : Handler W := fun w r n =>
  match inspectorInputFromRequest w r with
  | Err w => reply w n
  | Ok (input, apiKeyID) =>
      let '(res, n) := h.(ins_resolver) input n in
      match res with
      | Err err => reply (writeResolveError w err) n
      | Ok found =>
          let response := effectivePolicyResponse input.(RouteID) apiKeyID found in
          match found with
          | None =>
              let response := map_set "bucket" JNull (map_set "bucket_found" (JBool false) response) in
              reply (writeJSON StatusOK (Some (JObj response)) w) n
          | Some resolution =>
              let ref := bucketRefFromResolution resolution in
              let '(res, n) := h.(ins_buckets) ref n in
              match res with
              | Err _ => reply (WriteInternalServerError w) n
              | Ok snapshot =>
                  let response :=
                    map_set "bucket_found" (JBool (bool_decide (is_Some snapshot)))
                      (map_set "bucket_key" (JStr (BucketKey ref)) response) in
                  let response :=
                    map_set "bucket" (match snapshot with Some s => snapshot_json s | None => JNull end)
                      response in
                  reply (writeJSON StatusOK (Some (JObj response)) w) n
              end
          end
      end
  end.

(** ** [metrics.go] *)

Definition SummaryMetricsReader : Type := net W → result error SummaryMetrics * net W.

Definition MetricsHandler_Summary (reader : SummaryMetricsReader) : Handler W := fun w r n =>
  let '(res, n) := reader n in
  match res with
  | Err _ => reply (WriteInternalServerError w) n
  | Ok summary =>
      reply (writeJSON StatusOK (Some (JObj (go_map [("metrics", JObj (go_map
        [("allowed_requests", JInt summary.(AllowedRequests));
         ("blocked_requests", JInt summary.(BlockedRequests))]))]))) w) n
  end.

(** ** [public_config.go] *)

Definition PublicConfigHandler_Show (demoConfig : DemoConfig)
    (resolver : option (ProtectedAPIKeyResolver (W := W))) : Handler W := fun w r n =>
  let response := go_map
    [("public_demo_mode", JBool demoConfig.(PublicMode));
     ("admin_mutations_enabled", JBool (negb demoConfig.(PublicMode)));
     ("demo_api_key", JNull)] in
  let ok response n := reply (writeJSON StatusOK (Some (JObj response)) w) n in
  match resolver with
  | None => ok response n
  | Some resolve =>
      if negb demoConfig.(PublicMode) then ok response n
      else
        let rawKey := TrimSpace demoConfig.(RawAPIKey) in
        if bool_decide (rawKey = EmptyString) then ok response n
        else
          let '(res, n) := resolve rawKey n in
          match res with
          | Ok apiKey =>
              ok (map_set "demo_api_key" (JObj (go_map
                [("id", JStr (uuid_String apiKey.(key_ID))); ("name", JStr apiKey.(key_Name));
                 ("key_prefix", JStr apiKey.(key_KeyPrefix)); ("is_active", JBool apiKey.(key_IsActive));
                 ("created_at", JStr (format_rfc3339 false (time_UTC apiKey.(key_CreatedAt))));
                 ("raw_key", JStr rawKey)])) response) n
          | Err err =>
              if errors_Is err ErrAPIKeyNotFound || errors_Is err ErrInvalidRawAPIKey
              then ok response n
              else reply (WriteInternalServerError w) n
          end
  end.

(** ** [health.go] *)

Definition HealthHandler_Live (startedAt : Time) (version : string) : Handler W := fun w r n =>
  reply (writeJSON StatusOK (Some (JObj (go_map
    [("status", JStr "ok"); ("service", JStr "distributed-rate-limiter"); ("version", JStr version);
     ("started_at", JStr (format_rfc3339 false startedAt))]))) w) n.

(** ** [stub.go] *)

Definition StubHandler_AdminPing : Handler W := fun w r n =>
  reply (writeJSON StatusOK (Some (JObj (go_map
    [("status", JStr "ok");
     ("message", JStr "admin surface is wired; CRUD handlers will be added in the next chunks")]))) w) n.

Definition StubHandler_NotImplemented (feature : string) : Handler W := fun w r n =>
  reply (writeError StatusNotImplemented "not_implemented"
    (feature +:+ " is scaffolded but not implemented yet") w) n.

Definition StubHandler_ProtectedRoute (routeID : string) (cost : Z) : Handler W := fun w r n =>
  reply (writeJSON StatusOK (Some (JObj (go_map
    [("status", JStr "scaffold"); ("route_id", JStr routeID); ("cost", JInt cost);
     ("message",
        JStr "protected endpoint scaffold is online; API key auth and rate limiting will be wired in later chunks")]))) w) n.
End Inspect.
