(* ===== verification/Protected.v ===== *)
(** * The protected routes

    [internal/routes/registry.go], the handler [internal/handlers/protected.go]
    and the chain that [routes.New] builds in front of it: authenticate, limit,
    serve. *)
From S2P Require Import Prelude GoBase Ids Text ApiKeys TokenBucket Redis BucketStore Database World.
From S2P Require Import Policies Projection Resolver Auth AuditLog Json Calendar Http Middleware.

(** ** [registry.go] *)

Definition RouteIDPing : string := "ping".
Definition RouteIDOrders : string := "orders".
Definition RouteIDReport : string := "report".
Definition RouteAll : string := "ALL".

Record ProtectedRouteDefinition := mkProtectedRoute {
  route_ID : string;
  route_Method : string;
  route_Path : string;
  route_Cost : Z
}.

Definition protectedRouteDefinitions : list ProtectedRouteDefinition :=
  [ mkProtectedRoute RouteIDPing "GET" "/api/protected/ping" 1;
    mkProtectedRoute RouteIDOrders "POST" "/api/protected/orders" 2;
    mkProtectedRoute RouteIDReport "GET" "/api/protected/report" 5 ].

(** A fresh copy of the list. *)
Definition ProtectedRoutes : list ProtectedRouteDefinition := protectedRouteDefinitions.

(** ** [protected.go]

    [time.Now()] and [uuid.New()] are what the environment shows at that point of
    the run. *)
Class ServeEnv (W : Type) := { now_served : net W → Time; uuid_New : net W → UUID }.

Section Handler.
Context {W : Type} `{ServeEnv W} `{UuidText}.

(** The zero key when the context has none. *)
Definition ProtectedHandler_Route (routeID : string) (cost : Z) : Handler W := fun w r n =>
  let apiKey := default zero_APIKey (APIKeyFromContext r) in
  let base := [("route_id", JStr routeID); ("request_cost", JInt cost);
               ("api_key_id", JStr (uuid_String apiKey.(key_ID))); ("served_at", JStr (format_rfc3339 false (time_UTC (now_served n))))] in
  let '(status, extra) :=
    if bool_decide (routeID = "ping") then (StatusOK, [("message", JStr "pong")])
    else if bool_decide (routeID = "orders") then
      (StatusCreated, [("message", JStr "order accepted"); ("order_id", JStr (uuid_String (uuid_New n)))])
    else if bool_decide (routeID = "report") then
      (StatusOK, [("message", JStr "report generated"); ("report_id", JStr (uuid_String (uuid_New n)))])
    else (StatusOK, [("message", JStr "protected endpoint served")]) in
  reply (writeJSON status (Some (JObj (go_map (base ++ extra)))) w) n.
End Handler.

(** ** The chain of [routes.New] *)

Section Chain.
Context {D : Type} `{RedisServer D} `{UuidText}.

(** The services behind the protected routes: the cache's time to live, the
    codec of the keys and the bucket store. *)
Record services := mkServices {
  svc_codec : APIKeyCodec;
  svc_cache_ttl : Duration;
  svc_buckets : BucketStore
}.

Definition protected_gate (svc : services) (time_Now : Clock (W := world D))
    (definition : ProtectedRouteDefinition) (next : Handler (world D)) : Handler (world D) :=
  APIKeyAuth
    (ResolveActiveByRawKey (NewAPIKeyService svc.(svc_codec) (Some (NewAPIKeyAuthCache svc.(svc_cache_ttl)))))
    (EnforceRateLimit definition.(route_ID) definition.(route_Cost)
       (Resolve (NewResolver (Some GetProjectedPolicy)))
       (Consume svc.(svc_buckets)) (Some LogBlocked) time_Now (Some time_Now) next).

Definition protected_route `{ServeEnv (world D)} (svc : services)
    (time_Now : Clock (W := world D)) (definition : ProtectedRouteDefinition) : Handler (world D) :=
  protected_gate svc time_Now definition
    (ProtectedHandler_Route definition.(route_ID) definition.(route_Cost)).
End Chain.
