(* ===== verification/ReadOnly.v ===== *)
(** * What the operations of the request path leave alone

    Reads leave everything alone; the writes of the request path go to the
    buckets, the counters, the audit log and the cache of keys.  So the
    administered tables and the projection stay as they are, whatever fails. *)
From S2P Require Import Prelude GoBase Ids Text ApiKeys TokenBucket Redis BucketStore Database Queries World.
From S2P Require Import Policies PolicyJson Projection Resolver Auth AuditLog Config Http Url JsonDecode Keeps.
From S2P Require Import Middleware Handlers Protected.

(** ** Any part of the stores *)

Section Parts.
Context {D : Type} `{RL : RedisLaws D} `{UuidText} (R : relation (world D)) `{!PreOrder R}.

Lemma keeps_read {A} (st : statement A) : (∀ db, (st db).2 = db) → keeps R (sql st).
Proof. intros Hst. apply keeps_sql; [done|]. intros [d db]. by rewrite Hst. Qed.

Lemma keeps_GetProjectedPolicy t i p : keeps R (GetProjectedPolicy t i p).
Proof. unfold GetProjectedPolicy. keep. Qed.

Lemma keeps_first_found cs : keeps R (first_found GetProjectedPolicy cs).
Proof.
  induction cs as [|c cs IH]; [by apply keeps_ret|]. cbn [first_found].
  apply keeps_bind; [done|apply keeps_GetProjectedPolicy|]. keep.
Qed.

Lemma keeps_Resolve input : keeps R (Resolve (NewResolver (Some GetProjectedPolicy)) input).
Proof.
  unfold Resolve. cbn [NewResolver mbind option_bind reader]. keep. apply keeps_first_found.
Qed.

Lemma keeps_cache_GetByHash h : keeps R (cache_GetByHash h).
Proof. unfold cache_GetByHash. keep. Qed.

(** Part of the stores no bucket is in. *)
Lemma keeps_Consume s ref cfg cost now :
  (∀ dec w, R w (exec_cmds (consume_cmds (bucketKey ref) dec) w)) → keeps R (Consume s ref cfg cost now).
Proof.
  intros Hcmds. unfold Consume. induction (Z.to_nat (maxRetries s)) as [|m IH]; cbn [consume_attempts]; [keep|].
  intros n Hn. assert (Hw : kept R n
    (redis_Watch (bucketKey ref) (consume_tx (bucketKey ref) cfg cost (time_UTC now)) n).2).
  { apply keeps_redis_Watch; [done| |done]. intros st. unfold consume_tx.
    apply keeps_bind; [done|unfold readBucketState; keep|].
    intros r. destruct (let? state := r in _); [|keep].
    apply keeps_bind; [done| |keep]. by apply keeps_redis_exec. }
  destruct (redis_Watch _ _ n) as [[dec|e] n1]; [exact Hw|]. cbn [snd] in Hw.
  destruct (errors_Is e _); [|exact Hw].
  apply (kept_trans R n n1); [exact Hw|]. intros Hn1. by apply IH.
Qed.

(** Part of the stores the audit log is not in. *)
Lemma keeps_LogBlocked b :
  (∀ arg w, R w (mkWorld w.(redis) (CreateRequestAuditLog arg w.(pg)).2)) → keeps R (LogBlocked b).
Proof.
  intros Hlog. unfold LogBlocked. apply keeps_bind; [done| |keep]. by apply keeps_sql.
Qed.
(** Part of the stores a filled cache leaves alone. *)
Lemma keeps_resolution c ttl raw :
  (∀ h k, keeps R (cache_SetByHash ttl h k)) →
  keeps R (ResolveActiveByRawKey (NewAPIKeyService c (Some (NewAPIKeyAuthCache ttl))) raw).
Proof.
  intros Hset.
  unfold ResolveActiveByRawKey. cbn [NewAPIKeyService cache].
  case_bool_decide; [keep|]. apply keeps_bind; [done|apply keeps_cache_GetByHash|].
  intros r. assert (Hdb : keeps R (λ n, let '(r, n) := sql (GetAPIKeyByHash (Hash c (TrimSpace raw))) n in
      match r with
      | Ok record =>
          let '(_, n) := cache_SetByHash ttl (Hash c (TrimSpace raw)) (apiKeyFromRecord record) n in
          (Ok (apiKeyFromRecord record), n)
      | Err err => (Err (if errors_Is err pgx_ErrNoRows then ErrAPIKeyNotFound
                         else Wrapf "resolve api key" err), n)
      end)).
  { apply keeps_bind; [done|by apply keeps_read|]. intros [rec|e]; [|keep].
    apply keeps_bind; [done|apply Hset|keep]. }
  destruct r as [[k|]|e]; [keep|exact Hdb..].
Qed.
End Parts.

(** ** The administered tables and the projection *)

Section ReadOnly.
Context {D : Type} `{RL : RedisLaws D} `{UuidText}.
Implicit Types (w : world D).

Definition policy_key (k : string) : bool := HasPrefix k "ratelimit:policy:".

(** The tables the admin surface writes, and the projection of the policies. *)
Record same_admin w w' : Prop := {
  sa_users : w'.(pg).(users) = w.(pg).(users);
  sa_keys : w'.(pg).(api_keys) = w.(pg).(api_keys);
  sa_policies : w'.(pg).(rate_limit_policies) = w.(pg).(rate_limit_policies);
  sa_projection k : policy_key k = true → same_key k w.(redis) w'.(redis)
}.

#[export] Instance same_admin_preorder : PreOrder same_admin.
Proof.
  split.
  - intros w. by split.
  - intros w1 w2 w3 [H1 H2 H3 H4] [I1 I2 I3 I4]. split; try congruence.
    intros k Hk. etransitivity; [by apply H4|by apply I4].
Qed.

Lemma same_admin_cmds cs w :
  Forall (fun c => ∀ k, policy_key k = true → k ∉ touched c) cs → same_admin w (exec_cmds cs w).
Proof.
  intros Hcs. rewrite exec_world. split; [done..|]. intros k Hk. cbn [redis].
  apply exec_frame. eapply list.Forall_impl; [exact Hcs|]. intros c Hc. by apply Hc.
Qed.

Lemma not_policy_key k s : policy_key k = true → policy_key s = false → k ≠ s.
Proof. intros Hk Hs ->. congruence. Qed.

Lemma consume_same_admin ref dec w : same_admin w (exec_cmds (consume_cmds (bucketKey ref) dec) w).
Proof.
  apply same_admin_cmds. repeat constructor; intros k Hk; apply not_in_one, not_policy_key; done.
Qed.

Lemma log_same_admin arg w : same_admin w (mkWorld w.(redis) (CreateRequestAuditLog arg w.(pg)).2).
Proof. unfold CreateRequestAuditLog. repeat case_match; by split. Qed.

Lemma keeps_cache_SetByHash ttl h k : keeps same_admin (cache_SetByHash ttl h k).
Proof.
  unfold cache_SetByHash. destruct (Marshal k); [|keep]. apply keeps_command; [apply _|].
  intros w. apply same_admin_cmds. repeat constructor. intros x Hx. by apply not_in_one, not_policy_key.
Qed.

Lemma keeps_ResolveActiveByRawKey c ttl raw :
  keeps same_admin (ResolveActiveByRawKey (NewAPIKeyService c (Some (NewAPIKeyAuthCache ttl))) raw).
Proof. apply keeps_resolution; [apply _|]. intros h k. apply keeps_cache_SetByHash. Qed.
End ReadOnly.
