(* ===== verification/Routes.v ===== *)
(** * The routes: [internal/routes/routes.go] *)
From S2P Require Import Prelude GoBase Ids Text ApiKeys TokenBucket Redis BucketStore Database World.
From S2P Require Import Policies Projection Resolver Auth AuditLog Config Http Url Middleware Mux.
From S2P Require Import Handlers Protected.

(** What the system gives the handlers besides time and identifiers. *)
Class RandomSource (W : Type) := random_secret : net W → entropy.

Section Routes.
Context {D : Type} `{UuidText} `{DecodeErrors} `{ChiRouter} `{ServeEnv (world D)} `{RandomSource (world D)}.

Implicit Type cfg : AppConfig.

(** A nil pointer is [None].  The auditor is always there: a nil
    [*audit.Service] would not be nil as an interface. *)
Record Dependencies := mkDependencies {
  dep_PublicConfig : option (DemoConfig * option (ProtectedAPIKeyResolver (W := world D)));
  dep_APIKeys : option (APIKeyService (world D));
  dep_Policies : option (Service (world D));
  dep_Inspector : option (InspectorHandler (W := world D));
  dep_Metrics : option (SummaryMetricsReader (W := world D));
  dep_Protected : option unit;
  dep_BlockedAuditor : BlockedRequestAuditor (W := world D);
  dep_ProtectedAPIKeys : option (ProtectedAPIKeyResolver (W := world D));
  dep_PolicyResolver : option (EffectivePolicyResolver (W := world D));
  dep_BucketStore : option (BucketConsumer (W := world D))
}.

Definition demoModeDisabled (feature : string) : Handler (world D) := fun w r n =>
  reply (WriteForbidden "demo_mode_read_only" (feature +:+ " is disabled in public demo mode") w) n.

Abbreviation NotImplemented := StubHandler_NotImplemented.

Definition list_policies_endpoint (deps : Dependencies) (feature : string) : endpoint (world D) :=
  mkEndpoint "GET" "/policies"
    (match deps.(dep_Policies) with Some s => PoliciesHandler_List s | None => NotImplemented feature end).

Definition inspect_endpoints (deps : Dependencies) : list (endpoint (world D)) :=
  match deps.(dep_Inspector) with
  | Some h => [mkEndpoint "GET" "/inspect/effective-policy" (InspectorHandler_EffectivePolicy h);
               mkEndpoint "GET" "/inspect/bucket" (InspectorHandler_Bucket h)]
  | None => [mkEndpoint "GET" "/inspect/effective-policy" (NotImplemented "inspect effective policy");
             mkEndpoint "GET" "/inspect/bucket" (NotImplemented "inspect bucket state")]
  end.

Definition metrics_endpoint (deps : Dependencies) : endpoint (world D) :=
  mkEndpoint "GET" "/metrics/summary"
    (match deps.(dep_Metrics) with
     | Some reader => MetricsHandler_Summary reader
     | None => NotImplemented "inspect summary metrics"
     end).

Definition public_routes (deps : Dependencies) : list (endpoint (world D)) :=
  list_policies_endpoint deps "list public policies" :: inspect_endpoints deps ++ [metrics_endpoint deps].

Definition key_routes cfg (deps : Dependencies) : list (endpoint (world D)) :=
  match deps.(dep_APIKeys) with
  | Some s =>
      [mkEndpoint "GET" "/api-keys" (APIKeysHandler_List s)] ++
      (if cfg.(cfg_Demo).(PublicMode) then
         [mkEndpoint "POST" "/api-keys" (demoModeDisabled "create api key");
          mkEndpoint "POST" "/api-keys/{apiKeyID}/deactivate" (demoModeDisabled "deactivate api key")]
       else
         [mkEndpoint "POST" "/api-keys" (APIKeysHandler_Create s random_secret);
          mkEndpoint "POST" "/api-keys/{apiKeyID}/deactivate" (APIKeysHandler_Deactivate s)])
  | None =>
      [mkEndpoint "GET" "/api-keys" (NotImplemented "list API keys");
       mkEndpoint "POST" "/api-keys" (NotImplemented "create API key");
       mkEndpoint "POST" "/api-keys/{apiKeyID}/deactivate" (NotImplemented "deactivate API key")]
  end.

Definition policy_routes cfg (deps : Dependencies) : list (endpoint (world D)) :=
  list_policies_endpoint deps "list policies" ::
  match deps.(dep_Policies) with
  | Some s =>
      if cfg.(cfg_Demo).(PublicMode) then
        [mkEndpoint "POST" "/policies" (demoModeDisabled "create policy");
         mkEndpoint "PUT" "/policies/{policyID}" (demoModeDisabled "update policy");
         mkEndpoint "POST" "/policies/{policyID}/deactivate" (demoModeDisabled "deactivate policy")]
      else
        [mkEndpoint "POST" "/policies" (PoliciesHandler_Create s);
         mkEndpoint "PUT" "/policies/{policyID}" (PoliciesHandler_Update s);
         mkEndpoint "POST" "/policies/{policyID}/deactivate" (PoliciesHandler_Deactivate s)]
  | None =>
      [mkEndpoint "POST" "/policies" (NotImplemented "create policy");
       mkEndpoint "PUT" "/policies/{policyID}" (NotImplemented "update policy");
       mkEndpoint "POST" "/policies/{policyID}/deactivate" (NotImplemented "deactivate policy")]
  end.

Definition admin_routes cfg (deps : Dependencies) : list (endpoint (world D)) :=
  mkEndpoint "GET" "/ping" StubHandler_AdminPing ::
  key_routes cfg deps ++ policy_routes cfg deps ++ inspect_endpoints deps ++ [metrics_endpoint deps].

(** A protected route, or its placeholder when a part is missing. *)
Definition protected_endpoint (time_Now : Clock (W := world D)) (deps : Dependencies)
    (definition : ProtectedRouteDefinition) : endpoint (world D) :=
  mkEndpoint definition.(route_Method) definition.(route_Path)
    (match deps.(dep_Protected), deps.(dep_ProtectedAPIKeys), deps.(dep_PolicyResolver),
           deps.(dep_BucketStore) with
     | Some _, Some keys, Some resolver, Some buckets =>
         APIKeyAuth keys
           (EnforceRateLimit definition.(route_ID) definition.(route_Cost) resolver buckets
              (Some deps.(dep_BlockedAuditor)) time_Now (Some time_Now)
              (ProtectedHandler_Route definition.(route_ID) definition.(route_Cost)))
     | _, _, _, _ => StubHandler_ProtectedRoute definition.(route_ID) definition.(route_Cost)
     end).

(** [New].  Of chi's own middleware, [RequestID] and [RealIP] change what no
    handler reads, and [Timeout] shows as a failed round trip. *)
Definition routes_New cfg (version : string) (startedAt : Time) (time_Now : Clock (W := world D))
    (deps : Dependencies) : router (world D) := {|
  root_Use next := Recoverer (CORS cfg.(cfg_UI).(AllowedOrigin) next);
  root_Endpoints :=
    mkEndpoint "GET" "/healthz" (HealthHandler_Live startedAt version) ::
    match deps.(dep_PublicConfig) with
    | Some (demo, resolver) =>
        [mkEndpoint "GET" "/api/public/config" (PublicConfigHandler_Show demo resolver)]
    | None => []
    end ++
    map (protected_endpoint time_Now deps) ProtectedRoutes;
  root_Mounts :=
    (if cfg.(cfg_Demo).(PublicMode)
     then [mkSubrouter "/api/public" (fun next => next) (public_routes deps)] else []) ++
    [mkSubrouter "/api/admin" (AdminAuth cfg.(cfg_Admin).(Token)) (admin_routes cfg deps)];
  root_NotFound := fun w r n => reply (WriteNotFound w) n
|}.
End Routes.
