(* ===== verification/HandlersSpec.v ===== *)
(** * What the admin handlers promise *)
From S2P Require Import Prelude GoBase Ids Text Calendar Json JsonDecode JsonFacts JsonRoundTrip JsonRecords.
From S2P Require Import Redis Database Queries DatabaseSpec World Policies PolicySpec Projection ProjectionSpec.
From S2P Require Import PolicyJson PolicyService PolicyOutcomes Auth Http Handlers.

(** ** Decoding *)

Lemma json_first_text j : jdepth j ≤ max_depth → json_first (json_text j) = Some (to_val j).
Proof.
  intros Hd. pose proof (json_parse_text j Hd) as Hp. unfold json_parse, json_first in *.
  destruct (parse_value _ _ _) as [[v rest]|]; cbn in *; [|done]. case_bool_decide; congruence.
Qed.

Lemma to_val_object fields :
  to_val (JObj fields) = VObj (map (fun m => (quote_to m.1 EmptyString, to_val m.2)) fields).
Proof. done. Qed.

Section Members.
Context {T : Type} (set : string → jval → T → option T).

Lemma decode_members_None ms : decode_members set ms None = None.
Proof. induction ms as [|m ms IH]; [done|exact IH]. Qed.

Lemma decode_members_step m ms t :
  decode_members set (m :: ms) (Some t) = decode_members set ms (set (fold_name (unquote m.1)) m.2 t).
Proof. done. Qed.

(** What every field keeps, a decoded object has. *)
Lemma decode_members_inv (P : T → Prop) ms t t' :
  (∀ name v t t', P t → set name v t = Some t' → P t') →
  P t → decode_members set ms (Some t) = Some t' → P t'.
Proof.
  intros Hset. revert t. induction ms as [|m ms IH]; intros t Ht; [by intros [= <-]|].
  rewrite decode_members_step. destruct (set _ _ t) as [t1|] eqn:Hs; [|by rewrite decode_members_None].
  apply IH. by eapply Hset.
Qed.

(** One member that is refused is enough. *)
Lemma decode_members_refused m ms t :
  m ∈ ms → (∀ t, set (fold_name (unquote m.1)) m.2 t = None) → decode_members set ms (Some t) = None.
Proof.
  intros Hm Hs. revert t. induction Hm as [m ms|m m' ms Hm IH]; intros t; rewrite decode_members_step.
  - by rewrite Hs, decode_members_None.
  - destruct (set _ _ t) as [t1|]; [by apply IH|apply decode_members_None].
Qed.
End Members.

Section Requests.
Context `{UuidText} `{DecodeErrors}.

Definition decode_policy_request (r : request) : result error createPolicyRequest :=
  decodeJSON zero_createPolicyRequest set_create_policy_field r.

Definition request_fits (q : createPolicyRequest) : Prop :=
  numbers_fit q.(req_Capacity) q.(req_RefillTokens) q.(req_RefillIntervalSeconds).

Lemma decode_int32_fits old v z : in_int32 old → decode_int32 old v = Some z → in_int32 z.
Proof.
  unfold decode_int32. intros Ho. destruct v; try done; [by intros [= <-]|].
  destruct (ParseInt raw); [|done]. case_bool_decide; [|done]. by intros [= <-].
Qed.

(** Whatever the body, the numbers that come out of it are [int32]. *)
Lemma decoded_request_fits r q : decode_policy_request r = Ok q → request_fits q.
Proof.
  unfold decode_policy_request, decodeJSON, decode_first. intros Hd.
  destruct (json_first (Body r)) as [v|]; cbn in Hd; [|done].
  assert (Hz : request_fits zero_createPolicyRequest) by (by repeat split).
  destruct v as [| | | | |ms]; cbn in Hd; try done; [by injection Hd as <-|].
  destruct (decode_members _ _ _) as [q'|] eqn:Hm; [|done]. injection Hd as ->.
  revert Hm. apply decode_members_inv; [|done]. clear. intros name v q q' (Hc & Ht & Hs).
  destruct q as [ty sid route cap tok secs]; cbn in *. unfold set_create_policy_field.
  repeat case_bool_decide; try done;
    match goal with |- context [mbind _ ?d] => destruct d as [x|] eqn:Hx end; cbn; try done;
    intros [= <-]; unfold request_fits, numbers_fit; cbn; eauto using decode_int32_fits.
Qed.

(** The body a client sends for a request. *)
Definition request_json (q : createPolicyRequest) : json :=
  JObj [("scope_type", JStr q.(req_ScopeType));
        ("scope_identifier", encode_pointer JStr q.(req_ScopeIdentifier));
        ("route_pattern", encode_pointer JStr q.(req_RoutePattern));
        ("capacity", JInt q.(req_Capacity)); ("refill_tokens", JInt q.(req_RefillTokens));
        ("refill_interval_seconds", JInt q.(req_RefillIntervalSeconds))].

Definition valid_pointer (p : option string) : Prop := ∀ s, p = Some s → ValidString s = true.

Definition policy_request_names : list string :=
  ["SCOPE_TYPE"; "SCOPE_IDENTIFIER"; "ROUTE_PATTERN"; "CAPACITY"; "REFILL_TOKENS"; "REFILL_INTERVAL_SECONDS"].

Lemma unknown_name name v q : name ∉ policy_request_names → set_create_policy_field name v q = None.
Proof.
  intros Hn. destruct q. unfold set_create_policy_field.
  rewrite !bool_decide_eq_false_2 by (intros ->; apply Hn; by apply (bool_decide_unpack _)). done.
Qed.

Lemma field_string_pointer old p :
  valid_pointer p →
  decode_pointer EmptyString decode_string old (to_val (encode_pointer JStr p)) = Some p.
Proof. intros Hp. apply field_pointer. intros s -> o. split; [by apply field_string, Hp|done]. Qed.

Ltac member field :=
  eapply decode_member;
  [reflexivity|unfold set_create_policy_field, zero_createPolicyRequest; decide_names; field; reflexivity|].

(** C31: what a client means is what the handlers decode.  The JSON of any
    request with UTF-8 text and [int32] numbers decodes to that request, absent
    and null identifiers and patterns included; and an object with a member of
    another name, in whatever letters, is refused. *)
Theorem policy_requests_decode q r :
  ValidString q.(req_ScopeType) = true → valid_pointer q.(req_ScopeIdentifier) →
  valid_pointer q.(req_RoutePattern) → request_fits q →
  (r.(Body) = json_text (request_json q) → decode_policy_request r = Ok q) ∧
  (∀ fields k j, r.(Body) = json_text (JObj fields) → jdepth (JObj fields) ≤ max_depth →
     (k, j) ∈ fields → ValidString k = true → fold_name k ∉ policy_request_names →
     decode_policy_request r = Err (decode_error r.(Body))).
Proof.
  intros Hty Hsid Hroute (Hc & Ht & Hs). split.
  - intros Hb. unfold decode_policy_request, decodeJSON, decode_first. rewrite Hb, json_first_text.
    2: { destruct q as [? [] [] ? ? ?]; done. }
    cbn [mbind option_bind]. destruct q as [ty sid route cap tok secs]; cbn in Hty, Hsid, Hroute, Hc, Ht, Hs.
    assert (Hd : decode_struct zero_createPolicyRequest set_create_policy_field
      (to_val (request_json (mkCreatePolicyRequest ty sid route cap tok secs))) =
      Some (mkCreatePolicyRequest ty sid route cap tok secs)); [|by rewrite Hd].
    unfold request_json. rewrite to_val_object. cbn [decode_struct map fst snd req_ScopeType req_ScopeIdentifier req_RoutePattern
      req_Capacity req_RefillTokens req_RefillIntervalSeconds].
    member ltac:(rewrite field_string by done).
    do 2 member ltac:(rewrite field_string_pointer by done).
    do 3 member ltac:(rewrite field_int32 by done). done.
  - intros fields k j Hb Hd Hk Hv Hn. unfold decode_policy_request, decodeJSON, decode_first.
    rewrite Hb, json_first_text by done. cbn [mbind option_bind to_val decode_struct].
    rewrite (decode_members_refused _ (quote_to k EmptyString, to_val j)); [done| |].
    + apply list_elem_of_fmap. exists (k, j). done.
    + intros t. apply unknown_name. cbn [fst]. rewrite unquote_quote by done. cbn [unquote].
      by rewrite string_app_nil.
Qed.
End Requests.

(** ** Creating a policy over HTTP *)

Lemma validation_is_client_error input e :
  validateCreateInput input = Err e → invalid_policy e = true ∧ errors_Is e ErrPolicyConflict = false.
Proof.
  unfold validateCreateInput, scope_shape.
  repeat first [case_match | progress cbn [res_bind] ]; try discriminate; intros [= <-]; split; reflexivity.
Qed.

Section CreatePolicy.
Context {D : Type} `{RL : RedisLaws D} `{RS : RedisScan D} `{!ScanLaws D} `{UL : UuidLaws} `{DecodeErrors}.
Implicit Types (w : world D).

Definition create_input (q : createPolicyRequest) (sid : option UUID) : CreatePolicyInput :=
  mkCreatePolicyInput q.(req_ScopeType) sid q.(req_RoutePattern) q.(req_Capacity) q.(req_RefillTokens)
    q.(req_RefillIntervalSeconds).

Lemma bad_request_status code msg : status (WriteBadRequest code msg new_writer) = 400.
Proof. by apply status_writeError. Qed.

(** C11: creating a policy over HTTP.  On stores in step, the answer to a body is
    400 with nothing changed when it does not decode, names no UUID or does not
    validate; 409 exactly when the scope already has an active policy (or the
    drawn id is taken) and 400 when it names a key that does not exist, with
    Redis and the policies as they were; otherwise 201 with the stored policy,
    which is then the active one of its scope and the one the request path
    reads.  In every case the stores are left in step. *)
Theorem create_policy_over_http pages r w :
  synced w → db_ok w.(pg) →
  let s := PoliciesHandler_Create (policy_service pages) new_writer r (quiet w) in
  let refused st w' := status s.(s_writer) = st ∧ w'.(redis) = w.(redis) ∧
    w'.(pg).(rate_limit_policies) = w.(pg).(rate_limit_policies) in
  ∃ w', s.(s_net) = quiet w' ∧ s.(s_panicked) = false ∧ synced w' ∧ db_ok w'.(pg) ∧
  match (let? q := decode_policy_request r in
         let? sid := parse_optional_uuid q.(req_ScopeIdentifier) in
         validateCreateInput (create_input q sid)) with
  | Err _ => status s.(s_writer) = 400 ∧ w' = w
  | Ok n =>
      let sc := scope_of_input n in
      let conflict := is_Some (active_policy w.(pg) sc) ∨
                      is_Some (w.(pg).(rate_limit_policies) !! fresh_uuid w.(pg)) in
      let known := references (nullableUUID n.(in_ScopeIdentifier)) w.(pg).(api_keys) in
      (conflict → refused 409 w') ∧ (¬ conflict → known = false → refused 400 w') ∧
      (¬ conflict → known = true → ∃ row,
         row = row_of (fresh_uuid w.(pg)) n true (now_value w.(pg)) (now_value w.(pg)) ∧
         s.(s_writer) = writeJSON StatusCreated (Some (policy_body (policyFromRecord row))) new_writer ∧
         active_policy w'.(pg) sc = Some row ∧
         read_scope sc (quiet w') = (Ok (Some (policyFromRecord row)), quiet w'))
  end.
Proof.
  intros Hsync Hdb s refused. unfold refused, s, PoliciesHandler_Create. clear s refused. fold (decode_policy_request r).
  destruct (decode_policy_request r) as [q|e] eqn:Hq; cbn [res_bind].
  2: { exists w. split_and!; [done..| |done]. apply bad_request_status. }
  destruct (parse_optional_uuid _) as [sid|e]; cbn [res_bind].
  2: { exists w. split_and!; [done..| |done]. apply bad_request_status. }
  fold (create_input q sid).
  assert (Hfit : input_fits (create_input q sid)) by (by eapply decoded_request_fits).
  destruct (Create_outcome pages (create_input q sid) w Hsync Hdb Hfit) as (res & w' & Hc & Hv).
  destruct (Create_keeps _ _ _ _ _ Hsync Hdb Hfit Hc) as (w1 & Hw & Hs' & Hdb').
  injection Hw as <-. rewrite Hc.
  destruct (validateCreateInput _) as [n|e] eqn:Hval.
  2: { destruct Hv as [-> ->]. exists w. split_and!; [done..| |done].
       destruct (validation_is_client_error _ _ Hval) as [Hcl _]. unfold write_create_error. rewrite Hcl.
       apply bad_request_status. }
  cbv zeta in Hv. set (conflict := _ ∨ _) in *. destruct Hv as (Hcf & Hun & Hok & Hsame).
  exists w'. split; [by destruct res|]. split; [by destruct res|]. split; [done|]. split; [done|].
  split_and!.
  - intros Hconf. apply Hcf in Hconf as ->. destruct (Hsame ltac:(by left)) as [Hr Hp].
    split_and!; [|done..]. by apply status_writeError.
  - intros Hconf Hk. rewrite (proj2 Hun (conj Hconf Hk)) in *. destruct (Hsame ltac:(by right)) as [Hr Hp].
    split_and!; [|done..]. by apply status_writeError.
  - intros Hconf Hk. destruct (Hok Hconf Hk) as (row & -> & Ha & -> & Hread). by eexists.
Qed.
End CreatePolicy.
