(* ===== verification/ChangesOverHttp.v ===== *)
(** * Changing and retiring policies over HTTP *)
From S2P Require Import Prelude GoBase Ids Text Json JsonDecode Redis Database Queries DatabaseSpec World.
From S2P Require Import Policies PolicySpec Projection ProjectionSpec PolicyJson PolicyService PolicyOutcomes.
From S2P Require Import Auth Http Handlers HandlersSpec.

Section PolicyChanges.
Context {D : Type} `{RL : RedisLaws D} `{RS : RedisScan D} `{!ScanLaws D} `{UL : UuidLaws} `{DecodeErrors}.
Implicit Types (w : world D).

(** What a request that names a policy must be aimed at. *)
Definition names_active r w : Prop :=
  ∀ id row, uuid_Parse (URLParam r "policyID") = Ok id → w.(pg).(rate_limit_policies) !! id = Some row →
    row.(rlp_IsActive) = true.

(** The update a body asks for. *)
Definition decode_update (r : request) : result error UpdatePolicyInput :=
  let? q := decode_policy_request r in
  let? sid := parse_optional_uuid q.(req_ScopeIdentifier) in
  Ok (mkUpdatePolicyInput q.(req_ScopeType) sid q.(req_RoutePattern) q.(req_Capacity) q.(req_RefillTokens)
        q.(req_RefillIntervalSeconds)).

Lemma decode_update_fits r input : decode_update r = Ok input → input_fits (update_input input).
Proof.
  unfold decode_update. destruct (decode_policy_request r) as [q|e] eqn:Hq; cbn [res_bind]; [|done].
  destruct (parse_optional_uuid _) as [sid|e]; cbn [res_bind]; [|done]. intros <-%(inj Ok).
  by eapply decoded_request_fits.
Qed.

(** The handler after its path and body have been read. *)
Lemma Update_handler_decoded pages wr r id n :
  uuid_Parse (URLParam r "policyID") = Ok id →
  PoliciesHandler_Update (policy_service (D := D) pages) wr r n =
  match decode_update r with
  | Err _ => PoliciesHandler_Update (policy_service pages) wr r n
  | Ok input =>
      let '(res, n) := Update (policy_service pages) id input n in
      match res with
      | Err err => reply (write_update_error err wr) n
      | Ok updated => reply (writeJSON StatusOK (Some (policy_body updated)) wr) n
      end
  end.
Proof.
  intros Hid. destruct (decode_update r) as [input|e] eqn:Hd; [|done].
  unfold decode_update in Hd. unfold PoliciesHandler_Update. rewrite Hid. fold (decode_policy_request r).
  destruct (decode_policy_request r) as [q|e]; cbn [res_bind] in Hd; [|done].
  destruct (parse_optional_uuid _) as [sid|e]; cbn [res_bind] in Hd; [|done]. by apply (inj Ok) in Hd as <-.
Qed.

Lemma Update_handler_undecoded pages r id e n :
  uuid_Parse (URLParam r "policyID") = Ok id → decode_update r = Err e →
  ∃ code msg, PoliciesHandler_Update (policy_service (D := D) pages) new_writer r n =
    reply (WriteBadRequest code msg new_writer) n.
Proof.
  intros Hid Hd. unfold decode_update in Hd. unfold PoliciesHandler_Update. rewrite Hid. fold (decode_policy_request r).
  destruct (decode_policy_request r) as [q|e']; cbn [res_bind] in Hd; [|by do 2 eexists].
  destruct (parse_optional_uuid _) as [sid|e']; cbn [res_bind] in Hd; [done|by do 2 eexists].
Qed.

Lemma validation_update_status input e :
  validateCreateInput input = Err e → status (write_update_error e new_writer) = 400.
Proof.
  intros Hv. destruct (validation_is_client_error _ _ Hv) as [Hcl _].
  assert (Hnf : errors_Is e ErrPolicyNotFound = false).
  { revert Hv. unfold validateCreateInput, scope_shape.
    repeat first [case_match | progress cbn [res_bind] ]; try discriminate; intros [= <-]; reflexivity. }
  unfold write_update_error, write_create_error. rewrite Hnf, Hcl. apply bad_request_status.
Qed.

(** C12: changing a policy over HTTP.  On stores in step and aimed at an active
    policy or at none, a request is answered 400 with nothing changed when its
    path or body do not decode or do not validate or name a key that does not
    exist, 404 when there is no such policy, 409 when another policy is active
    for the scope it asks for; otherwise 200 with the stored policy, under its
    id and with its creation time, which is then what the request path reads for
    its scope, while a scope it has left is read as having none.  In every case
    the stores are left in step. *)
Theorem update_policy_over_http pages r w :
  synced w → db_ok w.(pg) → names_active r w →
  let s := PoliciesHandler_Update (policy_service pages) new_writer r (quiet w) in
  let refused st w' := status s.(s_writer) = st ∧ w' = w in
  ∃ w', s.(s_net) = quiet w' ∧ s.(s_panicked) = false ∧ synced w' ∧ db_ok w'.(pg) ∧
  match uuid_Parse (URLParam r "policyID") with
  | Err _ => refused 400 w'
  | Ok id =>
      match decode_update r with
      | Err _ => refused 400 w'
      | Ok input =>
          match w.(pg).(rate_limit_policies) !! id with
          | None => refused 404 w'
          | Some old =>
              match validateCreateInput (update_input input) with
              | Err _ => refused 400 w'
              | Ok n =>
                  let row := row_of id n true old.(rlp_CreatedAt) (now_value w.(pg)) in
                  if update_conflict w.(pg) id n then refused 409 w'
                  else if create_known w.(pg) n then
                    s.(s_writer) = writeJSON StatusOK (Some (policy_body (policyFromRecord row))) new_writer ∧
                    w'.(pg) = put_policy row w.(pg) ∧
                    read_scope (scope_of_input n) (quiet w') = (Ok (Some (policyFromRecord row)), quiet w') ∧
                    (scope_of old ≠ scope_of_input n → read_scope (scope_of old) (quiet w') = (Ok None, quiet w'))
                  else refused 400 w'
              end
          end
      end
  end.
Proof.
  intros Hsync Hdb Haim s refused. unfold refused, s. clear s refused.
  destruct (uuid_Parse _) as [id|e] eqn:Hid.
  2: { exists w. unfold PoliciesHandler_Update. rewrite Hid. split_and!; [done..| |done]. apply bad_request_status. }
  specialize (Haim id). destruct (decode_update r) as [input|e] eqn:Hd.
  2: { destruct (Update_handler_undecoded pages r id e (quiet w) Hid Hd) as (code & msg & ->).
       exists w. split_and!; [done..| |done]. apply bad_request_status. }
  rewrite (Update_handler_decoded pages _ r id) by done. rewrite Hd.
  destruct (Update_outcome pages id input w) as (res & w' & -> & Hs' & Hdb' & Hout);
    [done..|by eapply decode_update_fits|intros row; by apply Haim|].
  exists w'. split; [by destruct res|]. split; [by destruct res|]. do 2 (split; [done|]).
  destruct (rate_limit_policies (pg w) !! id) as [old|]; [|destruct Hout as [-> ->]; split; [by apply status_writeError|done]].
  destruct (validateCreateInput _) as [n|e] eqn:Hv.
  2: { destruct Hout as [-> ->]. split; [by eapply validation_update_status|done]. }
  cbv zeta in *. destruct (update_conflict _ _ _); [destruct Hout as [-> ->]; split; [by apply status_writeError|done]|].
  destruct (create_known _ _); [|destruct Hout as [-> ->]; split; [by apply status_writeError|done]].
  destruct Hout as (-> & Hpg & Hread & Hleft). by split_and!.
Qed.

(** C22: retiring a policy over HTTP.  On stores in step and aimed at an active
    policy or at none, a request is answered 400 when its path names no UUID and
    404 when there is no such policy, with nothing changed; otherwise 200 with
    the policy as it is now, inactive and in its scope, and the request path
    reads no policy there any more.  In every case the stores are left in step. *)
Theorem deactivate_policy_over_http pages r w :
  synced w → db_ok w.(pg) → names_active r w →
  let s := PoliciesHandler_Deactivate (policy_service pages) new_writer r (quiet w) in
  let refused st w' := status s.(s_writer) = st ∧ w' = w in
  ∃ w', s.(s_net) = quiet w' ∧ s.(s_panicked) = false ∧ synced w' ∧ db_ok w'.(pg) ∧
  match uuid_Parse (URLParam r "policyID") with
  | Err _ => refused 400 w'
  | Ok id =>
      match w.(pg).(rate_limit_policies) !! id with
      | None => refused 404 w'
      | Some old => ∃ row,
          row.(rlp_ID) = id ∧ row.(rlp_IsActive) = false ∧ scope_of row = scope_of old ∧
          s.(s_writer) = writeJSON StatusOK (Some (policy_body (policyFromRecord row))) new_writer ∧
          w'.(pg) = put_policy row w.(pg) ∧ read_scope (scope_of old) (quiet w') = (Ok None, quiet w')
      end
  end.
Proof.
  intros Hsync Hdb Haim s refused. unfold refused, s. clear s refused. unfold PoliciesHandler_Deactivate.
  unfold names_active in Haim. destruct (uuid_Parse _) as [id|e] eqn:Hid.
  2: { exists w. split_and!; [done..| |done]. apply bad_request_status. }
  destruct (Deactivate_outcome pages id w Hsync Hdb) as (res & w' & -> & Hs' & Hdb' & Hout);
    [intros row; by apply Haim|].
  exists w'. destruct (rate_limit_policies (pg w) !! id) as [old|].
  - destruct Hout as (row & -> & Hrid & Hact & Hsc & Hpg & Hread). split_and!; [done..|]. by exists row.
  - destruct Hout as [-> ->]. by split_and!.
Qed.
End PolicyChanges.
