(* ===== verification/KeysOverHttp.v ===== *)
(** * The life of an API key over HTTP

    A key that was created passes authentication with the text its creator was
    given, and no longer once it has been deactivated. *)
From S2P Require Import Prelude GoBase Ids Text ApiKeys Json JsonDecode Redis Database Queries DatabaseSpec World.
From S2P Require Import Auth AuthSpec Http Middleware Handlers HandlersSpec.

(** ** The text of a key *)

Lemma generated_text secret raw prefix :
  Generate secret = Ok (raw, prefix) → TrimSpace raw = raw ∧ raw ≠ EmptyString.
Proof.
  unfold Generate. destruct secret as [bytes|e]; cbn [res_bind]; [|done]. intros [Hraw _]%(inj Ok)%pair_eq.
  unfold base32_EncodeToString in Hraw. rewrite b32_text_lower in Hraw. subst raw. split; [|done].
  apply TrimSpace_all_graphic. apply (b32_text_graphic (bytes ≫= byte_bits)).
Qed.

Section Keys.
Context {D : Type} `{RL : RedisLaws D} `{UL : UuidLaws} `{DecodeErrors}.
Context (c : APIKeyCodec) (ttl : Duration).
Implicit Types (w : world D).

(** ** Creating and deactivating *)

(** The row a key is stored as. *)
Definition key_row (db : database) (input : CreateAPIKeyInput) (raw prefix : string) : ApiKey :=
  mkApiKey (fresh_uuid db) (auth_nullableUUID input.(new_UserID)) (TrimSpace input.(new_Name)) prefix (Hash c raw)
    true (now_value db) pg_null_time.

Lemma verdict_active w raw row :
  TrimSpace raw = raw → raw ≠ EmptyString → active_key w.(pg) (Hash c raw) = Some row →
  verdict c w.(pg) raw = Ok (apiKeyFromRecord row).
Proof. intros Ht Hn Hr. unfold verdict. rewrite Ht, bool_decide_eq_false_2 by done. by rewrite Hr. Qed.

(** The cache never touches the database. *)
Lemma set_keeps_pg h k w : ∃ r w', cache_SetByHash ttl h k (quiet w) = (r, quiet w') ∧ w'.(pg) = w.(pg).
Proof.
  unfold cache_SetByHash. destruct (Marshal k) as [payload|e]; [|by exists (Err e), w].
  rewrite (command_quiet [_] w). by do 2 eexists.
Qed.

(** No active key has the row's identifier or hash. *)
Definition apart_from (row : ApiKey) (db : database) : Prop :=
  ∀ h other, active_key db h = Some other → h ≠ row.(ak_KeyHash) ∧ other.(ak_ID) ≠ row.(ak_ID).

Lemma free_apart row db :
  db_ok db →
  ¬ (is_Some (db.(api_keys) !! row.(ak_ID)) ∨
     ¬ map_Forall (fun _ r => r.(ak_KeyHash) ≠ row.(ak_KeyHash)) db.(api_keys)) → apart_from row db.
Proof.
  intros Hdb Hfree h other (id & Hl & Hh & _)%active_key_spec; [|done]. split.
  - intros ->. apply Hfree. right. intros Hall. by apply (Hall id other Hl).
  - intros Heq. apply Hfree. left. rewrite <- Heq, (kr_id _ _ _ (ok_api_keys _ Hdb _ _ Hl)). eauto.
Qed.

(** What a creation answers, on every branch. *)
Lemma CreateKey_outcome secret input w :
  coherent w → db_ok w.(pg) →
  ∃ res w', CreateKey (key_service c ttl) secret input (quiet w) = (res, quiet w') ∧ coherent w' ∧ db_ok w'.(pg) ∧
  if bool_decide (TrimSpace input.(new_Name) = EmptyString) then res = Err ErrInvalidAPIKeyName
  else
    match Generate secret with
    | Err e => res = Err (Wrapf "generate api key" e)
    | Ok (raw, prefix) =>
        let row := key_row w.(pg) input raw prefix in
        (∃ code, res = Err (auth_translateWriteError (PgError code))) ∨
        res = Ok (mkCreatedAPIKey (apiKeyFromRecord row) raw) ∧
        w'.(pg) = put_api_key row (draw w.(pg)) ∧ active_key w'.(pg) (Hash c raw) = Some row ∧
        apart_from row w.(pg)
    end.
Proof.
  intros Hc Hdb. destruct (CreateKey _ _ _ _) as [res n'] eqn:Hk.
  destruct (create_keeps c ttl secret input w res n' Hc Hdb Hk) as (w' & -> & Hc' & Hdb').
  exists res, w'. split_and!; [done..|]. revert Hk. unfold CreateKey.
  case_bool_decide; [by intros [= <- <-]|]. destruct (Generate secret) as [[raw prefix]|e]; [|by intros [= <- <-]].
  cbv zeta. rewrite sql_quiet. unfold CreateAPIKey. cbn [cak_UserID cak_Name cak_KeyPrefix cak_KeyHash].
  change (mkApiKey _ _ _ _ _ _ _ _) with (key_row w.(pg) input raw prefix).
  set (row := key_row _ _ _ _).
  destruct (_ || _); cbn [fst snd]; [intros [= <- _]; left; by eexists|].
  case_bool_decide as Hfree; cbn [fst snd]; [intros [= <- _]; left; by eexists|].
  destruct (references _ _); cbn [fst snd]; [|intros [= <- _]; left; by eexists].
  change (SetByHash (cache (key_service c ttl))) with (cache_SetByHash (D := world D) ttl).
  destruct (set_keeps_pg (Hash c raw) (apiKeyFromRecord row)
    (mkWorld w.(redis) (put_api_key row (draw w.(pg))))) as (r2 & w2 & Hset & Hpg2).
  change (Hash (codec (key_service c ttl)) raw) with (Hash c raw). rewrite Hset. intros [= <- <-].
  right. cbn [pg] in Hpg2. split_and!; [done|done| |by apply free_apart]. apply active_key_spec; [done|]. exists row.(ak_ID).
  rewrite Hpg2. split; [apply lookup_insert_eq|done].
Qed.

(** ** The gate of the protected routes *)

Definition key_gate (next : Handler (world D)) : Handler (world D) :=
  APIKeyAuth (ResolveActiveByRawKey (key_service c ttl)) next.

(** The request bears a key. *)
Definition bears (r : request) (raw : string) : Prop := TrimSpace (header_Get r.(Header) "X-Api-Key") = raw.

Lemma gate_verdict w raw r :
  coherent w → db_ok w.(pg) → TrimSpace raw = raw → raw ≠ EmptyString → bears r raw →
  ∃ w', w'.(pg) = w.(pg) ∧ cache_only w w' ∧ ∀ next wr,
    key_gate next wr r (quiet w) =
    match active_key w.(pg) (Hash c raw) with
    | Some row => next wr (WithAPIKey r (apiKeyFromRecord row)) (quiet w')
    | None => reply (WriteUnauthorized "invalid_api_key" "api key is invalid or inactive" wr) (quiet w')
    end.
Proof.
  intros Hc Hdb Ht Hn Hb. destruct (resolve_quiet c ttl raw w Hc Hdb) as (w' & Hr & _ & Hpg & Hco).
  exists w'. do 2 (split; [done|]). intros next wr. unfold key_gate, APIKeyAuth. rewrite Hb.
  rewrite bool_decide_eq_false_2 by done. rewrite Hr. unfold verdict. rewrite Ht, bool_decide_eq_false_2 by done.
  by destruct (active_key _ _).
Qed.

(** ** The life of a key *)

Context (secret : net (world D) → entropy).

Definition create_key_handler : Handler (world D) := APIKeysHandler_Create (key_service c ttl) secret.
Definition deactivate_key_handler : Handler (world D) := APIKeysHandler_Deactivate (key_service c ttl).

Definition created_body (row : ApiKey) (raw : string) : json :=
  JObj (go_map [("api_key", key_body (apiKeyFromRecord row)); ("raw_key", JStr raw)]).

(** Only a stored key is answered 201. *)
Lemma created_answer r w :
  coherent w → db_ok w.(pg) →
  let s := create_key_handler new_writer r (quiet w) in
  status s.(s_writer) = StatusCreated →
  ∃ row raw w1, s.(s_net) = quiet w1 ∧ coherent w1 ∧ db_ok w1.(pg) ∧ TrimSpace raw = raw ∧ raw ≠ EmptyString ∧
    s.(s_writer) = writeJSON StatusCreated (Some (created_body row raw)) new_writer ∧
    w1.(pg) = put_api_key row (draw w.(pg)) ∧ active_key w1.(pg) (Hash c raw) = Some row ∧
    w1.(pg).(api_keys) !! row.(ak_ID) = Some row ∧ apart_from row w.(pg).
Proof.
  intros Hc Hdb s. unfold s, create_key_handler, APIKeysHandler_Create. clear s.
  destruct (decodeJSON _ _ r) as [q|e]; [|done]. destruct (parse_optional_uuid _) as [uid|e]; [|done].
  set (input := mkCreateAPIKeyInput _ _).
  destruct (CreateKey_outcome (secret (quiet w)) input w Hc Hdb) as (res & w1 & -> & Hc1 & Hdb1 & Hout).
  case_bool_decide; [by subst res|]. destruct (Generate _) as [[raw prefix]|e] eqn:Hg.
  2: { subst res. cbn [reply s_writer]. by repeat case_match. }
  cbv zeta in Hout. destruct Hout as [[code ->]|(-> & Hpg & Hact & Hapart)].
  { cbn [reply s_writer]. by repeat case_match. }
  intros _. destruct (generated_text _ _ _ Hg) as [Ht Hn].
  exists (key_row w.(pg) input raw prefix), raw, w1. split_and!; try done. rewrite Hpg. apply lookup_insert_eq.
Qed.

Lemma deactivated_answer r w id row :
  coherent w → db_ok w.(pg) → uuid_Parse (URLParam r "apiKeyID") = Ok id → w.(pg).(api_keys) !! id = Some row →
  let s := deactivate_key_handler new_writer r (quiet w) in
  ∃ w2, s.(s_net) = quiet w2 ∧ coherent w2 ∧ db_ok w2.(pg) ∧
    s.(s_writer) = writeJSON StatusOK
      (Some (JObj (go_map [("api_key", key_body (apiKeyFromRecord (with_active false row)))]))) new_writer ∧
    w2.(pg) = put_api_key (with_active false row) w.(pg).
Proof.
  intros Hc Hdb Hid Hrow s. unfold s, deactivate_key_handler, APIKeysHandler_Deactivate. clear s. rewrite Hid.
  rewrite (deactivate_quiet c ttl id row) by done. eexists. split; [done|].
  split; [by eapply deactivate_coherent|]. split; [by eapply put_inactive_ok|done].
Qed.

(** C13: the life of a key over HTTP.  When a creation is answered 201, the raw
    key of the answer passes the authentication of the protected routes as the
    key of the answer, however the header is padded; a deactivation under the
    identifier of the answer is answered 200, and from then on the raw key is
    turned away with 401 before any handler runs.  Every other key that passed
    still passes, before and after. *)
Theorem key_lifecycle_over_http r w :
  coherent w → db_ok w.(pg) →
  let s := create_key_handler new_writer r (quiet w) in
  status s.(s_writer) = StatusCreated →
  ∃ row raw w1, s.(s_net) = quiet w1 ∧
    s.(s_writer) = writeJSON StatusCreated (Some (created_body row raw)) new_writer ∧
    (∀ r1, bears r1 raw → ∃ w1', ∀ next wr,
       key_gate next wr r1 (quiet w1) = next wr (WithAPIKey r1 (apiKeyFromRecord row)) (quiet w1')) ∧
    ∀ r2, URLParam r2 "apiKeyID" = uuid_String row.(ak_ID) →
      let s2 := deactivate_key_handler new_writer r2 (quiet w1) in
      status s2.(s_writer) = StatusOK ∧
      ∃ w2, s2.(s_net) = quiet w2 ∧
        (∀ r3, bears r3 raw → ∃ w2', ∀ next wr, key_gate next wr r3 (quiet w2) =
           reply (WriteUnauthorized "invalid_api_key" "api key is invalid or inactive" wr) (quiet w2')) ∧
        ∀ h other, active_key w.(pg) h = Some other →
          active_key w1.(pg) h = Some other ∧ active_key w2.(pg) h = Some other.
Proof.
  intros Hc Hdb s Hst.
  destruct (created_answer r w Hc Hdb Hst) as (row & raw & w1 & Hn1 & Hc1 & Hdb1 & Ht & Hne & Hw1 & Hpg1 & Hact1 & Hrow1 & Hapart).
  exists row, raw, w1. split; [done|]. split; [done|]. split.
  { intros r1 Hb. destruct (gate_verdict w1 raw r1 Hc1 Hdb1 Ht Hne Hb) as (w1' & _ & _ & Hg). exists w1'.
    intros next wr. by rewrite Hg, Hact1. }
  intros r2 Hid s2.
  assert (Hparse : uuid_Parse (URLParam r2 "apiKeyID") = Ok row.(ak_ID)).
  { rewrite Hid. apply uuid_Parse_String. apply (ok_api_keys _ Hdb1 _ _ Hrow1). }
  destruct (deactivated_answer r2 w1 _ row Hc1 Hdb1 Hparse Hrow1) as (w2 & Hn2 & Hc2 & Hdb2 & Hw2 & Hpg2).
  split; [unfold s2; by rewrite Hw2|]. exists w2. split; [done|].
  pose proof (active_key_put w1.(pg) (with_active false row)) as Hput. rewrite <- Hpg2 in Hput.
  assert (Hgone : active_key w2.(pg) (Hash c raw) = None).
  { rewrite Hput by done. rewrite bool_decide_eq_false_2 by (by intros []).
    by rewrite Hact1, bool_decide_eq_true_2. }
  split.
  { intros r3 Hb. destruct (gate_verdict w2 raw r3 Hc2 Hdb2 Ht Hne Hb) as (w2' & _ & _ & Hg). exists w2'.
    intros next wr. by rewrite Hg, Hgone. }
  intros h other Hother. destruct (Hapart h other Hother) as [Hh Hi].
  assert (Hstill : active_key w1.(pg) h = Some other).
  { rewrite Hpg1 in Hdb1 |- *. rewrite active_key_put by auto using draw_ok.
    rewrite bool_decide_eq_false_2 by (intros [Heq _]; congruence).
    change (active_key (draw w.(pg)) h) with (active_key w.(pg) h). by rewrite Hother, bool_decide_eq_false_2. }
  split; [done|]. rewrite Hput by done. rewrite bool_decide_eq_false_2 by (by intros []).
  by rewrite Hstill, bool_decide_eq_false_2.
Qed.
End Keys.
