(* ===== verification/App.v ===== *)
(** * Opening the stores: [internal/db/open.go], [internal/redisstate/client.go]

    The client libraries parse the addresses and open the connections; they are
    parameters, with the settings the code changes in between. *)
From S2P Require Import Prelude GoBase Redis Ids BucketStore Text ApiKeys Database World Policies Projection.
From S2P Require Import Resolver Auth Http Duration Config AuditLog Middleware Mux Handlers Protected Routes.

(** [pgxpool]: the configuration with its four limits set, the opening of a
    pool and its ping.  The pool itself is the connection [net]. *)
Class PgxPool (W : Type) := {
  PoolConfig : Type;
  pgxpool_ParseConfig : string → result error PoolConfig;
  with_limits : ∀ (MaxConns MinConns : Z) (MaxConnIdleTime HealthCheckPeriod : Duration),
    PoolConfig → PoolConfig;
  NewWithConfig : PoolConfig → net W → result error unit * net W;
  Pool_Ping : net W → result error unit * net W
}.

(** [go-redis]: the options of a client. *)
Class GoRedis := {
  Options : Type;
  redis_ParseURL : string → result error Options;
  with_DB : Z → Options → Options;
  options_of : ∀ (Addr : string) (DB : Z), Options
}.

Definition Open {W} `{PgxPool W} (dsn : string) (n : net W) : result error unit * net W :=
  match pgxpool_ParseConfig dsn with
  | Err err => (Err (Wrapf "parse postgres config" err), n)
  | Ok config =>
      let config := with_limits 12 2 (5 * Minute) (30 * Second) config in
      let '(r, n) := NewWithConfig config n in
      (wrap_err "open postgres pool" r, n)
  end.

(** A client is its options: it connects when it is first used. *)
Definition NewClient `{GoRedis} (addr : string) (db : Z) : result error Options :=
  if HasPrefix addr "redis://" || HasPrefix addr "rediss://" then
    let? options := redis_ParseURL addr in
    Ok (if negb (db =? 0) then with_DB db options else options)
  else Ok (options_of addr db).

(** * Starting the service: [cmd/api/main.go]

    A panic of [main] is the error it panics with. *)

(** ** [main] *)

(** The calls [main] defers. *)
Inductive deferral := CancelStartup | ClosePool | CloseRedis.

#[global] Instance deferral_eq_dec : EqDecision deferral.
Proof. solve_decision. Defined.


Section Main.
Context {D : Type} `{RedisServer D} `{RedisScan D} `{UuidText} `{DecodeErrors} `{ChiRouter}.
Context `{ServeEnv (world D)} `{RandomSource (world D)} `{PgxPool (world D)} `{GoRedis}.
Implicit Types (n : net (world D)) (cfg : AppConfig).

(** The clock, and the version the build sets. *)
Context (time_Now : net (world D) → Time) (version : string).

(** The services of [main]; [pages] bounds the scan of the projection. *)
Definition main_keys cfg : APIKeyService (world D) :=
  NewAPIKeyService (NewAPIKeyCodec cfg.(cfg_Security).(KeyHashPepper))
    (Some (NewAPIKeyAuthCache cfg.(cfg_Redis).(APIKeyCacheTTL))).
Definition main_policies (pages : nat) : Service (world D) :=
  NewService (Some (PolicyProjectionStore pages)).
Definition main_resolver : EffectivePolicyResolver (W := world D) :=
  Resolve (NewResolver (Some GetProjectedPolicy)).

Definition main_dependencies cfg (pages : nat) : Dependencies := {|
  dep_PublicConfig := Some (cfg.(cfg_Demo), Some (ResolveActiveByRawKey (main_keys cfg)));
  dep_APIKeys := Some (main_keys cfg);
  dep_Policies := Some (main_policies pages);
  dep_Inspector := Some (mkInspectorHandler main_resolver GetBucketSnapshot);
  dep_Metrics := Some GetSummaryMetrics;
  dep_Protected := Some ();
  dep_BlockedAuditor := LogBlocked;
  dep_ProtectedAPIKeys := Some (ResolveActiveByRawKey (main_keys cfg));
  dep_PolicyResolver := Some main_resolver;
  dep_BucketStore := Some (Consume NewBucketStore)
|}.

(** Up to [ListenAndServe]: the router that serves, and the deferred calls, the
    last one first. *)
Definition api_main (env : string → option string) (pages : nat) n
    : result error (router (world D)) * list deferral * net (world D) :=
  match Load env with
  | Err err => (Err err, [], n)
  | Ok cfg =>
      let '(r, n) := Open cfg.(cfg_Postgres).(DSN) n in
      match r with
      | Err err => (Err err, [CancelStartup], n)
      | Ok _ =>
          let '(r, n) := Pool_Ping n in
          match r with
          | Err err => (Err err, [ClosePool; CancelStartup], n)
          | Ok _ =>
              match NewClient cfg.(cfg_Redis).(redis_Addr) cfg.(cfg_Redis).(redis_DB) with
              | Err err => (Err err, [ClosePool; CancelStartup], n)
              | Ok _ =>
                  let '(r, n) := RebuildProjection (main_policies pages) n in
                  match r with
                  | Err err => (Err err, [CloseRedis; ClosePool; CancelStartup], n)
                  | Ok _ =>
                      (Ok (routes_New cfg version (time_UTC (time_Now n)) time_Now
                             (main_dependencies cfg pages)),
                       [CloseRedis; ClosePool; CancelStartup], n)
                  end
              end
          end
      end
  end.
End Main.
