(* ===== verification/RoutesSpec.v ===== *)
(** * What the routes promise

    In public demo mode no request changes a policy or a key; the admin surface
    is closed without the token; and a registered endpoint is the one its method
    and pattern lead to. *)
From S2P Require Import Prelude GoBase Ids Text ApiKeys TokenBucket Redis BucketStore Database Queries World.
From S2P Require Import Policies Projection Resolver Auth AuditLog Config ConfigSpec Http Url Keeps ReadOnly Middleware.
From S2P Require Import MiddlewareSpec Mux Handlers Protected Routes App.

(** A [Forall] over a list written out. *)
Ltac each := repeat (apply list.Forall_cons_2; [|]); try apply list.Forall_nil_2.

(** ** Handlers built from handlers *)

Section Wrappers.
Context {W : Type} (R : relation W) `{!PreOrder R}.
Implicit Types (next : Handler W).

Lemma keeps_AdminAuth token next : handler_keeps R next → handler_keeps R (AdminAuth token next).
Proof. intros Hn w r. unfold AdminAuth. specialize (Hn w r). keep. Qed.

Lemma keeps_CORS origin next : handler_keeps R next → handler_keeps R (CORS origin next).
Proof. intros Hn w r. unfold CORS. case_bool_decide; [keep|apply Hn]. Qed.

Lemma keeps_Recoverer next : handler_keeps R next → handler_keeps R (Recoverer next).
Proof. intros Hn w r n Hr. specialize (Hn w r n Hr). unfold Recoverer. by destruct (s_panicked _). Qed.

Lemma keeps_APIKeyAuth resolver next :
  (∀ k, keeps R (resolver k)) → handler_keeps R next → handler_keeps R (APIKeyAuth resolver next).
Proof.
  intros Hres Hn w r. unfold APIKeyAuth. case_bool_decide; [keep|].
  apply serves_bind; [done|apply Hres|]. intros [k|e]; [apply Hn|]. keep.
Qed.

Lemma keeps_EnforceRateLimit id cost resolver buckets auditor now clock next :
  (∀ i, keeps R (resolver i)) → (∀ ref cfg c t, keeps R (buckets ref cfg c t)) →
  (∀ b, keeps R (auditor b)) → handler_keeps R next →
  handler_keeps R (EnforceRateLimit id cost resolver buckets (Some auditor) now clock next).
Proof.
  intros Hres Hb Ha Hn w r. unfold EnforceRateLimit. destruct (APIKeyFromContext r) as [k|]; [|keep].
  apply serves_bind; [done|apply Hres|]. intros [[res|]|e]; [|keep..].
  intros n Hr. specialize (Hb (bucketRefFromResolution res) (policy_config (res_Policy res)) cost
    (time_UTC (default now clock n)) n Hr).
  destruct (buckets _ _ _ _ n) as [[dec|e] n1]; [|exact Hb]. cbn [snd] in Hb.
  apply (kept_trans R n n1); [exact Hb|]. intros Hr1. destruct (negb (Allowed dec)).
  - cbn [writeBlockedAuditLog reply s_net]. by apply Ha.
  - by apply Hn.
Qed.
End Wrappers.

(** ** The router as a whole *)

Section Serving.
Context {W : Type} (R : relation W) `{!PreOrder R} `{ChiRouter}.

Definition endpoints_keep (eps : list (endpoint W)) : Prop :=
  Forall (fun e => handler_keeps R e.(ep_Handler)) eps.

Lemma keeps_target eps notFound t :
  endpoints_keep eps → handler_keeps R notFound → handler_keeps R (serve_target eps notFound t).
Proof.
  intros Heps Hnf w r. destruct t as [i ps| |]; cbn [serve_target]; [|apply Hnf|keep].
  unfold serve_target. destruct (eps !! i) as [e|] eqn:He; [|apply Hnf].
  apply (proj1 (list.Forall_lookup _ _) Heps i e He).
Qed.

Lemma keeps_ServeHTTP (m : router W) :
  (∀ next, handler_keeps R next → handler_keeps R (m.(root_Use) next)) →
  endpoints_keep m.(root_Endpoints) → handler_keeps R m.(root_NotFound) →
  Forall (fun s => endpoints_keep s.(sub_Endpoints) ∧
                   ∀ next, handler_keeps R next → handler_keeps R (s.(sub_Use) next)) m.(root_Mounts) →
  handler_keeps R (ServeHTTP m).
Proof.
  intros Huse Hroot Hnf Hm. apply Huse. intros w r. destruct (chi_find _ _ _ _) as [t|k t].
  - by apply keeps_target.
  - destruct (root_Mounts m !! k) as [s|] eqn:Hs; [|apply Hnf].
    destruct (proj1 (list.Forall_lookup _ _) Hm k s Hs) as [He Hu]. by apply Hu, keeps_target.
Qed.
End Serving.

(** ** Handlers that only read *)

Section Reads.
Context {D : Type} `{RL : RedisLaws D} `{RedisScan D} `{UuidText} (R : relation (world D)) `{!PreOrder R}.

Lemma stub_reads {W} (R' : relation W) `{!PreOrder R'} (h : Handler W) :
  (∀ w r n, (h w r n).(s_net) = n) → handler_keeps R' h.
Proof. intros Hh w r n Hn. rewrite Hh. by apply kept_refl. Qed.

Lemma list_policies_reads pages : handler_keeps R (PoliciesHandler_List (main_policies pages)).
Proof.
  intros w r. unfold PoliciesHandler_List, List. apply serves_bind; [done| |keep].
  apply keeps_bind; [done|by apply keeps_read|keep].
Qed.

Lemma list_keys_reads cfg : handler_keeps R (APIKeysHandler_List (main_keys cfg)).
Proof.
  intros w r. unfold APIKeysHandler_List, ListKeys. apply serves_bind; [done| |keep].
  apply keeps_bind; [done|by apply keeps_read|keep].
Qed.

Lemma effective_policy_reads b :
  handler_keeps R (InspectorHandler_EffectivePolicy (mkInspectorHandler main_resolver b)).
Proof.
  intros w r. unfold InspectorHandler_EffectivePolicy.
  destruct (inspectorInputFromRequest w r) as [[input key]|w']; [|keep].
  apply serves_bind; [done|by apply keeps_Resolve|]. keep.
Qed.

Lemma bucket_reads : handler_keeps R (InspectorHandler_Bucket (mkInspectorHandler main_resolver GetBucketSnapshot)).
Proof.
  intros w r. unfold InspectorHandler_Bucket.
  destruct (inspectorInputFromRequest w r) as [[input key]|w']; [|keep].
  apply serves_bind; [done|by apply keeps_Resolve|]. intros [[res|]|e]; [|keep..].
  apply serves_bind; [done|unfold GetBucketSnapshot; cbn [ins_buckets]; keep|keep].
Qed.

Lemma summary_reads : handler_keeps R (MetricsHandler_Summary GetSummaryMetrics).
Proof.
  intros w r. unfold MetricsHandler_Summary, GetSummaryMetrics. apply serves_bind; [done|keep|keep].
Qed.

(** The routes of both surfaces that read. *)
Lemma read_routes_keep cfg pages feature :
  endpoints_keep R (list_policies_endpoint (main_dependencies cfg pages) feature ::
    inspect_endpoints (main_dependencies cfg pages) ++ [metrics_endpoint (main_dependencies cfg pages)]).
Proof.
  unfold endpoints_keep. cbn -[main_policies].
  each; [apply list_policies_reads|apply effective_policy_reads|apply bucket_reads|apply summary_reads].
Qed.

(** The limiter of a protected route, if buckets and the audit log are left out. *)
Lemma keeps_limiter `{ServeEnv (world D)} now def :
  (∀ ref dec w, R w (exec_cmds (consume_cmds (bucketKey ref) dec) w)) →
  (∀ arg w, R w (mkWorld w.(redis) (CreateRequestAuditLog arg w.(pg)).2)) →
  handler_keeps R (EnforceRateLimit def.(route_ID) def.(route_Cost) main_resolver (Consume NewBucketStore)
    (Some LogBlocked) now (Some now) (ProtectedHandler_Route def.(route_ID) def.(route_Cost))).
Proof.
  intros Hcmds Hlog. apply keeps_EnforceRateLimit; [done|intros i; by apply keeps_Resolve| | |].
  - intros ref c cost t. by apply keeps_Consume.
  - intros b. by apply keeps_LogBlocked.
  - apply stub_reads; [done|]. intros w r n. unfold ProtectedHandler_Route. by repeat case_match.
Qed.
End Reads.

(** ** Public demo mode *)

Section ReadOnlyRoutes.
Context {D : Type} `{RL : RedisLaws D} `{RedisScan D} `{UuidText} `{DecodeErrors} `{ChiRouter}.
Context `{ServeEnv (world D)} `{RandomSource (world D)}.
Implicit Types (cfg : AppConfig).

Abbreviation unchanged := (handler_keeps (W := world D) same_admin).

Lemma show_read cfg : unchanged (PublicConfigHandler_Show cfg.(cfg_Demo) (Some (ResolveActiveByRawKey (main_keys cfg)))).
Proof.
  intros w r. unfold PublicConfigHandler_Show. case_match; [keep|]. case_bool_decide; [keep|].
  apply serves_bind; [apply _|apply keeps_ResolveActiveByRawKey|keep].
Qed.

Lemma protected_read now cfg pages def :
  unchanged (protected_endpoint now (main_dependencies cfg pages) def).(ep_Handler).
Proof.
  cbn. apply keeps_APIKeyAuth; [apply _|apply keeps_ResolveActiveByRawKey|].
  apply keeps_limiter; [apply _|intros ref; apply consume_same_admin|apply log_same_admin].
Qed.

(** C8: in public demo mode the service is read-only.  Whatever request arrives,
    wherever the router sends it and whichever round trips fail, no user, key
    or policy is changed, and neither is the projection of the policies in
    Redis, unless another client of the stores changes them. *)
Theorem public_mode_read_only cfg ver started now pages w r n :
  cfg.(cfg_Demo).(PublicMode) = true → respects same_admin n →
  same_admin n.(server)
    (ServeHTTP (routes_New cfg ver started now (main_dependencies cfg pages)) w r n).(s_net).(server).
Proof.
  intros Hmode Hn.
  assert (Hkeep : unchanged (ServeHTTP (routes_New cfg ver started now (main_dependencies cfg pages)))).
  { apply keeps_ServeHTTP; [apply _| | | |].
    - intros next Hnext. apply keeps_Recoverer, keeps_CORS; [apply _|done].
    - unfold endpoints_keep. cbn [root_Endpoints routes_New dep_PublicConfig main_dependencies app map
        ProtectedRoutes protectedRouteDefinitions]. each; [by apply stub_reads; [apply _|]|apply show_read|apply protected_read..].
    - by apply stub_reads; [apply _|].
    - cbn [root_Mounts routes_New]. rewrite Hmode. cbn [app]. each.
      { split; [apply read_routes_keep, _|]. by intros next Hnext. }
      split; [|intros next; apply keeps_AdminAuth; apply _].
      unfold endpoints_keep, admin_routes, key_routes, policy_routes. cbn -[main_keys main_policies].
      rewrite Hmode. cbn [app]. each; try (by apply stub_reads; [apply _|]);
        [apply list_keys_reads, _|apply list_policies_reads, _|apply effective_policy_reads, _|apply bucket_reads, _
        |apply summary_reads, _]. }
  apply (Hkeep w r n Hn).
Qed.
End ReadOnlyRoutes.

(** ** Dispatch *)

Section Dispatch.
Context {D : Type} `{UuidText} `{DecodeErrors} `{ChiLaws} `{ServeEnv (world D)} `{RandomSource (world D)}.
Implicit Types (cfg : AppConfig) (deps : Dependencies (D := D)) (w : writer) (r : request).

Lemma route_table cfg ver started now deps :
  all_apart (full_table (routes_New cfg ver started now deps)) = true.
Proof.
  unfold full_table, routes_New, mounted_keys, public_routes, admin_routes, key_routes, policy_routes,
    inspect_endpoints; cbn [root_Endpoints root_Mounts].
  destruct (dep_PublicConfig deps) as [[demo res]|], (PublicMode _), (dep_APIKeys deps), (dep_Policies deps),
    (dep_Inspector deps); vm_compute; reflexivity.
Qed.

(** Prefixes without parameters, patterns from a slash on. *)
Definition mount_plain (s : subrouter (world D)) : bool :=
  negb (contains "{" s.(sub_Prefix)) && forallb (fun e => HasPrefix e.(ep_Pattern) "/") s.(sub_Endpoints).

Lemma mounts_plain cfg ver started now deps s e :
  s ∈ (routes_New cfg ver started now deps).(root_Mounts) → e ∈ s.(sub_Endpoints) →
  contains "{" s.(sub_Prefix) = false ∧ HasPrefix e.(ep_Pattern) "/" = true.
Proof.
  intros Hs He.
  assert (Hall : forallb mount_plain (routes_New cfg ver started now deps).(root_Mounts) = true).
  { unfold routes_New, mount_plain, public_routes, admin_routes, key_routes, policy_routes,
      inspect_endpoints; cbn [root_Mounts].
    destruct (PublicMode _), (dep_APIKeys deps), (dep_Policies deps), (dep_Inspector deps);
      vm_compute; reflexivity. }
  rewrite forallb_forall in Hall. specialize (Hall s (proj1 (list_elem_of_In _ _) Hs)).
  apply andb_true_iff in Hall as [Hb Hp]. split; [by apply negb_true_iff|].
  rewrite forallb_forall in Hp. by apply Hp, list_elem_of_In.
Qed.

Lemma ServeHTTP_find m w r (n : net (world D)) :
  ServeHTTP m w r n = m.(root_Use) (fun w r n =>
    match find_in m r with
    | Root t => serve_target m.(root_Endpoints) m.(root_NotFound) t w r n
    | Mounted k t =>
        match m.(root_Mounts) !! k with
        | Some s => s.(sub_Use) (serve_target s.(sub_Endpoints) m.(root_NotFound) t) w r n
        | None => m.(root_NotFound) w r n
        end
    end) w r n.
Proof. done. Qed.

(** The root's middleware hands the request on as it is. *)
Lemma root_Use_ext cfg ver started now deps (f g : Handler (world D)) w r n :
  (∀ w n, f w r n = g w r n) →
  (routes_New cfg ver started now deps).(root_Use) f w r n =
  (routes_New cfg ver started now deps).(root_Use) g w r n.
Proof. intros Hfg. cbn [root_Use routes_New]. unfold Recoverer, CORS. case_bool_decide; [done|]. by rewrite Hfg. Qed.

Lemma sub_Use_ext cfg ver started now deps s (f g : Handler (world D)) w r n :
  s ∈ (routes_New cfg ver started now deps).(root_Mounts) →
  (∀ w n, f w r n = g w r n) → s.(sub_Use) f w r n = s.(sub_Use) g w r n.
Proof.
  intros Hs Hfg. cbn [root_Mounts routes_New] in Hs. apply elem_of_app in Hs as [Hs|Hs].
  - destruct (PublicMode _); [|by apply elem_of_nil in Hs].
    apply list_elem_of_singleton in Hs as ->. cbn [sub_Use]. apply Hfg.
  - apply list_elem_of_singleton in Hs as ->. cbn [sub_Use]. unfold AdminAuth. by repeat case_match.
Qed.

(** A request whose method and path match the pattern of a registered endpoint is
    served by it, with the parameters of the path, behind the middleware of its
    surface. *)
Lemma endpoint_served cfg ver started now deps w r (n : net (world D)) e ps :
  let m := routes_New cfg ver started now deps in
  let served := fun w r n => e.(ep_Handler) w (with_params ps r) n in
  r.(Method) = e.(ep_Method) → Forall (fun kv => kv.2 ≠ EmptyString) ps →
  (e ∈ m.(root_Endpoints) → match_pattern e.(ep_Pattern) r.(URLPath) = Some ps →
   ServeHTTP m w r n = m.(root_Use) served w r n) ∧
  (∀ s, s ∈ m.(root_Mounts) → e ∈ s.(sub_Endpoints) →
   match_pattern (s.(sub_Prefix) +:+ e.(ep_Pattern)) r.(URLPath) = Some ps →
   ServeHTTP m w r n = m.(root_Use) (s.(sub_Use) served) w r n).
Proof.
  intros m served Hm Hne. split.
  - intros [i Hi]%list_elem_of_lookup Hp. rewrite ServeHTTP_find. apply root_Use_ext. intros w' n'.
    rewrite (find_root_endpoint m r i e ps) by (done || apply route_table).
    unfold serve_target. by rewrite Hi.
  - intros s Hs He Hp. rewrite ServeHTTP_find. apply root_Use_ext. intros w' n'.
    pose proof (mounts_plain cfg ver started now deps s e Hs He) as Hok.
    pose proof Hs as [k Hk]%list_elem_of_lookup. pose proof He as [i Hi]%list_elem_of_lookup.
    rewrite (find_mounted_endpoint m r k s i e ps) by (done || apply route_table || apply Hok).
    rewrite Hk. apply (sub_Use_ext cfg ver started now deps); [done|]. intros w2 n2.
    unfold serve_target. by rewrite Hi.
Qed.

(** ** The admin surface *)

Lemma under_both p q path :
  HasPrefix p q = false → HasPrefix q p = false → under p path = true → under q path = true → False.
Proof.
  assert (Hu : ∀ p path, under p path = true → HasPrefix path p = true).
  { intros p' path' [Hb|Hb]%orb_true_iff.
    - apply bool_decide_eq_true_1 in Hb as ->. apply HasPrefix_refl.
    - apply HasPrefix_spec in Hb as [rest ->]. rewrite <- append_assoc. apply HasPrefix_app. }
  intros Hpq Hqp Hp%Hu Hq%Hu. destruct (prefixes_comparable _ _ _ Hp Hq); congruence.
Qed.

Lemma root_patterns_outside cfg ver started now deps i m p path ps :
  map ep_key (routes_New cfg ver started now deps).(root_Endpoints) !! i = Some (m, p) →
  match_pattern p path = Some ps → under "/api/admin" path = false.
Proof.
  intros Hi Hp.
  assert (Hall : forallb (fun k => negb (contains "{" k.2) && negb (under "/api/admin" k.2))
    (map ep_key (routes_New cfg ver started now deps).(root_Endpoints)) = true).
  { cbn [root_Endpoints routes_New]. destruct (dep_PublicConfig deps) as [[demo res]|]; vm_compute; reflexivity. }
  rewrite forallb_forall in Hall.
  specialize (Hall (m, p) (proj1 (list_elem_of_In _ _) (list_elem_of_lookup_2 _ _ _ Hi))).
  apply andb_true_iff in Hall as [Hb Hu]. cbn [snd] in *. apply negb_true_iff in Hb, Hu.
  by apply (match_literal p) in Hp as [-> _].
Qed.

Lemma admin_refused cfg ver started now deps w r (n : net (world D)) :
  w.(w_sent) = None → r.(Method) ∈ known_methods → r.(Method) ≠ "OPTIONS" →
  under "/api/admin" r.(URLPath) = true →
  ¬ bears (header_Get r.(Header) "Authorization") cfg.(cfg_Admin).(Token) →
  let s := ServeHTTP (routes_New cfg ver started now deps) w r n in
  status s.(s_writer) = 401 ∧ s.(s_net) = n ∧ s.(s_panicked) = false.
Proof.
  intros Hw Hm Hopt Hu Hb s. unfold s. rewrite ServeHTTP_find. set (m := routes_New _ _ _ _ _).
  set (h := fun (w : writer) (r : request) (n : net (world D)) => _).
  assert (Hh : ∀ w, w.(w_sent) = None → ∃ w', h w r n = reply w' n ∧ status w' = 401).
  { intros w' Hw'. unfold h. destruct (find_in m r) as [t|k t] eqn:Hf.
    - exfalso. pose proof Hf as Hf'.
      apply find_below with (prefix := "/api/admin") (eps := map ep_key (admin_routes cfg deps)) in Hf'
        as (i & ps & ->); [|done| |done].
      + apply find_root in Hf as (p & Hi & Hp). by rewrite (root_patterns_outside _ _ _ _ _ _ _ _ _ _ Hi Hp) in Hu.
      + apply list_elem_of_fmap. eexists. split; [|apply elem_of_app; right; by apply list_elem_of_singleton].
        done.
    - apply find_mounted in Hf as (prefix & eps & Hk & Hup & _). rewrite list_lookup_fmap in Hk.
      destruct (root_Mounts m !! k) as [sub|] eqn:Hs; [|done]. injection Hk as <- <-.
      apply list_elem_of_lookup_2, elem_of_app in Hs as [Hs|Hs].
      { exfalso. destruct (PublicMode _); [|by apply elem_of_nil in Hs].
        apply list_elem_of_singleton in Hs as ->. by apply (under_both "/api/public" "/api/admin" (URLPath r)). }
      apply list_elem_of_singleton in Hs as ->. cbn [sub_Use].
      destruct (AdminAuth_refuses cfg.(cfg_Admin).(Token) w' r n Hw' Hb) as (w1 & Hst & Hgate).
      exists w1. by rewrite Hgate. }
  cbn [root_Use routes_New m]. unfold Recoverer, CORS. rewrite bool_decide_eq_false_2 by done.
  match goal with |- context [h ?w1 r n] => destruct (Hh w1) as (w2 & -> & Hst) end; [|done].
  by repeat case_match.
Qed.
(** C10: the admin surface is closed without the token.  A request for any path
    at or below [/api/admin], known to the router or not, that does not bear the
    configured token gets 401, and neither store is touched.  Excluded are
    preflights, answered before the check, and methods unknown to the router,
    which come to no handler. *)
Theorem admin_surface_closed cfg ver started now deps w r (n : net (world D)) :
  w.(w_sent) = None → r.(Method) ∈ known_methods → r.(Method) ≠ "OPTIONS" →
  under "/api/admin" r.(URLPath) = true →
  ¬ bears (header_Get r.(Header) "Authorization") cfg.(cfg_Admin).(Token) →
  let s := ServeHTTP (routes_New cfg ver started now deps) w r n in
  status s.(s_writer) = 401 ∧ s.(s_net) = n ∧ s.(s_panicked) = false.
Proof. apply admin_refused. Qed.

(** A token configured with blanks around it locks everybody out.  The
    configuration keeps the blanks, the token of a request has lost its own, so
    that no [Authorization] header opens any path of the admin surface. *)
Theorem padded_token_locks_out env t cfg ver started now deps w r (n : net (world D)) :
  env "ADMIN_TOKEN" = Some t → TrimSpace t ≠ EmptyString → TrimSpace t ≠ t → Load env = Ok cfg →
  w.(w_sent) = None → r.(Method) ∈ known_methods → r.(Method) ≠ "OPTIONS" →
  under "/api/admin" r.(URLPath) = true →
  let s := ServeHTTP (routes_New cfg ver started now deps) w r n in
  status s.(s_writer) = 401 ∧ s.(s_net) = n ∧ s.(s_panicked) = false.
Proof.
  intros Henv Hne Hpad Hload Hw Hm Hopt Hu. apply admin_refused; [done..|].
  destruct (Load_cases env) as [(cfg' & Hl & Hs & _)|(e & Hl & _)]; rewrite Hload in Hl; [|done].
  injection Hl as <-. destruct (ld_token _ _ Hs) as [[Ht _]|[Hunset _]]; [|by destruct Hne; apply Hunset].
  rewrite Henv in Ht. injection Ht as Ht. rewrite <- Ht.
  intros (_ & rest & _ & Hr). apply Hpad. rewrite <- Hr. apply TrimSpace_idempotent.
Qed.
End Dispatch.
