(* ===== verification/RouteTable.v ===== *)
(** * The table of the routes

    What [cmd/api] serves where: for every method and path the handler that
    answers and the middleware in front of it, and that nothing else is
    served. *)
From S2P Require Import Prelude GoBase Ids Text ApiKeys TokenBucket Redis BucketStore Database Queries World.
From S2P Require Import Policies Projection Resolver Auth AuditLog Config Http Url Middleware.
From S2P Require Import Mux Handlers Protected Routes App RoutesSpec.

Section RouteTable.
Context {D : Type} `{RedisServer D} `{RedisScan D} `{UuidText} `{DecodeErrors} `{CL : ChiLaws}.
Context `{ServeEnv (world D)} `{RandomSource (world D)}.
Context (cfg : AppConfig) (ver : string) (started : Time) (now : Clock (W := world D)) (pages : nat).
Implicit Types (wr : writer) (r : request) (n : net (world D)).

Abbreviation router := (routes_New cfg ver started now (main_dependencies cfg pages)).
Abbreviation keys := (main_keys cfg).
Abbreviation policies := (main_policies pages).
Abbreviation inspector := (mkInspectorHandler main_resolver GetBucketSnapshot).

(** ** The middleware of each surface *)

Definition root_surface (h : Handler (world D)) : Handler (world D) :=
  Recoverer (CORS cfg.(cfg_UI).(AllowedOrigin) h).

Definition admin_surface (h : Handler (world D)) : Handler (world D) :=
  root_surface (AdminAuth cfg.(cfg_Admin).(Token) h).

(** Public demo mode closes what writes. *)
Definition unless_public (feature : string) (h : Handler (world D)) : Handler (world D) :=
  if cfg.(cfg_Demo).(PublicMode) then demoModeDisabled feature else h.

Definition limited_route (id : string) (cost : Z) : Handler (world D) :=
  APIKeyAuth (ResolveActiveByRawKey keys)
    (EnforceRateLimit id cost main_resolver (Consume NewBucketStore) (Some LogBlocked) now (Some now)
      (ProtectedHandler_Route id cost)).

Definition with_segment (name value : string) (h : Handler (world D)) : Handler (world D) :=
  fun wr r n => h wr (with_params [(name, value)] r) n.

(** A request with this method and path is answered by this handler. *)
Definition answers (meth path : string) (h : Handler (world D)) : Prop :=
  ∀ wr r n, r.(Method) = meth → r.(URLPath) = path → ServeHTTP router wr r n = h wr r n.

(** ** What is registered *)

Definition admin_table : list (endpoint (world D)) :=
  [mkEndpoint "GET" "/ping" StubHandler_AdminPing;
   mkEndpoint "GET" "/api-keys" (APIKeysHandler_List keys);
   mkEndpoint "POST" "/api-keys" (unless_public "create api key" (APIKeysHandler_Create keys random_secret));
   mkEndpoint "POST" "/api-keys/{apiKeyID}/deactivate"
     (unless_public "deactivate api key" (APIKeysHandler_Deactivate keys));
   mkEndpoint "GET" "/policies" (PoliciesHandler_List policies);
   mkEndpoint "POST" "/policies" (unless_public "create policy" (PoliciesHandler_Create policies));
   mkEndpoint "PUT" "/policies/{policyID}" (unless_public "update policy" (PoliciesHandler_Update policies));
   mkEndpoint "POST" "/policies/{policyID}/deactivate"
     (unless_public "deactivate policy" (PoliciesHandler_Deactivate policies));
   mkEndpoint "GET" "/inspect/effective-policy" (InspectorHandler_EffectivePolicy inspector);
   mkEndpoint "GET" "/inspect/bucket" (InspectorHandler_Bucket inspector);
   mkEndpoint "GET" "/metrics/summary" (MetricsHandler_Summary GetSummaryMetrics)].

Lemma admin_registered : admin_routes cfg (main_dependencies cfg pages) = admin_table.
Proof.
  unfold admin_routes, key_routes, policy_routes, admin_table, unless_public. cbn -[main_keys main_policies].
  by destruct (PublicMode _).
Qed.

Definition root_table : list (endpoint (world D)) :=
  [mkEndpoint "GET" "/healthz" (HealthHandler_Live started ver);
   mkEndpoint "GET" "/api/public/config"
     (PublicConfigHandler_Show cfg.(cfg_Demo) (Some (ResolveActiveByRawKey keys)));
   mkEndpoint "GET" "/api/protected/ping" (limited_route "ping" 1);
   mkEndpoint "POST" "/api/protected/orders" (limited_route "orders" 2);
   mkEndpoint "GET" "/api/protected/report" (limited_route "report" 5)].

Lemma root_registered : router.(root_Endpoints) = root_table.
Proof. done. Qed.

Definition public_table : list (endpoint (world D)) :=
  [mkEndpoint "GET" "/policies" (PoliciesHandler_List policies);
   mkEndpoint "GET" "/inspect/effective-policy" (InspectorHandler_EffectivePolicy inspector);
   mkEndpoint "GET" "/inspect/bucket" (InspectorHandler_Bucket inspector);
   mkEndpoint "GET" "/metrics/summary" (MetricsHandler_Summary GetSummaryMetrics)].

(** ** What answers *)

Lemma root_answers e wr r n :
  e ∈ root_table → r.(Method) = e.(ep_Method) → r.(URLPath) = e.(ep_Pattern) → contains "{" e.(ep_Pattern) = false →
  ServeHTTP router wr r n = root_surface e.(ep_Handler) wr r n.
Proof.
  intros He Hm Hp Hc. destruct (endpoint_served cfg ver started now (main_dependencies cfg pages) wr r n e [] Hm)
    as [Hr _]; [constructor|].
  rewrite Hr; [|by rewrite root_registered|by rewrite Hp, match_literal_self].
  apply root_Use_ext. intros w' n'. by rewrite with_no_params.
Qed.

Lemma admin_answers e ps wr r n :
  e ∈ admin_table → r.(Method) = e.(ep_Method) → match_pattern ("/api/admin" +:+ e.(ep_Pattern)) r.(URLPath) = Some ps →
  Forall (fun kv => kv.2 ≠ EmptyString) ps →
  ServeHTTP router wr r n = admin_surface (fun wr r n => e.(ep_Handler) wr (with_params ps r) n) wr r n.
Proof.
  intros He Hm Hp Hne.
  destruct (endpoint_served cfg ver started now (main_dependencies cfg pages) wr r n e ps Hm Hne) as [_ Hr].
  refine (Hr (mkSubrouter "/api/admin" (AdminAuth cfg.(cfg_Admin).(Token)) (admin_routes cfg (main_dependencies cfg pages))) _ _ Hp).
  - apply elem_of_app. right. by apply list_elem_of_singleton.
  - by rewrite admin_registered.
Qed.

(** An address of the admin surface without parameters, or with one. *)
Lemma admin_literal i meth p path h :
  admin_table !! i = Some (mkEndpoint meth p h) → path = "/api/admin" +:+ p → contains "{" p = false →
  answers meth path (admin_surface h).
Proof.
  intros He%list_elem_of_lookup_2 -> Hc wr r n Hm Hp. rewrite (admin_answers _ [] wr r n He Hm); [|rewrite Hp|constructor].
  - apply (root_Use_ext cfg ver started now (main_dependencies cfg pages)). intros w' n'. unfold AdminAuth.
    by rewrite with_no_params.
  - cbn [ep_Pattern]. rewrite match_after_prefix by done. by apply match_literal_self.
Qed.

Lemma admin_segment i p q rest meth path name id h :
  admin_table !! i = Some (mkEndpoint meth (p +:+ q) h) → path = "/api/admin" +:+ p +:+ rest →
  contains "{" p = false → match_pattern q rest = Some [(name, id)] → id ≠ EmptyString →
  answers meth path (admin_surface (with_segment name id h)).
Proof.
  intros He%list_elem_of_lookup_2 -> Hc Hq Hid wr r n Hm Hp. rewrite (admin_answers _ [(name, id)] wr r n He Hm); [done|rewrite Hp|by repeat constructor].
  cbn [ep_Pattern]. by rewrite !match_after_prefix.
Qed.

Lemma root_literal i meth p h :
  root_table !! i = Some (mkEndpoint meth p h) → contains "{" p = false → answers meth p (root_surface h).
Proof. intros He%list_elem_of_lookup_2 Hc wr r n Hm Hp. by apply (root_answers (mkEndpoint meth p h)). Qed.

Lemma public_literal i meth p path h :
  cfg.(cfg_Demo).(PublicMode) = true → public_table !! i = Some (mkEndpoint meth p h) →
  path = "/api/public" +:+ p → contains "{" p = false → answers meth path (root_surface h).
Proof.
  intros Hpub He%list_elem_of_lookup_2 -> Hc wr r n Hm Hp.
  destruct (endpoint_served cfg ver started now (main_dependencies cfg pages) wr r n (mkEndpoint meth p h) [] Hm)
    as [_ Hr]; [constructor|].
  rewrite (Hr (mkSubrouter "/api/public" (fun next => next) (public_routes (main_dependencies cfg pages)))).
  - apply root_Use_ext. intros w' n'. cbn [sub_Use]. by rewrite with_no_params.
  - cbn [root_Mounts routes_New]. rewrite Hpub. apply elem_of_app. left. by apply list_elem_of_singleton.
  - exact He.
  - cbn [sub_Prefix]. rewrite Hp. cbn [ep_Pattern]. rewrite match_after_prefix by done. by apply match_literal_self.
Qed.

(** The entry at a place of a table. *)
Ltac entry lem := eapply lem; first [assumption | reflexivity].

(** ** What does not *)

(** The methods and patterns there are. *)
Definition surface_keys (public : bool) : list (string * string) :=
  [("GET", "/healthz"); ("GET", "/api/public/config"); ("GET", "/api/protected/ping");
   ("POST", "/api/protected/orders"); ("GET", "/api/protected/report")] ++
  (if public then
     [("GET", "/api/public/policies"); ("GET", "/api/public/inspect/effective-policy");
      ("GET", "/api/public/inspect/bucket"); ("GET", "/api/public/metrics/summary")]
   else []) ++
  [("GET", "/api/admin/ping"); ("GET", "/api/admin/api-keys"); ("POST", "/api/admin/api-keys");
   ("POST", "/api/admin/api-keys/{apiKeyID}/deactivate"); ("GET", "/api/admin/policies");
   ("POST", "/api/admin/policies"); ("PUT", "/api/admin/policies/{policyID}");
   ("POST", "/api/admin/policies/{policyID}/deactivate"); ("GET", "/api/admin/inspect/effective-policy");
   ("GET", "/api/admin/inspect/bucket"); ("GET", "/api/admin/metrics/summary")].

Lemma surface_registered : full_table router = surface_keys cfg.(cfg_Demo).(PublicMode).
Proof.
  unfold full_table, surface_keys. rewrite root_registered. cbn [root_Mounts routes_New].
  destruct (PublicMode _); cbn [app mbind list_bind mounted_keys sub_Endpoints sub_Prefix];
    unfold mounted_keys; cbn [sub_Endpoints sub_Prefix]; rewrite admin_registered; reflexivity.
Qed.

Definition unmatched r : Prop :=
  ∀ p, (r.(Method), p) ∈ surface_keys cfg.(cfg_Demo).(PublicMode) → match_pattern p r.(URLPath) = None.

(** The answer of a handler that turns a request away and touches no store. *)
Definition turns_away (h : Handler (world D)) r : Prop :=
  ∀ wr n, wr.(w_sent) = None → ∃ wr', h wr r n = reply wr' n ∧ (status wr' = 401 ∨ status wr' = 404 ∨ status wr' = 405).

Lemma target_turns_away eps notFound r t :
  turns_away notFound r → (∀ i ps, t ≠ Found i ps) → turns_away (serve_target eps notFound t) r.
Proof.
  intros Hn Ht wr n Hw. destruct t as [i ps| |]; [by destruct (Ht i ps)|by apply Hn|].
  eexists. split; [done|]. right; right. by apply not_allowed_status.
Qed.

Lemma AdminAuth_turns_away token next r : turns_away next r → turns_away (AdminAuth token next) r.
Proof.
  intros Hn wr n Hw. unfold AdminAuth. case_match; [|case_match]; try (by apply Hn);
    (eexists; split; [done|]; left; by apply status_writeError).
Qed.

Lemma not_found_turns_away r : turns_away router.(root_NotFound) r.
Proof. intros wr n Hw. eexists. split; [done|]. right; left. by apply status_writeError. Qed.

(** No entry of the table is found for an unmatched request. *)
Lemma unmatched_entry r i p ps :
  unmatched r → full_table router !! i = Some (r.(Method), p) → match_pattern p r.(URLPath) = Some ps → False.
Proof.
  intros Hu Hi Hp. rewrite surface_registered in Hi. apply list_elem_of_lookup_2, Hu in Hi. congruence.
Qed.

Lemma unmatched_turned_away r : unmatched r → r.(Method) ≠ "OPTIONS" → turns_away (ServeHTTP router) r.
Proof.
  intros Hu Hopt wr n Hw. rewrite ServeHTTP_find.
  set (h := fun (w : writer) (r : request) (n : net (world D)) => _).
  assert (Hh : turns_away h r).
  { intros w' n' Hw'. unfold h. destruct (find_in router r) as [t|k t] eqn:Hf.
    - apply target_turns_away; [apply not_found_turns_away| |done]. intros i ps ->.
      apply found_root in Hf as (_ & p & Hi & Hp). by apply (unmatched_entry r i p ps).
    - destruct (root_Mounts router !! k) as [sub|] eqn:Hk; [|by apply not_found_turns_away].
      assert (Ht : turns_away (serve_target sub.(sub_Endpoints) router.(root_NotFound) t) r).
      { apply target_turns_away; [apply not_found_turns_away|]. intros i ps ->.
        apply found_mounted in Hf as (s & e & Hs & Hi & Hm & Hp).
        pose proof (full_table_mounted router k s i e Hs Hi) as Hfull. rewrite Hm in Hfull.
        by apply (unmatched_entry r _ _ _ Hu Hfull Hp). }
      apply list_elem_of_lookup_2 in Hk. cbn [root_Mounts routes_New] in Hk. apply elem_of_app in Hk as [Hk|Hk].
      + destruct (PublicMode _); [|by apply elem_of_nil in Hk]. apply list_elem_of_singleton in Hk as ->. by apply Ht.
      + apply list_elem_of_singleton in Hk as ->. by apply AdminAuth_turns_away. }
  cbn [root_Use routes_New]. unfold Recoverer, CORS. rewrite bool_decide_eq_false_2 by done.
  match goal with |- context [h ?w1 r n] => destruct (Hh w1 n) as (w2 & -> & Hst) end; [by repeat case_match|].
  by exists w2.
Qed.

(** C19: the routes, one by one.  Each method and path below is answered by the
    handler named, behind the panic recovery and the CORS headers; those of the
    demo surface also behind the key's authentication and the rate limit at the
    route's cost, those below [/api/admin] behind the token check, and there
    everything that writes is refused in public demo mode, when the read-only
    addresses below [/api/public] are served as well.  A request that is not a
    preflight and matches none of the patterns with its method is answered 401,
    404 or 405 and touches no store.  An empty identifier in an address is not
    covered: what chi makes of it is not assumed. *)
Theorem registered_routes_served :
  answers "GET" "/healthz" (root_surface (HealthHandler_Live started ver)) ∧
  answers "GET" "/api/public/config"
    (root_surface (PublicConfigHandler_Show cfg.(cfg_Demo) (Some (ResolveActiveByRawKey keys)))) ∧
  answers "GET" "/api/protected/ping" (root_surface (limited_route "ping" 1)) ∧
  answers "POST" "/api/protected/orders" (root_surface (limited_route "orders" 2)) ∧
  answers "GET" "/api/protected/report" (root_surface (limited_route "report" 5)) ∧
  answers "GET" "/api/admin/ping" (admin_surface StubHandler_AdminPing) ∧
  answers "GET" "/api/admin/api-keys" (admin_surface (APIKeysHandler_List keys)) ∧
  answers "POST" "/api/admin/api-keys"
    (admin_surface (unless_public "create api key" (APIKeysHandler_Create keys random_secret))) ∧
  answers "GET" "/api/admin/policies" (admin_surface (PoliciesHandler_List policies)) ∧
  answers "POST" "/api/admin/policies"
    (admin_surface (unless_public "create policy" (PoliciesHandler_Create policies))) ∧
  answers "GET" "/api/admin/inspect/effective-policy" (admin_surface (InspectorHandler_EffectivePolicy inspector)) ∧
  answers "GET" "/api/admin/inspect/bucket" (admin_surface (InspectorHandler_Bucket inspector)) ∧
  answers "GET" "/api/admin/metrics/summary" (admin_surface (MetricsHandler_Summary GetSummaryMetrics)) ∧
  (∀ id, id ≠ EmptyString → contains "/" id = false →
     answers "POST" ("/api/admin/api-keys/" +:+ id +:+ "/deactivate")
       (admin_surface (with_segment "apiKeyID" id
          (unless_public "deactivate api key" (APIKeysHandler_Deactivate keys)))) ∧
     answers "PUT" ("/api/admin/policies/" +:+ id)
       (admin_surface (with_segment "policyID" id
          (unless_public "update policy" (PoliciesHandler_Update policies)))) ∧
     answers "POST" ("/api/admin/policies/" +:+ id +:+ "/deactivate")
       (admin_surface (with_segment "policyID" id
          (unless_public "deactivate policy" (PoliciesHandler_Deactivate policies))))) ∧
  (cfg.(cfg_Demo).(PublicMode) = true →
     answers "GET" "/api/public/policies" (root_surface (PoliciesHandler_List policies)) ∧
     answers "GET" "/api/public/inspect/effective-policy"
       (root_surface (InspectorHandler_EffectivePolicy inspector)) ∧
     answers "GET" "/api/public/inspect/bucket" (root_surface (InspectorHandler_Bucket inspector)) ∧
     answers "GET" "/api/public/metrics/summary" (root_surface (MetricsHandler_Summary GetSummaryMetrics))) ∧
  ∀ r, unmatched r → r.(Method) ≠ "OPTIONS" → turns_away (ServeHTTP router) r.
Proof.
  split; [entry (root_literal 0%nat)|]. split; [entry (root_literal 1%nat)|]. split; [entry (root_literal 2%nat)|].
  split; [entry (root_literal 3%nat)|]. split; [entry (root_literal 4%nat)|]. split; [entry (admin_literal 0%nat)|].
  split; [entry (admin_literal 1%nat)|]. split; [entry (admin_literal 2%nat)|]. split; [entry (admin_literal 4%nat)|].
  split; [entry (admin_literal 5%nat)|]. split; [entry (admin_literal 8%nat)|]. split; [entry (admin_literal 9%nat)|].
  split; [entry (admin_literal 10%nat)|]. split; [|split].
  - intros id Hid Hs. split_and!.
    + apply (admin_segment 3 "/api-keys/" "{apiKeyID}/deactivate" (id +:+ "/deactivate")); [reflexivity..| |done].
      by apply (match_param_then "apiKeyID" "deactivate").
    + apply (admin_segment 6 "/policies/" "{policyID}" id); [reflexivity..| |done].
      by apply (match_param_last "policyID").
    + apply (admin_segment 7 "/policies/" "{policyID}/deactivate" (id +:+ "/deactivate")); [reflexivity..| |done].
      by apply (match_param_then "policyID" "deactivate").
  - intros Hpub. split; [entry (public_literal 0%nat)|]. split; [entry (public_literal 1%nat)|].
    split; [entry (public_literal 2%nat)|entry (public_literal 3%nat)].
  - apply unmatched_turned_away.
Qed.
End RouteTable.
