(* ===== verification/AppSpec.v ===== *)
(** * What the process promises once it has started *)
From S2P Require Import Prelude GoBase Ids Text ApiKeys Redis BucketStore Database DatabaseSpec World.
From S2P Require Import Policies Projection ProjectionSpec PolicyService Resolver Auth AuditLog Duration Config Http Url.
From S2P Require Import Middleware Mux App Handlers Protected Routes RoutesSpec.

Section App.
Context {D : Type} `{RL : RedisLaws D} `{RS : RedisScan D} `{!ScanLaws D} `{UL : UuidLaws}.
Context `{DecodeErrors} `{CL : ChiLaws} `{ServeEnv (world D)} `{RandomSource (world D)}.
Context `{PgxPool (world D)} `{GoRedis}.
Implicit Types (w : world D).

(** The addresses parse and the connections open, leaving the stores as they
    are. *)
Record opens_quietly (cfg : AppConfig) w : Prop := {
  oq_open c : pgxpool_ParseConfig cfg.(cfg_Postgres).(DSN) = Ok c →
    NewWithConfig (with_limits 12 2 (5 * Minute) (30 * Second) c) (quiet w) = (Ok (), quiet w);
  oq_dsn : ∃ c, pgxpool_ParseConfig cfg.(cfg_Postgres).(DSN) = Ok c;
  oq_ping : Pool_Ping (quiet w) = (Ok (), quiet w);
  oq_redis : HasPrefix cfg.(cfg_Redis).(redis_Addr) "redis://" ||
             HasPrefix cfg.(cfg_Redis).(redis_Addr) "rediss://" = true →
    ∃ o, redis_ParseURL cfg.(cfg_Redis).(redis_Addr) = Ok o
}.

(** The services the configuration gives the protected routes. *)
Definition configured (cfg : AppConfig) : services :=
  mkServices (NewAPIKeyCodec cfg.(cfg_Security).(KeyHashPepper)) cfg.(cfg_Redis).(APIKeyCacheTTL)
    NewBucketStore.

Lemma protected_reached cfg ver started now pages def r wr (n : net (world D)) :
  def ∈ ProtectedRoutes → r.(Method) = def.(route_Method) → r.(URLPath) = def.(route_Path) →
  ServeHTTP (routes_New cfg ver started now (main_dependencies cfg pages)) wr r n =
  Recoverer (CORS cfg.(cfg_UI).(AllowedOrigin) (protected_route (configured cfg) now def)) wr r n.
Proof.
  intros Hd Hm Hp.
  set (e := protected_endpoint now (main_dependencies cfg pages) def).
  assert (He : e ∈ (routes_New cfg ver started now (main_dependencies cfg pages)).(root_Endpoints)).
  { cbn [root_Endpoints routes_New]. apply elem_of_cons. right. apply elem_of_app. right.
    apply list_elem_of_fmap. exists def. split; [reflexivity|exact Hd]. }
  apply list_elem_of_lookup in He as [i Hi].
  assert (Hlit : match_pattern e.(ep_Pattern) r.(URLPath) = Some []).
  { rewrite Hp. unfold ProtectedRoutes, protectedRouteDefinitions in Hd.
    repeat (apply elem_of_cons in Hd as [->|Hd]; [reflexivity|]). by apply elem_of_nil in Hd. }
  rewrite ServeHTTP_find. change (Recoverer (CORS _ ?h) wr r n) with
    (root_Use (routes_New cfg ver started now (main_dependencies cfg pages)) h wr r n).
  apply root_Use_ext. intros w' n'.
  rewrite (find_root_endpoint _ _ i e [] (route_table _ _ _ _ _) Hi Hm Hlit) by constructor.
  unfold serve_target. rewrite Hi, with_no_params. done.
Qed.

(** [main] up to its server: the projection is rebuilt, every other key is left
    as it was, and the protected routes are served. *)
Lemma startup time_Now version env cfg w :
  Load env = Ok cfg → opens_quietly cfg w → db_ok w.(pg) →
  ∃ pages0, ∀ pages, (pages0 ≤ pages)%nat → ∃ m w',
    api_main time_Now version env pages (quiet w) =
      (Ok m, [CloseRedis; ClosePool; CancelStartup], quiet w') ∧
    synced w' ∧ w'.(pg) = w.(pg) ∧
    (∀ k, HasPrefix k (policyProjectionPrefix +:+ ":") = false →
       string_view w'.(redis) k = string_view w.(redis) k) ∧
    ∀ def r wr n, def ∈ ProtectedRoutes → r.(Method) = def.(route_Method) →
      r.(URLPath) = def.(route_Path) →
      ServeHTTP m wr r n = Recoverer (CORS cfg.(cfg_UI).(AllowedOrigin)
        (protected_route (configured cfg) time_Now def)) wr r n.
Proof.
  intros Hload [Hopen [c Hdsn] Hping Hredis] Hdb.
  destruct (scan_ends w.(redis)) as (pages0 & keys & Hkeys & Hsc). exists pages0. intros pages Hle.
  destruct (rebuild_from_keys pages w keys) as (w' & Hr & Hs & Hpg & Hother); [done|by apply Hsc|done|].
  eexists _, w'. unfold api_main, Open. rewrite Hload, Hdsn, (Hopen c Hdsn). cbn [wrap_err res_map_err].
  rewrite Hping. assert (Hclient : ∃ o, NewClient cfg.(cfg_Redis).(redis_Addr) cfg.(cfg_Redis).(redis_DB) = Ok o).
  { unfold NewClient. destruct (_ || _); [|by eexists]. destruct (Hredis eq_refl) as [o ->]. by eexists. }
  destruct Hclient as [o ->].
  change (main_policies pages) with (policy_service (D := D) pages). rewrite Hr.
  split; [reflexivity|]. do 3 (split; [done|]).
  intros def r wr n. apply protected_reached.
Qed.

(** Starting the service puts its stores in step and serves.  With a valid
    configuration and reachable stores, [main] gets to its server for any scan
    bound large enough, whatever Redis held: the projection then mirrors the
    database, the database is as it was, and a request for a protected route is
    served by the chain of [APIKeyAuth] and [EnforceRateLimit] over the
    configured services. *)
Theorem startup_serves time_Now version env cfg w :
  Load env = Ok cfg → opens_quietly cfg w → db_ok w.(pg) →
  ∃ pages0, ∀ pages, (pages0 ≤ pages)%nat → ∃ m w',
    api_main time_Now version env pages (quiet w) =
      (Ok m, [CloseRedis; ClosePool; CancelStartup], quiet w') ∧
    synced w' ∧ w'.(pg) = w.(pg) ∧
    ∀ def r wr n, def ∈ ProtectedRoutes → r.(Method) = def.(route_Method) →
      r.(URLPath) = def.(route_Path) →
      ServeHTTP m wr r n = Recoverer (CORS cfg.(cfg_UI).(AllowedOrigin)
        (protected_route (configured cfg) time_Now def)) wr r n.
Proof.
  intros Hload Hopen Hdb. destruct (startup time_Now version env cfg w Hload Hopen Hdb) as (pages0 & Hp).
  exists pages0. intros pages Hle. destruct (Hp pages Hle) as (m & w' & Hm & Hs & Hpg & _ & Hserve).
  by exists m, w'.
Qed.
End App.
