(* ===== verification/Process.v ===== *)
(** * The API process: [cmd/api/main.go] from the server on

    Two goroutines, a signal and the server of [net/http].  One goroutine logs,
    calls [ListenAndServe] and, when that fails, logs again and exits; [main]
    waits for the signal, calls [Shutdown] and returns, which runs what it
    deferred.  The two are functions that make one step, or none while they
    wait; the server and the system are a relation, with what [net/http]
    documents: [ListenAndServe] never returns nil, and [ErrServerClosed] only
    after [Shutdown]; [Shutdown] closes the listeners and returns nil when no
    request is being served any more, or an error (the ten seconds are over, or
    a listener could not be closed).  The signal is taken from
    [signal.NotifyContext] on; one that comes before ends the process as the
    system does.  The calls [waitForShutdown] itself defers release its
    contexts and show nowhere. *)
From stdpp Require Import relations.
From S2P Require Import Prelude GoBase Text Duration Config Http Mux App.

(** ** The logger *)

Inductive level := LevelDebug | LevelInfo | LevelError.

Definition level_value (l : level) : Z :=
  match l with LevelDebug => -4 | LevelInfo => 0 | LevelError => 8 end.

(** The least level that is written. *)
Definition newLogger (cfg : AppConfig) : level :=
  if bool_decide (cfg.(AppEnv) = "development") then LevelDebug else LevelInfo.

(** What the process logs about itself. *)
Inductive event := ServerStarting | ServerFailed | ShutdownSignalReceived | ShutdownFailed | ServerStopped.

Definition event_level (e : event) : level :=
  match e with ServerFailed | ShutdownFailed => LevelError | _ => LevelInfo end.

Definition event_text (e : event) : string :=
  match e with
  | ServerStarting => "server starting"
  | ServerFailed => "server failed"
  | ShutdownSignalReceived => "shutdown signal received"
  | ShutdownFailed => "graceful shutdown failed"
  | ServerStopped => "server stopped"
  end.

Definition log_event (logger : level) (e : event) (lines : list event) : list event :=
  if level_value logger <=? level_value (event_level e) then lines ++ [e] else lines.

(** ** The server *)

Record http_server (H : Type) := mkHttpServer {
  srv_Addr : string;
  srv_Handler : H;
  srv_ReadHeaderTimeout : Duration;
  srv_ReadTimeout : Duration;
  srv_WriteTimeout : Duration;
  srv_IdleTimeout : Duration
}.
Arguments mkHttpServer {H}.

Definition main_server {H} (cfg : AppConfig) (handler : H) : http_server H :=
  mkHttpServer cfg.(cfg_Server).(Addr) handler (5 * Second) (10 * Second) (15 * Second) (60 * Second).

(** [http.ErrServerClosed]. *)
Definition http_ErrServerClosed : error := ErrorsNew "http.ErrServerClosed" "http: Server closed".

(** What has become of a server: whether [ListenAndServe] and [Shutdown] have
    been called and what they have returned, and the requests being served. *)
Record http_state := mkHttp {
  h_called : bool;
  h_shut : bool;
  h_served : option (option error);
  h_stopped : option (option error);
  h_requests : nat
}.

Inductive server_step : http_state → http_state → Prop :=
| server_accepts stopped k :
    server_step (mkHttp true false None stopped k) (mkHttp true false None stopped (S k))
| server_answers called shut served stopped k :
    server_step (mkHttp called shut served stopped (S k)) (mkHttp called shut served stopped k)
| server_returns shut stopped k err :
    (shut = false → err ≠ http_ErrServerClosed) →
    server_step (mkHttp true shut None stopped k) (mkHttp true shut (Some (Some err)) stopped k)
| server_drained called served :
    server_step (mkHttp called true served None 0) (mkHttp called true served (Some None) 0)
| server_not_drained called served k err :
    server_step (mkHttp called true served None k) (mkHttp called true served (Some (Some err)) k).

(** ** The process *)

(** Where the serving goroutine is: before its first line, in
    [ListenAndServe], before [os.Exit], or at its end.  And where [main] is:
    before the signal, before [Shutdown], in it, or on its way out. *)
Inductive serving := NotStarted | InServe | Failing | Ended.
Inductive waiting := AwaitSignal | Signalled | InShutdown | Returning.

Record process := mkProcess {
  p_serving : serving;
  p_waiting : waiting;
  p_signal : bool;
  p_http : http_state;
  p_log : list event;
  p_deferred : list deferral;
  p_ran : list deferral;
  p_exit : option Z
}.

(** The guard on what [ListenAndServe] returned. *)
Definition serve_failed (err : option error) : bool :=
  match err with
  | Some err => negb (bool_decide (err = http_ErrServerClosed))
  | None => false
  end.

Section Process.
Context (logger : level).

Definition process_start (deferred : list deferral) : process :=
  mkProcess NotStarted AwaitSignal false (mkHttp false false None None 0) [] deferred [] None.

Definition logged : event → list event → list event := log_event logger.

(** The goroutine of [main]; [None] while it waits, or at its end. *)
Definition goroutine_step (p : process) : option process :=
  let '(mkProcess s m sig h log ds ran exit) := p in
  match s with
  | NotStarted =>
      Some (mkProcess InServe m sig (mkHttp true h.(h_shut) h.(h_served) h.(h_stopped) h.(h_requests))
              (logged ServerStarting log) ds ran exit)
  | InServe =>
      match h.(h_served) with
      | None => None
      | Some err =>
          Some (if serve_failed err then mkProcess Failing m sig h (logged ServerFailed log) ds ran exit
                else mkProcess Ended m sig h log ds ran exit)
      end
  | Failing => Some (mkProcess Failing m sig h log ds ran (Some 1))
  | Ended => None
  end.

(** [waitForShutdown], and the return of [main]. *)
Definition main_step (p : process) : option process :=
  let '(mkProcess s m sig h log ds ran exit) := p in
  match m with
  | AwaitSignal =>
      if sig then Some (mkProcess s Signalled sig h (logged ShutdownSignalReceived log) ds ran exit) else None
  | Signalled =>
      Some (mkProcess s InShutdown sig (mkHttp h.(h_called) true h.(h_served) h.(h_stopped) h.(h_requests))
              log ds ran exit)
  | InShutdown =>
      match h.(h_stopped) with
      | None => None
      | Some (Some _) => Some (mkProcess s Returning sig h (logged ShutdownFailed log) ds ran exit)
      | Some None => Some (mkProcess s Returning sig h (logged ServerStopped log) ds ran exit)
      end
  | Returning =>
      match ds with
      | d :: ds => Some (mkProcess s Returning sig h log ds (ran ++ [d]) exit)
      | [] => Some (mkProcess s Returning sig h log [] ran (Some 0))
      end
  end.

Definition with_http (h : http_state) (p : process) : process :=
  mkProcess p.(p_serving) p.(p_waiting) p.(p_signal) h p.(p_log) p.(p_deferred) p.(p_ran) p.(p_exit).
Definition with_signal (p : process) : process :=
  mkProcess p.(p_serving) p.(p_waiting) true p.(p_http) p.(p_log) p.(p_deferred) p.(p_ran) p.(p_exit).

(** A process that has exited takes no step. *)
Inductive process_step (p : process) : process → Prop :=
| step_goroutine p' : p.(p_exit) = None → goroutine_step p = Some p' → process_step p p'
| step_main p' : p.(p_exit) = None → main_step p = Some p' → process_step p p'
| step_server h' : p.(p_exit) = None → server_step p.(p_http) h' → process_step p (with_http h' p)
| step_signal : p.(p_exit) = None → process_step p (with_signal p).

(** ** What holds wherever the process has got to *)

Context (written : level_value logger <= level_value LevelInfo).

Lemma logged_written e log : logged e log = log ++ [e].
Proof using written.
  unfold logged, log_event. rewrite (proj2 (Z.leb_le _ _)); [done|]. destruct e; cbn [level_value event_level] in *; lia.
Qed.

Definition failed_with (h : http_state) : Prop :=
  ∃ err, h.(h_served) = Some (Some err) ∧ err ≠ http_ErrServerClosed.

(** What [main] logs last says what [Shutdown] returned. *)
Definition stopped_as (h : http_state) (log : list event) : Prop :=
  (h.(h_stopped) = Some None ∧ ServerStopped ∈ log) ∨
  (∃ err, h.(h_stopped) = Some (Some err) ∧ ShutdownFailed ∈ log).

Record http_inv (h : http_state) : Prop := {
  hi_called : h.(h_called) = false → h.(h_served) = None;
  hi_shut : h.(h_shut) = false → h.(h_stopped) = None;
  hi_drained : h.(h_stopped) = Some None → h.(h_requests) = 0%nat
}.

Record process_inv (ds : list deferral) (p : process) : Prop := {
  pi_http : http_inv p.(p_http);
  pi_called : p.(p_serving) = NotStarted ↔ p.(p_http).(h_called) = false;
  pi_shut : p.(p_http).(h_shut) = true ↔ p.(p_waiting) = InShutdown ∨ p.(p_waiting) = Returning;
  pi_deferred : p.(p_ran) ++ p.(p_deferred) = ds;
  pi_early : p.(p_waiting) ≠ Returning → p.(p_ran) = [];
  pi_signal : p.(p_waiting) ≠ AwaitSignal ↔ ShutdownSignalReceived ∈ p.(p_log);
  pi_signalled : p.(p_waiting) ≠ AwaitSignal → p.(p_signal) = true;
  pi_failed : p.(p_serving) = Failing ↔ ServerFailed ∈ p.(p_log);
  pi_failing : p.(p_serving) = Failing → failed_with p.(p_http);
  pi_ended : p.(p_serving) = Ended → ¬ failed_with p.(p_http) ∧ p.(p_http).(h_served) ≠ None;
  pi_stopped : p.(p_waiting) = Returning → stopped_as p.(p_http) p.(p_log);
  pi_drained : ServerStopped ∈ p.(p_log) → p.(p_http).(h_stopped) = Some None;
  pi_returned : p.(p_exit) = Some 0 → p.(p_waiting) = Returning ∧ p.(p_deferred) = [];
  pi_exit z : p.(p_exit) = Some z → z = 0 ∨ z = 1 ∧ p.(p_serving) = Failing
}.

Lemma in_snoc {A} (x y : A) l : x ∈ l ++ [y] ↔ x ∈ l ∨ x = y.
Proof. by rewrite elem_of_app, list_elem_of_singleton. Qed.

Lemma process_start_inv ds : process_inv ds (process_start ds).
Proof.
  split; cbn; try done; try (split; [done|by intros ?%not_elem_of_nil]).
  - split; [done|by intros [|]].
  - by intros ?%not_elem_of_nil.
Qed.

(** What has been returned stays returned. *)
Lemma server_keeps h h' :
  server_step h h' → http_inv h →
  http_inv h' ∧ h'.(h_called) = h.(h_called) ∧ h'.(h_shut) = h.(h_shut) ∧
  (h.(h_served) ≠ None → h'.(h_served) = h.(h_served)) ∧
  (h.(h_stopped) ≠ None → h'.(h_stopped) = h.(h_stopped)).
Proof.
  intros Hs [Hc Hsh Hd]. destruct Hs; cbn in *; (split; [split; cbn|by split_and!]); auto; try congruence.
  - intros Hx. rewrite Hsh in Hx by done. discriminate.
  - intros Hx. specialize (Hd Hx). lia.
Qed.

Lemma stopped_as_more h h' log e :
  h'.(h_stopped) = h.(h_stopped) → stopped_as h log → stopped_as h' (log ++ [e]).
Proof.
  intros Heq [[Hs Hl]|(err & Hs & Hl)]; [left|right; exists err]; rewrite Heq, in_snoc; auto.
Qed.

Lemma serve_failed_spec err : serve_failed (Some err) = true ↔ err ≠ http_ErrServerClosed.
Proof. cbn. by rewrite negb_true_iff, bool_decide_eq_false. Qed.

(** Each part of the invariant after a step of one goroutine. *)
Ltac process_cases :=
  split; cbn [p_serving p_waiting p_signal p_http p_log p_deferred p_ran p_exit
    h_called h_shut h_served h_stopped h_requests] in *;
  rewrite ?logged_written, ?in_snoc; first [assumption|discriminate|intuition congruence|idtac].

Lemma goroutine_inv ds p p' : goroutine_step p = Some p' → process_inv ds p → p.(p_exit) = None → process_inv ds p'.
Proof using written.
  destruct p as [s m sig h log ds0 ran ex]. cbn [p_exit]. intros Hs Hinv ->.
  destruct Hinv as [Hh Hcall Hshut Hd He Hsig Hsg Hf Hfail Hend Hst Hdrain Hr Hx].
  destruct s; cbn in Hs, Hst.
  - injection Hs as <-. process_cases.
    + destruct Hh as [Hc Hsh Hdr]. by split.
    + intros Hm. by eapply stopped_as_more; [|apply Hst].
  - destruct (h_served h) as [r|] eqn:Hserved; [|done]. injection Hs as <-. destruct (serve_failed r) eqn:Hg; process_cases.
    + intros _. destruct r as [err|]; [|done]. exists err. split; [done|]. by apply serve_failed_spec.
    + intros Hm. by eapply stopped_as_more; [|apply Hst].
    + intros _. rewrite Hserved. split; [|done]. intros (err & Heq & Hne). rewrite Hserved in Heq. injection Heq as ->.
      apply serve_failed_spec in Hne. congruence.
  - injection Hs as <-. process_cases.
  - done.
Qed.

Lemma main_inv ds p p' : main_step p = Some p' → process_inv ds p → p.(p_exit) = None → process_inv ds p'.
Proof using written.
  destruct p as [s m sig h log ds0 ran ex]. cbn [p_exit]. intros Hs Hinv ->.
  destruct Hinv as [Hh Hcall Hshut Hd He Hsig Hsg Hf Hfail Hend Hst Hdrain Hr Hx].
  destruct m; cbn in Hs, Hst.
  - destruct sig; [|done]. injection Hs as <-. process_cases.
  - injection Hs as <-. process_cases. destruct Hh as [Hc Hsh Hdr]. by split.
  - destruct (h_stopped h) as [[err|]|] eqn:Hstopped; [..|done]; injection Hs as <-; process_cases;
      intros _; [right; exists err|left]; rewrite in_snoc; auto.
  - destruct ds0 as [|d ds0]; injection Hs as <-; process_cases.
    by rewrite <- app_assoc.
Qed.

Lemma server_inv ds p h' : server_step p.(p_http) h' → process_inv ds p → process_inv ds (with_http h' p).
Proof.
  intros Hs Hinv. pose proof Hinv as [Hh Hcall Hshut Hd He Hsig Hsg Hf Hfail Hend Hst Hdrain Hr Hx].
  destruct (server_keeps _ _ Hs Hh) as (Hh' & Hc & Hsh & Hserved & Hstopped).
  destruct p as [s m sig h log ds0 ran ex]. unfold with_http. cbn in *.
  assert (Hst' : stopped_as h log → stopped_as h' log).
  { unfold stopped_as. intros [[Hx' Hl]|(err & Hx' & Hl)]; [left|right; exists err];
      rewrite Hstopped by (by rewrite Hx'); auto. }
  assert (Hf' : h_served h ≠ None → failed_with h' ↔ failed_with h).
  { intros Hn. unfold failed_with. by rewrite Hserved. }
  split; cbn; rewrite ?Hc, ?Hsh; auto.
  - intros Hs'. apply Hf'; [|by apply Hfail]. destruct (Hfail Hs') as (err & -> & _). done.
  - intros Hs'. destruct (Hend Hs') as [Hn Hs2]. rewrite Hf', Hserved by done. done.
  - intros Hl. rewrite Hstopped; [by apply Hdrain|]. by rewrite (Hdrain Hl).
Qed.

Lemma signal_inv ds p : process_inv ds p → process_inv ds (with_signal p).
Proof. intros Hinv. destruct Hinv. destruct p. split; cbn in *; auto. Qed.

Lemma reached_process_inv ds p : rtc process_step (process_start ds) p → process_inv ds p.
Proof using written.
  generalize (process_start_inv ds). generalize (process_start ds). intros p0 Hinv Hrun.
  induction Hrun as [|p0 p1 p2 Hs _ IH]; [done|]. apply IH.
  destruct Hs; eauto using goroutine_inv, main_inv, server_inv, signal_inv.
Qed.

(** ** Ways out *)

Definition exits_with (z : Z) (p : process) : Prop := ∃ p', rtc process_step p p' ∧ p'.(p_exit) = Some z.

Lemma exits_step z p p1 : process_step p p1 → exits_with z p1 → exits_with z p.
Proof. intros Hs (p' & Hrun & He). exists p'. split; [by eapply rtc_l|done]. Qed.

Lemma returning_exits s sig h log ds ran :
  exits_with 0 (mkProcess s Returning sig h log ds ran None).
Proof.
  revert ran. induction ds as [|d ds IH]; intros ran.
  - eexists. split; [by apply rtc_once, step_main|done].
  - by eapply exits_step; [apply step_main|].
Qed.

(** The signal, the shutdown, what it returns, the deferred calls. *)
Lemma running_exits ds p : process_inv ds p → p.(p_exit) = None → exits_with 0 p.
Proof.
  assert (Hshut : ∀ s sig h log ds ran, h.(h_shut) = true →
    exits_with 0 (mkProcess s InShutdown sig h log ds ran None)).
  { intros s sig [c sh sv st k] log ds0 ran Hsh. cbn in Hsh. subst sh.
    assert (Hret : ∀ st, exits_with 0 (mkProcess s InShutdown sig (mkHttp c true sv (Some st) k) log ds0 ran None)).
    { intros [err|]; (eapply exits_step; [by apply step_main|apply returning_exits]). }
    destruct st as [st|]; [apply Hret|]. eapply exits_step; [|apply (Hret (Some http_ErrServerClosed))].
    by apply step_server, server_not_drained. }
  assert (Hsig : ∀ s sig h log ds ran, exits_with 0 (mkProcess s Signalled sig h log ds ran None)).
  { intros. eapply exits_step; [by apply step_main|]. by apply Hshut. }
  destruct p as [s m sig h log ds0 ran ex]. cbn [p_exit]. intros Hinv ->. destruct m.
  - eapply exits_step; [by apply step_signal|]. eapply exits_step; [by apply step_main|]. apply Hsig.
  - apply Hsig.
  - apply Hshut. apply (pi_shut _ _ Hinv). by left.
  - apply returning_exits.
Qed.

(** The goroutine goes on to [os.Exit]. *)
Lemma failed_exits ds p : process_inv ds p → failed_with p.(p_http) → p.(p_exit) = None → exits_with 1 p.
Proof.
  intros Hinv Hf Hex.
  assert (Hexit : ∀ m sig h log ds ran, exits_with 1 (mkProcess Failing m sig h log ds ran None)).
  { intros. eexists. split; [by apply rtc_once, step_goroutine|done]. }
  pose proof (hi_called _ (pi_http _ _ Hinv)) as Hc. pose proof (proj1 (pi_called _ _ Hinv)) as Hn.
  pose proof (pi_ended _ _ Hinv) as He. destruct p as [s m sig h log ds0 ran ex]. cbn in *. subst ex.
  destruct Hf as (err & Hserved & Hne). destruct s.
  - rewrite (Hc (Hn eq_refl)) in Hserved. discriminate.
  - eapply exits_step; [apply step_goroutine; [done|]|apply Hexit]. cbn [goroutine_step].
    by rewrite Hserved, (proj2 (serve_failed_spec err) Hne).
  - apply Hexit.
  - destruct (He eq_refl) as [Hx _]. destruct Hx. by exists err.
Qed.
End Process.

Lemma newLogger_writes cfg : level_value (newLogger cfg) <= level_value LevelInfo.
Proof. unfold newLogger. case_bool_decide; cbn; lia. Qed.

(** C28: how the process ends.  However requests, the server and the signal
    interleave, the process exits with 0 or 1.  With 1, and with "server failed"
    in its log, only when [ListenAndServe] has returned an error other than
    [ErrServerClosed]; a server that is shut down never makes it fail, and one
    that failed can always bring the process to exit with 1.  With 0 only after
    the signal and after [Shutdown] has returned, everything [main] deferred
    having run in order, none of it before that; its log then says "server
    stopped" when [Shutdown] returned nil, every request having been answered,
    and "graceful shutdown failed" when it returned an error.  A process that
    has not exited can always be brought to exit with 0. *)
Theorem process_lifecycle cfg ds p :
  let step := process_step (newLogger cfg) in
  rtc step (process_start ds) p →
  let h := p.(p_http) in
  (∀ z, p.(p_exit) = Some z → z = 0 ∨ z = 1) ∧
  (p.(p_exit) = Some 1 → failed_with h ∧ ServerFailed ∈ p.(p_log)) ∧
  (ServerFailed ∈ p.(p_log) → failed_with h) ∧
  (failed_with h → p.(p_exit) = None → ∃ p', rtc step p p' ∧ p'.(p_exit) = Some 1) ∧
  (p.(p_exit) = Some 0 →
     p.(p_signal) = true ∧ ShutdownSignalReceived ∈ p.(p_log) ∧ p.(p_ran) = ds ∧ stopped_as h p.(p_log)) ∧
  (h.(h_stopped) = None → p.(p_ran) = []) ∧
  (ServerStopped ∈ p.(p_log) → h.(h_stopped) = Some None ∧ h.(h_requests) = 0%nat) ∧
  (p.(p_exit) = None → ∃ p', rtc step p p' ∧ p'.(p_exit) = Some 0).
Proof.
  intros step Hrun h. pose proof (reached_process_inv _ (newLogger_writes cfg) ds p Hrun) as Hinv.
  pose proof Hinv as [Hh _ Hshut Hd He Hsig Hsg Hf Hfail _ Hst Hdrain Hr Hx]. fold h in Hh, Hfail, Hst, Hdrain.
  split_and!.
  - intros z Hz. destruct (Hx z Hz) as [->|[-> _]]; auto.
  - intros H1. destruct (Hx _ H1) as [|[_ Hs]]; [done|]. split; [by apply Hfail|by apply Hf].
  - intros Hl. by apply Hfail, Hf.
  - by apply failed_exits with ds.
  - intros H0. destruct (Hr H0) as [Hret Hnil]. rewrite Hnil, app_nil_r in Hd.
    assert (Hn : p.(p_waiting) ≠ AwaitSignal) by (by rewrite Hret).
    split_and!; [by apply Hsg|by apply Hsig|done|by apply Hst].
  - intros Hn. apply He. intros Hret. destruct (Hst Hret) as [[Hs _]|(err & Hs & _)]; congruence.
  - intros Hl. split; [by apply Hdrain|]. by apply (hi_drained _ Hh), Hdrain.
  - by apply running_exits with ds.
Qed.
