(* ===== verification/TestLock.v ===== *)
(** * The lock of the integration tests: [internal/testutil/integration_lock.go]

    Tests of several packages, in several processes, share one database; each
    takes an advisory lock of PostgreSQL first.  Such a lock belongs to a
    session and stacks: it is free again when the session has unlocked it as
    often as it has locked it, or has ended.  A pool hands a connection to one
    borrower at a time. *)
From stdpp Require Import relations.
From S2P Require Import Prelude.

Definition integrationLockID : Z := 424242.

(** ** Advisory locks *)

(** A session is a number; a held lock has its session and how often. *)
Definition held_lock : Type := nat * nat.

(** [None] when the call has to wait. *)
Definition pg_advisory_lock (s : nat) (id : Z) (locks : gmap Z held_lock) : option (gmap Z held_lock) :=
  match locks !! id with
  | None => Some (<[id := (s, 1%nat)]> locks)
  | Some (owner, k) => if decide (owner = s) then Some (<[id := (s, S k)]> locks) else None
  end.

Definition pg_advisory_unlock (s : nat) (id : Z) (locks : gmap Z held_lock) : gmap Z held_lock :=
  match locks !! id with
  | Some (owner, k) =>
      if decide (owner = s) then
        if decide (k = 1%nat) then delete id locks else <[id := (s, pred k)]> locks
      else locks
  | None => locks
  end.

Definition end_session (s : nat) (locks : gmap Z held_lock) : gmap Z held_lock :=
  filter (fun p => p.2.1 ≠ s) locks.

(** ** Tests *)

(** Where a test is with [AcquireIntegrationLock]: before it, waiting for the
    lock, between it and the function it returned, after that function, or
    failed in either. *)
Inductive test_phase := Outside | Asking (s : nat) | Inside (s : nat) | Left | Fatal.

Definition borrowed (p : test_phase) : option nat :=
  match p with Asking s | Inside s => Some s | _ => None end.

Record lock_state := mkLockState {
  ls_locks : gmap Z held_lock;
  ls_alive : gset nat;
  ls_tests : list test_phase
}.

(** A failing [Exec] may or may not have taken effect; the connection goes back
    either way. *)
Inductive lock_step : lock_state → lock_state → Prop :=
| lock_acquire locks alive tests i s :
    tests !! i = Some Outside → s ∈ alive → (∀ p, p ∈ tests → borrowed p ≠ Some s) →
    lock_step (mkLockState locks alive tests) (mkLockState locks alive (<[i := Asking s]> tests))
| lock_no_connection locks alive tests i :
    tests !! i = Some Outside →
    lock_step (mkLockState locks alive tests) (mkLockState locks alive (<[i := Fatal]> tests))
| lock_granted locks locks' alive tests i s :
    tests !! i = Some (Asking s) → s ∈ alive → pg_advisory_lock s integrationLockID locks = Some locks' →
    lock_step (mkLockState locks alive tests) (mkLockState locks' alive (<[i := Inside s]> tests))
| lock_fails locks locks' alive tests i s :
    tests !! i = Some (Asking s) →
    locks' = locks ∨ s ∈ alive ∧ pg_advisory_lock s integrationLockID locks = Some locks' →
    lock_step (mkLockState locks alive tests) (mkLockState locks' alive (<[i := Fatal]> tests))
| lock_released locks alive tests i s :
    tests !! i = Some (Inside s) → s ∈ alive →
    lock_step (mkLockState locks alive tests)
      (mkLockState (pg_advisory_unlock s integrationLockID locks) alive (<[i := Left]> tests))
| lock_release_fails locks locks' alive tests i s :
    tests !! i = Some (Inside s) →
    locks' = locks ∨ s ∈ alive ∧ locks' = pg_advisory_unlock s integrationLockID locks →
    lock_step (mkLockState locks alive tests) (mkLockState locks' alive (<[i := Fatal]> tests))
| lock_session_ends locks alive tests s :
    lock_step (mkLockState locks alive tests) (mkLockState (end_session s locks) (alive ∖ {[s]}) tests).

Definition lock_start (alive : gset nat) (tests : nat) : lock_state :=
  mkLockState ∅ alive (replicate tests Outside).

(** ** What holds of any run *)

Definition has_lock (locks : gmap Z held_lock) (s : nat) : Prop :=
  ∃ k, locks !! integrationLockID = Some (s, k).

(** No connection has two borrowers. *)
Definition borrowed_once (tests : list test_phase) : Prop :=
  ∀ i j p q s, tests !! i = Some p → tests !! j = Some q → borrowed p = Some s → borrowed q = Some s → i = j.

Record lock_inv (l : lock_state) : Prop := {
  li_borrowed : borrowed_once l.(ls_tests);
  li_inside i s : l.(ls_tests) !! i = Some (Inside s) → s ∈ l.(ls_alive) → has_lock l.(ls_locks) s;
  li_held s k : Fatal ∉ l.(ls_tests) → l.(ls_locks) !! integrationLockID = Some (s, k) →
    k = 1%nat ∧ s ∈ l.(ls_alive) ∧ ∃ i, l.(ls_tests) !! i = Some (Inside s)
}.

(** What another session's calls do to a lock: nothing. *)
Lemma locked_by_other s s' locks locks' :
  has_lock locks s → s' ≠ s → pg_advisory_lock s' integrationLockID locks = Some locks' → False.
Proof. intros [k Hk] Hne. unfold pg_advisory_lock. rewrite Hk. by case_decide. Qed.

Lemma unlocked_by_other s s' locks :
  has_lock locks s → s' ≠ s → pg_advisory_unlock s' integrationLockID locks = locks.
Proof. intros [k Hk] Hne. unfold pg_advisory_unlock. rewrite Hk. by case_decide. Qed.

Lemma granted_has s locks locks' :
  pg_advisory_lock s integrationLockID locks = Some locks' → has_lock locks' s.
Proof.
  unfold pg_advisory_lock, has_lock. destruct (locks !! _) as [[o k]|]; [case_decide; [|done]|];
    intros [= <-]; eexists; apply lookup_insert_eq.
Qed.

Lemma ended_keeps s s' locks : has_lock locks s → s ≠ s' → has_lock (end_session s' locks) s.
Proof. intros [k Hk] Hne. exists k. by apply map_lookup_filter_Some. Qed.

(** A test moves on with the session it had, if any, or with none. *)
Lemma borrowed_after (tests : list test_phase) i p0 p' :
  tests !! i = Some p0 → borrowed p' = borrowed p0 ∨ borrowed p' = None →
  borrowed_once tests → borrowed_once (<[i := p']> tests).
Proof.
  intros Hi Hb Hd k j p q s Hk Hj Hp Hq.
  apply list_lookup_insert_Some in Hk as [(<- & <- & _)|[Hik Hk]], Hj as [(<- & <- & _)|[Hij Hj]]; [done| | |].
  - destruct Hb as [Hb|Hb]; [|congruence]. apply (Hd i j p0 q s); congruence.
  - destruct Hb as [Hb|Hb]; [|congruence]. apply (Hd k i p p0 s); congruence.
  - by apply (Hd k j p q s).
Qed.

Lemma no_fatal_before (tests : list test_phase) (i : nat) p p' : tests !! i = Some p → p ≠ Fatal → Fatal ∉ <[i := p']> tests → Fatal ∉ tests.
Proof.
  intros Hi Hp Hn Hin. apply Hn. apply list_elem_of_lookup in Hin as [j Hj].
  apply list_elem_of_lookup. exists j. rewrite list_lookup_insert_ne; [done|congruence].
Qed.

Lemma fatal_now (tests : list test_phase) (i : nat) p : tests !! i = Some p → Fatal ∈ <[i := Fatal]> tests.
Proof. intros Hi. apply list_elem_of_lookup. exists i. apply list_lookup_insert_eq. by eapply lookup_lt_Some. Qed.

(** The part of the invariant about who is inside, when one test moves and the
    lock of every other live test inside stays. *)
Lemma inside_after locks locks' alive tests i p0 p' :
  lock_inv (mkLockState locks alive tests) → tests !! i = Some p0 →
  (∀ s, p' = Inside s → has_lock locks' s) →
  (∀ s, (∀ s0, borrowed p0 = Some s0 → s0 ≠ s) → has_lock locks s → has_lock locks' s) →
  ∀ j s, <[i := p']> tests !! j = Some (Inside s) → s ∈ alive → has_lock locks' s.
Proof.
  intros [Hd Hi _] Hp Hnew Hold j s [(<- & Hj & _)|[Hij Hj]]%list_lookup_insert_Some Ha; [by apply Hnew|].
  apply Hold; [|by apply (Hi j)]. intros s0 Hs0 ->. by apply Hij, (Hd i j p0 (Inside s) s).
Qed.

(** The lock after a call whose effect is unknown. *)
Lemma maybe_locked s (alive : gset nat) locks locks' s' :
  locks' = locks ∨ s ∈ alive ∧ pg_advisory_lock s integrationLockID locks = Some locks' →
  s ≠ s' → has_lock locks s' → has_lock locks' s'.
Proof. intros [->|[_ Hl]] Hne Hh; [done|]. by destruct (locked_by_other s' s locks locks'). Qed.

Lemma maybe_unlocked s (alive : gset nat) locks locks' s' :
  locks' = locks ∨ s ∈ alive ∧ locks' = pg_advisory_unlock s integrationLockID locks →
  s ≠ s' → has_lock locks s' → has_lock locks' s'.
Proof. intros [->|[_ ->]] Hne Hh; [done|]. by rewrite (unlocked_by_other s'). Qed.

(** Each part of the invariant, over a step. *)
Lemma borrowed_step l l' : lock_step l l' → borrowed_once l.(ls_tests) → borrowed_once l'.(ls_tests).
Proof.
  intros Hs Hd. destruct Hs as [? ? tests i s Hi _ Hfree|? ? tests i Hi|? ? ? tests i s Hi|? ? ? tests i s Hi
    |? ? tests i s Hi|? ? ? tests i s Hi|]; cbn [ls_tests] in *; [|eapply borrowed_after; eauto..|done].
  intros k j p q s' Hk Hj Hp Hq.
  apply list_lookup_insert_Some in Hk as [(<- & <- & _)|[Hik Hk]], Hj as [(<- & <- & _)|[Hij Hj]]; [done| | |].
  - destruct (Hfree q); [by eapply list_elem_of_lookup_2|]. cbn in Hp. congruence.
  - destruct (Hfree p); [by eapply list_elem_of_lookup_2|]. cbn in Hq. congruence.
  - by apply (Hd k j p q s').
Qed.

Lemma inside_step l l' i s :
  lock_step l l' → lock_inv l → l'.(ls_tests) !! i = Some (Inside s) → s ∈ l'.(ls_alive) → has_lock l'.(ls_locks) s.
Proof.
  intros Hs Hinv. revert i s.
  destruct Hs as [locks alive tests i s Hi|locks alive tests i Hi|locks locks' alive tests i s Hi _ Hl
    |locks locks' alive tests i s Hi Hl|locks alive tests i s Hi Ha|locks locks' alive tests i s Hi Hl
    |locks alive tests s]; cbn [ls_locks ls_alive ls_tests].
  7: { intros i s' Hi Ha. assert (s' ∈ alive ∧ s' ≠ s) as [Ha' Hne] by set_solver.
    apply ended_keeps; [by apply (li_inside _ Hinv i)|done]. }
  all: intros j s'; eapply inside_after; [exact Hinv|exact Hi| |];
    [by intros ? [= <-]; eapply granted_has || done|intros s2 Hne Hh; cbn in Hne].
  all: try done.
  - destruct (locked_by_other s2 s locks locks'); eauto.
  - eapply maybe_locked; eauto.
  - rewrite (unlocked_by_other s2); eauto.
  - eapply maybe_unlocked; eauto.
Qed.

Lemma held_step l l' s0 k0 :
  lock_step l l' → lock_inv l → Fatal ∉ l'.(ls_tests) → l'.(ls_locks) !! integrationLockID = Some (s0, k0) →
  k0 = 1%nat ∧ s0 ∈ l'.(ls_alive) ∧ ∃ i, l'.(ls_tests) !! i = Some (Inside s0).
Proof.
  intros Hs Hinv Hf Hk.
  destruct Hs as [locks alive tests i s Hi|locks alive tests i Hi|locks locks' alive tests i s Hi Ha Hl
    |locks locks' alive tests i s Hi|locks alive tests i s Hi Ha|locks locks' alive tests i s Hi
    |locks alive tests s]; cbn [ls_locks ls_alive ls_tests] in *;
    try (destruct Hf; by eapply fatal_now).
  - destruct (li_held _ Hinv s0 k0) as (-> & Ha0 & j & Hj); [by eapply no_fatal_before|done|].
    split_and!; [done..|]. exists j. cbn in Hj. rewrite list_lookup_insert_ne; [done|congruence].
  - unfold pg_advisory_lock in Hl. destruct (locks !! _) as [[o k]|] eqn:Ho.
    + case_decide as Hos; [|done]. subst o.
      destruct (li_held _ Hinv s k) as (_ & _ & j & Hj); [by eapply no_fatal_before|done|]. cbn in Hj.
      assert (i = j) as <- by by apply (li_borrowed _ Hinv i j (Asking s) (Inside s) s). congruence.
    + injection Hl as <-. rewrite lookup_insert_eq in Hk. injection Hk as <- <-.
      split_and!; [done..|]. exists i. apply list_lookup_insert_eq. by eapply lookup_lt_Some.
  - destruct (li_inside _ Hinv i s Hi Ha) as [k Hs]. cbn in Hs.
    destruct (li_held _ Hinv s k) as (-> & _); [by eapply no_fatal_before|done|].
    unfold pg_advisory_unlock in Hk. rewrite Hs, !decide_True in Hk by done. by rewrite lookup_delete_eq in Hk.
  - apply map_lookup_filter_Some in Hk as [Hk Hne]. cbn in Hne.
    destruct (li_held _ Hinv s0 k0) as (-> & Ha0 & Hj); [done..|]. split_and!; [done|set_solver|done].
Qed.

Lemma lock_start_inv alive tests : lock_inv (lock_start alive tests).
Proof.
  split; cbn [lock_start ls_locks ls_alive ls_tests].
  - intros i j p q s [-> _]%lookup_replicate_1. by cbn.
  - intros i s [Hx _]%lookup_replicate_1. discriminate Hx.
  - intros s k _ Hk. by rewrite lookup_empty in Hk.
Qed.

Lemma lock_reached alive tests l : rtc lock_step (lock_start alive tests) l → lock_inv l.
Proof.
  generalize (lock_start_inv alive tests). generalize (lock_start alive tests). intros l0 Hinv Hrun.
  induction Hrun as [|l0 l1 l2 Hs _ IH]; [done|]. apply IH. split.
  - by eapply borrowed_step, Hinv.
  - intros i s. by apply inside_step with l0.
  - intros s k. by apply held_step with l0.
Qed.

(** The lock of the integration tests keeps them apart.  However tests,
    failing calls and ending sessions interleave, at most one test whose session
    lives is between the lock and the function that releases it.  As long as no
    test has failed, the lock is held by such a test alone: a test that waits
    for it, its session alive, can have it or waits for a test inside, and once
    nobody is inside it is free. *)
Theorem integration_lock_excludes alive tests l :
  rtc lock_step (lock_start alive tests) l →
  let inside i s := l.(ls_tests) !! i = Some (Inside s) ∧ s ∈ l.(ls_alive) in
  (∀ i j s s', inside i s → inside j s' → i = j) ∧
  (Fatal ∉ l.(ls_tests) →
    (∀ i s, l.(ls_tests) !! i = Some (Asking s) →
       is_Some (pg_advisory_lock s integrationLockID l.(ls_locks)) ∨ ∃ j s', inside j s') ∧
    ((∀ i s, ¬ inside i s) → l.(ls_locks) !! integrationLockID = None)).
Proof.
  intros Hrun inside. destruct (lock_reached _ _ _ Hrun) as [Hd Hi Hh].
  assert (Hfree : Fatal ∉ l.(ls_tests) → (∀ i s, ¬ inside i s) → l.(ls_locks) !! integrationLockID = None).
  { intros Hf Hn. destruct (l.(ls_locks) !! _) as [[s k]|] eqn:Hk; [|done].
    destruct (Hh s k Hf eq_refl) as (_ & Ha & i & Hin). by destruct (Hn i s). }
  split; [|intros Hf; split; [|by apply Hfree]].
  - intros i j s s' [Hp Ha] [Hq Ha']. destruct (Hi i s Hp Ha) as [k Hk], (Hi j s' Hq Ha') as [k' Hk'].
    rewrite Hk in Hk'. injection Hk' as <- _. by apply (Hd i j (Inside s) (Inside s) s).
  - intros i s Hp. destruct (l.(ls_locks) !! integrationLockID) as [[s' k]|] eqn:Hk.
    + destruct (Hh s' k Hf eq_refl) as (_ & Ha & j & Hin). right. by exists j, s'.
    + left. unfold pg_advisory_lock. rewrite Hk. by eexists.
Qed.
