(* ===== verification/Bootstrap.v ===== *)
(** * The demo data: [cmd/demo-bootstrap/main.go]

    A command that makes sure of a key and three policies, through the services
    of the application.  [fail] ends the process with the error. *)
From S2P Require Import Prelude GoBase Ids Text Calendar ApiKeys Json Redis Database Queries World.
From S2P Require Import Policies Projection Auth Config App.

Record bootstrapPolicyResult := mkBootstrapPolicy {
  bp_Status : string;
  bp_ScopeType : string;
  bp_ScopeIdentifier : string;
  bp_RoutePattern : string;
  bp_Capacity : Z;
  bp_RefillTokens : Z;
  bp_RefillIntervalSeconds : Z
}.

Record bootstrapAPIKeyResult := mkBootstrapKey {
  bk_ID : string;
  bk_Name : string;
  bk_KeyPrefix : string;
  bk_RawKey : string
}.

Record bootstrapResult := mkBootstrapResult {
  APIBaseURL : string;
  UIURL : string;
  AdminToken : string;
  DemoAPIKey : bootstrapAPIKeyResult;
  result_Policies : list bootstrapPolicyResult;
  GeneratedAt : string
}.

Definition inferAPIBaseURL (serverAddr : string) : string :=
  let serverAddr := TrimSpace serverAddr in
  if bool_decide (serverAddr = EmptyString) || bool_decide (serverAddr = ":8080")
  then "http://localhost:8080"
  else if HasPrefix serverAddr "http://" || HasPrefix serverAddr "https://" then serverAddr
  else if HasPrefix serverAddr ":" then "http://localhost" +:+ serverAddr
  else "http://" +:+ serverAddr.

(** [Format("20060102-150405")]. *)
Definition format_compact (t : Time) : string :=
  let '(y, m, d) := date_of_days (unix_days t) in
  let s := day_seconds t in
  year_text y (dec_text 2 m (dec_text 2 d (String "-"
    (dec_text 2 (s / 3600) (dec_text 2 (s / 60 mod 60) (dec_text 2 (s mod 60) EmptyString)))))).

Section Bootstrap.
Context {D : Type} `{RedisServer D} `{RedisScan D} `{UuidText}.
Context (time_Now : net (world D) → Time) (secret : net (world D) → entropy).
Implicit Types (n : net (world D)) (cfg : AppConfig).

Definition missing_demo_key : error :=
  OpaqueError "PUBLIC_DEMO_RAW_API_KEY must be set when PUBLIC_DEMO_MODE=true".

Definition ensureDemoAPIKey cfg (service : APIKeyService (world D)) (codec : APIKeyCodec) n
    : result error CreatedAPIKey * net (world D) :=
  let rawKey := TrimSpace cfg.(cfg_Demo).(RawAPIKey) in
  if cfg.(cfg_Demo).(PublicMode) && bool_decide (rawKey = EmptyString) then (Err missing_demo_key, n)
  else if bool_decide (rawKey = EmptyString) then
    CreateKey service (secret n)
      (mkCreateAPIKeyInput ("demo-" +:+ format_compact (time_UTC (time_Now n))) None) n
  else
    let keyHash := Hash codec rawKey in
    let '(r, n) := sql (GetAPIKeyByHash keyHash) n in
    let '(r, n) :=
      match r with
      | Ok _ => (Ok (), n)
      | Err err =>
          if negb (errors_Is err pgx_ErrNoRows) then (Err (Wrapf "get api key by hash" err), n)
          else
            match Prefix rawKey with
            | Err prefixErr => (Err prefixErr, n)
            | Ok keyPrefix =>
                let '(r, n) := sql (CreateAPIKey
                  (mkCreateAPIKeyParams pg_null_UUID "public-demo" keyPrefix keyHash)) n in
                (let? _ := wrap_err "create stable demo api key" r in Ok (), n)
            end
      end in
    match r with
    | Err err => (Err err, n)
    | Ok _ =>
        let '(r, n) := ResolveActiveByRawKey service rawKey n in
        (let? apiKey := wrap_err "resolve stable demo api key" r in Ok (mkCreatedAPIKey apiKey rawKey), n)
    end.

Definition ensurePolicy (service : Service (world D)) (input : CreatePolicyInput) n
    : result error bootstrapPolicyResult * net (world D) :=
  let result status := {|
    bp_Status := status;
    bp_ScopeType := input.(in_ScopeType);
    bp_ScopeIdentifier :=
      match input.(in_ScopeIdentifier) with Some id => uuid_String id | None => EmptyString end;
    bp_RoutePattern := default EmptyString input.(in_RoutePattern);
    bp_Capacity := input.(in_Capacity);
    bp_RefillTokens := input.(in_RefillTokens);
    bp_RefillIntervalSeconds := input.(in_RefillIntervalSeconds)
  |} in
  let '(r, n) := Create service input n in
  match r with
  | Ok _ => (Ok (result "created"), n)
  | Err err =>
      if errors_Is err ErrPolicyConflict then (Ok (result "kept_existing"), n)
      else (Err (Wrapf ("ensure policy " +:+ input.(in_ScopeType) +:+ "/" +:+
                        default EmptyString input.(in_RoutePattern)) err), n)
  end.

(** The policies of the demo, given its key. *)
Definition demo_policies (key : UUID) : list CreatePolicyInput :=
  [ mkCreatePolicyInput ScopeGlobal None None 12 4 60;
    mkCreatePolicyInput ScopeRoute None (Some "report") 10 2 60;
    mkCreatePolicyInput ScopeAPIKeyRoute (Some key) (Some "orders") 6 2 30 ].

(** In order, up to the first failure. *)
Fixpoint ensurePolicies (service : Service (world D)) (inputs : list CreatePolicyInput) n
    : result error (list bootstrapPolicyResult) * net (world D) :=
  match inputs with
  | [] => (Ok [], n)
  | input :: inputs =>
      let '(r, n) := ensurePolicy service input n in
      match r with
      | Err err => (Err err, n)
      | Ok res =>
          let '(r, n) := ensurePolicies service inputs n in
          (let? rest := r in Ok (res :: rest), n)
      end
  end.

(** [main] between the opening of the connections and the printing of its
    result; [pages] bounds the scan of a projection it never rebuilds. *)
Definition bootstrap_main cfg (pages : nat) n : result error bootstrapResult * net (world D) :=
  let apiKeyCodec := NewAPIKeyCodec cfg.(cfg_Security).(KeyHashPepper) in
  let apiKeyService := NewAPIKeyService apiKeyCodec
    (Some (NewAPIKeyAuthCache cfg.(cfg_Redis).(APIKeyCacheTTL))) in
  let policyService := NewService (Some (PolicyProjectionStore pages)) in
  let '(r, n) := ensureDemoAPIKey cfg apiKeyService apiKeyCodec n in
  match wrap_err "create demo api key" r with
  | Err err => (Err err, n)
  | Ok createdKey =>
      let '(r, n) := ensurePolicies policyService (demo_policies createdKey.(created_APIKey).(key_ID)) n in
      (let? results := r in
       Ok {| APIBaseURL := inferAPIBaseURL cfg.(cfg_Server).(Addr);
             UIURL := cfg.(cfg_UI).(AllowedOrigin);
             AdminToken := cfg.(cfg_Admin).(Token);
             DemoAPIKey := {|
               bk_ID := uuid_String createdKey.(created_APIKey).(key_ID);
               bk_Name := createdKey.(created_APIKey).(key_Name);
               bk_KeyPrefix := createdKey.(created_APIKey).(key_KeyPrefix);
               bk_RawKey := createdKey.(RawKey)
             |};
             result_Policies := results;
             GeneratedAt := format_rfc3339 false (time_UTC (time_Now n)) |}, n)
  end.
(** [main]: no ping, and no rebuilding of the projection. *)
Definition bootstrap_command `{PgxPool (world D)} `{GoRedis} (env : string → option string) (pages : nat) n
    : result error bootstrapResult * net (world D) :=
  match Load env with
  | Err err => (Err err, n)
  | Ok cfg =>
      let '(r, n) := Open cfg.(cfg_Postgres).(DSN) n in
      match r with
      | Err err => (Err err, n)
      | Ok _ =>
          match NewClient cfg.(cfg_Redis).(redis_Addr) cfg.(cfg_Redis).(redis_DB) with
          | Err err => (Err err, n)
          | Ok _ => bootstrap_main cfg pages n
          end
      end
  end.
End Bootstrap.
