(* ===== verification/ProtectedSpec.v ===== *)
(** * A request, end to end

    On a quiet connection, with the projection mirroring the database and the
    cache coherent, a protected request is served or refused exactly as the
    token bucket of the most specific active policy says, and leaves the stores
    in step. *)
From S2P Require Import Prelude GoBase Ids Text ApiKeys TokenBucket TokenBucketFacts TokenBucketSpec.
From S2P Require Import TokenBucketRuns Redis BucketStore BucketStoreSpec BucketStoreRuns.
From S2P Require Import Database Queries DatabaseSpec World Policies PolicySpec Projection.
From S2P Require Import ProjectionSpec PolicyService PolicyOutcomes Resolver ResolverSpec Auth AuthSpec.
From S2P Require Import AuditLog Http Middleware MiddlewareSpec Protected.

Section EndToEnd.
Context {D : Type} `{RL : RedisLaws D} `{UL : UuidLaws}.
Context (svc : services) (time_Now : Clock (W := world D)) (def : ProtectedRouteDefinition).
Implicit Types (w : world D).

(** The stores are in step: what every request starts from and leaves. *)
Record in_step w : Prop := {
  is_db : db_ok w.(pg);
  is_synced : synced w;
  is_coherent : coherent w
}.

(** ** Which writes keep the stores in step *)

Lemma same_strings_in_step w w' :
  in_step w → db_ok w'.(pg) →
  w'.(pg).(rate_limit_policies) = w.(pg).(rate_limit_policies) →
  w'.(pg).(api_keys) = w.(pg).(api_keys) →
  (∀ sc, string_view w'.(redis) (sc_key sc) = string_view w.(redis) (sc_key sc)) →
  (∀ h, string_view w'.(redis) (authCacheKey h) = string_view w.(redis) (authCacheKey h)) →
  in_step w'.
Proof.
  intros [Hdb Hs Hc] Hdb' Hp Hk Hsc Hh. split; [done| |].
  - intros sc Hok. specialize (Hs sc Hok). unfold mirrors in *.
    by rewrite (active_policy_same w.(pg)), Hsc.
  - intros h payload. rewrite Hh. intros Hpay. destruct (Hc h payload Hpay) as (r & Hr & Hu).
    exists r. split; [|done]. unfold active_key, GetAPIKeyByHash in *. by rewrite Hk.
Qed.

Lemma consume_in_step w ref dec :
  in_step w →
  in_step (mkWorld (exec_cmds (consume_cmds (bucketKey ref) dec) w.(redis)) w.(pg)).
Proof.
  intros Hin. apply (same_strings_in_step w); try done; [apply Hin| |].
  - intros sc. apply (exec_frame (consume_cmds (bucketKey ref) dec)).
    repeat constructor; simpl; apply not_in_one; discriminate.
  - intros h. apply (exec_frame (consume_cmds (bucketKey ref) dec)).
    repeat constructor; simpl; apply not_in_one; discriminate.
Qed.

Lemma cache_only_in_step w w1 :
  in_step w → coherent w1 → w1.(pg) = w.(pg) → cache_only w w1 → in_step w1.
Proof.
  intros [Hdb Hs Hc] Hc1 Hpg Hco. split; [by rewrite Hpg| |done].
  intros sc Hok. specialize (Hs sc Hok). unfold mirrors in *. rewrite Hpg.
  destruct (Hco (sc_key sc)) as [_ Hst]; [intros h; discriminate|]. by rewrite Hst.
Qed.

Lemma cache_only_bucket w w1 ref :
  cache_only w w1 → same_key (bucketKey ref) w.(redis) w1.(redis) ∧
  same_key summaryMetricsKey w.(redis) w1.(redis).
Proof. intros Hco. split; apply Hco; intros h; discriminate. Qed.

Lemma opens_same (d d' : D) key cfg reqs s :
  same_key key d d' → opens d key cfg reqs s → opens d' key cfg reqs s.
Proof.
  intros Hsame [[H1 H2 H3]|[Ha Hreqs]].
  - destruct Hsame as [Hh Hs]. left. split; by rewrite ?Hh, ?Hs.
  - right. split; [by apply (same_key_absent key d)|done].
Qed.

Lemma counters_same (d d' : D) a b :
  same_key summaryMetricsKey d d' → counters d a b → counters d' a b.
Proof. intros [Hh Hs] [H1 H2 H3]. unfold counter in *. split; unfold counter; by rewrite ?Hh, ?Hs. Qed.

(** A stored policy configures a bucket the store can keep. *)
Lemma policy_store_cfg db id r :
  db_ok db → db.(rate_limit_policies) !! id = Some r → store_cfg (policy_config (policyFromRecord r)).
Proof.
  intros Hdb Hr. destruct (ok_row_valid _ _ _ Hdb Hr) as [_ _ Hi _ _].
  destruct (ok_policies _ Hdb _ _ Hr) as [_ _ _ _ _ Hb _ _ _].
  unfold in_int32, min_int32, max_int32 in Hb.
  assert (Hm : mul64 r.(rlp_RefillIntervalSeconds) Second = r.(rlp_RefillIntervalSeconds) * Second).
  { apply mul64_id. unfold in_int64, min_int64, max_int64, Second. lia. }
  split; simpl; rewrite Hm; [unfold Second; lia|].
  exists (r.(rlp_RefillIntervalSeconds) * 1000). unfold Second, Millisecond. lia.
Qed.

Definition raw_key (r : request) : string := TrimSpace (header_Get r.(Header) "X-Api-Key").

Definition bucket_ref (p : RateLimitPolicy) : BucketRef := bucketRefFromResolution (resolution_of p).

(** A request that is authenticated and has a policy, and the bucket it meets. *)
Record request_setting w (r : request) (k : APIKey) (p : RateLimitPolicy) (now lo hi : Time)
    (s : State) (a b : Z) : Prop := {
  q_step : in_step w;
  q_def : def ∈ ProtectedRoutes;
  q_key : verdict svc.(svc_codec) w.(pg) (raw_key r) = Ok k;
  q_policy : in_force w.(pg) (Some k.(key_ID)) def.(route_ID) p;
  q_retries : 0 < svc.(svc_buckets).(maxRetries);
  q_clock : ∀ n, time_Now n = now;
  q_horizon : in_horizon (policy_config (policyFromRecord p)) lo hi s [(now, def.(route_Cost))];
  q_hi : hi ≤ max_int64;
  q_storable : storable s;
  q_opens : opens w.(redis) (bucketKey (bucket_ref p)) (policy_config (policyFromRecord p))
              [(now, def.(route_Cost))] s;
  q_counters : counters w.(redis) a b;
  q_room : 0 ≤ a < max_int64 ∧ 0 ≤ b < max_int64
}.

Lemma def_facts :
  def ∈ ProtectedRoutes →
  TrimSpace def.(route_ID) = def.(route_ID) ∧ def.(route_ID) ∈ route_patterns ∧
  1 ≤ def.(route_Cost) ≤ 5.
Proof.
  unfold ProtectedRoutes, protectedRouteDefinitions, route_patterns.
  intros Hd. repeat (apply elem_of_cons in Hd as [->|Hd]); [..|by apply not_elem_of_nil in Hd];
    (split; [done|split; [|simpl; lia]]); by apply (bool_decide_unpack _).
Qed.

Lemma verdict_row db raw k :
  db_ok db → verdict svc.(svc_codec) db raw = Ok k →
  TrimSpace raw ≠ EmptyString ∧ ∃ id row, db.(api_keys) !! id = Some row ∧
    k = apiKeyFromRecord row ∧ k.(key_ID) = id ∧ uuid_ok id.
Proof.
  intros Hdb. unfold verdict. case_bool_decide; [done|].
  destruct (active_key db _) as [row|] eqn:Hr; [|done]. intros [= <-].
  apply active_key_spec in Hr as (id & Hr & _); [|done].
  destruct (ok_api_keys _ Hdb _ _ Hr) as [Hid Hu _ _ _ _ _]. split; [done|]. by exists id, row.
Qed.

Lemma in_force_row db key route p :
  db_ok db → in_force db key route p → ∃ id, db.(rate_limit_policies) !! id = Some p ∧ p.(rlp_ID) = id.
Proof.
  intros Hdb [Ha _ _]. apply active_policy_spec in Ha as (id & Hp & _); [|done].
  exists id. split; [done|]. apply (ok_policies _ Hdb _ _ Hp).
Qed.

Lemma remaining_fits cfg now s cost :
  valid cfg → well_formed cfg s → 0 < cost → cfg.(Capacity) ≤ max_int32 →
  0 ≤ (exact_decision cfg now s cost).(Remaining) ∧
  wrap32 (exact_decision cfg now s cost).(Remaining) = (exact_decision cfg now s cost).(Remaining).
Proof.
  intros Hv Hwf Hc Hcap. pose proof (exact_decision_state cfg now s cost Hv Hwf Hc) as [H1 H2].
  change (TokensRemaining (NewState (exact_decision cfg now s cost))) with
    (Remaining (exact_decision cfg now s cost)) in *.
  split; [lia|]. apply wrap32_id. unfold in_int32, min_int32, max_int32 in *. lia.
Qed.

(** The row a blocked request leaves in the audit log. *)
Definition blocked_row (db : database) (k : APIKey) (p : RateLimitPolicy) (remaining : Z) : RequestAuditLog :=
  mkRequestAuditLog db.(log_seq) (mkPgUUID k.(key_ID) true) def.(route_ID)
    (mkPgUUID p.(rlp_ID) true) "blocked" def.(route_Cost) remaining (now_value db).

Lemma log_quiet w k p remaining :
  db_ok w.(pg) → def ∈ ProtectedRoutes → is_Some (w.(pg).(api_keys) !! k.(key_ID)) →
  is_Some (w.(pg).(rate_limit_policies) !! p.(rlp_ID)) → 0 ≤ remaining → wrap32 remaining = remaining →
  ∃ db', (LogBlocked (mkBlockedRequest k.(key_ID) def.(route_ID) p.(rlp_ID)
            (wrap32 def.(route_Cost)) (wrap32 remaining)) (quiet w)).2 = quiet (mkWorld w.(redis) db') ∧
    db' = with_logs (blocked_row w.(pg) k p remaining :: w.(pg).(request_audit_logs))
            (w.(pg).(log_seq) + 1) w.(pg) ∧ db_ok db'.
Proof.
  intros Hdb Hd Hk Hp Hrem Hw. destruct (def_facts Hd) as (_ & Hroute & Hcost).
  rewrite Hw, (wrap32_id (route_Cost def)) by (unfold in_int32, min_int32, max_int32; lia).
  unfold LogBlocked. rewrite sql_quiet. eexists. split; [reflexivity|].
  split; [|by apply CreateRequestAuditLog_ok].
  unfold CreateRequestAuditLog. cbn [br_APIKeyID br_RouteID br_PolicyID br_RequestCost br_TokensRemaining
    cal_ApiKeyID cal_RouteID cal_PolicyID cal_Outcome cal_RequestCost cal_TokensRemaining].
  unfold log_checks, references. cbn [log_ApiKeyID log_RouteID log_PolicyID log_Outcome
    log_RequestCost log_TokensRemaining uuidToPGType Valid Bytes].
  rewrite (bool_decide_eq_true_2 (route_ID def ∈ _)) by done.
  rewrite !(bool_decide_eq_true_2 (is_Some _)) by done.
  rewrite (proj2 (Z.ltb_lt 0 _)) by lia. rewrite (proj2 (Z.leb_le 0 _)) by lia. done.
Qed.

Lemma holds_world w key s : holds w key s ↔ holds w.(redis) key s.
Proof. split; intros []; by split. Qed.

Lemma opens_world w key cfg reqs s : opens w key cfg reqs s ↔ opens w.(redis) key cfg reqs s.
Proof. unfold opens, absent. by rewrite holds_world. Qed.

Lemma counters_world w a b : counters w a b ↔ counters w.(redis) a b.
Proof. split; intros []; by split. Qed.

(** The bucket's part of a request, once it is authenticated. *)
Lemma limit_quiet w w1 r k p now lo hi s a b :
  request_setting w r k p now lo hi s a b → cache_only w w1 → w1.(pg) = w.(pg) →
  let cfg := policy_config (policyFromRecord p) in
  let dec := exact_decision cfg now s def.(route_Cost) in
  let d2 := exec_cmds (consume_cmds (bucketKey (bucket_ref p)) dec) w1.(redis) in
  Consume svc.(svc_buckets) (bucket_ref p) cfg def.(route_Cost) now (quiet w1) =
    (Ok dec, quiet (mkWorld d2 w.(pg))) ∧
  holds d2 (bucketKey (bucket_ref p)) dec.(NewState) ∧
  counters d2 (if dec.(Allowed) then a + 1 else a) (if dec.(Allowed) then b else b + 1).
Proof.
  intros [Hin Hd Hk Hp Hmax Hclk Hh Hhi Hst Ho Hcnt Hroom] Hco Hpg cfg dec d2.
  destruct (cache_only_bucket w w1 (bucket_ref p) Hco) as [Hsb Hss].
  destruct (in_force_row _ _ _ _ (is_db _ Hin) Hp) as (pid & Hrow & _).
  pose proof (consume_step_exact svc.(svc_buckets) (bucket_ref p) cfg lo hi s now def.(route_Cost) [] w1 a b)
    as Hstep. cbv zeta in Hstep. unfold max_int64 in Hroom.
  destruct Hstep as (Hc & _ & Hh2 & Hcnt2 & _); auto;
    try (unfold in_int64, min_int64, max_int64; lia).
  - by apply (policy_store_cfg _ _ _ (is_db _ Hin) Hrow).
  - apply opens_world. by apply (opens_same w.(redis)).
  - apply counters_world. by apply (counters_same w.(redis)).
  - rewrite exec_world, Hpg in Hc, Hh2, Hcnt2. split; [exact Hc|].
    split; [by apply (holds_world (mkWorld d2 w.(pg)))|by apply (counters_world (mkWorld d2 w.(pg)))].
Qed.

(** The limit's verdict of a request under policy [p]. *)
Definition request_decision (p : RateLimitPolicy) (now : Time) (s : State) : Decision :=
  exact_decision (policy_config (policyFromRecord p)) now s def.(route_Cost).

(** The gate up to its verdict: it authenticates, resolves and spends, and then
    passes the request on or records the refusal. *)
Lemma gate_decides w r k p now lo hi s a b :
  request_setting w r k p now lo hi s a b →
  let dec := request_decision p now s in
  let limited := writeRateLimitHeaders new_writer dec in
  ∃ w2, in_step w2 ∧ w2.(pg) = w.(pg) ∧
    holds w2.(redis) (bucketKey (bucket_ref p)) dec.(NewState) ∧
    counters w2.(redis) (if dec.(Allowed) then a + 1 else a) (if dec.(Allowed) then b else b + 1) ∧
    ∀ next, protected_gate svc time_Now def next new_writer r (quiet w) =
      if dec.(Allowed) then next limited (WithAPIKey r k) (quiet w2) else
      reply (WriteTooManyRequests "rate_limit_exceeded" "rate limit exceeded"
        (header_Set "Retry-After" (FormatInt (durationToHeaderSeconds dec.(RetryAfter))) limited))
        (LogBlocked (mkBlockedRequest k.(key_ID) def.(route_ID) p.(rlp_ID)
           (wrap32 def.(route_Cost)) (wrap32 dec.(Remaining))) (quiet w2)).2.
Proof.
  intros Hq dec limited. pose proof Hq as [Hin Hd Hk Hp _ Hclk _ _ _ _ _ _].
  destruct (def_facts Hd) as (Htrim & Hroute & _). pose proof (is_db _ Hin) as Hdb.
  destruct (verdict_row _ _ _ Hdb Hk) as (Hraw & kid & krow & _ & _ & <- & Hku).
  destruct (resolve_quiet svc.(svc_codec) svc.(svc_cache_ttl) (raw_key r) w (is_coherent _ Hin) Hdb)
    as (w1 & Hres & Hc1 & Hpg1 & Hco). rewrite Hk in Hres.
  pose proof (cache_only_in_step w w1 Hin Hc1 Hpg1 Hco) as Hin1.
  destruct (limit_quiet w w1 r k p now lo hi s a b Hq Hco Hpg1) as (Hcons & Hholds & Hcounts).
  change (exact_decision _ _ _ _) with dec in Hcons, Hholds, Hcounts.
  set (d2 := exec_cmds _ w1.(redis)) in *.
  exists (mkWorld d2 w.(pg)). split_and!; auto.
  { rewrite <- Hpg1. by apply consume_in_step. }
  intros next. unfold protected_gate, APIKeyAuth. fold (raw_key r).
  rewrite bool_decide_eq_false_2; [|intros He; by rewrite He in Hraw].
  unfold key_service in Hres. rewrite Hres.
  unfold EnforceRateLimit. cbn [WithAPIKey APIKeyFromContext ctx_APIKey default].
  rewrite (resolve_mirrored (Some (key_ID k)) (route_ID def) w1);
    [|apply Hin1|apply Hin1|by intros u [= <-]|by rewrite Htrim].
  rewrite Hpg1, Htrim, (first_active_in_force _ _ _ p Hdb Hp).
  change (bucketRefFromResolution (resolution_of p)) with (bucket_ref p).
  change (res_Policy (resolution_of p)) with (policyFromRecord p).
  change (pol_ID (policyFromRecord p)) with (rlp_ID p).
  unfold time_UTC. rewrite Hclk, Hcons. by destruct (Allowed dec).
Qed.

(** The answer to a refused request. *)
Lemma refusal_sent dec :
  let out := WriteTooManyRequests "rate_limit_exceeded" "rate limit exceeded"
    (header_Set "Retry-After" (FormatInt (durationToHeaderSeconds dec.(RetryAfter)))
       (writeRateLimitHeaders new_writer dec)) in
  status out = 429 ∧
  sent_header out "Retry-After" = Some (FormatInt (durationToHeaderSeconds dec.(RetryAfter))) ∧
  sent_header out "X-Ratelimit-Remaining" = Some (FormatInt dec.(Remaining)).
Proof.
  split_and!.
  - by apply status_writeError.
  - unfold WriteTooManyRequests. rewrite header_writeError by done. apply lookup_insert_eq.
  - unfold WriteTooManyRequests. rewrite header_writeError by done.
    unfold writeRateLimitHeaders. rewrite !header_Set_other by done. apply header_Set_same.
Qed.

(** C1: a protected request, end to end.  Authentication, policy resolution, the
    bucket transaction and the audit log compose: the request of an active key
    is decided as the token bucket of the policy in force decides it, at its
    route's cost.  Allowed, it reaches the handler with its key and the rate
    limit headers; blocked, it is answered 429 with the decision's [Retry-After]
    and leaves one row in the audit log.  Either way the bucket holds the
    decision's state, the right counter moved, and the projection and the cache
    are still in step with the database. *)
Theorem protected_request w r k p now lo hi s a b :
  request_setting w r k p now lo hi s a b →
  let dec := exact_decision (policy_config (policyFromRecord p)) now s def.(route_Cost) in
  let gate := protected_gate svc time_Now def in
  let limited := writeRateLimitHeaders new_writer dec in
  ∃ w2, in_step w2 ∧
    holds w2.(redis) (bucketKey (bucket_ref p)) dec.(NewState) ∧
    counters w2.(redis) (if dec.(Allowed) then a + 1 else a) (if dec.(Allowed) then b else b + 1) ∧
    if dec.(Allowed) then
      w2.(pg) = w.(pg) ∧
      ∀ next, gate next new_writer r (quiet w) = next limited (WithAPIKey r k) (quiet w2)
    else
      w2.(pg).(request_audit_logs) =
        blocked_row w.(pg) k p dec.(Remaining) :: w.(pg).(request_audit_logs) ∧
      ∃ out, status out = 429 ∧
        sent_header out "Retry-After" = Some (FormatInt (durationToHeaderSeconds dec.(RetryAfter))) ∧
        sent_header out "X-Ratelimit-Remaining" = Some (FormatInt dec.(Remaining)) ∧
        ∀ next, gate next new_writer r (quiet w) = reply out (quiet w2).
Proof.
  intros Hq dec gate limited. pose proof Hq as [Hin Hd Hk Hp _ _ Hh _ _ _ _ _].
  destruct (def_facts Hd) as (_ & _ & Hcost). pose proof (is_db _ Hin) as Hdb.
  destruct (verdict_row _ _ _ Hdb Hk) as (_ & kid & krow & Hkrow & _ & Hkid & _).
  destruct (in_force_row _ _ _ _ Hdb Hp) as (pid & Hprow & Hpid).
  destruct (gate_decides w r k p now lo hi s a b Hq) as (w2 & Hin2 & Hpg2 & Hholds & Hcounts & Hgate).
  change (request_decision p now s) with dec in *. fold gate limited in Hgate.
  destruct (Allowed dec) eqn:Hal; [exists w2; by split_and!|].
  destruct (remaining_fits (policy_config (policyFromRecord p)) now s def.(route_Cost)) as [Hr0 Hr32];
    [apply Hh|apply Hh|lia|simpl; destruct (ok_policies _ Hdb _ _ Hprow) as [_ _ _ [_ Hc] _ _ _ _ _]; exact Hc|].
  destruct (log_quiet w2 k p dec.(Remaining)) as (db' & Hlog & Hdb' & Hok');
    rewrite ?Hpg2, ?Hkid, ?Hpid; eauto.
  exists (mkWorld w2.(redis) db'). cbn [redis pg]. rewrite <- Hpg2. split_and!; auto.
  - apply (same_strings_in_step w2); by try subst db'.
  - by subst db'.
  - destruct (refusal_sent dec) as (Hs & Hra & Hrem). eexists. do 3 (split; [eassumption|]).
    intros next. by rewrite Hgate, Hlog.
Qed.
End EndToEnd.
