(* ===== verification/InStep.v ===== *)
(** * Stores in step, whatever the service does

    The policies and the keys live in different tables and under different
    Redis keys.  Each operation of the service writes on one side only; what it
    does there is known to keep that side right, so it leaves the stores in
    step. *)
From S2P Require Import Prelude GoBase Ids Text ApiKeys TokenBucket Redis BucketStore Database Queries DatabaseSpec World.
From S2P Require Import JsonDecode Policies PolicyJson PolicySpec Projection ProjectionSpec PolicyService.
From S2P Require Import Auth AuthSpec AuditLog Keeps ReadOnly ProtectedSpec.

Section InStep.
Context {D : Type} `{RL : RedisLaws D} `{RS : RedisScan D} `{!ScanLaws D} `{UL : UuidLaws}.
Implicit Types (w : world D).

(** ** The two sides *)

Record same_policies w w' : Prop := {
  sp_table : w'.(pg).(rate_limit_policies) = w.(pg).(rate_limit_policies);
  sp_projection k : policy_key k = true → same_key k w.(redis) w'.(redis)
}.

Record same_keys w w' : Prop := {
  sk_table : w'.(pg).(api_keys) = w.(pg).(api_keys);
  sk_cache h : same_key (authCacheKey h) w.(redis) w'.(redis)
}.

#[export] Instance same_policies_preorder : PreOrder same_policies.
Proof.
  split.
  - intros w. by split.
  - intros w1 w2 w3 [H1 H2] [I1 I2]. split; [congruence|]. intros k Hk. etransitivity; [by apply H2|by apply I2].
Qed.

#[export] Instance same_keys_preorder : PreOrder same_keys.
Proof.
  split.
  - intros w. by split.
  - intros w1 w2 w3 [H1 H2] [I1 I2]. split; [congruence|]. intros h. etransitivity; [apply H2|apply I2].
Qed.

Lemma same_policies_synced w w' : same_policies w w' → synced w → synced w'.
Proof.
  intros [Ht Hk] Hs sc Hsc. specialize (Hs sc Hsc). unfold mirrors in *.
  rewrite (active_policy_same w.(pg)) by done.
  assert (Hkey : policy_key (sc_key sc) = true) by apply key_has_prefix.
  by rewrite (same_string _ _ _ (Hk _ Hkey)).
Qed.

Lemma same_active_key w w' h : same_keys w w' → active_key w'.(pg) h = active_key w.(pg) h.
Proof. intros [Ht _]. unfold active_key, GetAPIKeyByHash. by rewrite Ht. Qed.

Lemma same_keys_coherent w w' : same_keys w w' → coherent w → coherent w'.
Proof.
  intros Hk Hc h payload. rewrite (same_string _ _ _ (sk_cache _ _ Hk h)). intros Hp.
  destruct (Hc h payload Hp) as (r & Hr & Hu). exists r. by rewrite (same_active_key w).
Qed.

(** ** The policy service leaves the keys alone *)

Lemma keeps_policy_sql {A} (st : statement A) :
  (∀ db, (st db).2.(api_keys) = db.(api_keys)) → keeps same_keys (sql st).
Proof. intros Hst. apply keeps_sql; [apply _|]. intros w. by split; cbn. Qed.

Lemma keeps_policy_cmds cs :
  Forall (fun c => ∀ h, authCacheKey h ∉ touched c) cs → keeps same_keys (command (D := world D) cs).
Proof.
  intros Hcs. apply keeps_command; [apply _|]. intros w. rewrite exec_world. split; [done|]. intros h. cbn [redis].
  apply exec_frame. eapply list.Forall_impl; [exact Hcs|]. intros c Hc. apply Hc.
Qed.

Lemma cache_not_projected p h : authCacheKey h ∉ [policyProjectionKey p].
Proof. apply not_in_one. intros He. by apply (not_policy_key (policyProjectionKey p) (authCacheKey h)). Qed.

Lemma set_policy_touches current c : set_policy current = Ok c → touched c = [policyProjectionKey current].
Proof. unfold set_policy. destruct (Marshal current) as [payload|e]; cbn [res_bind]; [by intros [= <-]|done]. Qed.

Lemma keeps_SyncPolicy previous current : keeps same_keys (projection_SyncPolicy (D := world D) previous current).
Proof.
  unfold projection_SyncPolicy. destruct (set_policy current) as [c|] eqn:Hc; [|keep].
  apply keeps_policy_cmds. apply set_policy_touches in Hc. apply list.Forall_cons_2.
  - intros h. rewrite Hc. apply cache_not_projected.
  - repeat case_match; repeat constructor; intros h; apply cache_not_projected.
Qed.

Lemma CreateRateLimitPolicy_keys arg db : (CreateRateLimitPolicy arg db).2.(api_keys) = db.(api_keys).
Proof. unfold CreateRateLimitPolicy. by case_match. Qed.

Lemma store_policy_keys r db : (store_policy r db).2.(api_keys) = db.(api_keys).
Proof. unfold store_policy. by case_match. Qed.

Lemma keeps_Create pages input : keeps same_keys (Create (policy_service pages) input).
Proof.
  unfold Create. destruct (validateCreateInput input); [|keep].
  apply keeps_bind; [apply _|apply keeps_policy_sql, CreateRateLimitPolicy_keys|]. intros [rec|e]; [|keep].
  apply keeps_bind; [apply _|apply keeps_SyncPolicy|keep].
Qed.

Lemma keeps_Update pages id input : keeps same_keys (Update (policy_service pages) id input).
Proof.
  unfold Update. apply keeps_bind; [apply _|apply keeps_read; [apply _|done]|]. intros [old|e]; [|keep].
  destruct (validateCreateInput _); [|keep].
  apply keeps_bind; [apply _|apply keeps_policy_sql|].
  { intros db. unfold UpdateRateLimitPolicy. case_match; [apply store_policy_keys|done]. }
  intros [rec|e]; [|keep]. apply keeps_bind; [apply _|apply keeps_SyncPolicy|keep].
Qed.

Lemma keeps_Deactivate pages id : keeps same_keys (Deactivate (policy_service pages) id).
Proof.
  unfold Deactivate. apply keeps_bind; [apply _|apply keeps_policy_sql|].
  { intros db. unfold DeactivateRateLimitPolicy. case_match; [apply store_policy_keys|done]. }
  intros [rec|e]; [|keep]. apply keeps_bind; [apply _| |keep].
  apply keeps_policy_cmds. repeat constructor. intros h. apply cache_not_projected.
Qed.

(** ** The key service leaves the policies alone *)

Lemma keeps_key_sql {A} (st : statement A) :
  (∀ db, (st db).2.(rate_limit_policies) = db.(rate_limit_policies)) → keeps same_policies (sql st).
Proof. intros Hst. apply keeps_sql; [apply _|]. intros w. by split; cbn. Qed.

Lemma keeps_cache_cmd c h :
  touched c = [authCacheKey h] → keeps same_policies (command (D := world D) [c]).
Proof.
  intros Hc. apply keeps_command; [apply _|]. intros w. rewrite exec_world. split; [done|]. intros k Hk. cbn [redis].
  apply exec_frame. repeat constructor. rewrite Hc. by apply not_in_one, not_policy_key.
Qed.

Lemma keeps_CreateKey c ttl secret input : keeps same_policies (CreateKey (key_service c ttl) secret input).
Proof.
  unfold CreateKey. case_bool_decide; [keep|]. destruct (Generate secret) as [[raw pre]|e]; [|keep].
  apply keeps_bind; [apply _|apply keeps_key_sql|].
  { intros db. unfold CreateAPIKey. by repeat case_match. }
  intros [rec|e]; [|keep]. apply keeps_bind; [apply _| |keep].
  change (SetByHash (cache (key_service c ttl))) with (cache_SetByHash (D := world D) ttl).
  unfold cache_SetByHash. destruct (Marshal _); [|keep]. by eapply keeps_cache_cmd.
Qed.

Lemma keeps_DeactivateKey c ttl id : keeps same_policies (DeactivateKey (key_service c ttl) id).
Proof.
  unfold DeactivateKey. apply keeps_bind; [apply _|apply keeps_read; [apply _|done]|]. intros [old|e]; [|keep].
  apply keeps_bind; [apply _|apply keeps_key_sql|].
  { intros db. unfold DeactivateAPIKey, update_api_key. by case_match. }
  intros [rec|e]; [|keep]. apply keeps_bind; [apply _| |keep]. by eapply keeps_cache_cmd.
Qed.

(** ** Back in step *)

(** What the request path writes. *)
Definition steady w w' : Prop := in_step w → in_step w'.

#[export] Instance steady_preorder : PreOrder steady.
Proof. split; [by intros w Hw|intros w1 w2 w3 H12 H23 Hw; by apply H23, H12]. Qed.

Lemma same_all_in_step w w' :
  db_ok w'.(pg) → same_policies w w' → same_keys w w' → in_step w → in_step w'.
Proof.
  intros Hdb Hp Hk [_ Hs Hc]. split; [done|by eapply same_policies_synced|by eapply same_keys_coherent].
Qed.

Lemma consume_steady ref dec w : steady w (exec_cmds (consume_cmds (bucketKey ref) dec) w).
Proof. intros Hin. rewrite exec_world. by apply consume_in_step. Qed.

Lemma log_steady arg w : steady w (mkWorld w.(redis) (CreateRequestAuditLog arg w.(pg)).2).
Proof.
  intros Hin. apply (same_all_in_step w); [apply CreateRequestAuditLog_ok, Hin| | |done];
    (split; [|done]); cbn; unfold CreateRequestAuditLog; by repeat case_match.
Qed.

(** The effect of [f] on a quiet connection with its stores in step. *)
Definition stays (n : net (world D)) : Prop := ∃ w, n = quiet w ∧ in_step w.

Lemma keeps_steady_stays {A} (f : net (world D) → A * net (world D)) w :
  keeps steady f → in_step w → stays (f (quiet w)).2.
Proof. intros Hf Hin. destruct (keeps_quiet steady f w Hf) as (w' & -> & Hw). exists w'. auto. Qed.

(** One side was written, and is right. *)
Lemma policy_side_stays {A} (f : net (world D) → A * net (world D)) w :
  keeps same_keys f → in_step w →
  (∀ r n', f (quiet w) = (r, n') → ∃ w1, n' = quiet w1 ∧ synced w1 ∧ db_ok w1.(pg)) →
  stays (f (quiet w)).2.
Proof.
  intros Hf Hin Hok. destruct (keeps_quiet same_keys f w Hf) as (w' & Hq & Hk).
  destruct (f (quiet w)) as [r n']. destruct (Hok r n' eq_refl) as (w1 & -> & Hs & Hdb). cbn [snd] in *.
  injection Hq as ->. exists w'. split; [done|]. split; [done..|]. eapply same_keys_coherent; [done|apply Hin].
Qed.

Lemma key_side_stays {A} (f : net (world D) → A * net (world D)) w :
  keeps same_policies f → in_step w →
  (∀ r n', f (quiet w) = (r, n') → ∃ w1, n' = quiet w1 ∧ coherent w1 ∧ db_ok w1.(pg)) →
  stays (f (quiet w)).2.
Proof.
  intros Hf Hin Hok. destruct (keeps_quiet same_policies f w Hf) as (w' & Hq & Hk).
  destruct (f (quiet w)) as [r n']. destruct (Hok r n' eq_refl) as (w1 & -> & Hc & Hdb). cbn [snd] in *.
  injection Hq as ->. exists w'. split; [done|]. split; [done| |done]. eapply same_policies_synced; [done|apply Hin].
Qed.
End InStep.
