(* ===== verification/Recovery.v ===== *)
(** * Whatever fails, starting again recovers

    Round trips of a request may fail before or after the servers acted, other
    clients may act in between, and Redis may lose what it holds.  The database
    goes on satisfying its schema, and that is all a start needs to put the
    projection back in step. *)
From stdpp Require Import relations.
From S2P Require Import Prelude GoBase Ids Text ApiKeys TokenBucket Redis BucketStore Database Queries DatabaseSpec World.
From S2P Require Import JsonDecode Policies PolicyJson PolicySpec Projection ProjectionSpec PolicyService Resolver Auth AuthSpec AuditLog.
From S2P Require Import Config Http Keeps ReadOnly Middleware Mux App Handlers Protected.
From S2P Require Import Routes HandlersSpec RoutesSpec AppSpec ProtectedSpec InStep.

Section Schema.
Context {D : Type} `{RL : RedisLaws D} `{RS : RedisScan D} `{UL : UuidLaws}.
Implicit Types (w : world D).

(** The schema is still satisfied. *)
Definition schema w w' : Prop := db_ok w.(pg) → db_ok w'.(pg).

#[export] Instance schema_preorder : PreOrder schema.
Proof. split; [by intros w Hw|intros w1 w2 w3 H12 H23 Hw; by apply H23, H12]. Qed.

Lemma exec_schema cs w : schema w (exec_cmds cs w).
Proof. unfold schema. by rewrite exec_world. Qed.

Lemma command_schema cs : keeps schema (command (D := world D) cs).
Proof. apply keeps_command; [apply _|apply exec_schema]. Qed.

Lemma sql_schema {A} (st : statement A) :
  (∀ db, db_ok db → db_ok (st db).2) → keeps schema (sql (D := D) st).
Proof. intros Hst. apply keeps_sql; [apply _|]. intros w Hw. by apply Hst. Qed.

(** A statement of the query layer that writes. *)
Lemma step_schema {A} (st : statement A) : (∀ db, db_step db (st db).2) → keeps schema (sql (D := D) st).
Proof. intros Hst. apply sql_schema. intros db Hdb. by eapply db_step_ok. Qed.

#[local] Hint Resolve command_schema : keep.

(** ** The services *)

Lemma SyncPolicy_schema previous current : keeps schema (projection_SyncPolicy (D := world D) previous current).
Proof. unfold projection_SyncPolicy. destruct (set_policy current); keep. Qed.

Lemma Create_schema pages input : input_fits input → keeps schema (Create (policy_service (D := D) pages) input).
Proof.
  intros Hfit. unfold Create. destruct (validateCreateInput input) as [n|] eqn:Hv; [|keep].
  pose proof (validate_fits _ _ Hv Hfit).
  apply keeps_bind; [apply _|apply step_schema; intros db; by constructor|]. intros [rec|e]; [|keep].
  apply keeps_bind; [apply _|apply SyncPolicy_schema|keep].
Qed.

Lemma Update_schema pages id input :
  numbers_fit input.(up_Capacity) input.(up_RefillTokens) input.(up_RefillIntervalSeconds) →
  keeps schema (Update (policy_service (D := D) pages) id input).
Proof.
  intros Hfit. unfold Update. apply keeps_bind; [apply _|by apply keeps_read; [apply _|]|]. intros [old|e]; [|keep].
  destruct (validateCreateInput _) as [n|] eqn:Hv; [|keep]. pose proof (validate_fits _ _ Hv Hfit).
  apply keeps_bind; [apply _|apply step_schema; intros db; by constructor|]. intros [rec|e]; [|keep].
  apply keeps_bind; [apply _|apply SyncPolicy_schema|keep].
Qed.

Lemma Deactivate_schema pages id : keeps schema (Deactivate (policy_service (D := D) pages) id).
Proof.
  unfold Deactivate. apply keeps_bind; [apply _|apply step_schema; intros db; constructor|].
  intros [rec|e]; [|keep]. apply keeps_bind; [apply _|apply command_schema|keep].
Qed.

Lemma SetByHash_schema ttl h k : keeps schema (cache_SetByHash (D := world D) ttl h k).
Proof. unfold cache_SetByHash. destruct (Marshal k); keep. Qed.

Lemma CreateKey_schema c ttl secret input : keeps schema (CreateKey (key_service (D := D) c ttl) secret input).
Proof.
  unfold CreateKey. case_bool_decide; [keep|]. destruct (Generate secret) as [[raw pre]|e]; [|keep].
  apply keeps_bind; [apply _|apply step_schema; intros db; constructor|]. intros [rec|e]; [|keep].
  apply keeps_bind; [apply _|apply SetByHash_schema|keep].
Qed.

Lemma DeactivateKey_schema c ttl id : keeps schema (DeactivateKey (key_service (D := D) c ttl) id).
Proof.
  unfold DeactivateKey. apply keeps_bind; [apply _|by apply keeps_read; [apply _|]|]. intros [old|e]; [|keep].
  apply keeps_bind; [apply _|apply step_schema; intros db; constructor|]. intros [rec|e]; [|keep].
  apply keeps_bind; [apply _|apply command_schema|keep].
Qed.

Lemma Resolve_schema c ttl raw :
  keeps schema (ResolveActiveByRawKey (D := D) (NewAPIKeyService c (Some (NewAPIKeyAuthCache ttl))) raw).
Proof. apply keeps_resolution; [apply _|apply SetByHash_schema]. Qed.
End Schema.

(** ** The handlers and the router *)

Section Surface.
Context {D : Type} `{RL : RedisLaws D} `{RS : RedisScan D} `{!ScanLaws D} `{UL : UuidLaws}.
Context `{DecodeErrors} `{CL : ChiLaws} `{ServeEnv (world D)} `{RandomSource (world D)}.
Context `{PgxPool (world D)} `{GoRedis}.
Context (cfg : AppConfig) (pages : nat) (ver : string) (started : Time) (now : Clock (W := world D)).
Implicit Types (w : world D).

Abbreviation survives := (handler_keeps (W := world D) schema).

Lemma create_survives : survives (PoliciesHandler_Create (main_policies pages)).
Proof.
  intros w r. unfold PoliciesHandler_Create. fold (decode_policy_request r).
  destruct (decode_policy_request r) as [q|e] eqn:Hq; [|keep]. destruct (parse_optional_uuid _); [|keep].
  apply serves_bind; [apply _| |keep]. apply Create_schema. by eapply decoded_request_fits.
Qed.

Lemma update_survives : survives (PoliciesHandler_Update (main_policies pages)).
Proof.
  intros w r. unfold PoliciesHandler_Update. destruct (uuid_Parse _); [|keep]. fold (decode_policy_request r).
  destruct (decode_policy_request r) as [q|e] eqn:Hq; [|keep]. destruct (parse_optional_uuid _); [|keep].
  apply serves_bind; [apply _| |keep]. apply Update_schema. by eapply decoded_request_fits.
Qed.

Lemma deactivate_survives : survives (PoliciesHandler_Deactivate (main_policies pages)).
Proof.
  intros w r. unfold PoliciesHandler_Deactivate. destruct (uuid_Parse _); [|keep].
  apply serves_bind; [apply _|apply Deactivate_schema|keep].
Qed.

Lemma create_key_survives : survives (APIKeysHandler_Create (main_keys cfg) random_secret).
Proof.
  intros w r. unfold APIKeysHandler_Create. destruct (decodeJSON _ _ r) as [q|e]; [|keep].
  destruct (parse_optional_uuid _) as [uid|e]; [|keep].
  intros n Hn. set (f := CreateKey _ (random_secret n) _).
  assert (Hf : keeps schema f) by apply CreateKey_schema.
  specialize (Hf n Hn). destruct (f n) as [[k|e] n1]; exact Hf.
Qed.

Lemma deactivate_key_survives : survives (APIKeysHandler_Deactivate (main_keys cfg)).
Proof.
  intros w r. unfold APIKeysHandler_Deactivate. destruct (uuid_Parse _); [|keep].
  apply serves_bind; [apply _|apply DeactivateKey_schema|keep].
Qed.

Lemma show_survives :
  survives (PublicConfigHandler_Show cfg.(cfg_Demo) (Some (ResolveActiveByRawKey (main_keys cfg)))).
Proof.
  intros w r. unfold PublicConfigHandler_Show. case_match; [keep|]. case_bool_decide; [keep|].
  apply serves_bind; [apply _|apply Resolve_schema|keep].
Qed.

Lemma protected_survives def :
  survives (protected_endpoint now (main_dependencies cfg pages) def).(ep_Handler).
Proof.
  cbn. apply keeps_APIKeyAuth; [apply _|apply Resolve_schema|].
  apply keeps_limiter; [apply _|intros ref dec; apply exec_schema|].
  intros arg w Hw. by apply CreateRequestAuditLog_ok.
Qed.

Lemma stub_survives (h : Handler (world D)) : (∀ wr r n, (h wr r n).(s_net) = n) → survives h.
Proof. apply stub_reads, _. Qed.

Lemma key_routes_survive : endpoints_keep (schema (D := D)) (key_routes cfg (main_dependencies cfg pages)).
Proof.
  unfold endpoints_keep, key_routes. cbn -[main_keys main_policies].
  each; [apply list_keys_reads, _|]. destruct (PublicMode _); each.
  - by apply stub_survives.
  - by apply stub_survives.
  - apply create_key_survives.
  - apply deactivate_key_survives.
Qed.

Lemma policy_routes_survive : endpoints_keep (schema (D := D)) (policy_routes cfg (main_dependencies cfg pages)).
Proof.
  unfold endpoints_keep, policy_routes. cbn -[main_keys main_policies].
  each; [apply list_policies_reads, _|]. destruct (PublicMode _); each.
  - by apply stub_survives.
  - by apply stub_survives.
  - by apply stub_survives.
  - apply create_survives.
  - apply update_survives.
  - apply deactivate_survives.
Qed.

Lemma admin_survives : endpoints_keep (schema (D := D)) (admin_routes cfg (main_dependencies cfg pages)).
Proof.
  apply list.Forall_cons_2; [by apply stub_survives|]. apply list.Forall_app_2; [apply key_routes_survive|].
  apply list.Forall_app_2; [apply policy_routes_survive|].
  exact (proj2 (list.Forall_cons_1 _ _ _ (read_routes_keep schema cfg pages EmptyString))).
Qed.

Lemma surface_survives : survives (ServeHTTP (routes_New cfg ver started now (main_dependencies cfg pages))).
Proof.
  apply keeps_ServeHTTP; [apply _| | | |].
  - intros next Hnext. apply keeps_Recoverer, keeps_CORS; [apply _|done].
  - unfold endpoints_keep. cbn [root_Endpoints routes_New dep_PublicConfig main_dependencies app map
      ProtectedRoutes protectedRouteDefinitions].
    each; [by apply stub_survives|apply show_survives|apply protected_survives..].
  - by apply stub_survives.
  - cbn [root_Mounts routes_New]. apply list.Forall_app. split.
    + destruct (PublicMode _); each. split; [apply read_routes_keep, _|]. by intros next Hnext.
    + each. split; [apply admin_survives|intros next; apply keeps_AdminAuth; apply _].
Qed.

(** ** Crashes *)

(** A request over a connection that fails and is shared in any way, as long as
    the others keep to the schema; or Redis coming back with other contents. *)
Inductive faulty_step : world D → world D → Prop :=
| faulty_request wr r w rs :
    respects schema (mkNet w rs) →
    faulty_step w (ServeHTTP (routes_New cfg ver started now (main_dependencies cfg pages)) wr r
                     (mkNet w rs)).(s_net).(server)
| faulty_redis w d : faulty_step w (mkWorld d w.(pg)).

Lemma faulty_schema w w' : faulty_step w w' → schema w w'.
Proof. intros [wr r w0 rs Hrs|w0 d]; [|by intros Hw]. apply (kept_related _ _ _ (surface_survives wr r _ Hrs)). Qed.

(** C7: starting again recovers from anything.  Whatever requests arrived over
    whatever failing round trips, with whatever other clients that keep to the
    schema, and whatever became of Redis, the database satisfies its schema; and
    once the stores are reachable the service starts from there: it leaves the
    database as it is, the projection mirrors it, and the stores are in step as
    soon as the cache holds no deactivated key. *)
Theorem restart_recovers env w w1 :
  db_ok w.(pg) → rtc faulty_step w w1 → Load env = Ok cfg → opens_quietly cfg w1 →
  db_ok w1.(pg) ∧
  ∃ pages0, ∀ pages', (pages0 ≤ pages')%nat → ∃ m w2,
    api_main now ver env pages' (quiet w1) = (Ok m, [CloseRedis; ClosePool; CancelStartup], quiet w2) ∧
    w2.(pg) = w1.(pg) ∧ synced w2 ∧ (coherent w1 → in_step w2).
Proof.
  intros Hdb Hrun Hload Hopen.
  assert (Hdb1 : db_ok w1.(pg)).
  { clear Hload Hopen. induction Hrun as [w|w w' w1 Hstep _ IH]; [done|]. by apply IH, (faulty_schema w). }
  split; [done|]. destruct (startup now ver env cfg w1 Hload Hopen Hdb1) as (pages0 & Hp).
  exists pages0. intros pages' Hle. destruct (Hp pages' Hle) as (m & w2 & Hm & Hs & Hpg & Hkeys & _).
  exists m, w2. split_and!; [done..|]. intros Hco. split; [by rewrite Hpg|done|].
  intros h payload. rewrite Hkeys by done. rewrite Hpg. apply Hco.
Qed.
End Surface.
