(* ===== verification/AdminRace.v ===== *)
(** * Administrators at the same time

    Every call of the policy service is a few round trips: it may read the row,
    it writes the database, then it writes the projection.  Calls of several
    administrators, in one process or several, interleave between them.  Each
    call is a little state machine whose phase names the round trip to come; a
    schedule picks who moves, and everything that leaves the policies alone may
    happen in between. *)
From S2P Require Import Prelude GoBase Ids Text JsonDecode PolicyJson Redis BucketRace Database Queries DatabaseSpec World.
From S2P Require Import Policies PolicySpec Projection ProjectionSpec PolicyService ReadOnly InStep.

Inductive op_phase :=
| Inserting (n : CreatePolicyInput)
| Loading (id : UUID) (input : UpdatePolicyInput)
| Rewriting (id : UUID) (existing : RateLimitPolicy) (n : CreatePolicyInput)
| Retiring (id : UUID)
| Projecting (previous : option RateLimitPolicy) (record : RateLimitPolicy) (cs : list redis_cmd)
| Removing (record : RateLimitPolicy)
| Finished (r : result error Policy).

Definition op_finished (p : op_phase) : bool :=
  match p with Finished _ => true | _ => false end.

Section Machine.
Context {D : Type} `{RedisServer D} `{UuidText}.
Implicit Types (w : world D).

(** ** Between the round trips *)

(** The three kinds of call; a rebuild is not one of them. *)
Definition op_begin (op : policy_op) : op_phase :=
  match op with
  | OpCreate input =>
      match validateCreateInput input with
      | Err err => Finished (Err err)
      | Ok n => Inserting n
      end
  | OpUpdate id input => Loading id input
  | OpDeactivate id => Retiring id
  | OpRebuild => Finished (Err scanning)
  end.

(** The transaction of [SyncPolicy]. *)
Definition sync_cmds (previous : option Policy) (current : Policy) : result error (list redis_cmd) :=
  let? c := set_policy current in
  Ok (c :: match previous with
           | Some p =>
               if bool_decide (policyProjectionKey p = policyProjectionKey current) then []
               else [DelKeys [policyProjectionKey p]]
           | None => []
           end).

Definition op_project (previous : option RateLimitPolicy) (record : RateLimitPolicy) : op_phase :=
  match sync_cmds (policyFromRecord <$> previous) (policyFromRecord record) with
  | Err err => Finished (Err (Wrapf "sync policy projection" err))
  | Ok cs => Projecting previous record cs
  end.

(** ** One round trip *)

Definition op_sql (st : statement RateLimitPolicy) (failed : error → error)
    (k : RateLimitPolicy → op_phase) w : world D * op_phase :=
  let '(r, db) := st w.(pg) in
  (mkWorld w.(redis) db,
   match r with
   | Err err => Finished (Err (failed err))
   | Ok record => k record
   end).

Definition policy_missing (what : string) (err : error) : error :=
  if errors_Is err pgx_ErrNoRows then ErrPolicyNotFound else Wrapf what err.

Definition op_step w (p : op_phase) : world D * op_phase :=
  match p with
  | Inserting n => op_sql (CreateRateLimitPolicy (create_params n)) translateWriteError (op_project None) w
  | Loading id input =>
      op_sql (GetRateLimitPolicy id) (policy_missing "get policy")
        (fun existing =>
           match validateCreateInput (update_input input) with
           | Err err => Finished (Err err)
           | Ok n => Rewriting id existing n
           end) w
  | Rewriting id existing n =>
      op_sql (UpdateRateLimitPolicy (update_params id existing n)) translateWriteError
        (op_project (Some existing)) w
  | Retiring id => op_sql (DeactivateRateLimitPolicy id) (policy_missing "deactivate policy") Removing w
  | Projecting _ record cs => (exec_cmds cs w, Finished (Ok (policyFromRecord record)))
  | Removing record =>
      (run_cmd (DelKeys [policyProjectionKey (policyFromRecord record)]) w,
       Finished (Ok (policyFromRecord record)))
  | Finished _ => (w, p)
  end.

(** ** Calls that interleave *)

Record admin_race := mkAdminRace { ar_world : world D; ar_calls : list op_phase }.

Definition admin_start (ops : list policy_op) w : admin_race := mkAdminRace w (map op_begin ops).

Inductive admin_step : admin_race → admin_race → Prop :=
| admin_move w calls i p w' p' :
    calls !! i = Some p → op_finished p = false → op_step w p = (w', p') →
    admin_step (mkAdminRace w calls) (mkAdminRace w' (<[i := p']> calls))
| admin_other w calls w' :
    same_policies w w' → db_ok w'.(pg) → admin_step (mkAdminRace w calls) (mkAdminRace w' calls).

Definition all_finished (r : admin_race) : Prop :=
  Forall (fun p => op_finished p = true) r.(ar_calls).
End Machine.
Arguments mkAdminRace {D}.
Arguments ar_world {D}.
Arguments ar_calls {D}.

(** ** The machine is the service *)

Section Equal.
Context {D : Type} `{RL : RedisLaws D} `{RedisScan D} `{UuidText}.

(** A call alone with an environment: before each of its round trips the next
    of [os] changes the servers. *)
Fixpoint op_run (fuel : nat) (os : list (world D → world D)) (w : world D) (p : op_phase)
    : op_phase * world D * list (world D → world D) :=
  match fuel with
  | O => (p, w, os)
  | S fuel =>
      if op_finished p then (p, w, os)
      else
        let '(w, p) := op_step (first_other os w) p in
        op_run fuel (tail os) w p
  end.

Definition op_result (p : op_phase) : result error Policy :=
  match p with Finished r => r | _ => Err (OpaqueError "still running") end.

(** What the service's calls return. *)
Definition op_call (s : Service (world D)) (op : policy_op) (n : net (world D))
    : result error Policy * net (world D) :=
  match op with
  | OpCreate input => Create s input n
  | OpUpdate id input => Update s id input n
  | OpDeactivate id => Deactivate s id n
  | OpRebuild => (Err scanning, n)
  end.

Lemma op_run_finished fuel os w r : op_run fuel os w (Finished r) = (Finished r, w, os).
Proof. by destruct fuel. Qed.

Lemma sql_delivered {A} (st : statement A) os (w : world D) :
  sql st (mkNet w (map delivered os)) =
  ((st (first_other os w).(pg)).1,
   mkNet (mkWorld (first_other os w).(redis) (st (first_other os w).(pg)).2) (map delivered (tail os))).
Proof. unfold sql. rewrite call_delivered. by destruct (st _). Qed.

Lemma command_delivered cs os (w : world D) :
  command cs (mkNet w (map delivered os)) =
  (Ok (), mkNet (exec_cmds cs (first_other os w)) (map delivered (tail os))).
Proof. unfold command. by rewrite call_delivered. Qed.

Lemma sync_is_cmds previous current (n : net (world D)) :
  projection_SyncPolicy previous current n =
  match sync_cmds previous current with Err err => (Err err, n) | Ok cs => command cs n end.
Proof. unfold projection_SyncPolicy, sync_cmds. by destruct (set_policy current). Qed.

(** The end of a creation or an update: the projection. *)
Lemma op_project_run fuel os w previous record :
  (let '(r, n) := projection_SyncPolicy (policyFromRecord <$> previous) (policyFromRecord record)
                    (mkNet w (map delivered os)) in
   (let? _ := wrap_err "sync policy projection" r in Ok (policyFromRecord record), n)) =
  (let '(p, w', os') := op_run (S fuel) os w (op_project previous record) in
   (op_result p, mkNet w' (map delivered os'))).
Proof.
  rewrite sync_is_cmds. unfold op_project. destruct (sync_cmds _ _) as [cs|e].
  - rewrite command_delivered. cbn [op_run op_finished op_step]. by rewrite op_run_finished.
  - by rewrite op_run_finished.
Qed.

Lemma op_run_sql fuel os w st failed k p :
  op_finished p = false → (∀ w, op_step w p = op_sql st failed k w) →
  op_run (S fuel) os w p =
  match (st (first_other os w).(pg)).1 with
  | Ok record => op_run fuel (tail os) (mkWorld (first_other os w).(redis) (st (first_other os w).(pg)).2) (k record)
  | Err err => (Finished (Err (failed err)), mkWorld (first_other os w).(redis) (st (first_other os w).(pg)).2, tail os)
  end.
Proof.
  intros Hp Hs. cbn [op_run]. rewrite Hp, Hs. unfold op_sql.
  destruct (st _) as [[record|err] db]; cbn [fst snd]; [done|]. apply op_run_finished.
Qed.

Lemma op_call_machine pages op os w :
  op ≠ OpRebuild →
  op_call (policy_service pages) op (mkNet w (map delivered os)) =
  let '(p, w', os') := op_run 3 os w (op_begin op) in
  (op_result p, mkNet w' (map delivered os')).
Proof.
  intros Hop. destruct op as [input|id input|id|]; [..|done]; cbn [op_call op_begin].
  - unfold Create. destruct (validateCreateInput input) as [n|e]; [|by rewrite op_run_finished].
    rewrite sql_delivered, (op_run_sql _ _ _ (CreateRateLimitPolicy (create_params n)) translateWriteError
      (op_project None)) by done.
    change (mkCreateRateLimitPolicyParams _ _ _ _ _ _) with (create_params n).
    destruct (CreateRateLimitPolicy _ _) as [[rec|e] db]; cbn [fst snd]; [|done].
    apply (op_project_run 1 (tail os) (mkWorld _ db) None rec).
  - unfold Update. rewrite sql_delivered. erewrite op_run_sql by done.
    destruct (GetRateLimitPolicy _ _) as [[old|e] db]; cbn [fst snd]; [|done].
    fold (update_input input). destruct (validateCreateInput _) as [n|e]; [|by rewrite op_run_finished].
    rewrite sql_delivered. erewrite op_run_sql by done.
    change (mkUpdateRateLimitPolicyParams _ _ _ _ _ _ _ _) with (update_params id old n).
    destruct (UpdateRateLimitPolicy _ _) as [[rec|e] db']; cbn [fst snd]; [|done].
    apply (op_project_run 0 (tail (tail os)) (mkWorld _ db') (Some old) rec).
  - unfold Deactivate. rewrite sql_delivered. erewrite op_run_sql by done.
    destruct (DeactivateRateLimitPolicy _ _) as [[rec|e] db]; cbn [fst snd]; [|done].
    change (RemovePolicy (projector (policy_service pages))) with (projection_RemovePolicy (D := world D)).
    unfold projection_RemovePolicy. rewrite command_delivered. cbn [op_run op_finished op_step].
    done.
Qed.

(** C25: a call of the policy service is its machine.  Whatever happens to the
    servers before each of its round trips, [Create], [Update] and [Deactivate]
    return what the machine, moved one round trip at a time from its first
    phase, ends with, and leave the servers as it does; three moves are
    enough. *)
Theorem admin_call_is_machine pages op os w :
  op ≠ OpRebuild →
  op_call (policy_service pages) op (mkNet w (map delivered os)) =
  let '(p, w', os') := op_run 3 os w (op_begin op) in
  (op_result p, mkNet w' (map delivered os')).
Proof. apply op_call_machine. Qed.
End Equal.
