(* ===== verification/AdminRaceSpec.v ===== *)
(** * Administrators that keep apart keep the mirror

    Calls of the policy service whose scopes do not overlap may interleave in
    any way, with anything that leaves the policies alone in between: a scope
    nobody is working on is always read as the database has it, and once
    everybody is done the projection mirrors the database. *)
From stdpp Require Import relations.
From S2P Require Import Prelude GoBase Ids Text JsonDecode PolicyJson Redis Database Queries DatabaseSpec World.
From S2P Require Import Policies PolicySpec Projection ProjectionSpec PolicyService PolicyOutcomes ReadOnly InStep AdminRace.

Section Race.
Context {D : Type} `{RL : RedisLaws D} `{UL : UuidLaws}.
Context (ops : list policy_op) (w0 : world D).
Implicit Types (w : world D) (sc : scope).

(** ** What a call works on *)

Definition stored_scope (id : UUID) : list scope :=
  match w0.(pg).(rate_limit_policies) !! id with Some r => [scope_of r] | None => [] end.

Definition input_scope (input : CreatePolicyInput) : list scope :=
  match validateCreateInput input with Ok n => [scope_of_input n] | Err _ => [] end.

Definition footprint (op : policy_op) : list scope :=
  match op with
  | OpCreate input => input_scope input
  | OpUpdate id input => stored_scope id ++ input_scope (update_input input)
  | OpDeactivate id => stored_scope id
  | OpRebuild => []
  end.

Definition target (op : policy_op) : option UUID :=
  match op with OpUpdate id _ | OpDeactivate id => Some id | _ => None end.

(** The calls start on a mirror, aim at active policies and keep apart. *)
Record admin_setting : Prop := {
  am_db : db_ok w0.(pg);
  am_synced : synced w0;
  am_calls : OpRebuild ∉ ops;
  am_fits op : op ∈ ops → op_fits op;
  am_aimed op id : op ∈ ops → target op = Some id →
    ∃ r, w0.(pg).(rate_limit_policies) !! id = Some r ∧ r.(rlp_IsActive) = true;
  am_apart i j op op' sc : ops !! i = Some op → ops !! j = Some op' →
    sc ∈ footprint op → sc ∈ footprint op' → i = j
}.

(** The row is what the call asked for. *)
Definition requested (op : policy_op) (row : RateLimitPolicy) : Prop :=
  match op with
  | OpCreate input => ∃ n, validateCreateInput input = Ok n ∧
      row = row_of row.(rlp_ID) n true row.(rlp_CreatedAt) row.(rlp_UpdatedAt)
  | OpUpdate id input => ∃ n, validateCreateInput (update_input input) = Ok n ∧
      row = row_of id n true row.(rlp_CreatedAt) row.(rlp_UpdatedAt)
  | OpDeactivate id => row.(rlp_ID) = id ∧ row.(rlp_IsActive) = false ∧ scope_of row ∈ stored_scope id
  | OpRebuild => False
  end.

(** What the database shows of the scope of a stored row. *)
Definition in_place w (row : RateLimitPolicy) : Prop :=
  scope_ok (scope_of row) ∧
  active_policy w.(pg) (scope_of row) = if row.(rlp_IsActive) then Some row else None.

(** The scopes whose keys a call has still to write. *)
Definition dirty (p : op_phase) : list scope :=
  match p with
  | Projecting previous record _ =>
      scope_of record :: match previous with Some q => [scope_of q] | None => [] end
  | Removing record => [scope_of record]
  | _ => []
  end.

Definition at_start w (id : UUID) : Prop :=
  w.(pg).(rate_limit_policies) !! id = w0.(pg).(rate_limit_policies) !! id.

Definition call_ok w (op : policy_op) (p : op_phase) : Prop :=
  match p with
  | Inserting n => ∃ input, op = OpCreate input ∧ validateCreateInput input = Ok n
  | Loading id input => op = OpUpdate id input ∧ at_start w id
  | Rewriting id existing n => ∃ input, op = OpUpdate id input ∧
      validateCreateInput (update_input input) = Ok n ∧ at_start w id ∧
      w0.(pg).(rate_limit_policies) !! id = Some existing
  | Retiring id => op = OpDeactivate id ∧ at_start w id
  | Projecting previous record cs =>
      sync_cmds (policyFromRecord <$> previous) (policyFromRecord record) = Ok cs ∧
      requested op record ∧ record.(rlp_IsActive) = true ∧ in_place w record ∧
      ∀ q, previous = Some q → scope_of q ∈ footprint op ∧ scope_ok (scope_of q) ∧
        (scope_of q ≠ scope_of record → active_policy w.(pg) (scope_of q) = None)
  | Removing record => requested op record ∧ record.(rlp_IsActive) = false ∧ in_place w record
  | Finished (Ok policy) => ∃ row, policy = policyFromRecord row ∧ requested op row ∧ in_place w row
  | Finished (Err _) => True
  end.

Record race_inv (r : admin_race (D := D)) : Prop := {
  ari_db : db_ok r.(ar_world).(pg);
  ari_length : length r.(ar_calls) = length ops;
  ari_calls i op p : ops !! i = Some op → r.(ar_calls) !! i = Some p → call_ok r.(ar_world) op p;
  ari_mirror sc : scope_ok sc → (∀ p, p ∈ r.(ar_calls) → sc ∉ dirty p) → mirrors r.(ar_world) sc
}.

(** ** What one move leaves alone *)

Record untouched (op : policy_op) w w' : Prop := {
  un_active sc : scope_ok sc → sc ∉ footprint op →
    active_policy w'.(pg) sc = active_policy w.(pg) sc;
  un_row id : target op ≠ Some id → is_Some (w.(pg).(rate_limit_policies) !! id) →
    w'.(pg).(rate_limit_policies) !! id = w.(pg).(rate_limit_policies) !! id
}.

Lemma same_table_untouched op w w' :
  w'.(pg).(rate_limit_policies) = w.(pg).(rate_limit_policies) → untouched op w w'.
Proof. intros Ht. split; [intros sc _ _; by apply active_policy_same|intros id _ _; by rewrite Ht]. Qed.

Lemma requested_scope op row : requested op row → scope_of row ∈ footprint op.
Proof.
  assert (Hn : ∀ input n id c u, validateCreateInput input = Ok n →
    scope_of (row_of id n true c u) ∈ input_scope input).
  { intros input n id c u Hv. unfold input_scope. rewrite Hv. apply list_elem_of_singleton.
    unfold scope_of, scope_of_input. cbn. by rewrite pointer_nullable. }
  destruct op as [input|id input|id|]; cbn; [intros (n & Hv & ->); by apply Hn| | |done].
  - intros (n & Hv & ->). apply elem_of_app. right. by apply Hn.
  - by intros (_ & _ & ?).
Qed.

(** A call stands as long as its own scopes and its own row are left alone. *)
Lemma call_ok_mono w w' op p :
  (∀ sc, scope_ok sc → sc ∈ footprint op → active_policy w'.(pg) sc = active_policy w.(pg) sc) →
  (∀ id, target op = Some id → at_start w id → at_start w' id) →
  call_ok w op p → call_ok w' op p.
Proof.
  intros Ha Hr.
  assert (Hp : ∀ row, requested op row → in_place w row → in_place w' row).
  { intros row Hreq [Hsc Hrow]. split; [done|]. rewrite Ha; [done..|]. by apply requested_scope. }
  destruct p as [n|id input|id old n|id|prev rec cs|rec|[policy|e]]; cbn; try done.
  - intros [-> Hs]. auto.
  - intros (input & -> & Hv & Hs & Ho). exists input. auto.
  - intros [-> Hs]. auto.
  - intros (Hc & Hq & Hact & Hin & Hold). split_and!; auto. intros q ->.
    destruct (Hold q eq_refl) as (Hf & Hsc & Hn). split_and!; [done..|]. intros Hne. rewrite Ha by done. auto.
  - intros (Hq & Hact & Hin). auto.
  - intros (row & -> & Hq & Hin). eauto.
Qed.

Lemma same_table_call w w' op p :
  w'.(pg).(rate_limit_policies) = w.(pg).(rate_limit_policies) → call_ok w op p → call_ok w' op p.
Proof.
  intros Ht. apply call_ok_mono; [intros sc _ _; by apply active_policy_same|].
  intros id _. unfold at_start. by rewrite Ht.
Qed.

Lemma same_table_mirrors w w' sc :
  w'.(pg).(rate_limit_policies) = w.(pg).(rate_limit_policies) →
  string_view w'.(redis) (sc_key sc) = string_view w.(redis) (sc_key sc) → mirrors w sc → mirrors w' sc.
Proof. intros Ht Hs. unfold mirrors. by rewrite (active_policy_same (pg w) (pg w')), Hs by done. Qed.

(** What a move does: the database is still valid, others are left alone, the
    call stands where it should, and no key is worse off that it owes no write. *)
Record moved (op : policy_op) w (p : op_phase) w' (p' : op_phase) : Prop := {
  mv_db : db_ok w'.(pg);
  mv_untouched : untouched op w w';
  mv_call : call_ok w' op p';
  mv_mirror sc : scope_ok sc → (sc ∉ dirty p → mirrors w sc) → sc ∉ dirty p' → mirrors w' sc
}.

(** A statement that was refused, or only read. *)
Lemma moved_still op w p w' p' :
  db_ok w'.(pg) → w'.(pg).(rate_limit_policies) = w.(pg).(rate_limit_policies) →
  w'.(redis) = w.(redis) → dirty p = [] → call_ok w op p' → moved op w p w' p'.
Proof.
  intros Hdb Ht Hr Hd Hc. split; [done|by apply same_table_untouched|by apply (same_table_call w)|].
  intros sc Hsc Hm _. apply (same_table_mirrors w); [done|by rewrite Hr|]. apply Hm. rewrite Hd. apply not_elem_of_nil.
Qed.

(** A row written by a statement. *)
Lemma moved_put op w p p' row db :
  db_ok w.(pg) → db_ok db → db.(rate_limit_policies) = w.(pg).(rate_limit_policies) →
  db_ok (put_policy row db) → requested op row → dirty p = [] → scope_of row ∈ dirty p' →
  (∀ q, w.(pg).(rate_limit_policies) !! row.(rlp_ID) = Some q →
     target op = Some row.(rlp_ID) ∧ scope_of q ∈ footprint op ∧ scope_of q ∈ dirty p') →
  call_ok (mkWorld w.(redis) (put_policy row db)) op p' →
  moved op w p (mkWorld w.(redis) (put_policy row db)) p'.
Proof.
  intros Hdb Hdb0 Ht Hdb' Hreq Hd Hd' Hold Hc.
  assert (Helse : ∀ sc, scope_of row ≠ sc →
      (∀ q, w.(pg).(rate_limit_policies) !! row.(rlp_ID) = Some q → scope_of q ≠ sc) →
      active_policy (put_policy row db) sc = active_policy w.(pg) sc).
  { intros sc Hne Hq. rewrite put_elsewhere; [by apply active_policy_same|done..|]. by rewrite Ht. }
  split; [done| |done|].
  - split; cbn [pg].
    + intros sc _ Hsc. apply Helse; [intros <-; by apply Hsc, requested_scope|].
      intros q Hq <-. by apply Hsc, (Hold q Hq).
    + intros id Hid [q Hq]. cbn. rewrite lookup_insert_ne; [by rewrite Ht|].
      intros <-. by apply Hid, (Hold q Hq).
  - intros sc Hsc Hm Hn. rewrite Hd in Hm. specialize (Hm (not_elem_of_nil sc)).
    unfold mirrors in *. cbn [pg redis]. rewrite Helse; [done|by intros <-|]. intros q Hq <-. by apply Hn, (Hold q Hq).
Qed.

(** ** Each move *)

Lemma project_phase db id row previous :
  db_ok db → db.(rate_limit_policies) !! id = Some row →
  ∃ cs, sync_cmds (policyFromRecord <$> previous) (policyFromRecord row) = Ok cs ∧
    op_project previous row = Projecting previous row cs.
Proof.
  intros Hdb Hr. destruct (marshal_row _ _ _ Hdb Hr) as (payload & Hm & _).
  unfold op_project, sync_cmds, set_policy. rewrite Hm. cbn [res_bind]. eauto.
Qed.

Lemma row_in_place w row :
  db_ok w.(pg) → w.(pg).(rate_limit_policies) !! row.(rlp_ID) = Some row → row.(rlp_IsActive) = true →
  in_place w row.
Proof.
  intros Hdb Hr Ha. split; [by eapply ok_scope|]. rewrite Ha. apply active_policy_spec; eauto.
Qed.

Lemma insert_moves op w n :
  db_ok w.(pg) → op_fits op → call_ok w op (Inserting n) →
  let '(w', p') := op_step w (Inserting n) in moved op w (Inserting n) w' p'.
Proof.
  intros Hdb Hfit (input & -> & Hv). pose proof (validate_fits _ _ Hv Hfit) as Hn. cbn [op_step]. unfold op_sql.
  pose proof (CreateRateLimitPolicy_ok (create_params n) w.(pg) Hdb Hn) as Hdb'.
  unfold CreateRateLimitPolicy in *. cbn [rlp_ID] in *. destruct (policy_refused _ _ _) eqn:Href; cbn [fst snd] in *.
  { by apply moved_still. }
  apply policy_refused_None in Href as (_ & Hfree & _). apply bool_decide_eq_false_1 in Hfree.
  set (row := mkRateLimitPolicy _ _ _ _ _ _ _ _ _ _) in *.
  destruct (project_phase _ row.(rlp_ID) row None Hdb') as (cs & Hcs & ->); [apply lookup_insert_eq|].
  assert (Hreq : requested (OpCreate input) row) by (exists n; split; [done|reflexivity]).
  apply moved_put; auto using draw_ok; cbn [dirty].
  - by left.
  - intros q Hq. by destruct Hfree.
  - cbn [call_ok]. split_and!; [done..| |by intros q].
    apply row_in_place; [done|apply lookup_insert_eq|done].
Qed.

Section Aimed.
Context (Hw0 : db_ok w0.(pg)).

Lemma rewrite_moves op w id old n :
  db_ok w.(pg) → op_fits op → old.(rlp_IsActive) = true → call_ok w op (Rewriting id old n) →
  let '(w', p') := op_step w (Rewriting id old n) in moved op w (Rewriting id old n) w' p'.
Proof.
  intros Hdb Hfit Hact (input & -> & Hv & Hst & Hold). cbn [op_step]. unfold op_sql.
  pose proof (validate_fits _ _ Hv Hfit) as Hn.
  assert (Hdb' : db_ok (UpdateRateLimitPolicy (update_params id old n) w.(pg)).2) by
    (apply (db_step_ok w.(pg)); [done|by constructor]).
  unfold UpdateRateLimitPolicy in *. unfold at_start in Hst. rewrite Hold in Hst.
  change (urp_ID (update_params id old n)) with id in *. rewrite Hst in *.
  pose proof (pr_id _ _ _ (ok_policies _ Hdb _ _ Hst)) as Hid.
  unfold store_policy in *. destruct (policy_refused _ _ _) eqn:Href; cbn [fst snd] in *.
  { by apply moved_still. }
  set (row := mkRateLimitPolicy _ _ _ _ _ _ _ _ _ _) in *.
  destruct (project_phase _ row.(rlp_ID) row (Some old) Hdb') as (cs & Hcs & ->); [apply lookup_insert_eq|].
  assert (Hreq : requested (OpUpdate id input) row).
  { exists n. split; [done|]. unfold row, row_of. cbn. by rewrite Hid, Hact. }
  assert (Hfoot : scope_of old ∈ footprint (OpUpdate id input)).
  { apply elem_of_app. left. unfold stored_scope. rewrite Hold. by left. }
  apply moved_put; auto; cbn [dirty].
  - by left.
  - intros q. change (rlp_ID row) with (rlp_ID old). rewrite Hid, Hst. intros [= <-].
    split_and!; [done..|]. by right; left.
  - cbn [call_ok]. split_and!; [done..| |].
    + apply row_in_place; [done|apply lookup_insert_eq|done].
    + intros q [= <-]. split_and!; [done|exact (ok_scope _ _ _ Hdb Hst)|]. intros Hne.
      apply put_old; [done..| |done|done]. change (rlp_ID row) with (rlp_ID old). by rewrite Hid.
Qed.

Lemma retire_moves op w id old :
  db_ok w.(pg) → w0.(pg).(rate_limit_policies) !! id = Some old → old.(rlp_IsActive) = true →
  call_ok w op (Retiring id) →
  let '(w', p') := op_step w (Retiring id) in moved op w (Retiring id) w' p'.
Proof.
  intros Hdb Hold Hact (-> & Hst). cbn [op_step]. unfold op_sql.
  assert (Hdb' : db_ok (DeactivateRateLimitPolicy id w.(pg)).2) by
    (apply (db_step_ok w.(pg)); [done|constructor]).
  unfold DeactivateRateLimitPolicy in *. unfold at_start in Hst. rewrite Hold in Hst. rewrite Hst in *.
  pose proof (pr_id _ _ _ (ok_policies _ Hdb _ _ Hst)) as Hid.
  unfold store_policy in *. destruct (policy_refused _ _ _) eqn:Href; cbn [fst snd] in *.
  { by apply moved_still. }
  set (row := mkRateLimitPolicy _ _ _ _ _ _ _ _ _ _) in *.
  assert (Hfoot : scope_of row ∈ stored_scope id).
  { unfold stored_scope. rewrite Hold. by left. }
  assert (Hreq : requested (OpDeactivate id) row) by done.
  assert (Hq : ∀ q, w.(pg).(rate_limit_policies) !! row.(rlp_ID) = Some q → q = old).
  { intros q. change (rlp_ID row) with (rlp_ID old). rewrite Hid, Hst. by intros [= <-]. }
  apply moved_put; auto; cbn [dirty].
  - by left.
  - intros q ->%Hq. split_and!; [by rewrite <- Hid|done|by left].
  - cbn [call_ok]. split_and!; [done..|]. split; [eapply ok_scope; [exact Hdb'|apply lookup_insert_eq]|].
    cbn [rlp_IsActive row]. change (scope_of row) with (scope_of old).
    apply put_old; [done..| |done|done]. change (rlp_ID row) with (rlp_ID old). by rewrite Hid.
Qed.
End Aimed.

Lemma load_moves op w id input :
  db_ok w.(pg) → call_ok w op (Loading id input) →
  let '(w', p') := op_step w (Loading id input) in moved op w (Loading id input) w' p'.
Proof.
  intros Hdb (-> & Hst). cbn [op_step]. unfold op_sql, GetRateLimitPolicy. unfold at_start in Hst.
  destruct (rate_limit_policies (pg w) !! id) as [old|] eqn:Hr; cbn [one_row];
    [destruct (validateCreateInput _) as [n|e] eqn:Hv|]; (apply moved_still; [done..|]); cbn [call_ok]; [|done..].
  exists input. unfold at_start. cbn [pg]. by rewrite Hr.
Qed.

(** The keys a projection writes. *)
Lemma sync_cmds_view previous row cs (d : D) k :
  sync_cmds (policyFromRecord <$> previous) (policyFromRecord row) = Ok cs →
  ∃ payload, Marshal (policyFromRecord row) = Ok payload ∧
    string_view (exec_cmds cs d) k =
      if bool_decide (k = sc_key (scope_of row)) then Some payload
      else if bool_decide (Some k = (fun p => sc_key (scope_of p)) <$> previous) then None
      else string_view d k.
Proof.
  unfold sync_cmds, set_policy. destruct (Marshal _) as [payload|]; cbn [res_bind]; [|done]. intros <-%(inj Ok).
  exists payload. split; [done|]. rewrite <- string_after_sync. by destruct previous.
Qed.

Lemma project_moves op w previous record cs :
  db_ok w.(pg) → call_ok w op (Projecting previous record cs) →
  let '(w', p') := op_step w (Projecting previous record cs) in
  moved op w (Projecting previous record cs) w' p'.
Proof.
  intros Hdb (Hcs & Hreq & Hact & Hin & Hold). cbn [op_step]. rewrite exec_world.
  split; [done|by apply same_table_untouched|by exists record|].
  intros sc Hsc Hm _. destruct (sync_cmds_view _ _ _ w.(redis) (sc_key sc) Hcs) as (payload & Hp & Hview).
  unfold mirrors in *. cbn [pg redis]. rewrite Hview. clear Hview. destruct Hin as [Hrs Hra]. rewrite Hact in Hra.
  destruct (decide (sc = scope_of record)) as [->|Hne].
  { rewrite Hra, bool_decide_eq_true_2 by done. eauto. }
  rewrite bool_decide_eq_false_2 by (intros Hk; by apply sc_key_inj in Hk).
  destruct previous as [q|]; cbn [fmap option_fmap option_map dirty] in *.
  2: { rewrite bool_decide_eq_false_2 by done. apply Hm. by apply not_in_one. }
  destruct (Hold q eq_refl) as (_ & Hqs & Hn). destruct (decide (sc = scope_of q)) as [->|Hnq].
  { rewrite bool_decide_eq_true_2 by done. by rewrite Hn. }
  rewrite bool_decide_eq_false_2 by (intros Hk%(inj Some); by apply sc_key_inj in Hk).
  apply Hm. rewrite not_elem_of_cons. split; [done|by apply not_in_one].
Qed.

Lemma remove_moves op w record :
  db_ok w.(pg) → call_ok w op (Removing record) →
  let '(w', p') := op_step w (Removing record) in moved op w (Removing record) w' p'.
Proof.
  intros Hdb (Hreq & Hact & Hin). cbn [op_step].
  change (run_cmd ?c w) with (mkWorld (run_cmd c w.(redis)) w.(pg)).
  split; [done|by apply same_table_untouched|by exists record|].
  intros sc Hsc Hm _. unfold mirrors in *. cbn [pg redis]. destruct Hin as [Hrs Hra]. rewrite Hact in Hra.
  rewrite string_after_del, key_of_record. destruct (decide (sc = scope_of record)) as [->|Hne].
  { rewrite Hra, bool_decide_eq_true_2; [done|by left]. }
  rewrite bool_decide_eq_false_2; [apply Hm; by apply not_in_one|].
  intros Hk%list_elem_of_singleton. by apply sc_key_inj in Hk.
Qed.

(** ** All of them together *)

Section Setting.
Context (Hset : admin_setting).

Lemma step_moves op w p :
  op ∈ ops → db_ok w.(pg) → call_ok w op p → op_finished p = false →
  let '(w', p') := op_step w p in moved op w p w' p'.
Proof.
  intros Hop Hdb Hc Hf. pose proof (am_fits Hset op Hop) as Hfit. pose proof (am_aimed Hset op) as Haim.
  destruct p as [n|id input|id old n|id|prev rec cs|rec|r]; [..|done].
  - by apply insert_moves.
  - by apply load_moves.
  - pose proof Hc as (input & -> & _ & _ & Hold). destruct (Haim id Hop eq_refl) as (r & Hr & Hact).
    assert (r = old) as -> by congruence. by apply rewrite_moves.
  - pose proof Hc as (-> & _). destruct (Haim id Hop eq_refl) as (r & Hr & Hact). by eapply retire_moves.
  - by apply project_moves.
  - by apply remove_moves.
Qed.

(** Another call does not notice. *)
Lemma other_call i j op op' w w' p :
  i ≠ j → ops !! i = Some op → ops !! j = Some op' → untouched op w w' → call_ok w op' p → call_ok w' op' p.
Proof.
  intros Hij Hi Hj [Ha Hr]. apply call_ok_mono.
  - intros sc Hsc Hin. apply Ha; [done|]. intros Hin'. apply Hij. by eapply (am_apart Hset i j).
  - intros id Ht. unfold at_start.
    destruct (am_aimed Hset op' id (list_elem_of_lookup_2 _ _ _ Hj) Ht) as (r & Hr0 & _).
    assert (Hst : scope_of r ∈ stored_scope id) by (unfold stored_scope; rewrite Hr0; by left).
    assert (Hfoot : ∀ o, target o = Some id → scope_of r ∈ footprint o).
    { intros [] [= ->]; cbn; [apply elem_of_app; by left|done]. }
    intros Hs. rewrite <- Hs. apply Hr; [|rewrite Hs, Hr0; eauto].
    intros Ht'. apply Hij. eapply (am_apart Hset i j); eauto.
Qed.

Lemma start_inv : race_inv (admin_start ops w0).
Proof.
  destruct Hset as [Hdb Hs Hreb _ _ _]. split; cbn [ar_world ar_calls admin_start]; [done|apply length_map| |].
  - intros i op p Hi Hp. rewrite list_lookup_fmap, Hi in Hp. injection Hp as <-.
    destruct op as [input|id input|id|]; cbn [op_begin]; [|done..|].
    + destruct (validateCreateInput input) eqn:Hv; [by exists input|done].
    + by destruct Hreb; eapply list_elem_of_lookup_2.
  - intros sc Hsc _. by apply Hs.
Qed.

Lemma step_inv r r' : race_inv r → admin_step r r' → race_inv r'.
Proof.
  intros [Hdb Hlen Hcalls Hm] Hstep. destruct Hstep as [w calls i p w' p' Hp Hf Hs|w calls w' Hsame Hdb'];
    cbn [ar_world ar_calls] in *.
  - assert (Hi : is_Some (ops !! i)) by (apply lookup_lt_is_Some; rewrite <- Hlen; by eapply lookup_lt_Some).
    destruct Hi as [op Hi].
    pose proof (step_moves op w p (list_elem_of_lookup_2 _ _ _ Hi) Hdb (Hcalls _ _ _ Hi Hp) Hf) as Hmv.
    rewrite Hs in Hmv. destruct Hmv as [Hdb' Hun Hc Hmir].
    split; cbn [ar_world ar_calls]; [done|by rewrite length_insert| |].
    + intros j op' q Hj Hq. destruct (decide (i = j)) as [<-|Hne].
      * rewrite list_lookup_insert_eq in Hq by (by eapply lookup_lt_Some).
        injection Hq as <-. assert (op' = op) as -> by congruence. done.
      * rewrite list_lookup_insert_ne in Hq by done. eapply (other_call i j op); eauto.
    + intros sc Hsc Hclean. apply Hmir; [done| |].
      * intros Hn. apply Hm; [done|]. intros q Hq. apply list_elem_of_lookup in Hq as [j Hq].
        destruct (decide (i = j)) as [<-|Hne]; [by assert (q = p) as -> by congruence|].
        apply Hclean. apply list_elem_of_lookup. exists j. by rewrite list_lookup_insert_ne.
      * apply Hclean, list_elem_of_lookup. exists i. apply list_lookup_insert_eq. by eapply lookup_lt_Some.
  - split; cbn [ar_world ar_calls]; [done..| |].
    + intros i op p Hi Hp. apply (same_table_call w); [apply Hsame|by eapply Hcalls].
    + intros sc Hsc Hclean. apply (same_table_mirrors w); [apply Hsame| |by apply Hm].
      apply (same_string _ _ _ (sp_projection _ _ Hsame _ (key_has_prefix sc))).
Qed.

Lemma reached_inv r : rtc admin_step (admin_start ops w0) r → race_inv r.
Proof.
  generalize start_inv. generalize (admin_start ops w0). intros r0 Hinv Hrun.
  induction Hrun; eauto using step_inv.
Qed.

Lemma dirty_unfinished w op p sc :
  call_ok w op p → sc ∈ dirty p → op_finished p = false ∧ sc ∈ footprint op.
Proof.
  destruct p as [n|id input|id old n|id|prev rec cs|rec|r]; cbn; try (intros _ Hn; by apply elem_of_nil in Hn).
  - intros (_ & Hreq & _ & _ & Hold) Hin. split; [done|]. apply elem_of_cons in Hin as [->|Hin].
    + by apply requested_scope.
    + destruct prev as [q|]; [|by apply elem_of_nil in Hin]. apply list_elem_of_singleton in Hin as ->.
      by apply (Hold q).
  - intros (Hreq & _) ->%list_elem_of_singleton. split; [done|]. by apply requested_scope.
Qed.
End Setting.

(** ** Every schedule can be brought to its end *)

Definition rank (p : op_phase) : nat :=
  match p with
  | Loading _ _ => 3
  | Inserting _ | Rewriting _ _ _ | Retiring _ => 2
  | Projecting _ _ _ | Removing _ => 1
  | Finished _ => 0
  end.

Lemma op_step_rank w p : op_finished p = false → (rank (op_step w p).2 < rank p)%nat.
Proof.
  assert (Hproj : ∀ prev rec, (rank (op_project prev rec) ≤ 1)%nat).
  { intros prev rec. unfold op_project. destruct (sync_cmds _ _); cbn; lia. }
  assert (Hsql : ∀ st failed k m, (∀ rec, rank (k rec) < S m)%nat → (rank (op_sql st failed k w).2 < S m)%nat).
  { intros st failed k m Hk. unfold op_sql. destruct (st _) as [[rec|e] db]; cbn; [apply Hk|lia]. }
  destruct p; cbn [op_finished op_step rank snd]; intros Hf; try done; try lia; apply Hsql; intros rec;
    try (pose proof (Hproj None rec); lia); try (case_match; cbn; lia).
  - pose proof (Hproj (Some existing) rec). lia.
  - cbn. lia.
Qed.

Lemma sum_rank_insert calls i p p' :
  calls !! i = Some p → (rank p' < rank p)%nat →
  (sum_list (rank <$> <[i:=p']> calls) < sum_list (rank <$> calls))%nat.
Proof.
  revert i. induction calls as [|q calls IH]; intros [|i] Hp Hr; cbn in *; try done.
  - injection Hp as ->. lia.
  - apply Nat.add_lt_mono_l. by apply IH.
Qed.

Lemma race_completes r : ∃ r', rtc admin_step r r' ∧ all_finished r'.
Proof.
  remember (sum_list (rank <$> r.(ar_calls))) as m eqn:Hm. revert r Hm.
  induction (lt_wf m) as [m _ IH]. intros [w calls] ->. cbn [ar_calls] in *.
  destruct (decide (Forall (fun p => op_finished p = true) calls)) as [Hall|Hn].
  { exists (mkAdminRace w calls). split; [constructor|done]. }
  apply not_Forall_Exists, list.Exists_exists in Hn as (p & Hp & Hf); [|apply _].
  apply list_elem_of_lookup in Hp as [i Hp]. apply not_true_iff_false in Hf.
  pose proof (op_step_rank w p Hf) as Hrank. destruct (op_step w p) as [w' p'] eqn:Hs. cbn [snd] in Hrank.
  destruct (IH _ (sum_rank_insert _ _ _ _ Hp Hrank) (mkAdminRace w' (<[i:=p']> calls)) eq_refl)
    as (r' & Hrun & Hall).
  exists r'. split; [|done]. eapply rtc_l; [by eapply admin_move|done].
Qed.

(** C5: administrators that keep apart keep the mirror.  Wherever the
    interleaving of calls whose scopes do not overlap has got to, with anything
    that leaves the policies alone happening in between, provided that they
    started with the stores in step, that every update and deactivation is aimed
    at a policy that exists and was active at the start, that their numbers are
    [int32] and that no rebuild is among them, the database satisfies its schema; a scope no unfinished call works on is read as the database has
    it; whoever was told of a policy finds it as it was told, in force or
    retired; every schedule can be brought to its end, and when all calls have
    ended the projection mirrors the database. *)
Theorem concurrent_admin_keeps_mirror r :
  admin_setting → rtc admin_step (admin_start ops w0) r →
  let w := r.(ar_world) in
  db_ok w.(pg) ∧
  (∀ sc, scope_ok sc →
     (∀ i op p, ops !! i = Some op → r.(ar_calls) !! i = Some p → op_finished p = false →
        sc ∉ footprint op) →
     read_scope sc (quiet w) = (Ok (policyFromRecord <$> active_policy w.(pg) sc), quiet w)) ∧
  (∀ i op policy, ops !! i = Some op → r.(ar_calls) !! i = Some (Finished (Ok policy)) →
     ∃ row, policy = policyFromRecord row ∧ requested op row ∧
       active_policy w.(pg) (scope_of row) = if row.(rlp_IsActive) then Some row else None) ∧
  (∃ r', rtc admin_step r r' ∧ all_finished r') ∧
  (all_finished r → synced w).
Proof.
  intros Hset Hrun w. destruct (reached_inv Hset r Hrun) as [Hdb Hlen Hcalls Hm].
  assert (Hclean : ∀ sc, scope_ok sc →
    (∀ i op p, ops !! i = Some op → r.(ar_calls) !! i = Some p → op_finished p = false → sc ∉ footprint op) →
    mirrors w sc).
  { intros sc Hsc Hfree. apply Hm; [done|]. intros p Hp Hd. apply list_elem_of_lookup in Hp as [i Hp].
    assert (Hi : is_Some (ops !! i)) by (apply lookup_lt_is_Some; rewrite <- Hlen; by eapply lookup_lt_Some).
    destruct Hi as [op Hi]. destruct (dirty_unfinished _ op p sc (Hcalls _ _ _ Hi Hp) Hd) as [Hf Hfoot].
    by apply (Hfree i op p). }
  split_and!; [done| | |apply race_completes|].
  - intros sc Hsc Hfree. apply read_mirror; [by apply Hclean|done].
  - intros i op policy Hi Hp. destruct (Hcalls _ _ _ Hi Hp) as (row & -> & Hreq & _ & Ha). by exists row.
  - intros Hall sc Hsc. apply Hclean; [done|]. intros i op p _ Hp Hf.
    pose proof (Forall_lookup_1 _ _ _ _ Hall Hp). cbn in *. congruence.
Qed.
End Race.
