(* ===== verification/AdminHazards.v ===== *)
(** * What goes wrong between the two stores

    Overlapping administrators, a creation that fails half way, a rebuild that
    is overtaken.

    ** Administrators that do not keep apart

    Two updates of one policy: the database keeps the last write, the
    projection keeps the last projection, and nothing ties the two orders
    together. *)
From stdpp Require Import relations.
From S2P Require Import Prelude GoBase Redis Ids BucketRace Text JsonDecode Database Queries DatabaseSpec World.
From S2P Require Import Policies PolicyJson PolicySpec Projection ProjectionSpec PolicyService PolicyOutcomes.
From S2P Require Import ReadOnly InStep AdminRace AdminRaceSpec.

(** ** What a policy says *)

(** The input a policy would be made from. *)
Definition input_of (p : Policy) : CreatePolicyInput :=
  mkCreatePolicyInput p.(pol_ScopeType) p.(pol_ScopeIdentifier) p.(pol_RoutePattern) p.(pol_Capacity)
    p.(pol_RefillTokens) p.(pol_RefillIntervalSeconds).

Lemma input_of_row id n active created updated :
  input_of (policyFromRecord (row_of id n active created updated)) = n.
Proof. unfold input_of, policyFromRecord, row_of. cbn. rewrite pointer_nullable. by destruct n. Qed.

Section Overtaken.
Context {D : Type} `{RL : RedisLaws D} `{UL : UuidLaws}.
Implicit Types (w : world D) (sc : scope).

(** The calls of two administrators, [a] and [b]. *)
Definition both (w : world D) (a b : op_phase) : admin_race := mkAdminRace w [a; b].

Lemma first_moves w a a' w' b :
  op_finished a = false → op_step w a = (w', a') → admin_step (both w a b) (both w' a' b).
Proof. intros Hf Hs. by apply (admin_move w [a; b] 0 a). Qed.

Lemma second_moves w a b b' w' :
  op_finished b = false → op_step w b = (w', b') → admin_step (both w a b) (both w' a b').
Proof. intros Hf Hs. by apply (admin_move w [a; b] 1 b). Qed.

Lemma load_step w id r input n :
  w.(pg).(rate_limit_policies) !! id = Some r → validateCreateInput (update_input input) = Ok n →
  op_step w (Loading id input) = (w, Rewriting id r n).
Proof.
  intros Hr Hv. cbn [op_step]. unfold op_sql, GetRateLimitPolicy. rewrite Hr. cbn [one_row].
  rewrite Hv. by destruct w.
Qed.

(** The update's row written, and its projection due. *)
Lemma rewrite_step w id r existing input n :
  db_ok w.(pg) → w.(pg).(rate_limit_policies) !! id = Some r → r.(rlp_IsActive) = true →
  existing.(rlp_IsActive) = true → validateCreateInput input = Ok n → input_fits input →
  scope_of_input n = scope_of r →
  let row := update_row w.(pg) id r n in
  let w' := mkWorld w.(redis) (put_policy row w.(pg)) in
  db_ok w'.(pg) ∧ active_policy w'.(pg) (scope_of r) = Some row ∧
  w'.(pg).(rate_limit_policies) !! id = Some row ∧
  ∃ cs, op_step w (Rewriting id existing n) = (w', Projecting (Some existing) row cs) ∧
    sync_cmds (policyFromRecord <$> Some existing) (policyFromRecord row) = Ok cs.
Proof.
  intros Hdb Hr Ha Hex Hv Hfit Hsc row w'.
  destruct (update_in_scope _ id r existing input n Hdb Hr Ha Hex Hv Hfit Hsc) as (Hu & Hdb').
  fold row in Hu, Hdb'. split; [done|].
  assert (Hl : w'.(pg).(rate_limit_policies) !! id = Some row) by apply lookup_insert_eq.
  split; [|split; [done|]].
  - rewrite <- Hsc, <- (scope_of_row_of id n true r.(rlp_CreatedAt) (now_value w.(pg))). by apply (put_new _ row).
  - destruct (project_phase _ id row (Some existing) Hdb' Hl) as (cs & Hcs & Hp). exists cs. split; [|done].
    cbn [op_step]. unfold op_sql. rewrite Hu. by rewrite Hp.
Qed.

(** C36: an overtaken update stays in force.  Two updates of one active policy,
    each valid and within its scope, can interleave so that both succeed, the
    database keeps the second and the request path reads the first: whoever
    made the second was told of a policy that no request is limited by. *)
Theorem overtaken_update_sticks id r0 in1 in2 n1 n2 w :
  db_ok w.(pg) → w.(pg).(rate_limit_policies) !! id = Some r0 → r0.(rlp_IsActive) = true →
  validateCreateInput (update_input in1) = Ok n1 → validateCreateInput (update_input in2) = Ok n2 →
  input_fits (update_input in1) → input_fits (update_input in2) →
  scope_of_input n1 = scope_of r0 → scope_of_input n2 = scope_of r0 →
  ∃ w' row1 row2,
    rtc admin_step (admin_start [OpUpdate id in1; OpUpdate id in2] w)
      (both w' (Finished (Ok (policyFromRecord row1))) (Finished (Ok (policyFromRecord row2)))) ∧
    row1 = row_of id n1 true r0.(rlp_CreatedAt) (now_value w.(pg)) ∧
    row2 = row_of id n2 true r0.(rlp_CreatedAt) (now_value w.(pg)) ∧
    db_ok w'.(pg) ∧ active_policy w'.(pg) (scope_of r0) = Some row2 ∧
    read_scope (scope_of r0) (quiet w') = (Ok (Some (policyFromRecord row1)), quiet w') ∧
    (n1 ≠ n2 → ¬ synced w').
Proof.
  intros Hdb Hr0 Ha Hv1 Hv2 Hf1 Hf2 Hs1 Hs2.
  destruct (rewrite_step w id r0 r0 _ n1 Hdb Hr0 Ha Ha Hv1 Hf1 Hs1) as (Hdb1 & _ & Hl1 & cs1 & Hstep1 & Hc1).
  set (row1 := update_row (pg w) id r0 n1) in *. set (w1 := mkWorld w.(redis) (put_policy row1 w.(pg))) in *.
  assert (Hsc1 : scope_of row1 = scope_of r0) by (unfold row1, update_row; by rewrite scope_of_row_of).
  assert (Hs2' : scope_of_input n2 = scope_of row1) by congruence.
  destruct (rewrite_step w1 id row1 r0 _ n2 Hdb1 Hl1 eq_refl Ha Hv2 Hf2 Hs2') as (Hdb2 & Ha2 & _ & cs2 & Hstep2 & Hc2).
  set (row2 := update_row (pg w1) id row1 n2) in *. set (w2 := mkWorld (redis w1) (put_policy row2 (pg w1))) in *.
  rewrite Hsc1 in Ha2. set (w' := exec_cmds cs1 (exec_cmds cs2 w2)).
  assert (Hpg : w'.(pg) = w2.(pg)) by (unfold w'; by rewrite !exec_world).
  assert (Hread : read_scope (scope_of r0) (quiet w') = (Ok (Some (policyFromRecord row1)), quiet w')).
  { destruct (sync_cmds_view _ _ _ (exec_cmds cs2 w2).(redis) (sc_key (scope_of r0)) Hc1) as (payload & Hm & Hview).
    rewrite Hsc1, bool_decide_eq_true_2 in Hview by done.
    rewrite read_quiet. unfold w'. rewrite exec_world. cbn [redis]. rewrite Hview.
    destruct (marshal_row _ _ _ Hdb1 Hl1) as (payload' & Hm' & Hu).
    assert (payload' = payload) as -> by congruence. by rewrite Hu. }
  exists w', row1, row2. split; [|split_and!; [done..|by rewrite Hpg|by rewrite Hpg|done|]].
  - change (admin_start _ w) with (both w (Loading id in1) (Loading id in2)).
    eapply rtc_l; [apply first_moves; [done|by apply load_step]|].
    eapply rtc_l; [apply second_moves; [done|by apply load_step]|].
    eapply rtc_l; [apply first_moves; [done|exact Hstep1]|].
    eapply rtc_l; [apply second_moves; [done|exact Hstep2]|].
    eapply rtc_l; [by apply second_moves|].
    eapply rtc_l; [by apply first_moves|]. constructor.
  - intros Hne Hsync. rewrite read_mirrored in Hread; [|done|by rewrite Hpg|exact (ok_scope _ _ _ Hdb Hr0)].
    rewrite Hpg, Ha2 in Hread. cbn [fmap option_fmap option_map] in Hread. apply Hne.
    assert (Heq : policyFromRecord row1 = policyFromRecord row2) by congruence.
    unfold row1, row2, update_row in Heq. apply (f_equal input_of) in Heq. by rewrite !input_of_row in Heq.
Qed.
End Overtaken.

(** * A creation that fails half way

    The database is written first.  When the projection cannot be reached after
    that, the caller is told of a failure, and yet the policy is active: it
    limits nobody, and it is in the way of every further attempt. *)

Section Failures.
Context {D : Type} `{RL : RedisLaws D} `{RedisScan D} `{UL : UuidLaws}.
Implicit Types (w : world D) (sc : scope).

(** A connection that serves one round trip and fails the next. *)
Definition fails_second w (e : error) : net (world D) :=
  mkNet w [mkRound (fun w => w) Delivered; mkRound (fun w => w) (NotSent e)].

(** An update within its scope, alone, puts its policy in force whatever the
    projection held. *)
Lemma update_enforces pages id r input n w :
  db_ok w.(pg) → w.(pg).(rate_limit_policies) !! id = Some r → r.(rlp_IsActive) = true →
  validateCreateInput (update_input input) = Ok n → input_fits (update_input input) →
  scope_of_input n = scope_of r →
  ∃ row w2, Update (policy_service pages) id input (quiet w) = (Ok (policyFromRecord row), quiet w2) ∧
    active_policy w2.(pg) (scope_of r) = Some row ∧
    read_scope (scope_of r) (quiet w2) = (Ok (Some (policyFromRecord row)), quiet w2).
Proof.
  intros Hdb Hr Ha Hv Hfit Hsc.
  destruct (rewrite_step w id r r _ n Hdb Hr Ha Ha Hv Hfit Hsc) as (Hdb' & Hact & Hl & cs & Hstep & Hcs).
  set (row := update_row (pg w) id r n) in *. set (w' := mkWorld w.(redis) (put_policy row w.(pg))) in *.
  exists row, (exec_cmds cs w'). split.
  - change (Update (policy_service pages) id input (quiet w)) with
      (op_call (policy_service pages) (OpUpdate id input) (mkNet w (map delivered []))).
    rewrite op_call_machine by done. cbn [op_begin op_run op_finished first_other].
    rewrite (load_step _ _ r _ n) by done. cbn [op_finished first_other list.tail]. cbv iota beta.
    cbn [op_run op_finished]. rewrite Hstep. done.
  - rewrite exec_world. split; [exact Hact|].
    destruct (sync_cmds_view _ _ _ w'.(redis) (sc_key (scope_of r)) Hcs) as (payload & Hm & Hview).
    assert (Hrow : scope_of row = scope_of r) by (unfold row, update_row; by rewrite scope_of_row_of).
    rewrite Hrow, bool_decide_eq_true_2 in Hview by done.
    rewrite read_quiet. cbn [redis]. rewrite Hview.
    destruct (marshal_row _ _ _ Hdb' Hl) as (payload' & Hm' & Hu).
    assert (payload' = payload) as -> by congruence. by rewrite Hu.
Qed.

(** A scope in the way turns a creation away, whatever the projection holds. *)
Lemma create_refused pages input n w :
  db_ok w.(pg) → validateCreateInput input = Ok n → input_fits input →
  is_Some (active_policy w.(pg) (scope_of_input n)) →
  Create (policy_service pages) input (quiet w) =
    (Err ErrPolicyConflict, quiet (mkWorld w.(redis) (draw w.(pg)))).
Proof.
  intros Hdb Hv Hfit Hact. destruct (create_statement input n w.(pg) Hdb Hv Hfit) as [Hst _].
  unfold Create. rewrite Hv, sql_quiet. change (mkCreateRateLimitPolicyParams _ _ _ _ _ _) with (create_params n).
  rewrite Hst, (bool_decide_eq_true_2 (is_Some (active_policy _ _))) by done. by rewrite orb_true_r.
Qed.

(** C38: a creation that fails half way sticks.  When the projection cannot be
    reached after the row was stored, the caller gets the failure, and from
    then on the policy is active in the database while the request path finds
    none for its scope; every further creation for the scope is turned away as a
    conflict and changes nothing of that; an update of the stored policy is
    what puts it in force. *)
Theorem half_created_policy_sticks pages input n e w :
  db_ok w.(pg) → synced w → validateCreateInput input = Ok n → input_fits input →
  ¬ create_conflict w.(pg) n → create_known w.(pg) n = true →
  let sc := scope_of_input n in
  let row := create_row w.(pg) n in
  ∃ w', Create (policy_service pages) input (fails_second w e) =
      (Err (Wrapf "sync policy projection" e), quiet w') ∧
    active_policy w'.(pg) sc = Some row ∧ read_scope sc (quiet w') = (Ok None, quiet w') ∧
    (∀ input2 n2, validateCreateInput input2 = Ok n2 → input_fits input2 → scope_of_input n2 = sc →
       ∃ w2, Create (policy_service pages) input2 (quiet w') = (Err ErrPolicyConflict, quiet w2) ∧
         active_policy w2.(pg) sc = Some row ∧ read_scope sc (quiet w2) = (Ok None, quiet w2)) ∧
    (∀ update n2, validateCreateInput (update_input update) = Ok n2 → input_fits (update_input update) →
       scope_of_input n2 = sc →
       ∃ row2 w2, Update (policy_service pages) row.(rlp_ID) update (quiet w') =
           (Ok (policyFromRecord row2), quiet w2) ∧
         active_policy w2.(pg) sc = Some row2 ∧
         read_scope sc (quiet w2) = (Ok (Some (policyFromRecord row2)), quiet w2)).
Proof.
  intros Hdb Hsync Hv Hfit Hcf Hk sc row.
  destruct (create_statement input n w.(pg) Hdb Hv Hfit) as [Hst Hstored].
  destruct (Hstored Hcf Hk) as [Hput Hact]. fold row sc in Hput, Hact.
  pose proof Hcf as [Hna Hnt]%Decidable.not_or. rewrite !bool_decide_eq_false_2, Hk in Hst by done. cbn [orb] in Hst.
  fold row in Hst. set (w' := mkWorld w.(redis) (put_policy row (draw w.(pg)))).
  assert (Hrow : w'.(pg).(rate_limit_policies) !! row.(rlp_ID) = Some row) by apply lookup_insert_eq.
  assert (Hsc : scope_of row = sc) by apply scope_of_create_row.
  assert (Hempty : string_view w.(redis) (sc_key sc) = None).
  { assert (Hok : scope_ok sc) by (rewrite <- Hsc; by eapply (ok_scope w'.(pg))).
    specialize (Hsync sc Hok). unfold mirrors in Hsync. apply eq_None_not_Some in Hna. fold sc in Hna. by rewrite Hna in Hsync. }
  exists w'. split_and!; [|done|by rewrite read_quiet; cbn [redis w']; rewrite Hempty| |].
  - unfold Create, fails_second. rewrite Hv. unfold sql, call. cbn [rounds others outcome server].
    change (mkCreateRateLimitPolicyParams _ _ _ _ _ _) with (create_params n). rewrite Hst. cbn [res_bind].
    change (SyncPolicy (projector (policy_service pages))) with (projection_SyncPolicy (D := world D)).
    destruct (marshal_row _ _ _ Hput Hrow) as (payload & Hm & _).
    unfold projection_SyncPolicy, set_policy. rewrite Hm. done.
  - intros input2 n2 Hv2 Hfit2 Hs2. eexists.
    split; [apply (create_refused pages input2 n2 w'); [done..|rewrite Hs2; by eexists]|].
    cbn [pg redis]. split; [by rewrite (active_policy_same w'.(pg))|].
    rewrite read_quiet. cbn [redis w']. by rewrite Hempty.
  - intros update n2 Hv2 Hfit2 Hs2. rewrite <- Hsc.
    apply (update_enforces pages _ row update n2 w'); try done. congruence.
Qed.
End Failures.

(** * A rebuild that is overtaken

    [RebuildProjection] reads the active policies in one round trip and replaces
    the projection in later ones.  What is changed in between is replaced by
    what was read before. *)

Section Rebuild.
Context {D : Type} `{RL : RedisLaws D} `{RS : RedisScan D} `{!ScanLaws D} `{UL : UuidLaws}.
Implicit Types (w : world D) (sc : scope).

(** The policies are read, then the servers become [w1], then nothing else
    happens. *)
Definition overtaken_by w w1 : net (world D) := mkNet w (map delivered [fun w => w; fun _ => w1]).

Lemma scan_overtaken pages w w1 :
  projectionKeys (S pages) (mkNet w (map delivered [fun _ => w1])) = projectionKeys (S pages) (quiet w1).
Proof. done. Qed.

(** Only what Redis holds matters to the replacement. *)
Lemma replace_anywhere pages items d db db' r d' :
  projection_ReplacePolicies pages items (quiet (mkWorld (D := D) d db)) = (r, quiet (mkWorld d' db)) →
  projection_ReplacePolicies pages items (quiet (mkWorld d db')) = (r, quiet (mkWorld d' db')).
Proof.
  unfold projection_ReplacePolicies, projectionKeys. rewrite !scan_keys_quiet. cbn [redis].
  destruct (scan_pages _ _ _ _ _) as [keys|]; [|by intros [= <- <-]].
  destruct (_ && _); [by intros [= <- <-]|]. destruct (set_policies items); [|by intros [= <- <-]].
  rewrite !command_quiet. by intros [= <- <-].
Qed.

(** The rebuild writes over [w1] what it has read from [w]. *)
Lemma rebuild_overtaken_run pages w w1 d :
  RebuildProjection (policy_service (S pages)) (quiet (mkWorld w1.(redis) w.(pg))) =
    (Ok (), quiet (mkWorld d w.(pg))) →
  RebuildProjection (policy_service (S pages)) (overtaken_by w w1) = (Ok (), quiet (mkWorld d w1.(pg))).
Proof.
  unfold overtaken_by, RebuildProjection. rewrite sql_delivered, sql_quiet.
  cbn [ListActiveRateLimitPolicies fst snd first_other list.tail redis pg].
  change (ReplacePolicies (projector (policy_service (S pages)))) with
    (projection_ReplacePolicies (D := world D) (S pages)).
  set (items := map policyFromRecord _). intros Hr.
  assert (Hrep : projection_ReplacePolicies (S pages) items (mkNet w (map delivered [fun _ => w1])) =
    projection_ReplacePolicies (S pages) items (quiet w1)).
  { unfold projection_ReplacePolicies. by rewrite scan_overtaken. }
  replace (mkWorld (redis w) (pg w)) with w by (by destruct w). rewrite Hrep.
  destruct (projection_ReplacePolicies (S pages) items (quiet (mkWorld _ _))) as [r n'] eqn:Hq.
  assert (r = Ok () ∧ n' = quiet (mkWorld d w.(pg))) as [-> ->].
  { destruct r as [[]|e]; cbn in Hr; [by injection Hr as ->|discriminate]. }
  apply (replace_anywhere _ _ _ _ w1.(pg)) in Hq. destruct w1 as [d1 db1]. cbn [redis pg] in *. by rewrite Hq.
Qed.

(** What the request path reads after that. *)
Lemma rebuild_shows_listed w w1 :
  db_ok w.(pg) →
  ∃ pages0, ∀ pages, (pages0 ≤ pages)%nat → ∃ w',
    RebuildProjection (policy_service pages) (overtaken_by w w1) = (Ok (), quiet w') ∧ w'.(pg) = w1.(pg) ∧
    ∀ sc, scope_ok sc →
      read_scope sc (quiet w') = (Ok (policyFromRecord <$> active_policy w.(pg) sc), quiet w').
Proof.
  intros Hdb. destruct (scan_ends w1.(redis)) as (pages0 & keys & Hkeys & Hsc).
  exists (S pages0). intros [|pages] Hle; [lia|].
  destruct (rebuild_from_keys (S pages) (mkWorld w1.(redis) w.(pg)) keys) as ([d db] & Hr & Hs & Hpg & _);
    [done|apply Hsc; lia|done|]. cbn [pg] in Hpg. subst db.
  exists (mkWorld d w1.(pg)). split; [by apply rebuild_overtaken_run|]. split; [done|].
  intros sc Hok. pose proof (read_mirrored sc _ Hs Hdb Hok) as Hread. rewrite read_quiet in Hread |- *.
  cbn [redis pg] in *. by apply pair_eq in Hread as [-> _].
Qed.

(** C37: a rebuild puts back what it has read.  A policy created after a rebuild
    has read the active policies and before it scans the keys is stored, its
    creator is told so, and the rebuild succeeds; from then on it is active in
    the database while the request path finds none for its scope.  Policies
    nobody changed in between are read as the database has them. *)
Theorem rebuild_overtaken pages1 input n w :
  db_ok w.(pg) → synced w → validateCreateInput input = Ok n → input_fits input →
  ¬ create_conflict w.(pg) n → create_known w.(pg) n = true →
  let sc := scope_of_input n in
  let row := create_row w.(pg) n in
  ∃ w1, Create (policy_service pages1) input (quiet w) = (Ok (policyFromRecord row), quiet w1) ∧
    read_scope sc (quiet w1) = (Ok (Some (policyFromRecord row)), quiet w1) ∧
    ∃ pages0, ∀ pages, (pages0 ≤ pages)%nat → ∃ w',
      RebuildProjection (policy_service pages) (overtaken_by w w1) = (Ok (), quiet w') ∧
      active_policy w'.(pg) sc = Some row ∧ read_scope sc (quiet w') = (Ok None, quiet w') ∧
      ¬ synced w' ∧
      ∀ sc', scope_ok sc' → sc' ≠ sc →
        read_scope sc' (quiet w') = (Ok (policyFromRecord <$> active_policy w'.(pg) sc'), quiet w').
Proof.
  intros Hdb Hsync Hv Hfit Hcf Hk sc row.
  destruct (Create_stores pages1 input n w Hsync Hdb Hv Hfit Hcf Hk) as (w1 & Hc & Hpg1 & Hs1 & Hdb1).
  destruct (create_statement input n w.(pg) Hdb Hv Hfit) as [_ Hstored].
  destruct (Hstored Hcf Hk) as [Hput Hact]. fold row in Hput, Hact, Hpg1. fold sc in Hact. rewrite <- Hpg1 in Hput, Hact.
  assert (Hsc : scope_of row = sc) by apply scope_of_create_row.
  assert (Hok : scope_ok sc).
  { rewrite <- Hsc. apply (ok_scope w1.(pg) row.(rlp_ID)); [done|]. rewrite Hpg1. apply lookup_insert_eq. }
  exists w1. split; [done|]. split; [by rewrite read_mirrored, Hact|].
  destruct (rebuild_shows_listed w w1 Hdb) as (pages0 & Hp). exists pages0. intros pages Hle.
  destruct (Hp pages Hle) as (w' & Hr & Hpg & Hread). exists w'. rewrite Hpg.
  assert (Hnone : active_policy w.(pg) sc = None).
  { apply eq_None_not_Some. intros Ha. apply Hcf. by left. }
  assert (Hgone : read_scope sc (quiet w') = (Ok None, quiet w')) by (by rewrite Hread, Hnone).
  split_and!; [done..| |].
  - intros Hsy. rewrite read_mirrored, Hpg, Hact in Hgone by (done || by rewrite Hpg). discriminate.
  - intros sc' Hok' Hne. rewrite Hread by done. assert (active_policy w1.(pg) sc' = active_policy w.(pg) sc') as ->; [|done].
    rewrite Hpg1 in Hput |- *.
    apply (put_elsewhere (draw w.(pg))); [by apply draw_ok|done|congruence|].
    intros q Hq. apply Decidable.not_or in Hcf as [_ Hfree]. destruct Hfree. by exists q.
Qed.
End Rebuild.
