(* ===== verification/RouterSpec.v ===== *)
(** * The whole surface keeps the stores in step

    Whatever requests arrive, one after the other, at whatever paths: the
    projection goes on mirroring the policies, the cache goes on holding nothing
    but active keys, and the database goes on satisfying its schema.  The one
    condition is the policy service's: an update or a deactivation is aimed at
    an active policy. *)
From stdpp Require Import relations.
From S2P Require Import Prelude GoBase Ids Text ApiKeys TokenBucket Redis BucketStore Database Queries DatabaseSpec World.
From S2P Require Import Policies PolicySpec Projection ProjectionSpec PolicyService Resolver Auth AuthSpec AuditLog.
From S2P Require Import Config Http Url Keeps ReadOnly Middleware Mux Handlers Protected.
From S2P Require Import Routes App HandlersSpec ChangesOverHttp RoutesSpec ProtectedSpec InStep.

Section Surface.
Context {D : Type} `{RL : RedisLaws D} `{RS : RedisScan D} `{!ScanLaws D} `{UL : UuidLaws}.
Context `{DecodeErrors} `{CL : ChiLaws} `{ServeEnv (world D)} `{RandomSource (world D)}.
Context (cfg : AppConfig) (pages : nat).
Implicit Types (w : world D) (h next : Handler (world D)) (r : request).

(** The handler, given the request, leaves the stores in step. *)
Definition safe h r w : Prop := ∀ wr, stays (h wr r (quiet w)).(s_net).

Lemma safe_still w : in_step w → stays (quiet w).
Proof. intros Hin. by exists w. Qed.

(** ** Handlers *)

Lemma safe_steady h r w : handler_keeps steady h → in_step w → safe h r w.
Proof. intros Hh Hin wr. destruct (serves_quiet steady (h wr r) w (Hh wr r)) as (w' & -> & Hw). exists w'. auto. Qed.

(** One call, and an answer that depends on its result. *)
Lemma net_after {A} (f : net (world D) → A * net (world D)) (k : A → net (world D) → served (world D)) n :
  (∀ a n, (k a n).(s_net) = n) → (let '(a, n) := f n in k a n).(s_net) = (f n).2.
Proof. intros Hk. destruct (f n). apply Hk. Qed.

Lemma safe_Create r w : in_step w → safe (PoliciesHandler_Create (main_policies pages)) r w.
Proof.
  intros Hin wr. unfold PoliciesHandler_Create. fold (decode_policy_request r).
  destruct (decode_policy_request r) as [q|e] eqn:Hq; [|by apply safe_still].
  destruct (parse_optional_uuid _) as [sid|e]; [|by apply safe_still].
  rewrite net_after by (by intros [p|e] n). apply policy_side_stays; [apply keeps_Create|done|].
  intros res n'. apply Create_keeps; [apply Hin..|]. by eapply decoded_request_fits.
Qed.

Lemma safe_Update r w : in_step w → names_active r w → safe (PoliciesHandler_Update (main_policies pages)) r w.
Proof.
  intros Hin Haim wr. unfold PoliciesHandler_Update.
  destruct (uuid_Parse _) as [id|e] eqn:Hid; [|by apply safe_still]. fold (decode_policy_request r).
  destruct (decode_policy_request r) as [q|e] eqn:Hq; [|by apply safe_still].
  destruct (parse_optional_uuid _) as [sid|e]; [|by apply safe_still].
  rewrite net_after by (by intros [p|e] n). apply policy_side_stays; [apply keeps_Update|done|].
  intros res n'. apply Update_keeps; [apply Hin..| |intros row; by apply Haim]. by eapply decoded_request_fits.
Qed.

Lemma safe_Deactivate r w :
  in_step w → names_active r w → safe (PoliciesHandler_Deactivate (main_policies pages)) r w.
Proof.
  intros Hin Haim wr. unfold PoliciesHandler_Deactivate.
  destruct (uuid_Parse _) as [id|e] eqn:Hid; [|by apply safe_still].
  rewrite net_after by (intros [p|e] n; [done|by case_match]).
  apply policy_side_stays; [apply keeps_Deactivate|done|].
  intros res n'. apply Deactivate_keeps; [apply Hin..|intros row; by apply Haim].
Qed.

Lemma safe_CreateKey r w : in_step w → safe (APIKeysHandler_Create (main_keys cfg) random_secret) r w.
Proof.
  intros Hin wr. unfold APIKeysHandler_Create.
  destruct (decodeJSON _ _ r) as [q|e]; [|by apply safe_still].
  destruct (parse_optional_uuid _) as [uid|e]; [|by apply safe_still].
  rewrite net_after by (by intros [p|e] n). apply key_side_stays; [apply keeps_CreateKey|done|].
  intros res n'. apply create_keeps; apply Hin.
Qed.

Lemma safe_DeactivateKey r w : in_step w → safe (APIKeysHandler_Deactivate (main_keys cfg)) r w.
Proof.
  intros Hin wr. unfold APIKeysHandler_Deactivate.
  destruct (uuid_Parse _) as [id|e]; [|by apply safe_still].
  rewrite net_after by (intros [p|e] n; [done|by case_match]).
  apply key_side_stays; [apply keeps_DeactivateKey|done|]. intros res n' Hd.
  destruct (keeps_quiet same_policies (DeactivateKey (main_keys cfg) id) w) as (w1 & Hq & _);
    [apply keeps_DeactivateKey|].
  rewrite Hd in Hq. cbn [snd] in Hq. exists w1. split; [done|].
  apply (key_step_keeps (main_keys cfg).(codec) cfg.(cfg_Redis).(APIKeyCacheTTL) w); [|apply Hin..].
  apply (key_step_op _ _ w (KeyDeactivate id)). cbn [run_key_op].
  change (key_service (codec (main_keys cfg)) _) with (main_keys (D := D) cfg). by rewrite Hd.
Qed.

(** ** The protected routes *)

Lemma resolve_stays raw w :
  in_step w → stays (ResolveActiveByRawKey (main_keys cfg) raw (quiet w)).2.
Proof.
  intros Hin. destruct (resolve_quiet (main_keys cfg (D := D)).(codec) cfg.(cfg_Redis).(APIKeyCacheTTL) raw w)
    as (w' & Hr & Hc & Hpg & Hco); [apply Hin..|].
  change (key_service (codec (main_keys cfg)) _) with (main_keys (D := D) cfg) in Hr. rewrite Hr.
  exists w'. split; [done|]. by eapply cache_only_in_step.
Qed.

Lemma safe_APIKeyAuth next r w :
  handler_keeps steady next → in_step w → safe (APIKeyAuth (ResolveActiveByRawKey (main_keys cfg)) next) r w.
Proof.
  intros Hn Hin wr. unfold APIKeyAuth. case_bool_decide; [by apply safe_still|].
  pose proof (resolve_stays (TrimSpace (header_Get (Header r) "X-Api-Key")) w Hin) as (w1 & Hq & Hin1).
  destruct (ResolveActiveByRawKey _ _ _) as [[k|e] n1]; cbn [snd] in Hq; subst n1.
  - by apply safe_steady.
  - repeat case_match; by apply safe_still.
Qed.

Lemma protected_steady now def :
  handler_keeps (steady (D := D)) (EnforceRateLimit def.(route_ID) def.(route_Cost) main_resolver (Consume NewBucketStore)
    (Some LogBlocked) now (Some now) (ProtectedHandler_Route def.(route_ID) def.(route_Cost))).
Proof. apply keeps_limiter; [apply _|apply consume_steady|apply log_steady]. Qed.

Lemma safe_Show r w :
  in_step w → safe (PublicConfigHandler_Show cfg.(cfg_Demo) (Some (ResolveActiveByRawKey (main_keys cfg)))) r w.
Proof.
  intros Hin wr. unfold PublicConfigHandler_Show. destruct (negb _); [by apply safe_still|].
  case_bool_decide; [by apply safe_still|].
  rewrite net_after by (intros [k|e] n; repeat case_match; done). by apply resolve_stays.
Qed.

(** ** Middleware *)

Lemma safe_AdminAuth token next r w : in_step w → safe next r w → safe (AdminAuth token next) r w.
Proof. intros Hin Hn wr. unfold AdminAuth. repeat case_match; [by apply safe_still..|apply Hn]. Qed.

Lemma safe_CORS origin next r w : in_step w → safe next r w → safe (CORS origin next) r w.
Proof. intros Hin Hn wr. unfold CORS. case_bool_decide; [by apply safe_still|apply Hn]. Qed.

Lemma safe_Recoverer next r w : safe next r w → safe (Recoverer next) r w.
Proof. intros Hn wr. unfold Recoverer. specialize (Hn wr). by destruct (s_panicked _). Qed.

(** ** Endpoints *)

Lemma stub_safe h r w : (∀ wr r n, (h wr r n).(s_net) = n) → in_step w → safe h r w.
Proof. intros Hh. apply safe_steady, stub_reads; [apply _|done]. Qed.

Definition policy_paths : list string :=
  ["/api/admin/policies/{policyID}"; "/api/admin/policies/{policyID}/deactivate"].

(** A policy the path names, if there is one, is active. *)
Definition aimed w r : Prop :=
  ∀ p ps, p ∈ policy_paths → match_pattern p r.(URLPath) = Some ps → names_active (with_params ps r) w.

(** The endpoint after [elem_of_cons] has come to it. *)
#[local] Ltac next_endpoint H := apply elem_of_cons in H as [->|H].

Lemma safe_reads e r w :
  e ∈ list_policies_endpoint (main_dependencies cfg pages) "list policies" ::
      inspect_endpoints (main_dependencies cfg pages) ++ [metrics_endpoint (main_dependencies cfg pages)] →
  in_step w → safe e.(ep_Handler) r w.
Proof.
  intros He Hin. apply safe_steady; [|done].
  apply (proj1 (list.Forall_forall _ _) (read_routes_keep steady cfg pages _) e He).
Qed.

Lemma safe_admin e ps r w :
  e ∈ admin_routes cfg (main_dependencies cfg pages) →
  match_pattern ("/api/admin" +:+ e.(ep_Pattern)) r.(URLPath) = Some ps →
  aimed w r → in_step w → safe e.(ep_Handler) (with_params ps r) w.
Proof.
  intros He Hp Haim Hin. unfold admin_routes in He. next_endpoint He; [by apply stub_safe|].
  assert (Hreads : e ∈ list_policies_endpoint (main_dependencies cfg pages) "list policies" ::
    inspect_endpoints (main_dependencies cfg pages) ++ [metrics_endpoint (main_dependencies cfg pages)] →
    safe (ep_Handler e) (with_params ps r) w) by (intros Hr; by apply safe_reads).
  apply elem_of_app in He as [He|He].
  { unfold key_routes in He. cbn [dep_APIKeys main_dependencies] in He.
    destruct (PublicMode _); cbn [app] in He; next_endpoint He; try (apply safe_steady; [apply list_keys_reads, _|done]).
    - repeat (next_endpoint He; [by apply stub_safe|]). by apply elem_of_nil in He.
    - next_endpoint He; [by apply safe_CreateKey|]. next_endpoint He; [by apply safe_DeactivateKey|].
      by apply elem_of_nil in He. }
  apply elem_of_app in He as [He|He]; [|apply Hreads; by right].
  unfold policy_routes in He. next_endpoint He; [apply Hreads; by left|].
  cbn [dep_Policies main_dependencies] in He. clear Hreads. destruct (PublicMode _).
  - repeat (next_endpoint He; [by apply stub_safe|]). by apply elem_of_nil in He.
  - next_endpoint He; [by apply safe_Create|].
    next_endpoint He; [apply safe_Update; [done|]; apply (Haim "/api/admin/policies/{policyID}" ps); [by left|exact Hp]|].
    next_endpoint He; [apply safe_Deactivate; [done|]; apply (Haim "/api/admin/policies/{policyID}/deactivate" ps); [by right; left|exact Hp]|].
    by apply elem_of_nil in He.
Qed.

Lemma safe_root ver started now e r w :
  e ∈ (routes_New cfg ver started now (main_dependencies cfg pages)).(root_Endpoints) →
  in_step w → safe e.(ep_Handler) r w.
Proof.
  intros He Hin. cbn [root_Endpoints routes_New dep_PublicConfig main_dependencies app] in He.
  next_endpoint He; [by apply stub_safe|]. next_endpoint He; [by apply safe_Show|].
  apply list_elem_of_fmap in He as (def & -> & _). cbn [ep_Handler protected_endpoint dep_Protected
    dep_ProtectedAPIKeys dep_PolicyResolver dep_BucketStore dep_BlockedAuditor main_dependencies].
  apply safe_APIKeyAuth; [apply protected_steady|done].
Qed.

(** ** The router *)

Context (ver : string) (started : Time) (now : Clock (W := world D)).

Definition surface : router (world D) := routes_New cfg ver started now (main_dependencies cfg pages).

Lemma safe_target eps t r w :
  in_step w → (∀ i ps e, t = Found i ps → eps !! i = Some e → safe e.(ep_Handler) (with_params ps r) w) →
  safe (serve_target eps surface.(root_NotFound) t) r w.
Proof.
  intros Hin Hf wr. destruct t as [i ps| |]; unfold serve_target; [|by apply safe_still..].
  destruct (eps !! i) as [e|] eqn:He; [|by apply safe_still]. by apply (Hf i ps e).
Qed.

(** One request. *)
Lemma request_safe r w : aimed w r → in_step w → safe (ServeHTTP surface) r w.
Proof.
  intros Haim Hin wr. rewrite ServeHTTP_find. revert wr.
  apply safe_Recoverer, safe_CORS; [done|]. intros wr. destruct (find_in surface r) as [t|k t] eqn:Hf.
  - revert wr. apply safe_target; [done|]. intros i ps e -> He.
    eapply (safe_root ver started now); [|done]. by eapply list_elem_of_lookup_2.
  - destruct (root_Mounts surface !! k) as [s|] eqn:Hs; [|by apply safe_still].
    assert (Htarget : safe (serve_target (sub_Endpoints s) (root_NotFound surface) t) r w).
    { apply safe_target; [done|]. intros i ps e -> He.
      destruct (found_mounted surface r k i ps Hf) as (s' & e' & Hk & He' & _ & Hp).
      rewrite Hs in Hk. injection Hk as <-. rewrite He in He'. injection He' as <-.
      apply list_elem_of_lookup_2 in He. apply list_elem_of_lookup_2, elem_of_app in Hs as [Hs|Hs].
      - destruct (PublicMode _); [|by apply elem_of_nil in Hs]. apply list_elem_of_singleton in Hs as ->.
        apply safe_steady; [|done].
        apply (proj1 (list.Forall_forall _ _) (read_routes_keep steady cfg pages "list public policies") e He).
      - apply list_elem_of_singleton in Hs as ->. by apply safe_admin. }
    apply list_elem_of_lookup_2, elem_of_app in Hs as [Hs|Hs].
    + destruct (PublicMode _); [|by apply elem_of_nil in Hs]. apply list_elem_of_singleton in Hs as ->.
      apply Htarget.
    + apply list_elem_of_singleton in Hs as ->. by apply safe_AdminAuth.
Qed.

(** A request that ends, or entries of the cache that expire. *)
Inductive surface_step : world D → world D → Prop :=
| step_request wr r w w' :
    aimed w r → (ServeHTTP surface wr r (quiet w)).(s_net) = quiet w' → surface_step w w'
| step_expire w d :
    (∀ k, policy_key k = true → string_view d k = string_view w.(redis) k) →
    (∀ hash, string_view d (authCacheKey hash) = string_view w.(redis) (authCacheKey hash) ∨
             string_view d (authCacheKey hash) = None) →
    surface_step w (mkWorld d w.(pg)).

Lemma surface_step_in_step w w' : surface_step w w' → in_step w → in_step w'.
Proof.
  intros [wr r w0 w1 Haim Hnet|w0 d Hp Hc] Hin.
  - destruct (request_safe r w0 Haim Hin wr) as (w2 & Hq & Hin2). rewrite Hnet in Hq. by injection Hq as ->.
  - destruct Hin as [Hdb Hs Hco]. split; [done| |].
    + intros sc Hsc. specialize (Hs sc Hsc). unfold mirrors in *. cbn [redis pg].
      rewrite Hp; [done|apply key_has_prefix].
    + intros hash payload. cbn [redis pg]. destruct (Hc hash) as [->| ->]; [|done]. apply Hco.
Qed.

(** C2: the service keeps its stores in step.  From stores in step, any run of
    requests to the router, one at a time and at whatever paths, with entries
    of the cache expiring in between, leaves them in step, as long as the
    updates and deactivations of policies are aimed at active ones: the
    projection mirrors the active policies, the cache holds nothing but active
    keys, and the database satisfies its schema.  Every further such request is
    answered and leaves them in step again. *)
Theorem surface_stays_in_step w w' :
  in_step w → rtc surface_step w w' →
  in_step w' ∧ ∀ wr r, aimed w' r →
    ∃ w2, (ServeHTTP surface wr r (quiet w')).(s_net) = quiet w2 ∧ in_step w2.
Proof.
  intros Hin Hrun. assert (Hin' : in_step w').
  { induction Hrun as [w|w w1 w' Hstep _ IH]; [done|]. apply IH. by eapply surface_step_in_step. }
  split; [done|]. intros wr r Haim. by apply request_safe.
Qed.
End Surface.
