(* ===== verification/BootstrapSpec.v ===== *)
(** * What the demo bootstrap promises

    Running the command again changes nothing: it finds the key and the
    policies of its first run.  A demo key that was deactivated in between stops
    it. *)
From S2P Require Import Prelude GoBase Ids Text Sha256 ApiKeys Redis Database Queries DatabaseSpec World.
From S2P Require Import Calendar Json JsonDecode Policies PolicyJson PolicySpec Projection ProjectionSpec PolicyService PolicyOutcomes.
From S2P Require Import Auth AuthSpec Config ConfigSpec Keeps ProtectedSpec InStep Bootstrap.

(** ** What creating policies leaves alone *)

Section Grows.
Context {D : Type} `{RL : RedisLaws D} `{RS : RedisScan D} `{UL : UuidLaws}.
Implicit Types (w : world D).

(** Policies are only added, under ids drawn on the way. *)
Record grows w w' : Prop := {
  gr_gen : w'.(pg).(gen_random_uuid) = w.(pg).(gen_random_uuid);
  gr_drawn : (w.(pg).(drawn) ≤ w'.(pg).(drawn))%nat;
  gr_policies : w.(pg).(rate_limit_policies) ⊆ w'.(pg).(rate_limit_policies);
  gr_new id : is_Some (w'.(pg).(rate_limit_policies) !! id) →
    is_Some (w.(pg).(rate_limit_policies) !! id) ∨
    ∃ i, (w.(pg).(drawn) ≤ i < w'.(pg).(drawn))%nat ∧ id = w.(pg).(gen_random_uuid) i
}.

#[export] Instance grows_preorder : PreOrder grows.
Proof.
  split.
  - intros w. split; try done. intros id Hid. by left.
  - intros w1 w2 w3 [G1 D1 P1 N1] [G2 D2 P2 N2]. split; try congruence.
    + lia.
    + by etransitivity.
    + intros id [Hid|(i & Hi & ->)]%N2.
      * destruct (N1 id Hid) as [?|(i & Hi & ->)]; [by left|]. right. exists i. split; [lia|done].
      * right. exists i. split; [lia|]. by rewrite G1.
Qed.

Lemma grows_CreateRateLimitPolicy arg : keeps grows (sql (CreateRateLimitPolicy arg)).
Proof.
  apply keeps_sql; [apply _|]. intros [d db]. unfold CreateRateLimitPolicy.
  set (row := mkRateLimitPolicy _ _ _ _ _ _ _ _ _ _). cbn [redis pg].
  assert (Hdraw : grows (mkWorld d db) (mkWorld d (draw db))).
  { split; cbn; try done; [lia|]. intros id Hid. by left. }
  unfold policy_refused. repeat case_match; simplify_eq; cbn [snd]; try exact Hdraw.
  assert (Hfree : db.(rate_limit_policies) !! fresh_uuid db = None).
  { apply eq_None_not_Some. intros Hs. rewrite bool_decide_eq_true_2 in * by done. done. }
  split; cbn; try done; [lia|by apply insert_subseteq|].
  intros id [r Hid]. destruct (decide (id = fresh_uuid db)) as [->|Hne].
  - right. exists db.(drawn). split; [lia|done].
  - left. rewrite lookup_insert_ne in Hid by done. by exists r.
Qed.

Lemma grows_SyncPolicy previous current : keeps grows (projection_SyncPolicy previous current).
Proof.
  unfold projection_SyncPolicy. destruct (set_policy current); [|keep].
  apply keeps_command; [apply _|]. intros w. rewrite exec_world. split; try done. intros id Hid. by left.
Qed.

Lemma grows_Create pages input : keeps grows (Create (policy_service pages) input).
Proof.
  unfold Create. destruct (validateCreateInput input); [|keep].
  apply keeps_bind; [apply _|apply grows_CreateRateLimitPolicy|]. intros [rec|e]; [|keep].
  apply keeps_bind; [apply _|apply grows_SyncPolicy|keep].
Qed.
End Grows.

(** ** The policies of the demo *)

Section Ensure.
Context {D : Type} `{RL : RedisLaws D} `{RS : RedisScan D} `{!ScanLaws D} `{UL : UuidLaws}.
Context (pages : nat).
Implicit Types (w : world D).

(** The next [k] ids drawn differ, and are no policy's. *)
Definition draws_fresh (k : nat) (db : database) : Prop :=
  ∀ i, (db.(drawn) ≤ i < db.(drawn) + k)%nat →
    db.(rate_limit_policies) !! db.(gen_random_uuid) i = None ∧
    ∀ j, (db.(drawn) ≤ j < db.(drawn) + k)%nat → db.(gen_random_uuid) i = db.(gen_random_uuid) j → i = j.

Lemma grows_fresh k w w' :
  grows w w' → (w'.(pg).(drawn) ≤ S w.(pg).(drawn))%nat → draws_fresh (S k) w.(pg) → draws_fresh k w'.(pg).
Proof.
  intros [Hg Hd _ Hn] Hle Hf i Hi. destruct (Hf i ltac:(lia)) as [Hfree Hinj]. rewrite Hg. split.
  - apply eq_None_not_Some. intros [Hs|(j & Hj & Heq)]%Hn; [rewrite Hfree in Hs; by destruct Hs|].
    apply Hinj in Heq; lia.
  - intros j Hj. apply Hinj. lia.
Qed.

Lemma create_policy_draws arg db : (drawn (CreateRateLimitPolicy arg db).2 ≤ S db.(drawn))%nat.
Proof. unfold CreateRateLimitPolicy. case_match; cbn; lia. Qed.

Lemma Create_draws input w w' r :
  Create (policy_service pages) input (quiet w) = (r, quiet w') → (w'.(pg).(drawn) ≤ S w.(pg).(drawn))%nat.
Proof.
  unfold Create. destruct (validateCreateInput input) as [n|e]; [|intros [= _ <-]; lia].
  rewrite sql_quiet. set (arg := {| crp_ScopeType := _ |}). pose proof (create_policy_draws arg w.(pg)) as Hle.
  destruct (CreateRateLimitPolicy arg w.(pg)) as [[rec|e] db']; cbn [fst snd] in *; [|by intros [= _ <-]].
  cbn [SyncPolicy projector policy_service NewService PolicyProjectionStore]. unfold projection_SyncPolicy.
  destruct (set_policy _); [|by intros [= _ <-]]. rewrite command_quiet. by intros [= _ <-].
Qed.

Definition scope_taken w i : Prop := is_Some (active_policy w.(pg) (scope_of_input i)).

Lemma grows_taken w w' i :
  db_ok w.(pg) → db_ok w'.(pg) → grows w w' → scope_taken w i → scope_taken w' i.
Proof.
  intros Hdb Hdb' Hg [r (id & Hr & Ha & Hs)%active_policy_spec]; [|done].
  exists r. apply active_policy_spec; [done|]. exists id. split; [|done].
  eapply lookup_weaken; [exact Hr|apply Hg].
Qed.

(** An input the service takes as it is, for a key there is. *)
Record demo_input w (i : CreatePolicyInput) : Prop := {
  di_fits : input_fits i;
  di_valid : validateCreateInput i = Ok i;
  di_known : references (nullableUUID i.(in_ScopeIdentifier)) w.(pg).(api_keys) = true
}.

Lemma demo_policies_inputs w key :
  is_Some (w.(pg).(api_keys) !! key) → Forall (demo_input w) (demo_policies key).
Proof.
  intros Hk. repeat constructor; cbn; try (unfold in_int32, min_int32, max_int32; lia).
  by apply bool_decide_eq_true_2.
Qed.

Definition settled w w' : Prop := synced w' ∧ db_ok w'.(pg) ∧ grows w w' ∧ same_keys w w'.

Lemma settled_refl w : synced w → db_ok w.(pg) → settled w w.
Proof. intros Hs Hdb. by split_and!. Qed.

Lemma ensurePolicy_quiet i w :
  synced w → db_ok w.(pg) → (draws_fresh 1 w.(pg) ∨ scope_taken w i) → demo_input w i →
  ∃ res w', ensurePolicy (policy_service pages) i (quiet w) = (Ok res, quiet w') ∧
    settled w w' ∧ (w'.(pg).(drawn) ≤ S w.(pg).(drawn))%nat ∧ scope_taken w' i ∧
    (scope_taken w i → res.(bp_Status) = "kept_existing" ∧ w'.(redis) = w.(redis) ∧
       w'.(pg).(rate_limit_policies) = w.(pg).(rate_limit_policies)) ∧
    (¬ scope_taken w i → res.(bp_Status) = "created").
Proof.
  intros Hsync Hdb Hfresh [Hfit Hval Hknown]. unfold ensurePolicy.
  destruct (Create_outcome pages i w Hsync Hdb Hfit) as (r & w' & Hc & Ho). rewrite Hval in Ho.
  destruct (Create_keeps _ _ _ _ _ Hsync Hdb Hfit Hc) as (w1 & [= <-] & Hsync' & Hdb').
  destruct (keeps_quiet grows (Create (policy_service pages) i) w (grows_Create pages i)) as (w2 & Hq & Hg).
  destruct (keeps_quiet same_keys (Create (policy_service pages) i) w (keeps_Create pages i)) as (w3 & Hq3 & Hk).
  rewrite Hc in Hq, Hq3. injection Hq as <-. injection Hq3 as <-.
  pose proof (Create_draws _ _ _ _ Hc) as Hdraw. rewrite Hc. cbv zeta in Ho. set (conflict := _ ∨ _) in Ho. destruct Ho as (Hcf & _ & Hok & Hsame).
  assert (Hconf : conflict ↔ scope_taken w i).
  { split; [|by left]. intros [?|Hid]; [done|]. destruct Hfresh as [Hf|Ht]; [|done].
    destruct (Hf w.(pg).(drawn) ltac:(lia)) as [Hnone _]. unfold fresh_uuid in Hid. rewrite Hnone in Hid.
    by destruct Hid. }
  destruct (decide (active_policy w.(pg) (scope_of_input i) = None)) as [Hnone|Htaken%not_eq_None_Some].
  - assert (Hn : ¬ conflict) by (rewrite Hconf; unfold scope_taken; rewrite Hnone; by intros []).
    destruct (Hok Hn Hknown) as (row & -> & Hact & _). eexists _, w'. split; [done|]. split; [done|]. split; [done|].
    split; [by eexists|]. split; [|done]. intros Ht. by destruct Hn; apply Hconf.
  - rewrite (proj2 Hcf (proj2 Hconf Htaken)) in *. destruct (Hsame ltac:(by left)) as [Hr Hp].
    eexists _, w'. split; [done|]. split; [done|]. split; [done|]. split; [by apply (grows_taken w)|]. by split.
Qed.

Lemma same_keys_input w w' i : same_keys w w' → demo_input w i → demo_input w' i.
Proof. intros Hg [Hf Hv Hk]. split; [done..|]. by rewrite (sk_table _ _ Hg). Qed.

(** All of them, in order: afterwards every scope has an active policy; those
    that had one already are left alone. *)
Lemma ensurePolicies_quiet inputs w :
  synced w → db_ok w.(pg) → draws_fresh (length inputs) w.(pg) ∨ Forall (scope_taken w) inputs →
  Forall (demo_input w) inputs →
  ∃ rs w', ensurePolicies (policy_service pages) inputs (quiet w) = (Ok rs, quiet w') ∧
    settled w w' ∧ Forall (scope_taken w') inputs ∧
    (Forall (scope_taken w) inputs → Forall (fun r => r.(bp_Status) = "kept_existing") rs ∧
       w'.(redis) = w.(redis) ∧ w'.(pg).(rate_limit_policies) = w.(pg).(rate_limit_policies)).
Proof.
  revert w. induction inputs as [|i inputs IH]; intros w Hsync Hdb Hfresh Hin; cbn [ensurePolicies].
  { exists [], w. by split_and!; auto using settled_refl. }
  apply Forall_cons_1 in Hin as [Hi Hin].
  destruct (ensurePolicy_quiet i w) as (res & w1 & -> & (Hs1 & Hdb1 & Hg1 & Hk1) & Hd1 & Ht1 & Hkept & _); [done|done| |done|].
  { destruct Hfresh as [Hf|Ht]; [left|right; by apply Forall_cons_1 in Ht as [? _]].
    intros j Hj. destruct (Hf j) as [Hfree Hinj]; [cbn; lia|]. split; [done|]. intros j' Hj'. apply Hinj. cbn. lia. }
  destruct (IH w1) as (rs & w2 & -> & (Hs2 & Hdb2 & Hg2 & Hk2) & Ht2 & Hkept2); [done|done| | |].
  { destruct Hfresh as [Hf|Ht]; [left; by apply (grows_fresh _ w)|right].
    apply Forall_cons_1 in Ht as [_ Ht]. eapply list.Forall_impl; [exact Ht|]. intros j. by apply grows_taken. }
  { eapply list.Forall_impl; [exact Hin|]. intros j. by apply same_keys_input. }
  exists (res :: rs), w2. split; [done|]. split; [split_and!; [done|done|by etransitivity|by etransitivity]|].
  split; [constructor; [by apply (grows_taken w1)|done]|].
  intros [Hti Htin]%Forall_cons_1. destruct (Hkept Hti) as (Hst & Hr & Hp).
  destruct Hkept2 as (Hst2 & Hr2 & Hp2).
  { eapply list.Forall_impl; [exact Htin|]. intros j. by apply grows_taken. }
  split; [by constructor|]. split; congruence.
Qed.
End Ensure.

(** A hash is stored as it is. *)
Lemma hex_char_plain v : 0 ≤ v < 16 → hex_char v ≠ "000"%char ∧ (byte (hex_char v) <? 128) = true.
Proof.
  intros Hv. by apply (hex_digit_cases (fun v => hex_char v ≠ "000"%char ∧ (byte (hex_char v) <? 128) = true)).
Qed.

Lemma hex_accepted l : Forall byte_ok l → text_refused (hex_EncodeToString l) = false.
Proof.
  unfold byte_ok, text_refused. induction 1 as [|b l Hb _ [Hn Hv]%orb_false_iff]; [done|].
  destruct (hex_char_plain (b / 16)) as [H1 H2]; [split; [apply Z.div_pos|apply Z.div_lt_upper_bound]; lia|].
  destruct (hex_char_plain (b mod 16)) as [H3 H4]; [apply Z.mod_pos_bound; lia|].
  cbn [hex_EncodeToString has_nul ValidString]. rewrite H2, H4, Hn.
  by rewrite !bool_decide_eq_false_2.
Qed.

(** ** The demo key *)

Section Bootstrap.
Context {D : Type} `{RL : RedisLaws D} `{RS : RedisScan D} `{!ScanLaws D} `{UL : UuidLaws}.
Context (cfg : AppConfig) (pages : nat).
Implicit Types (w : world D) (time_Now : net (world D) → Time) (secret : net (world D) → entropy).

Definition stable_raw : string := TrimSpace cfg.(cfg_Demo).(RawAPIKey).
Definition stable_codec : APIKeyCodec := NewAPIKeyCodec cfg.(cfg_Security).(KeyHashPepper).
Definition stable_hash : string := Hash stable_codec stable_raw.
Definition stable_service : APIKeyService (world D) :=
  key_service stable_codec cfg.(cfg_Redis).(APIKeyCacheTTL).

Lemma resolve_demo w r :
  stable_raw ≠ EmptyString → in_step w → active_key w.(pg) stable_hash = Some r →
  ∃ w', ResolveActiveByRawKey stable_service stable_raw (quiet w) = (Ok (apiKeyFromRecord r), quiet w') ∧
    in_step w' ∧ w'.(pg) = w.(pg).
Proof.
  intros Hraw Hin Hr.
  destruct (resolve_quiet stable_codec cfg.(cfg_Redis).(APIKeyCacheTTL) stable_raw w (is_coherent _ Hin) (is_db _ Hin))
    as (w' & Hres & Hc & Hpg & Hco).
  exists w'. split; [|split; [by eapply cache_only_in_step|done]]. unfold stable_service. rewrite Hres.
  unfold verdict. assert (Ht : TrimSpace stable_raw = stable_raw) by apply TrimSpace_idempotent.
  rewrite Ht, bool_decide_eq_false_2 by done. fold stable_hash. by rewrite Hr.
Qed.

Lemma lookup_hash w :
  sql (GetAPIKeyByHash stable_hash) (quiet w) =
  (match active_key w.(pg) stable_hash with Some r => Ok r | None => Err pgx_ErrNoRows end, quiet w).
Proof.
  rewrite sql_quiet. unfold active_key, GetAPIKeyByHash, one_row. cbn [fst snd].
  replace (mkWorld (redis w) (pg w)) with w by (by destruct w). by destruct (head _).
Qed.

Lemma ensure_known_key time_Now secret w r :
  stable_raw ≠ EmptyString → in_step w → active_key w.(pg) stable_hash = Some r →
  ∃ w', ensureDemoAPIKey time_Now secret cfg stable_service stable_codec (quiet w) =
    (Ok (mkCreatedAPIKey (apiKeyFromRecord r) stable_raw), quiet w') ∧
    in_step w' ∧ w'.(pg) = w.(pg).
Proof.
  intros Hraw Hin Hr. destruct (resolve_demo w r Hraw Hin Hr) as (w' & Hres & Hrest).
  exists w'. split; [|done]. unfold ensureDemoAPIKey. fold stable_raw.
  rewrite (bool_decide_eq_false_2 (stable_raw = _)) by done. rewrite andb_false_r. fold stable_hash.
  by rewrite lookup_hash, Hr, Hres.
Qed.

(** The row of a new demo key. *)
Definition stable_params (pre : string) : CreateAPIKeyParams :=
  mkCreateAPIKeyParams pg_null_UUID "public-demo" pre stable_hash.

Lemma ensure_missing_key time_Now secret w :
  stable_raw ≠ EmptyString → active_key w.(pg) stable_hash = None →
  ensureDemoAPIKey time_Now secret cfg stable_service stable_codec (quiet w) =
  match Prefix stable_raw with
  | Err e => (Err e, quiet w)
  | Ok pre =>
      let w1 := mkWorld w.(redis) (CreateAPIKey (stable_params pre) w.(pg)).2 in
      match (CreateAPIKey (stable_params pre) w.(pg)).1 with
      | Err e => (Err (Wrapf "create stable demo api key" e), quiet w1)
      | Ok _ =>
          let '(r, n) := ResolveActiveByRawKey stable_service stable_raw (quiet w1) in
          (let? apiKey := wrap_err "resolve stable demo api key" r in Ok (mkCreatedAPIKey apiKey stable_raw), n)
      end
  end.
Proof.
  intros Hraw Hr. unfold ensureDemoAPIKey. fold stable_raw.
  rewrite (bool_decide_eq_false_2 (stable_raw = _)) by done. rewrite andb_false_r. fold stable_hash.
  rewrite lookup_hash, Hr. cbn iota beta. rewrite errors_Is_refl. cbn [negb].
  destruct (Prefix stable_raw) as [pre|e]; [|done]. rewrite sql_quiet. fold (stable_params pre).
  by destruct ((CreateAPIKey (stable_params pre) (pg w)).1).
Qed.

(** A key just created is the active one, and the stores are in step. *)
Lemma created_key_in_step w pre row :
  in_step w → (CreateAPIKey (stable_params pre) w.(pg)).1 = Ok row →
  let w1 := mkWorld w.(redis) (CreateAPIKey (stable_params pre) w.(pg)).2 in
  in_step w1 ∧ active_key w1.(pg) stable_hash = Some row ∧
  w1.(pg).(rate_limit_policies) = w.(pg).(rate_limit_policies) ∧
  w1.(pg).(gen_random_uuid) = w.(pg).(gen_random_uuid) ∧ w1.(pg).(drawn) = S w.(pg).(drawn).
Proof.
  intros [Hdb Hs Hc]. pose proof (CreateAPIKey_ok (stable_params pre) w.(pg) Hdb) as Hdb'. revert Hdb'.
  unfold CreateAPIKey. set (new := mkApiKey _ _ _ _ _ _ _ _). destruct (_ || _); [done|].
  case_bool_decide as Hfree; [done|]. destruct (references _ _); [|done]. cbn [fst snd].
  intros Hdb' [= <-]. split; [split; [done| |by apply coherent_added]|split; [|split_and!; cbn; lia || done]].
  - intros sc Hsc. specialize (Hs sc Hsc). unfold mirrors in *. cbn [pg redis]. by rewrite (active_policy_same w.(pg)).
  - apply active_key_spec; [done|]. exists new.(ak_ID). split; [apply lookup_insert_eq|done].
Qed.
Lemma ensure_key_Ok time_Now secret w k n' :
  stable_raw ≠ EmptyString → in_step w → draws_fresh 4 w.(pg) →
  ensureDemoAPIKey time_Now secret cfg stable_service stable_codec (quiet w) = (Ok k, n') →
  ∃ r w', n' = quiet w' ∧ k = mkCreatedAPIKey (apiKeyFromRecord r) stable_raw ∧ in_step w' ∧
    active_key w'.(pg) stable_hash = Some r ∧ draws_fresh 3 w'.(pg).
Proof.
  intros Hraw Hin Hf Hk. destruct (active_key w.(pg) stable_hash) as [r|] eqn:Hr.
  - destruct (ensure_known_key time_Now secret w r Hraw Hin Hr) as (w' & Hk' & Hin' & Hpg).
    rewrite Hk in Hk'. injection Hk' as -> ->. exists r, w'. rewrite Hpg. split_and!; [done..|].
    intros i Hi. destruct (Hf i ltac:(lia)) as [Hfree Hinj]. split; [done|]. intros j Hj. apply Hinj. lia.
  - rewrite ensure_missing_key in Hk by done. destruct (Prefix stable_raw) as [pre|e]; [|done]. cbv zeta in Hk.
    destruct ((CreateAPIKey (stable_params pre) w.(pg)).1) as [row|e] eqn:Hc; [|done].
    destruct (created_key_in_step w pre row Hin Hc) as (Hin1 & Hrow & Hp & Hg & Hd).
    destruct (resolve_demo _ row Hraw Hin1 Hrow) as (w' & Hres & Hin' & Hpg).
    rewrite Hres in Hk. injection Hk as <- <-. exists row, w'. split_and!; try done; rewrite Hpg; [done|].
    intros i Hi. rewrite Hg, Hp. rewrite Hd in *. destruct (Hf i ltac:(lia)) as [Hfree Hinj]. split; [done|].
    intros j Hj. apply Hinj. lia.
Qed.

Lemma settled_in_step w w' : in_step w → settled w w' → in_step w'.
Proof. intros [_ _ Hc] (Hs & Hdb & _ & Hk). split; [done..|]. by eapply same_keys_coherent. Qed.

Lemma demo_key_inputs w r :
  db_ok w.(pg) → active_key w.(pg) stable_hash = Some r →
  Forall (demo_input w) (demo_policies (apiKeyFromRecord r).(key_ID)).
Proof.
  intros Hdb (id & Hr & _)%active_key_spec; [|done]. apply demo_policies_inputs. cbn.
  rewrite (kr_id _ _ _ (ok_api_keys _ Hdb _ _ Hr)). by exists r.
Qed.

(** The command once its key is there. *)
Lemma bootstrap_with_key time_Now secret w w1 r :
  ensureDemoAPIKey time_Now secret cfg stable_service stable_codec (quiet w) =
    (Ok (mkCreatedAPIKey (apiKeyFromRecord r) stable_raw), quiet w1) →
  in_step w1 → active_key w1.(pg) stable_hash = Some r →
  let inputs := demo_policies (apiKeyFromRecord r).(key_ID) in
  draws_fresh 3 w1.(pg) ∨ Forall (scope_taken w1) inputs →
  ∃ res w2, bootstrap_main time_Now secret cfg pages (quiet w) = (Ok res, quiet w2) ∧
    in_step w2 ∧ settled w1 w2 ∧
    res.(DemoAPIKey) = mkBootstrapKey (uuid_String (apiKeyFromRecord r).(key_ID))
      (apiKeyFromRecord r).(key_Name) (apiKeyFromRecord r).(key_KeyPrefix) stable_raw ∧
    Forall (scope_taken w2) inputs ∧
    (Forall (scope_taken w1) inputs →
       Forall (fun p => p.(bp_Status) = "kept_existing") res.(result_Policies) ∧
       w2.(redis) = w1.(redis) ∧ w2.(pg).(rate_limit_policies) = w1.(pg).(rate_limit_policies)).
Proof.
  intros Hk Hin Hr inputs Hf.
  destruct (ensurePolicies_quiet pages inputs w1) as (rs & w2 & Hp & Hset & Ht & Hkept);
    [apply Hin..|done|by apply demo_key_inputs, Hr; apply Hin|].
  exists {| APIBaseURL := inferAPIBaseURL cfg.(cfg_Server).(Addr); UIURL := cfg.(cfg_UI).(AllowedOrigin);
    AdminToken := cfg.(cfg_Admin).(Token);
    DemoAPIKey := mkBootstrapKey (uuid_String (apiKeyFromRecord r).(key_ID))
      (apiKeyFromRecord r).(key_Name) (apiKeyFromRecord r).(key_KeyPrefix) stable_raw;
    result_Policies := rs; GeneratedAt := format_rfc3339 false (time_UTC (time_Now (quiet w2))) |}, w2.
  split_and!; try done; [|by apply (settled_in_step w1)].
  unfold bootstrap_main. fold stable_codec.
  change (NewAPIKeyService stable_codec (Some (NewAPIKeyAuthCache (APIKeyCacheTTL (cfg_Redis cfg))))) with stable_service.
  change (NewService (Some (PolicyProjectionStore pages))) with (policy_service (D := D) pages).
  rewrite Hk. cbn [wrap_err res_map_err created_APIKey]. fold inputs. by rewrite Hp.
Qed.

(** C16: running the bootstrap again changes nothing.  With a configured demo
    key, stores in step and ids that are new, a run that succeeds leaves the
    stores in step, the key active and an active policy in each of its three
    scopes; and every later run succeeds with the same key, keeps all three policies, and leaves
    the keys, the policies and their projection as they were. *)
Theorem bootstrap_idempotent time_Now secret w res n1 :
  stable_raw ≠ EmptyString → in_step w → draws_fresh 4 w.(pg) →
  bootstrap_main time_Now secret cfg pages (quiet w) = (Ok res, n1) →
  ∃ w1 r, n1 = quiet w1 ∧ in_step w1 ∧ active_key w1.(pg) stable_hash = Some r ∧
    Forall (scope_taken w1) (demo_policies r.(ak_ID)) ∧
    ∀ time_Now' secret', ∃ w2 res2,
      bootstrap_main time_Now' secret' cfg pages (quiet w1) = (Ok res2, quiet w2) ∧
      res2.(DemoAPIKey) = res.(DemoAPIKey) ∧
      Forall (fun p => p.(bp_Status) = "kept_existing") res2.(result_Policies) ∧
      w2.(pg).(api_keys) = w1.(pg).(api_keys) ∧
      w2.(pg).(rate_limit_policies) = w1.(pg).(rate_limit_policies) ∧ in_step w2.
Proof.
  intros Hraw Hin Hf Hrun.
  destruct (ensureDemoAPIKey time_Now secret cfg stable_service stable_codec (quiet w)) as [[k|e] n'] eqn:Hk.
  2: { unfold bootstrap_main in Hrun. fold stable_codec in Hrun.
       change (NewAPIKeyService _ _) with stable_service in Hrun. by rewrite Hk in Hrun. }
  destruct (ensure_key_Ok time_Now secret w k n' Hraw Hin Hf Hk) as (r & w0 & -> & -> & Hin0 & Hr0 & Hf0).
  destruct (bootstrap_with_key time_Now secret w w0 r Hk Hin0 Hr0 (or_introl Hf0))
    as (res' & w1 & Hrun' & Hin1 & Hset1 & Hkey1 & Ht1 & _).
  rewrite Hrun in Hrun'. injection Hrun' as -> ->. pose proof Hset1 as (_ & _ & _ & Hk1).
  assert (Hr1 : active_key w1.(pg) stable_hash = Some r) by (by rewrite (same_active_key w0)).
  exists w1, r. split_and!; [done..|]. intros time_Now' secret'.
  destruct (ensure_known_key time_Now' secret' w1 r Hraw Hin1 Hr1) as (w1' & Hk' & Hin1' & Hpg).
  assert (Ht1' : Forall (scope_taken w1') (demo_policies (apiKeyFromRecord r).(key_ID))).
  { unfold scope_taken in *. by rewrite Hpg. }
  destruct (bootstrap_with_key time_Now' secret' w1 w1' r Hk' Hin1') as
    (res2 & w2 & Hrun2 & Hin2 & Hset2 & Hkey2 & _ & Hkept); [by rewrite Hpg|by right|].
  destruct (Hkept Ht1') as (Hst & _ & Hp2).
  exists w2, res2. split_and!; [done|by rewrite Hkey1|done| |by rewrite Hp2, Hpg|done].
  rewrite (sk_table w1' w2) by apply Hset2. by rewrite Hpg.
Qed.

(** A deactivated demo key stops the bootstrap.  The configured key cannot
    be resolved, and it cannot be created again because its hash is taken: the
    command fails before it looks at the policies, which stay as they are, and
    so do the keys and Redis. *)
Theorem deactivated_key_stops_bootstrap time_Now secret w id r :
  stable_raw ≠ EmptyString → db_ok w.(pg) →
  w.(pg).(api_keys) !! id = Some r → r.(ak_KeyHash) = stable_hash → r.(ak_IsActive) = false →
  ∃ e w', bootstrap_main time_Now secret cfg pages (quiet w) =
      (Err (Wrapf "create demo api key" e), quiet w') ∧
    w'.(redis) = w.(redis) ∧ w'.(pg).(api_keys) = w.(pg).(api_keys) ∧
    w'.(pg).(rate_limit_policies) = w.(pg).(rate_limit_policies) ∧
    (∀ pre, Prefix stable_raw = Ok pre → text_refused pre = false →
       e = Wrapf "create stable demo api key" (PgError unique_violation)).
Proof.
  intros Hraw Hdb Hr Hh Ha.
  assert (Hnone : active_key w.(pg) stable_hash = None).
  { destruct (active_key _ _) as [q|] eqn:Hq; [|done].
    apply active_key_spec in Hq as (id' & Hq & Hhq & Haq); [|done].
    assert (id = id') as <- by (apply (ok_hashes _ Hdb id id' r q Hr Hq); congruence). congruence. }
  unfold bootstrap_main. fold stable_codec. change (NewAPIKeyService _ _) with stable_service.
  rewrite ensure_missing_key by done. destruct (Prefix stable_raw) as [pre|e] eqn:Hpre; [|by eexists _, w].
  assert (Htaken : ¬ map_Forall (fun _ r => r.(ak_KeyHash) ≠ stable_hash) w.(pg).(api_keys)).
  { intros Hall. by apply (Hall id r Hr). }
  unfold CreateAPIKey. cbn [ak_Name ak_KeyPrefix ak_KeyHash ak_ID cak_Name cak_KeyPrefix cak_KeyHash stable_params].
  destruct (text_refused "public-demo" || _ || _) eqn:Href; cbn [fst snd].
  - eexists _, (mkWorld w.(redis) w.(pg)). split_and!; try done. intros pre' [= <-] Hp. exfalso.
    rewrite Hp in Href. cbn in Href. unfold stable_hash, Hash in Href.
    rewrite hex_accepted in Href; [done|exact (sha256_bytes _)].
  - rewrite bool_decide_eq_true_2 by (by right). cbn [fst snd]. eexists _, (mkWorld w.(redis) (draw w.(pg))).
    by split_and!.
Qed.
End Bootstrap.
