(* ===== verification/InspectSpec.v ===== *)
(** * What the inspection handlers show *)
From S2P Require Import Prelude GoBase Ids Text ApiKeys TokenBucket Redis BucketStore BucketStoreSpec BucketStoreRuns.
From S2P Require Import Database DatabaseSpec World Policies PolicySpec Projection ProjectionSpec PolicyOutcomes.
From S2P Require Import Resolver ResolverSpec Auth AuthSpec Json Http Url Middleware Handlers.
From S2P Require Import Protected ProtectedSpec Routes App.

Lemma map_set_member k v m : (k, v) ∈ map_set k v m.
Proof.
  induction m as [|[k' v'] m IH]; cbn [map_set]; [by left|].
  destruct (String.compare k k'); [by left..|by right].
Qed.

Lemma map_set_keeps k v k' v' m : k ≠ k' → (k', v') ∈ m → (k', v') ∈ map_set k v m.
Proof.
  intros Hk. induction m as [|[k1 v1] m IH]; [by intros Hm%elem_of_nil|].
  rewrite elem_of_cons. cbn [map_set]. destruct (String.compare k k1) eqn:Hc.
  - apply String.compare_eq_iff in Hc as <-. intros [[= -> ->]|Hm]; [done|by right].
  - intros Hm. right. by apply elem_of_cons.
  - intros [->|Hm]; [by left|right; auto].
Qed.

Section Inspect.
Context {D : Type} `{RL : RedisLaws D} `{UL : UuidLaws}.
Implicit Types (w : world D) (r : request).

Definition main_inspector : InspectorHandler (W := world D) :=
  mkInspectorHandler main_resolver GetBucketSnapshot.

(** A query that asks about a key, or none, and a route. *)
Definition asks r (key : option UUID) (route : string) : Prop :=
  inspectorInputFromRequest new_writer r = Ok (mkResolveInput key route, key).

Lemma snapshot_holds ref s w :
  storable s → holds w.(redis) (bucketKey ref) s →
  GetBucketSnapshot ref (quiet w) =
  (Ok (Some (mkBucketSnapshot (bucketKey ref) s.(TokensRemaining) (s.(LastRefillAt) / Millisecond))), quiet w).
Proof.
  intros [Ht Ha Hm] [_ H1 H2]. unfold GetBucketSnapshot. rewrite query_quiet. cbn [res_bind].
  change (hash_view w (bucketKey ref)) with (hash_view w.(redis) (bucketKey ref)).
  rewrite bool_decide_eq_false_2 by (intros He; by rewrite He, lookup_empty in H1).
  by rewrite (parse_bucket_fields _ _ s.(TokensRemaining) (s.(LastRefillAt) / Millisecond)).
Qed.

Lemma summary_holds a b w :
  counters w.(redis) a b → in_int64 a → in_int64 b →
  GetSummaryMetrics (quiet w) = (Ok (mkSummaryMetrics a b), quiet w).
Proof.
  intros [_ Ha Hb] Ia Ib. unfold GetSummaryMetrics. rewrite query_quiet. cbn [res_bind].
  change (hash_view w summaryMetricsKey) with (hash_view w.(redis) summaryMetricsKey).
  assert (Hc : ∀ f z, in_int64 z → counter w.(redis) f z →
    parseIntOrZero (map_get (hash_view w.(redis) summaryMetricsKey) f) = z).
  { intros f z Hz Hc. unfold map_get, parseIntOrZero. destruct Hc as [->|[-> ->]]; cbn [from_option id].
    - pose proof (ParseInt_FormatInt z Hz) as Hp. destruct (FormatInt z); [done|by rewrite Hp].
    - done. }
  by rewrite (Hc _ a), (Hc _ b).
Qed.

(** C21: what the inspection surface shows is what the limiter uses.  On stores
    in step, asking for the bucket of a key and a route the policy [p] is in
    force for answers 200 with that policy, the Redis key the limiter spends
    from, and the tokens and refill instant stored there; the summary answers
    the two counters; and neither request changes anything. *)
Theorem inspection_shows_limiter w r key route p s a b :
  in_step w → asks r key route → (∀ u, key = Some u → uuid_ok u) →
  route ∈ route_patterns → TrimSpace route = route → in_force w.(pg) key route p →
  storable s → holds w.(redis) (bucketKey (bucket_ref p)) s →
  counters w.(redis) a b → in_int64 a → in_int64 b →
  (∃ members,
     InspectorHandler_Bucket main_inspector new_writer r (quiet w) =
       reply (writeJSON StatusOK (Some (JObj members)) new_writer) (quiet w) ∧
     ("policy", policyResponse_json (policyResponseFromDomain (policyFromRecord p))) ∈ members ∧
     ("bucket_key", JStr (bucketKey (bucket_ref p))) ∈ members ∧
     ("bucket", snapshot_json (mkBucketSnapshot (bucketKey (bucket_ref p)) s.(TokensRemaining)
                                 (s.(LastRefillAt) / Millisecond))) ∈ members) ∧
  MetricsHandler_Summary GetSummaryMetrics new_writer r (quiet w) =
    reply (writeJSON StatusOK (Some (JObj [("metrics",
      JObj [("allowed_requests", JInt a); ("blocked_requests", JInt b)])])) new_writer) (quiet w).
Proof.
  intros [Hdb Hs Hco] Hask Hkey Hroute Htrim Hp Hst Hh Hcnt Ia Ib. split.
  - unfold InspectorHandler_Bucket. unfold asks in Hask. rewrite Hask. cbn [ins_resolver main_inspector].
    unfold main_resolver. rewrite resolve_mirrored by (rewrite ?Htrim; done). rewrite Htrim.
    rewrite (first_active_in_force _ _ _ p Hdb Hp). cbn [ins_buckets main_inspector].
    change (bucketRefFromResolution (resolution_of p)) with (bucket_ref p).
    rewrite (snapshot_holds _ s) by done.
    eexists. split; [reflexivity|]. split_and!.
    + do 3 (apply map_set_keeps; [done|]). unfold effectivePolicyResponse. apply map_set_member.
    + do 2 (apply map_set_keeps; [done|]). apply map_set_member.
    + apply map_set_member.
  - unfold MetricsHandler_Summary. by rewrite (summary_holds a b).
Qed.
End Inspect.
