(* ===== verification/Fixtures.v ===== *)
(** * A concrete server, and a small world on it

    A server that satisfies the laws: an in-memory data set with expiry, on which the commands compute.  Nothing
    is proved about the service from it: it shows that the laws of [Redis.v]
    can hold together, and runs the closed examples. *)
From S2P Require Import Prelude GoBase Redis Ids Text ApiKeys Database Queries DatabaseSpec World Policies.
From S2P Require Import PolicySpec Projection ProjectionSpec PolicyService Auth AuthSpec.

Inductive value := VHash (h : gmap string string) | VStr (p : string).

(** A value and the time it has left ([None]: no expiry). *)
Record entry := mkEntry { val : value; left_ttl : option Duration }.

Record mem := mkMem { data : gmap string entry; stamps : gmap string Z }.

Definition mem_stamp (m : mem) (k : string) : Z := default 0 (m.(stamps) !! k).

Definition write (k : string) (e : option entry) (m : mem) : mem :=
  mkMem (partial_alter (fun _ => e) k m.(data)) (<[k := mem_stamp m k + 1]> m.(stamps)).

Definition mem_hash (m : mem) (k : string) : gmap string string :=
  match m.(data) !! k with
  | Some {| val := VHash h |} => h
  | _ => ∅
  end.

Definition mem_string (m : mem) (k : string) : option string :=
  match m.(data) !! k with
  | Some {| val := VStr p |} => Some p
  | _ => None
  end.

Definition mem_ttl (m : mem) (k : string) : option Duration :=
  m.(data) !! k ≫= left_ttl.

Definition whole_seconds (ttl : Duration) : Duration := ttl / Second * Second.

Definition mem_run (c : redis_cmd) (m : mem) : mem :=
  match c with
  | HSet k fs => write k (Some (mkEntry (VHash ((FormatInt <$> fs) ∪ mem_hash m k)) (mem_ttl m k))) m
  | Expire k ttl =>
      if ttl <=? 0 then write k None m
      else write k ((fun e => mkEntry e.(val) (Some (whole_seconds ttl))) <$> m.(data) !! k) m
  | HIncrBy k f n =>
      let old := match mem_hash m k !! f with
                 | Some s => match ParseInt s with Ok z => z | Err _ => 0 end
                 | None => 0
                 end in
      write k (Some (mkEntry (VHash (<[f := FormatInt (old + n)]> (mem_hash m k))) (mem_ttl m k))) m
  | SetStr k p ttl =>
      write k (Some (mkEntry (VStr p) (if ttl =? 0 then None else Some ttl))) m
  | DelKeys ks => foldr (fun k m => write k None m) m ks
  end.

Definition aged (t : Duration) (e : entry) : option entry :=
  match e.(left_ttl) with
  | None => Some e
  | Some p => if p <=? t then None else Some (mkEntry e.(val) (Some (p - t)))
  end.

Definition bump (m : mem) (ks : list string) : gmap string Z :=
  foldr (fun k (st : gmap string Z) => <[k := mem_stamp m k + 1]> st) m.(stamps) ks.

Definition expired (t : Duration) (m : mem) : list string :=
  map fst (filter (fun p : string * entry => aged t p.2 = None) (map_to_list m.(data))).

Definition mem_elapse (t : Duration) (m : mem) : mem :=
  mkMem (omap (aged t) m.(data)) (bump m (expired t m)).

Definition mem_live (m : mem) : list string :=
  filter (fun k => ¬ (mem_hash m k = ∅ ∧ mem_string m k = None)) (map fst (map_to_list m.(data))).

#[export] Instance mem_server : RedisServer mem := {
  hash_view := mem_hash;
  string_view := mem_string;
  ttl_view := mem_ttl;
  live_keys := mem_live;
  stamp := mem_stamp;
  run_cmd := mem_run;
  elapse := mem_elapse
}.

Definition empty_mem : mem := mkMem ∅ ∅.

(** ** The laws *)

Lemma write_data k e m k' :
  (write k e m).(data) !! k' = if decide (k = k') then e else m.(data) !! k'.
Proof.
  unfold write; simpl. case_decide; subst.
  - apply lookup_partial_alter_eq.
  - by apply lookup_partial_alter_ne.
Qed.

Lemma write_stamp k e m k' :
  mem_stamp (write k e m) k' = if decide (k = k') then mem_stamp m k + 1 else mem_stamp m k'.
Proof.
  unfold mem_stamp, write; simpl. rewrite lookup_insert. by case_decide; subst.
Qed.

Lemma write_frame k e m k' : k' ≠ k →
  same_key k' m (write k e m) ∧ mem_ttl (write k e m) k' = mem_ttl m k' ∧
  mem_stamp (write k e m) k' = mem_stamp m k'.
Proof.
  intros Hk. rewrite write_stamp. pose proof (write_data k e m k') as Hd.
  rewrite decide_False in Hd by done. rewrite decide_False by done.
  split_and!; [split; simpl| |done]; unfold mem_hash, mem_string, mem_ttl; by rewrite Hd.
Qed.

Lemma write_evolves k e m : evolves m (write k e m).
Proof.
  intros k'. simpl. rewrite write_stamp. case_decide; subst; [split; [lia|lia]|].
  split; [lia|]. intros _. by apply write_frame.
Qed.

Lemma del_frame ks m k : k ∉ ks →
  same_key k m (mem_run (DelKeys ks) m) ∧ mem_ttl (mem_run (DelKeys ks) m) k = mem_ttl m k ∧
  mem_stamp (mem_run (DelKeys ks) m) k = mem_stamp m k.
Proof.
  induction ks as [|k' ks IH]; simpl; intros Hk; [by split_and!|].
  apply not_elem_of_cons in Hk as [Hk Hks]. destruct (IH Hks) as (H1 & H2 & H3).
  destruct (write_frame k' None (mem_run (DelKeys ks) m) k Hk) as (I1 & I2 & I3).
  simpl in *. rewrite I2, I3. split_and!; auto. destruct H1, I1. split; congruence.
Qed.

Lemma del_gone ks m k : k ∈ ks → (mem_run (DelKeys ks) m).(data) !! k = None.
Proof.
  induction ks as [|k' ks IH]; intros Hk; [by apply not_elem_of_nil in Hk|].
  change (mem_run (DelKeys (k' :: ks)) m) with (write k' None (mem_run (DelKeys ks) m)).
  rewrite write_data. case_decide as Hd; [done|].
  apply IH. apply elem_of_cons in Hk as [->|Hk]; done.
Qed.

Lemma bump_stamp m ks k :
  bump m ks !! k = if decide (k ∈ ks) then Some (mem_stamp m k + 1) else m.(stamps) !! k.
Proof.
  induction ks as [|k' ks IH]; [done|].
  change (bump m (k' :: ks)) with (<[k' := mem_stamp m k' + 1]> (bump m ks)).
  rewrite lookup_insert, IH.
  destruct (decide (k' = k)) as [->|Hk].
  - by rewrite decide_True by apply list_elem_of_here.
  - assert (Hc : k ∈ k' :: ks ↔ k ∈ ks) by (rewrite elem_of_cons; split; [intros [->|]|]; auto; done).
    by rewrite (decide_ext _ _ _ _ Hc).
Qed.

Lemma expired_spec t m k :
  k ∈ expired t m ↔ m.(data) !! k ≫= aged t = None ∧ is_Some (m.(data) !! k).
Proof.
  unfold expired. rewrite list_elem_of_fmap. split.
  - intros ([k' e] & -> & [Ha He]%list_elem_of_filter). apply elem_of_map_to_list in He.
    simpl in *. rewrite He. simpl. eauto.
  - intros [Ha [e He]]. exists (k, e). rewrite He in Ha. split; [done|].
    apply list_elem_of_filter. split; [done|]. by apply elem_of_map_to_list.
Qed.

Lemma elapse_stamp t m k :
  mem_stamp (mem_elapse t m) k =
    if decide (k ∈ expired t m) then mem_stamp m k + 1 else mem_stamp m k.
Proof.
  unfold mem_elapse, mem_stamp at 1; cbn [stamps]. rewrite bump_stamp. by case_decide.
Qed.

Lemma elapse_data t m k : (mem_elapse t m).(data) !! k = m.(data) !! k ≫= aged t.
Proof. unfold mem_elapse; cbn [data]. apply lookup_omap. Qed.

Lemma mem_same_val k m m' :
  val <$> m'.(data) !! k = val <$> m.(data) !! k → same_key k m m'.
Proof.
  intros Hv. split; simpl; unfold mem_hash, mem_string;
    destruct (data m' !! k) as [[v' ?]|], (data m !! k) as [[v ?]|]; simpl in *; by simplify_eq.
Qed.

Lemma elapse_entry t m k :
  (∀ p, mem_ttl m k = Some p → t < p) →
  val <$> (mem_elapse t m).(data) !! k = val <$> m.(data) !! k ∧
  mem_ttl (mem_elapse t m) k = (fun p => p - t) <$> mem_ttl m k.
Proof.
  unfold mem_ttl. rewrite elapse_data. intros Hp. destruct (data m !! k) as [e|]; [|done].
  simpl in *. unfold aged. destruct (left_ttl e) as [p|] eqn:He; simpl; [|by rewrite He].
  specialize (Hp p eq_refl). destruct (p <=? t) eqn:?; to_prop; [lia|done].
Qed.

Lemma del_evolves ks m : evolves m (mem_run (DelKeys ks) m).
Proof.
  induction ks as [|k ks IH]; [intros k; simpl; split; [lia|by split]|].
  change (mem_run (DelKeys (k :: ks)) m) with (write k None (mem_run (DelKeys ks) m)).
  intros k'. destruct (IH k') as [H1 H2].
  destruct (write_evolves k None (mem_run (DelKeys ks) m) k') as [I1 I2].
  simpl in *. split; [lia|]. intros Heq.
  destruct H2 as [? ?]; [lia|]. destruct I2 as [? ?]; [lia|]. split; congruence.
Qed.

#[export] Instance mem_laws : RedisLaws mem.
Proof.
  split.
  - intros [k' fs|k' ttl|k' f n|k' p ttl|ks] d k Hk; simpl in Hk |- *;
      try (apply write_frame; set_solver).
    + case_match; apply write_frame; set_solver.
    + by apply del_frame.
  - intros k fs d Hfs Hs. simpl. unfold mem_hash at 1, mem_string.
    rewrite write_data, decide_True by done. by split.
  - intros k ttl d Ht. simpl. unfold Second in *. destruct (ttl <=? 0) eqn:?; to_prop; [lia|].
    split.
    + split; simpl; unfold mem_hash, mem_string; rewrite write_data, decide_True by done;
        by destruct (data d !! k) as [[[]]|].
    + intros Ha. unfold mem_ttl. rewrite write_data, decide_True by done.
      destruct (data d !! k) as [e|] eqn:He; simpl.
      * eexists. split; [done|]. unfold whole_seconds, Second.
        pose proof (Z.div_mod ttl 1000000000). pose proof (Z.mod_pos_bound ttl 1000000000). lia.
      * destruct Ha. split; simpl; unfold mem_hash, mem_string; by rewrite He.
  - intros k ttl d Ht. destruct (ttl <=? 0) eqn:Hb; to_prop; [|lia].
    split; simpl; rewrite (proj2 (Z.leb_le ttl 0)) by done;
      unfold mem_hash, mem_string; by rewrite write_data, decide_True.
  - intros k f n d old Hs Hold Ho Hin. simpl. unfold mem_hash at 1, mem_string.
    rewrite write_data, decide_True by done. split; [|done].
    destruct Hold as [Hf|[Hf ->]]; simpl in Hf; rewrite Hf; [|done].
    by rewrite ParseInt_FormatInt.
  - intros k p ttl d. simpl. unfold mem_hash, mem_string, mem_ttl.
    rewrite !write_data, !decide_True by done. split_and!; [done..|by intros ->|].
    intros Ht. unfold Millisecond in *. destruct (ttl =? 0) eqn:?; to_prop; [lia|].
    simpl. exists ttl. split; [done|lia].
  - intros ks d k Hk. pose proof (del_gone ks d k Hk) as Hd.
    split; cbn [hash_view string_view run_cmd mem_server]; unfold mem_hash, mem_string;
      by rewrite Hd.
  - intros [k fs|k ttl|k f n|k p ttl|ks] d; try apply write_evolves.
    + simpl. case_match; apply write_evolves.
    + apply del_evolves.
  - intros d k. simpl. unfold mem_live. rewrite list_elem_of_filter. split; [tauto|].
    intros Ha. split; [done|]. rewrite list_elem_of_fmap.
    destruct (data d !! k) as [e|] eqn:He.
    + exists (k, e). split; [done|]. by apply elem_of_map_to_list.
    + destruct Ha. split; simpl; unfold mem_hash, mem_string; by rewrite He.
  - intros t d k Ht Hp. destruct (elapse_entry t d k Hp) as (Hv & Hl).
    split; [by apply mem_same_val|done].
  - intros t d k p Hp Ht. simpl in *. unfold mem_ttl in Hp.
    destruct (data d !! k) as [e|] eqn:He; [|done]. simpl in Hp.
    assert (Hg : (mem_elapse t d).(data) !! k = None).
    { rewrite elapse_data, He. simpl. unfold aged. rewrite Hp.
      destruct (p <=? t) eqn:?; to_prop; [done|lia]. }
    split; simpl; unfold mem_hash, mem_string; by rewrite Hg.
  - intros t d Ht k. simpl. rewrite elapse_stamp. case_decide as Hx; [split; lia|].
    split; [lia|]. intros _. rewrite expired_spec in Hx.
    assert (Hd : val <$> (mem_elapse t d).(data) !! k = val <$> d.(data) !! k).
    { rewrite elapse_data. destruct (data d !! k) as [e|] eqn:He; [|done]. simpl in *.
      destruct (aged t e) as [e'|] eqn:Ha; [|exfalso; eauto].
      unfold aged in Ha. repeat case_match; by simplify_eq. }
    by apply mem_same_val.
Qed.

(** * A small world to run the service in

    A concrete instance of what the development takes as a parameter (a scan of
    one page), an empty database and the
    databases a few statements make of it, and a world whose stores are in
    step. *)

#[export] Existing Instance plain_uuid.
#[export] Existing Instance plain_uuid_laws.

(** ** A scan that gives all keys in one page *)

#[export] Instance mem_scan : RedisScan mem :=
  fun d _ prefix _ => (filter (fun k => HasPrefix k prefix = true) (live_keys d), 0).

#[export] Instance mem_scan_laws : ScanLaws mem.
Proof.
  intros d prefix count _. exists 1%nat. eexists. split; [reflexivity|].
  intros k. rewrite list_elem_of_filter. tauto.
Qed.

(** ** Databases *)

Definition start : Time := 1700000000 * Second.

Definition empty_db : database :=
  mkDatabase ∅ ∅ ∅ [] start (fun k => Z.of_nat k mod 2 ^ 128) 0 1.

Lemma empty_db_ok : db_ok empty_db.
Proof.
  split; try (intros ? ? ? ?; rewrite lookup_empty; done); try done.
  intros k. by apply Z.mod_pos_bound.
Qed.

Definition demo_codec : APIKeyCodec := NewAPIKeyCodec "pepper".
Definition demo_raw : string := "rls_live_demo".
Definition demo_hash : string := Hash demo_codec demo_raw.

(** The database with one key, number 0, and its row. *)
Definition db_with_key (hash : string) : database :=
  (CreateAPIKey (mkCreateAPIKeyParams pg_null_UUID "demo" "rls_live_demo" hash) empty_db).2.
Definition row_with_key (hash : string) : ApiKey :=
  mkApiKey 0 pg_null_UUID "demo" "rls_live_demo" hash true (mkPgTime start true) pg_null_time.

Definition key_db : database := db_with_key demo_hash.
Definition demo_row : ApiKey := row_with_key demo_hash.

Lemma row_stored hash :
  text_refused hash = false → (db_with_key hash).(api_keys) !! 0 = Some (row_with_key hash).
Proof.
  intros Hh. unfold db_with_key, CreateAPIKey. cbn [ak_Name ak_KeyPrefix ak_KeyHash cak_KeyHash].
  rewrite Hh. reflexivity.
Qed.

Lemma demo_hash_accepted : text_refused demo_hash = false.
Proof. vm_compute. reflexivity. Qed.

Lemma key_db_ok : db_ok key_db.
Proof. apply CreateAPIKey_ok, empty_db_ok. Qed.

Definition global_input : CreatePolicyInput := mkCreatePolicyInput "global" None None 5 1 10.
Definition orders_input : CreatePolicyInput :=
  mkCreatePolicyInput " api_key_route " (Some 0) (Some "orders ") 3 1 60.

Lemma global_fits : input_fits global_input.
Proof. by repeat split. Qed.
Lemma orders_fits : input_fits orders_input.
Proof. by repeat split. Qed.

(** ** Worlds *)

Lemma pg_of_world {D} (d : D) db : (mkWorld d db).(pg) = db.
Proof. reflexivity. Qed.

Definition key_world : world mem := mkWorld empty_mem key_db.

Lemma key_world_synced : synced key_world.
Proof. intros sc _. unfold mirrors. vm_compute. reflexivity. Qed.

Definition created (input : CreatePolicyInput) (w : world mem) : world mem :=
  (Create (policy_service 1) input (quiet w)).2.(server).

Lemma created_keeps input w :
  synced w → db_ok w.(pg) → input_fits input →
  quiet (created input w) = (Create (policy_service 1) input (quiet w)).2 ∧
  synced (created input w) ∧ db_ok (created input w).(pg).
Proof.
  intros Hs Hdb Hfit. unfold created. destruct (Create _ _ _) as [r n'] eqn:Hc.
  destruct (Create_keeps 1 input w r n' Hs Hdb Hfit Hc) as (w1 & -> & Hs1 & Hdb1). done.
Qed.

(** A key, a policy for everybody (number 1) and one for the key on one route
    (number 2). *)
Definition global_world : world mem := created global_input key_world.
Definition demo_world : world mem := created orders_input global_world.

Lemma global_world_keeps : synced global_world ∧ db_ok global_world.(pg).
Proof. apply created_keeps; [apply key_world_synced|apply key_db_ok|apply global_fits]. Qed.

Lemma demo_world_keeps : synced demo_world ∧ db_ok demo_world.(pg).
Proof. apply created_keeps; [apply global_world_keeps..|apply orders_fits]. Qed.
