(* ===== verification/ExamplesBuckets.v ===== *)
(** * Concrete buckets

    Each theorem of the token bucket, the bucket store and the race, at a
    concrete configuration, clock and server: five tokens, one more every ten
    seconds, on the in-memory server. *)
From stdpp Require Import relations.
From S2P Require Import Prelude GoBase TokenBucket TokenBucketFacts TokenBucketSpec TokenBucketRuns.
From S2P Require Import Redis Fixtures Ids BucketStore BucketStoreSpec BucketStoreRuns.
From S2P Require Import BucketRace BucketRaceSpec.

#[local] Existing Instance plain_uuid.
#[local] Existing Instance plain_uuid_laws.

Definition five : Config := mkConfig 5 1 (10 * Second).
Definition t0 : Time := 1700000000 * Second.
Definition after (seconds : Z) : Time := t0 + seconds * Second.
Definition two_left : State := mkState 2 t0.

Lemma five_valid : valid five.
Proof. by split. Qed.

Lemma five_fits : cfg_fits five.
Proof. split; [apply five_valid|done..]. Qed.

Lemma five_clock t : 0 ≤ t ≤ 1000000 → clock_fits five (after t) t0.
Proof.
  intros Ht. unfold clock_fits, after, t0, five, Second, in_int64, min_int64, max_int64; simpl.
  replace (_ - _) with (t * 1000000000) by lia.
  pose proof (Z.div_le_upper_bound (t * 1000000000) (10 * 1000000000) 100000). lia.
Qed.

(** ** One call of [Apply] *)

Lemma Apply_grants_witness :
  ∃ d, Apply (after 25) two_left five 4 = Ok d ∧ d.(Allowed) = true ∧ d.(Remaining) = 0 ∧
    d.(NewState) = mkState 0 (after 20).
Proof.
  destruct (Apply_grants five (after 25) two_left 4) as (d & Hd & Ha & _ & Hr & _ & Hs & _);
    [apply five_fits|done|by apply (five_clock 25)|].
  exists d. split; [exact Hd|]. rewrite Ha in Hr. rewrite Hr in Hs. split_and!; assumption.
Defined.

Lemma RetryAfter_exact_witness :
  ∃ d d1 d2, Apply (after 5) two_left five 4 = Ok d ∧
    Apply (after 19) d.(NewState) five 4 = Ok d1 ∧ (d1.(Allowed) = true ↔ after 5 + d.(RetryAfter) ≤ after 19) ∧
    Apply (after 20) d.(NewState) five 4 = Ok d2 ∧ (d2.(Allowed) = true ↔ after 5 + d.(RetryAfter) ≤ after 20) ∧
    d1.(Allowed) = false ∧ d2.(Allowed) = true.
Proof.
  do 3 eexists. split; [vm_compute; reflexivity|]. split; [vm_compute; reflexivity|]. split.
  { eapply (RetryAfter_exact five five_fits (after 5) two_left 4);
      [done|done|done|done|by apply (five_clock 19)|vm_compute; reflexivity..]. }
  split; [vm_compute; reflexivity|]. split; [|done].
  eapply (RetryAfter_exact five five_fits (after 5) two_left 4);
    [done|done|done|done|by apply (five_clock 20)|vm_compute; reflexivity..].
Defined.

Lemma ResetAt_exact_witness :
  ∃ d, Apply (after 5) two_left five 1 = Ok d ∧ d.(ResetAt) = after 40 ∧
    ((refill (after 40) d.(NewState) five).(TokensRemaining) = 5 ↔ d.(ResetAt) ≤ after 40).
Proof.
  eexists. split; [vm_compute; reflexivity|]. split; [done|].
  eapply (ResetAt_exact five five_fits (after 5) two_left 1 _ (after 40));
    [done|done|done|done|by apply (five_clock 40)|vm_compute; reflexivity].
Defined.

Lemma BucketTTL_safe_witness :
  ∃ d, Apply (after 5) two_left five 1 = Ok d ∧ d.(BucketTTL) = 45 * Second ∧
  ∃ d1 d2, Apply (after 49) d.(NewState) five 3 = Ok d1 ∧
    Apply (after 49) (fresh_state five (after 49)) five 3 = Ok d2 ∧
    d1.(Allowed) = d2.(Allowed) ∧ d1.(Remaining) = d2.(Remaining) ∧ d1.(Limit) = d2.(Limit).
Proof.
  eexists. split; [vm_compute; reflexivity|]. split; [done|].
  eapply (BucketTTL_safe five five_fits (after 5) two_left 1 _ (after 49) 3 Second);
    [done|done|done|done|done|done|by apply (five_clock 5)|by apply (five_clock 49)
    |vm_compute; reflexivity|vm_compute; discriminate].
Defined.

(** ** Runs *)

Definition three_requests : list (Time * Z) := [(after 1, 2); (after 12, 1); (after 13, 4)].

Lemma three_horizon : in_horizon five t0 (after 100) two_left three_requests.
Proof.
  split; [apply five_fits|done|by apply (five_clock 100)|done|done|].
  repeat constructor; done.
Qed.

Lemma serve_refines_eager_witness :
  ∃ s', eager_serve five two_left three_requests [true; true; false] s'.
Proof.
  eexists. eapply (serve_refines_eager five t0 (after 100) two_left three_requests);
    [apply three_horizon|]. eexists. split; vm_compute; reflexivity.
Defined.

Lemma granted_within_rate_witness :
  ∃ ds s', serve five two_left three_requests = Ok (ds, s') ∧
    granted three_requests (map Allowed ds) ≤ 2 + 10.
Proof.
  destruct (granted_within_rate five t0 (after 100) two_left three_requests) as (ds & s' & Hs & Hg & _);
    [apply three_horizon|]. exists ds, s'. split; [exact Hs|exact Hg].
Defined.

(** ** The store on the in-memory server *)

Definition orders_ref : BucketRef := mkBucketRef "api_key_route" (Some 7) (Some "orders").
Definition orders_key : string := bucketKey orders_ref.

Lemma orders_ok : ref_ok orders_ref.
Proof. split; [done|by intros u [= <-]|done]. Qed.

Lemma bucketKey_inj_witness :
  bool_decide (bucketKey orders_ref = bucketKey (mkBucketRef "api_key" (Some 7) None)) = false.
Proof.
  apply bool_decide_eq_false_2. intros Heq. apply (bucketKey_inj orders_ref (mkBucketRef "api_key" (Some 7) None)) in Heq;
    [discriminate|apply orders_ok|by split; [|intros u [= <-]|]].
Defined.

Definition full_at (t : Time) : State := mkState 5 t.

Lemma full_horizon reqs :
  Forall (fun r : Time * Z => after 0 ≤ r.1 ≤ after 100 ∧ 0 < r.2 ≤ max_int64) reqs →
  in_horizon five (after 0) (after 100) (full_at (after 0)) reqs.
Proof.
  intros Hr. split; [apply five_fits|done|by apply (five_clock 100)|done|done|exact Hr].
Qed.

Lemma five_store : store_cfg five.
Proof. split; [done|]. by exists 10000. Qed.

Lemma full_storable : storable (full_at (after 0)).
Proof. split; [done| |done]. by exists 1700000000000. Qed.

Lemma empty_absent k : absent empty_mem k.
Proof. done. Qed.

Lemma empty_counters : counters empty_mem 0 0.
Proof. split; [done|by right..]. Qed.

Lemma empty_opens key now cost reqs :
  opens empty_mem key five ((now, cost) :: reqs) (full_at now).
Proof. right. split; [done|]. eauto. Qed.

(** Another client's request between the read and the write: the transaction is
    refused once, and the second attempt sees its effect. *)
Definition interloper (m : mem) : mem :=
  (Consume NewBucketStore orders_ref five 3 (after 0) (quiet m)).2.(server).

Definition contended : net mem :=
  mkNet empty_mem [mkRound id Delivered; mkRound id Delivered; mkRound interloper Delivered].

Lemma consume_loop_evolves attempts key cfg cost now (n n' : net mem) r :
  well_behaved n → consume_attempts attempts key cfg cost now n = (r, n') →
  evolves n.(server) n'.(server).
Proof.
  revert n. induction attempts as [|k IH]; intros n Hn; cbn [consume_attempts].
  { intros [= _ <-]. reflexivity. }
  destruct (redis_Watch _ _ n) as [r1 n1] eqn:Hw.
  apply watch_evolves in Hw as [He Hn1]; [|done].
  destruct r1 as [dec|e]; [by intros [= _ <-]|]. destruct (errors_Is _ _); [|by intros [= _ <-]].
  intros Hc. etransitivity; [exact He|]. by eapply IH.
Qed.

Lemma interloper_evolves m : evolves m (interloper m).
Proof.
  unfold interloper, Consume. destruct (consume_attempts _ _ _ _ _ (quiet m)) as [r n'] eqn:Hc.
  apply consume_loop_evolves in Hc; [exact Hc|constructor].
Qed.

Lemma contended_well_behaved : well_behaved contended.
Proof.
  unfold contended, well_behaved. cbn [rounds].
  constructor; [intros d; reflexivity|]. constructor; [intros d; reflexivity|].
  constructor; [|constructor]. intros d. apply interloper_evolves.
Qed.

Definition contended_run : result error Decision * net mem :=
  Consume NewBucketStore orders_ref five 1 (after 0) contended.

Definition one_left : Decision :=
  mkDecision true 5 1 0 (after 40) (50 * Second) (mkState 1 (after 0)).

Lemma contended_decision : contended_run.1 = Ok one_left.
Proof. vm_compute. reflexivity. Qed.

Lemma Consume_atomic_witness :
  ∃ D0 s, evolves empty_mem D0 ∧
    bucket_state orders_key five (after 0) (hash_view D0 orders_key) = Ok s ∧
    Apply (after 0) s five 1 = Ok one_left ∧
    contended_run.2.(server) = exec_cmds (consume_cmds orders_key one_left) D0.
Proof.
  apply (Consume_atomic NewBucketStore orders_ref five 1 (after 0) contended contended_run.2 one_left
    contended_well_behaved).
  change (contended_run = (Ok one_left, contended_run.2)).
  rewrite <- contended_decision. apply surjective_pairing.
Defined.
