(* ===== verification/ExamplesRace.v ===== *)
(** * Concrete runs and races

    The theorems about runs of the store, the expiry of idle buckets, the
    overflowing TTL and racing clients, on the in-memory server. *)
From stdpp Require Import relations.
From S2P Require Import Prelude GoBase TokenBucket TokenBucketFacts TokenBucketSpec TokenBucketRuns.
From S2P Require Import Redis Fixtures Ids BucketStore BucketStoreSpec BucketStoreRuns.
From S2P Require Import BucketRace BucketRaceSpec ExamplesBuckets.

#[local] Existing Instance plain_uuid.

(** ** Runs *)

Definition two_requests : list (Time * Z) := [(after 0, 3); (after 11, 4)].

Lemma two_horizon : in_horizon five (after 0) (after 100) (full_at (after 0)) two_requests.
Proof. apply full_horizon. repeat constructor; done. Qed.

Lemma consume_run_serves_witness :
  ∃ ds s' d', serve five (full_at (after 0)) two_requests = Ok (ds, s') ∧
    consume_run NewBucketStore orders_ref five two_requests (quiet empty_mem) = (map Ok ds, quiet d') ∧
    map Allowed ds = [true; false] ∧ holds d' orders_key s' ∧
    counters d' (0 + count_allowed ds) (0 + count_blocked ds).
Proof.
  destruct (consume_run_serves (D := mem) NewBucketStore orders_ref five (after 0) (after 100)
    (full_at (after 0)) two_requests empty_mem 0 0) as (ds & s' & d' & Hs & Hc & Hh & Hn & _);
    [done|apply five_store|apply two_horizon|done|apply full_storable|apply empty_opens
    |apply empty_counters|done|done|done|].
  exists ds, s', d'. split_and!; [exact Hs|exact Hc| |exact Hh|exact Hn].
  vm_compute in Hs. injection Hs as <- _. reflexivity.
Defined.

Lemma Consume_after_expiry_witness :
  ∃ dec d1 dec1 dec2 d2,
    Consume NewBucketStore orders_ref five 3 (after 0) (quiet empty_mem) = (Ok dec, quiet d1) ∧
    Consume NewBucketStore orders_ref five 4 (after 0 + 90 * Second)
      (quiet (elapse (90 * Second) d1)) = (Ok dec2, quiet d2) ∧
    Apply (after 0 + 90 * Second) dec.(NewState) five 4 = Ok dec1 ∧
    dec2.(Allowed) = dec1.(Allowed) ∧ dec2.(Remaining) = dec1.(Remaining) ∧
    dec2.(Limit) = dec1.(Limit).
Proof.
  apply (Consume_after_expiry (D := mem) NewBucketStore orders_ref five (after 0) (after 100)
    (full_at (after 0)) (after 0) 3 (90 * Second) 4 empty_mem 0 0);
    [done|apply five_store| |done|apply full_storable|done|done|apply empty_opens
    |apply empty_counters|done|done].
  apply full_horizon. repeat constructor; done.
Defined.

Lemma ttl_overflow_bypass_witness :
  ∃ decs d', consume_run NewBucketStore orders_ref overflow_cfg
      [(overflow_now, 2); (overflow_now, 2); (overflow_now, 2)] (quiet empty_mem) =
      (map Ok decs, quiet d') ∧
    map Allowed decs = [true; true; true].
Proof.
  destruct (ttl_overflow_bypass (D := mem) NewBucketStore orders_ref empty_mem)
    as (decs & d' & Hr & Ha & _); [done|apply empty_absent|].
  exists decs, d'. split; assumption.
Defined.

(** ** Races *)

Lemma consume_is_machine_witness :
  consume_attempts 2 orders_key five 3 (after 0) (mkNet empty_mem (map delivered [id; id; interloper])) =
  let '(p, d', os') := client_run orders_key five 2 7 (after 0, 3) [id; id; interloper] empty_mem (Start 0) in
  (phase_result p, mkNet d' (map delivered os')).
Proof. apply (consume_is_machine orders_key five 2 2 0). reflexivity. Defined.

(** A schedule, as the clients that move. *)
Fixpoint play (attempts : nat) (reqs : list (Time * Z)) (moves : list nat) (r : race (D := mem))
    : option (race (D := mem)) :=
  match moves with
  | [] => Some r
  | i :: moves =>
      match r.(race_clients) !! i with
      | Some p => if finished p then None
                  else play attempts reqs moves (race_move orders_key five attempts reqs i r)
      | None => None
      end
  end.

Lemma play_reachable attempts reqs moves d r r' :
  reachable orders_key five attempts reqs d r → play attempts reqs moves r = Some r' →
  reachable orders_key five attempts reqs d r'.
Proof.
  revert r. induction moves as [|i moves IH]; intros r Hr; cbn [play]; [by intros [= <-]|].
  destruct (race_clients r !! i) as [p|] eqn:Hp; [|done].
  destruct (finished p) eqn:Hf; [done|]. apply IH. eapply reach_step; [exact Hr|].
  by eapply race_step_move.
Qed.

Definition two_threes : list (Time * Z) := replicate 2 (after 0, 3).

Lemma race_set (reqs : list (Time * Z)) :
  Forall (fun r : Time * Z => r.1 = after 0 ∧ r.2 = 3) reqs → (length reqs ≤ 10)%nat →
  race_setting (D := mem) orders_key five reqs (after 0) (after 100) (full_at (after 0)) empty_mem 0 0.
Proof.
  intros Hr Hl. split; [apply bucketKey_not_summary|apply five_store| |done|apply full_storable
    | |apply empty_counters|unfold max_int64; lia].
  - apply full_horizon. eapply list.Forall_impl; [exact Hr|]. by intros [? ?] [-> ->].
  - right. split; [done|]. split; [done|]. eapply list.Forall_impl; [exact Hr|]. by intros [? ?] [-> _].
Qed.

Lemma two_set :
  race_setting (D := mem) orders_key five two_threes (after 0) (after 100) (full_at (after 0)) empty_mem 0 0.
Proof. apply race_set; [by repeat constructor|simpl; lia]. Qed.

(** Both watch and read before either writes: the second has to start again. *)
Definition overlapping : list nat := [0; 1; 0; 1; 0; 1]%nat.

(** The race after a schedule, and that the schedule is one. *)
Definition played (attempts : nat) (moves : list nat) : race :=
  default (race_start two_threes empty_mem) (play attempts two_threes moves (race_start two_threes empty_mem)).

Definition playable (attempts : nat) (moves : list nat) : bool :=
  match play attempts two_threes moves (race_start two_threes empty_mem) with
  | Some _ => true
  | None => false
  end.

Lemma played_reachable attempts moves :
  playable attempts moves = true →
  reachable orders_key five attempts two_threes empty_mem (played attempts moves).
Proof.
  unfold playable, played. destruct (play _ _ _ _) as [r|] eqn:Hr; [intros _|done]. eapply play_reachable; [apply reach_start|exact Hr].
Qed.

Lemma race_serializable_witness :
  race_served two_threes (played 4 overlapping) = 1 ∧
  ∃ log s, serve five (full_at (after 0)) (log_reqs log) = Ok (log_decs log, s) ∧
    length log = 1%nat ∧ shows orders_key five two_threes (race_db (played 4 overlapping)) s.
Proof.
  assert (Hs : race_served two_threes (played 4 overlapping) = 1) by (vm_compute; reflexivity).
  split; [exact Hs|].
  destruct (race_serializable (D := mem) orders_key five 4 two_threes (after 0) (after 100)
    (full_at (after 0)) empty_mem 0 0 (played 4 overlapping) two_set)
    as (log & s & Hsv & _ & _ & Hn & Hsh & _).
  { apply played_reachable. vm_compute. reflexivity. }
  exists log, s. split; [exact Hsv|]. split; [lia|exact Hsh].
Defined.

(** With a single attempt each, the second client gives up. *)
Lemma race_contention_witness :
  race_clients (played 1 (overlapping ++ [1]%nat)) !! 1%nat = Some (Failed ErrBucketContention) ∧
  1 ≤ race_served two_threes (played 1 (overlapping ++ [1]%nat)) < 2.
Proof.
  assert (Hf : race_clients (played 1 (overlapping ++ [1]%nat)) !! 1%nat = Some (Failed ErrBucketContention))
    by (vm_compute; reflexivity).
  split; [exact Hf|].
  destruct (race_contention (D := mem) orders_key five 1 two_threes (after 0) (after 100)
    (full_at (after 0)) empty_mem 0 0 (played 1 (overlapping ++ [1]%nat)) 1 ErrBucketContention two_set)
    as [_ Hn]; [|exact Hf|exact Hn].
  apply played_reachable. vm_compute. reflexivity.
Defined.

Lemma race_ends_witness :
  ∃ r', rtc (race_step orders_key five 2 two_threes) (race_start two_threes empty_mem) r' ∧
    Forall (fun p => finished p = true) r'.(race_clients).
Proof.
  destruct (race_ends (D := mem) orders_key five 2 two_threes empty_mem 0
    (race_start two_threes empty_mem)) as [_ H]; [constructor|exact H].
Defined.

(** Two clients that want three of five tokens: one of them gets them. *)
Definition to_the_end : list nat := overlapping ++ [1; 1; 1]%nat.

Lemma race_quota_witness :
  race_allowed two_threes (played 2 to_the_end) = 1 ∧
  Forall (fun p => ∃ dec, p = Served dec) (race_clients (played 2 to_the_end)).
Proof.
  destruct (race_quota (D := mem) orders_key five 2 2 (after 0) 3 (after 0) (after 100)
    (full_at (after 0)) empty_mem 0 0 (played 2 to_the_end)) as [Hall Hq].
  - exact two_set.
  - reflexivity.
  - lia.
  - apply played_reachable. vm_compute. reflexivity.
  - vm_compute. repeat constructor.
  - split; [exact Hq|exact Hall].
Defined.
