(* ===== verification/ExamplesPolicies.v ===== *)
(** * Concrete policies

    The theorems about the database, the projection, the policy service and the
    resolver, on the worlds of [Fixtures.v]. *)
From stdpp Require Import relations.
From S2P Require Import Prelude GoBase Ids Text Redis Fixtures Database Queries DatabaseSpec World.
From S2P Require Import Policies PolicySpec Projection ProjectionSpec PolicyService PolicyOutcomes.
From S2P Require Import Resolver ResolverSpec.

Lemma db_step_preserves_witness :
  db_ok (CreateAPIKey (mkCreateAPIKeyParams pg_null_UUID "a" "b" "c") empty_db).2.
Proof. apply (db_step_preserves empty_db); [apply empty_db_ok|apply step_create_key]. Defined.

(** A stale key for a scope without a policy, none for the one that has. *)
Definition stale_world : world mem :=
  mkWorld (run_cmd (SetStr "ratelimit:policy:route:default:ping" "stale" 0) empty_mem) global_world.(pg).

Lemma stale_ok : db_ok stale_world.(pg).
Proof. unfold stale_world. rewrite pg_of_world. exact (proj2 global_world_keeps). Qed.

Lemma RebuildProjection_mirrors_witness :
  ∃ pages0, ∀ pages, (pages0 ≤ pages)%nat → ∃ w',
    RebuildProjection (policy_service pages) (quiet stale_world) = (Ok (), quiet w') ∧
    synced w' ∧ w'.(pg) = stale_world.(pg).
Proof. exact (RebuildProjection_mirrors stale_world stale_ok). Defined.

Lemma created_step input w :
  synced w → db_ok w.(pg) → input_fits input → service_step 1 w (created input w).
Proof.
  intros Hs Hdb Hfit. apply (service_step_op 1 w (OpCreate input)); [done|done|].
  symmetry. by apply created_keeps.
Qed.

Lemma service_keeps_mirror_witness : synced demo_world ∧ db_ok demo_world.(pg).
Proof.
  apply (service_keeps_mirror 1 key_world); [apply key_world_synced|apply key_db_ok|].
  eapply rtc_l; [apply created_step; [apply key_world_synced|apply key_db_ok|apply global_fits]|].
  eapply rtc_l; [apply created_step; [apply global_world_keeps..|apply orders_fits]|].
  apply rtc_refl.
Defined.

Definition orders_normal : CreatePolicyInput :=
  mkCreatePolicyInput "api_key_route" (Some 0) (Some "orders") 3 1 60.

Lemma orders_valid : validateCreateInput orders_input = Ok orders_normal.
Proof. vm_compute. reflexivity. Qed.

Lemma orders_free : active_policy global_world.(pg) (scope_of_input orders_normal) = None.
Proof. vm_compute. reflexivity. Qed.

Lemma id_free : global_world.(pg).(rate_limit_policies) !! fresh_uuid global_world.(pg) = None.
Proof. vm_compute. reflexivity. Qed.

Lemma key_known : references (nullableUUID (Some 0)) global_world.(pg).(api_keys) = true.
Proof. vm_compute. reflexivity. Qed.

Lemma Create_outcome_witness :
  ∃ row w', Create (policy_service 1) orders_input (quiet global_world) =
      (Ok (policyFromRecord row), quiet w') ∧
    active_policy w'.(pg) (scope_of_input orders_normal) = Some row.
Proof.
  destruct (Create_outcome 1 orders_input global_world (proj1 global_world_keeps)
    (proj2 global_world_keeps) orders_fits) as (r & w' & Hc & Hv).
  rewrite orders_valid in Hv. cbv zeta in Hv. rewrite orders_free, id_free in Hv.
  destruct Hv as (_ & _ & Hok & _).
  destruct Hok as (row & -> & Ha & _).
  - intros [Hx|Hx]; by apply is_Some_None in Hx.
  - exact key_known.
  - exists row, w'. split; [exact Hc|exact Ha].
Defined.

(** The global policy, retired; then a new one for the same scope. *)
Definition retired_world : world mem :=
  (Deactivate (policy_service 1) 1 (quiet global_world)).2.(server).
Definition replaced_world : world mem := created global_input retired_world.

Definition raised_input : UpdatePolicyInput := mkUpdatePolicyInput "global" None None 100 10 1.

Lemma global_row : global_world.(pg).(rate_limit_policies) !! 1 =
  Some (mkRateLimitPolicy 1 "global" pg_null_UUID None 5 1 10 true (mkPgTime start true) (mkPgTime start true)).
Proof. vm_compute. reflexivity. Qed.

Lemma retired_keeps : synced retired_world ∧ db_ok retired_world.(pg).
Proof.
  unfold retired_world. destruct (Deactivate _ _ _) as [r n'] eqn:Hd.
  destruct (Deactivate_keeps 1 1 global_world r n') as (w1 & -> & Hs & Hdb).
  - apply global_world_keeps.
  - apply global_world_keeps.
  - intros r0 Hr0. pose proof (eq_trans (eq_sym Hr0) global_row) as He. injection He as ->. reflexivity.
  - exact Hd.
  - exact (conj Hs Hdb).
Qed.

Definition retired_row : RateLimitPolicy :=
  mkRateLimitPolicy 1 "global" pg_null_UUID None 5 1 10 false (mkPgTime start true) (mkPgTime start true).

Lemma Update_inactive_enforced_witness :
  ∃ p w', Update (policy_service 1) 1 raised_input (quiet retired_world) = (Ok p, quiet w') ∧
    p.(pol_IsActive) = false ∧
    read_scope (mkScope "global" None None) (quiet w') = (Ok (Some p), quiet w') ∧
    active_policy w'.(pg) (mkScope "global" None None) =
      active_policy retired_world.(pg) (mkScope "global" None None) ∧ ¬ synced w'.
Proof.
  apply (Update_inactive_enforced 1 1 raised_input (mkCreatePolicyInput "global" None None 100 10 1)
    retired_row retired_world); [apply retired_keeps|vm_compute; reflexivity..|by repeat split
    |vm_compute; reflexivity].
Defined.

Lemma Deactivate_inactive_unlimits_witness :
  ∃ r1 p w', Deactivate (policy_service 1) 1 (quiet replaced_world) = (Ok p, quiet w') ∧
    active_policy w'.(pg) (mkScope "global" None None) = Some r1 ∧
    read_scope (mkScope "global" None None) (quiet w') = (Ok None, quiet w') ∧ ¬ synced w'.
Proof.
  eexists. apply (Deactivate_inactive_unlimits 1 1 retired_row _ replaced_world);
    [|vm_compute; reflexivity..].
  apply created_keeps; [apply retired_keeps..|apply global_fits].
Defined.

Lemma Resolve_most_specific_witness :
  ∃ found, Resolve (NewResolver (Some GetProjectedPolicy)) (mkResolveInput (Some 0) "orders")
      (quiet demo_world) = (Ok found, quiet demo_world) ∧
    match found with
    | Some res => ∃ r, res.(res_Policy) = policyFromRecord r ∧
                    active_policy demo_world.(pg) (scope_of r) = Some r ∧
                    applies (Some 0) "orders" r
    | None => ∀ r, active_policy demo_world.(pg) (scope_of r) = Some r → ¬ applies (Some 0) "orders" r
    end.
Proof.
  destruct (Resolve_most_specific (Some 0) "orders" demo_world) as (found & Hr & Hf).
  - apply demo_world_keeps.
  - apply demo_world_keeps.
  - intros u Hu. injection Hu as <-. split; [lia|done].
  - vm_compute. by right; left.
  - exists found. split; [exact Hr|]. destruct found as [res|]; [|exact Hf].
    destruct Hf as (r & Ha & Hap & -> & _). exists r. split_and!; [reflexivity|exact Ha|exact Hap].
Defined.

Definition the_global_row : RateLimitPolicy :=
  mkRateLimitPolicy 1 "global" pg_null_UUID None 5 1 10 true (mkPgTime start true) (mkPgTime start true).

Lemma projected_policy_reads_back_witness :
  ∃ w', projection_SyncPolicy None (policyFromRecord the_global_row) (quiet key_world) =
      (Ok (), quiet w') ∧ w'.(pg) = key_world.(pg) ∧
    GetProjectedPolicy "global" None None (quiet w') =
      (Ok (Some (policyFromRecord the_global_row)), quiet w').
Proof.
  exact (projected_policy_reads_back global_world.(pg) 1 the_global_row None key_world
    (proj2 global_world_keeps) global_row).
Defined.
