(* ===== verification/ExamplesRequests.v ===== *)
(** * Concrete keys and requests

    The theorems about API keys, the middleware and a whole protected request,
    on the worlds of [Fixtures.v]. *)
From stdpp Require Import relations.
From S2P Require Import Prelude GoBase Ids Text ApiKeys TokenBucket TokenBucketFacts TokenBucketSpec.
From S2P Require Import TokenBucketRuns Redis Fixtures BucketStore BucketStoreSpec BucketStoreRuns.
From S2P Require Import Database Queries DatabaseSpec World Policies PolicySpec Projection ProjectionSpec.
From S2P Require Import PolicyService PolicyOutcomes Resolver ResolverSpec Auth AuthSpec AuditLog Http.
From S2P Require Import Middleware MiddlewareSpec Protected ProtectedSpec.

(** ** Keys *)

Lemma Generate_keys_witness :
  ∃ raw prefix, Generate (Ok (replicate 32 7)) = Ok (raw, prefix) ∧
    String.length raw = 61%nat ∧ Prefix raw = Ok prefix.
Proof.
  destruct (Generate_keys (replicate 32 7) (replicate 32 8)) as (raw & prefix & Hg & Hl & _ & Hp & _).
  - apply Forall_replicate. by split.
  - apply Forall_replicate. by split.
  - reflexivity.
  - reflexivity.
  - exists raw, prefix. split_and!; [exact Hg|exact Hl|exact Hp].
Defined.

Definition minute : Duration := 60 * Second.

Lemma key_world_coherent : coherent key_world.
Proof. intros h payload Hp. discriminate Hp. Qed.

Lemma demo_row_stored : key_world.(pg).(api_keys) !! 0 = Some demo_row.
Proof. exact (row_stored demo_hash demo_hash_accepted). Qed.

(** A resolution fills the cache; the next one is answered from it. *)
Definition resolved_world : world mem :=
  (ResolveActiveByRawKey (key_service demo_codec minute) demo_raw (quiet key_world)).2.(server).

Lemma resolved_step : key_step demo_codec minute key_world resolved_world.
Proof.
  apply (key_step_op demo_codec minute key_world (KeyResolve demo_raw)). unfold resolved_world.
  destruct (resolve_quiet demo_codec minute demo_raw key_world key_world_coherent key_db_ok)
    as (w' & Hr & _). cbn [run_key_op]. by rewrite Hr.
Qed.

Lemma Resolve_is_lookup_witness :
  ∃ w'', ResolveActiveByRawKey (key_service demo_codec minute) demo_raw (quiet resolved_world) =
    (verdict demo_codec resolved_world.(pg) demo_raw, quiet w'') ∧ w''.(pg) = resolved_world.(pg).
Proof.
  apply (Resolve_is_lookup demo_codec minute demo_raw key_world resolved_world
    key_world_coherent key_db_ok).
  eapply rtc_l; [apply resolved_step|apply rtc_refl].
Defined.

Lemma deactivation_overtaken_witness :
  ∃ w1, ResolveActiveByRawKey (key_service demo_codec minute) demo_raw
      (overtaken demo_codec minute 0 key_world) = (Ok (apiKeyFromRecord demo_row), quiet w1) ∧
    verdict demo_codec w1.(pg) demo_raw = Err ErrAPIKeyNotFound ∧
    (ResolveActiveByRawKey (key_service demo_codec minute) demo_raw (quiet w1)).1 =
      Ok (apiKeyFromRecord demo_row) ∧
    ∀ t, minute ≤ t →
      (ResolveActiveByRawKey (key_service demo_codec minute) demo_raw (quiet (elapse t w1))).1 =
        Err ErrAPIKeyNotFound.
Proof.
  exact (deactivation_overtaken demo_codec minute 0 demo_row demo_raw key_world
    key_db_ok demo_row_stored eq_refl eq_refl ltac:(discriminate) eq_refl ltac:(discriminate)).
Defined.

(** ** Middleware *)

Lemma durationToHeaderSeconds_least_witness :
  durationToHeaderSeconds (1500 * Millisecond) ≤ 2 ↔ 1500 * Millisecond ≤ 2 * Second.
Proof. apply (durationToHeaderSeconds_least (1500 * Millisecond) 2); done. Defined.

Definition demo_key : APIKey := apiKeyFromRecord demo_row.
Definition demo_request (method path : string) (h : headers) : request :=
  mkRequest method path EmptyString h EmptyString [] None.

Definition bare_request : request := demo_request "GET" "/api/protected/ping" ∅.
Definition key_request : request :=
  demo_request "POST" "/api/protected/orders" {["X-Api-Key" := demo_raw]}.
Definition admin_request : request :=
  demo_request "GET" "/api/admin/policies" {["Authorization" := "Bearer secret"]}.
Definition preflight : request :=
  demo_request "OPTIONS" "/api/admin/policies" {["Origin" := "http://localhost:3000"]}.

(** No policy matches: 503, whatever the handler. *)
Lemma EnforceRateLimit_fails_closed_witness :
  refuses (EnforceRateLimit "ping" 1 (fun _ n => (Ok None, n)) (Consume NewBucketStore) None
    (fun _ => start) None) new_writer (WithAPIKey bare_request demo_key) (quiet empty_mem) 503.
Proof.
  exact (EnforceRateLimit_fails_closed "ping" 1 (fun _ n => (Ok None, n)) (Consume NewBucketStore) None
    (fun _ => start) None new_writer (WithAPIKey bare_request demo_key) (quiet empty_mem) eq_refl).
Defined.

Lemma APIKeyAuth_gate_witness :
  refuses (APIKeyAuth (fun _ n => (Err ErrAPIKeyNotFound, n))) new_writer key_request (quiet empty_mem) 401.
Proof.
  exact (APIKeyAuth_gate (fun _ n => (Err ErrAPIKeyNotFound, n)) new_writer key_request
    (quiet empty_mem) eq_refl).
Defined.

Lemma AdminAuth_gate_witness :
  AdminAuth "secret" (fun w _ n => reply (WriteNotFound w) n) new_writer admin_request (quiet empty_mem) =
    reply (WriteNotFound new_writer) (quiet empty_mem).
Proof.
  destruct (AdminAuth_gate "secret" new_writer admin_request (quiet empty_mem) eq_refl) as [Hopen _].
  apply Hopen. split; [discriminate|]. exists "secret". split; reflexivity.
Defined.

Lemma CORS_preflight_witness :
  let s := CORS "http://localhost:3000" (fun w _ n => reply w n) new_writer preflight (quiet empty_mem) in
  status s.(s_writer) = 204 ∧
  sent_header s.(s_writer) "Access-Control-Allow-Origin" = Some "http://localhost:3000".
Proof.
  destruct (CORS_preflight "http://localhost:3000" preflight (quiet empty_mem)
    (fun w _ n => reply w n) eq_refl) as (Hs & _ & _ & Ho).
  split; [exact Hs|exact Ho].
Defined.

(** ** A protected request, end to end *)

(** The policy of the key on the route, number 2, and the stored copies. *)
Definition orders_row : RateLimitPolicy :=
  mkRateLimitPolicy 2 "api_key_route" (mkPgUUID 0 true) (Some "orders") 3 1 60 true
    (mkPgTime start true) (mkPgTime start true).

Lemma demo_policies : active_policy demo_world.(pg) (scope_of orders_row) = Some orders_row.
Proof. vm_compute. reflexivity. Qed.

Lemma demo_in_force : in_force demo_world.(pg) (Some 0) "orders" orders_row.
Proof.
  split; [exact demo_policies|by split; right|]. intros r' _ _. unfold specificity.
  change (sc_id (scope_of orders_row)) with (Some 0).
  change (sc_route (scope_of orders_row)) with (Some "orders").
  destruct (sc_id (scope_of r')), (sc_route (scope_of r')); lia.
Qed.

(** The world's Redis: the two policies, nothing under any other key. *)
Lemma demo_keys : map fst (map_to_list demo_world.(redis).(data)) =
  ["ratelimit:policy:global:default:ALL";
   "ratelimit:policy:api_key_route:00000000000000000000000000000000:orders"] ∨
  map fst (map_to_list demo_world.(redis).(data)) =
  ["ratelimit:policy:api_key_route:00000000000000000000000000000000:orders";
   "ratelimit:policy:global:default:ALL"].
Proof. vm_compute. tauto. Qed.

Lemma demo_only_policies k :
  HasPrefix k "ratelimit:policy:" = false → demo_world.(redis).(data) !! k = None.
Proof.
  intros Hk. destruct (data (redis demo_world) !! k) as [e|] eqn:He; [|reflexivity]. exfalso.
  apply elem_of_map_to_list, (list_elem_of_fmap_2 fst) in He. cbn [fst] in He.
  assert (Hm : k ∈ map fst (map_to_list (data (redis demo_world)))) by exact He.
  destruct demo_keys as [Hl|Hl]; rewrite Hl in Hm;
    repeat (apply elem_of_cons in Hm as [->|Hm]; [discriminate Hk|]); by apply not_elem_of_nil in Hm.
Qed.

Lemma demo_coherent : coherent demo_world.
Proof.
  intros h payload Hp. cbn [string_view mem_server] in Hp. unfold mem_string in Hp.
  rewrite demo_only_policies in Hp by reflexivity. discriminate Hp.
Qed.

Definition demo_services : services := mkServices demo_codec minute NewBucketStore.
Definition orders_route : ProtectedRouteDefinition :=
  mkProtectedRoute "orders" "POST" "/api/protected/orders" 2.
Definition orders_config : Config := policy_config (policyFromRecord orders_row).

Lemma demo_in_step : in_step demo_world.
Proof. split; [exact (proj2 demo_world_keeps)|exact (proj1 demo_world_keeps)|exact demo_coherent]. Qed.

(** The policies were added without touching the keys. *)
Lemma demo_verdict : verdict demo_codec demo_world.(pg) (raw_key key_request) = Ok demo_key.
Proof. vm_compute. reflexivity. Qed.

Definition full_orders : State := mkState 3 start.

Lemma orders_fits_horizon :
  in_horizon orders_config start (start + 100 * Second) full_orders [(start, 2)].
Proof.
  split; [split; [by split|done..]|done| |done|done|by repeat constructor].
  unfold clock_fits. replace (start + 100 * Second - start) with (100 * Second) by lia. by split.
Qed.

Lemma mem_absent (m : mem) k : m.(data) !! k = None → absent m k.
Proof. intros Hk. split; simpl; unfold mem_hash, mem_string; by rewrite Hk. Qed.

Lemma demo_untouched k :
  HasPrefix k "ratelimit:policy:" = false → absent demo_world.(redis) k.
Proof. intros Hk. exact (mem_absent _ k (demo_only_policies k Hk)). Qed.

Lemma absent_counters (d : mem) : absent d summaryMetricsKey → counters d 0 0.
Proof. intros [Hh Hs]. split; [exact Hs|right; by rewrite Hh..]. Qed.

Lemma demo_opens :
  opens demo_world.(redis) (bucketKey (bucket_ref orders_row)) orders_config [(start, 2)] full_orders.
Proof. right. split; [exact (demo_untouched (bucketKey (bucket_ref orders_row)) eq_refl)|]. by exists start, 2, []. Qed.

Lemma demo_counters : counters demo_world.(redis) 0 0.
Proof. exact (absent_counters _ (demo_untouched summaryMetricsKey eq_refl)). Qed.

Lemma orders_offered : orders_route ∈ ProtectedRoutes.
Proof. by right; left. Qed.

Lemma demo_setting :
  request_setting demo_services (fun _ => start) orders_route demo_world key_request demo_key orders_row
    start start (start + 100 * Second) full_orders 0 0.
Proof.
  split; [exact demo_in_step|exact orders_offered|exact demo_verdict|exact demo_in_force|done|done
    |exact orders_fits_horizon|done| |exact demo_opens|exact demo_counters|done].
  split; [done| |done]. by exists 1700000000000.
Qed.

(** The first order of the key: allowed, one token left. *)
Lemma protected_request_witness :
  ∃ w2, in_step w2 ∧
    holds w2.(redis) (bucketKey (bucket_ref orders_row)) (mkState 1 start) ∧
    counters w2.(redis) 1 0 ∧ w2.(pg) = demo_world.(pg) ∧
    ∀ next, protected_gate demo_services (fun _ => start) orders_route next new_writer key_request
        (quiet demo_world) =
      next (writeRateLimitHeaders new_writer (exact_decision orders_config start full_orders 2))
        (WithAPIKey key_request demo_key) (quiet w2).
Proof.
  destruct (protected_request demo_services (fun _ => start) orders_route demo_world key_request
    demo_key orders_row start start (start + 100 * Second) full_orders 0 0 demo_setting)
    as (w2 & Hs & Hh & Hc & Hpg & Hg).
  exists w2. split_and!; [exact Hs|exact Hh|exact Hc|exact Hpg|exact Hg].
Defined.

Lemma cached_key_reads_back_witness :
  ∃ w', cache_SetByHash (60 * Second) demo_hash (apiKeyFromRecord demo_row) (quiet key_world) =
      (Ok (), quiet w') ∧ w'.(pg) = key_world.(pg) ∧
    cache_GetByHash demo_hash (quiet w') = (Ok (Some (apiKeyFromRecord demo_row)), quiet w').
Proof.
  exact (cached_key_reads_back (60 * Second) key_db 0 demo_row key_world key_db_ok (row_stored demo_hash demo_hash_accepted)).
Defined.
