(* ===== verification/ExamplesCommands.v ===== *)
(** * Concrete configurations and commands

    The theorems about the configuration, the demo bootstrap and the
    migrations, on small environments and on the worlds of [Fixtures.v]. *)
From S2P Require Import Prelude GoBase Ids Text Sha256 ApiKeys Redis Fixtures Database Queries DatabaseSpec World.
From S2P Require Import Policies PolicySpec Projection ProjectionSpec PolicyService PolicyOutcomes.
From S2P Require Import Auth AuthSpec Duration Config ConfigSpec Migrator Keeps ProtectedSpec Bootstrap BootstrapSpec.

(** ** Configuration *)

Definition ttl_env (key : string) : option string :=
  if bool_decide (key = "REDIS_API_KEY_CACHE_TTL") then Some "-1h30m" else None.

Lemma hour_and_half : terms_total [(1, "h"); (30, "m")] (90 * Minute).
Proof.
  apply (total_cons 1 "h" Hour [(30, "m")] (30 * Minute)).
  { split; [by do 7 right; left|done..]. }
  apply (total_cons 30 "m" Minute [] 0); [|apply total_nil].
  split; [by do 6 right; left|done..].
Qed.

Lemma configured_duration_reads_back_witness :
  ∃ cfg, Load ttl_env = Ok cfg ∧ cfg.(cfg_Redis).(APIKeyCacheTTL) = - (90 * Minute).
Proof.
  exact (configured_duration_reads_back ttl_env true [(1, "h"); (30, "m")] (90 * Minute)
    hour_and_half ltac:(discriminate) ltac:(vm_compute; discriminate) eq_refl
    ltac:(intros v [Hv _]; discriminate Hv) ltac:(intros v [Hv _]; discriminate Hv)).
Defined.

(** A mode that is no boolean. *)
Definition bad_env (key : string) : option string :=
  if bool_decide (key = "PUBLIC_DEMO_MODE") then Some "maybe" else None.

Lemma Load_outcome_witness :
  ¬ (∃ cfg, Load bad_env = Ok cfg) ∧ (∃ cfg, Load ttl_env = Ok cfg ∧ loads ttl_env cfg).
Proof.
  split.
  - destruct (Load_outcome bad_env) as [[Hl _] _]. intros (_ & Hmode & _)%Hl.
    destruct (Hmode "maybe") as [b Hb]; [split; [reflexivity|discriminate]|]. discriminate Hb.
  - destruct (Load_outcome ttl_env) as (_ & Hl & _). eexists. split; [reflexivity|]. apply Hl. reflexivity.
Defined.

(** ** The bootstrap *)

Definition demo_config : AppConfig := {|
  AppEnv := "development";
  cfg_Server := mkServerConfig ":8080";
  cfg_Admin := mkAdminConfig "secret";
  cfg_Demo := mkDemoConfig true " rls_live_demo0123 ";
  cfg_Postgres := mkPostgresConfig "postgres://localhost";
  cfg_Redis := mkRedisConfig "redis:6379" 0 (15 * Minute);
  cfg_Security := mkSecurityConfig "pepper";
  cfg_UI := mkUIConfig "http://localhost:5173"
|}.

Definition fresh_world : world mem := mkWorld empty_mem empty_db.

Lemma fresh_in_step : in_step fresh_world.
Proof.
  split; [apply empty_db_ok| |].
  - intros sc _. unfold mirrors. vm_compute. reflexivity.
  - intros h payload Hp. discriminate Hp.
Qed.

Lemma fresh_draws : draws_fresh 4 fresh_world.(pg).
Proof.
  intros i Hi. cbn in *. split; [reflexivity|]. intros j Hj Heq.
  rewrite !Z.mod_small in Heq by lia. lia.
Qed.

Definition demo_run : result error bootstrapResult * net (world mem) :=
  bootstrap_main (fun _ => start) (fun _ => Err (OpaqueError "no entropy")) demo_config 1 (quiet fresh_world).

Lemma demo_run_succeeds : match demo_run.1 with Ok _ => true | Err _ => false end = true.
Proof. vm_compute. reflexivity. Qed.

(** The first run of the command, and any run after it. *)
Lemma bootstrap_idempotent_witness :
  ∃ res w1, demo_run = (Ok res, quiet w1) ∧ ∃ w2 res2,
    bootstrap_main (fun _ => start + 1) (fun _ => Ok []) demo_config 1 (quiet w1) = (Ok res2, quiet w2) ∧
    res2.(DemoAPIKey) = res.(DemoAPIKey) ∧
    Forall (fun p => p.(bp_Status) = "kept_existing") res2.(result_Policies) ∧
    w2.(pg).(rate_limit_policies) = w1.(pg).(rate_limit_policies).
Proof.
  pose proof demo_run_succeeds as Hok. destruct demo_run as [[res|e] n1] eqn:Hrun; [|discriminate Hok].
  destruct (bootstrap_idempotent demo_config 1 (fun _ => start) (fun _ => Err (OpaqueError "no entropy"))
    fresh_world res n1 ltac:(vm_compute; discriminate) fresh_in_step fresh_draws Hrun)
    as (w1 & r & -> & _ & _ & _ & Hagain).
  exists res, w1. split; [reflexivity|].
  destruct (Hagain (fun _ => start + 1) (fun _ => Ok [])) as (w2 & res2 & Hr & Hk & Hst & _ & Hp & _).
  exists w2, res2. split_and!; [exact Hr|exact Hk|exact Hst|exact Hp].
Defined.

(** The key of the configuration, deactivated. *)
Definition config_hash : string := stable_hash demo_config.
Definition revoked_row : ApiKey := with_active false (row_with_key config_hash).
Definition revoked_db : database := put_api_key revoked_row (db_with_key config_hash).
Definition revoked_world : world mem := mkWorld empty_mem revoked_db.

Lemma config_hash_accepted : text_refused config_hash = false.
Proof. vm_compute. reflexivity. Qed.

Lemma revoked_ok : db_ok revoked_db.
Proof.
  unfold revoked_db, revoked_row. apply (put_inactive_ok _ 0 (row_with_key config_hash)).
  - apply CreateAPIKey_ok, empty_db_ok.
  - exact (row_stored config_hash config_hash_accepted).
Qed.

Lemma deactivated_key_stops_bootstrap_witness :
  ∃ e w', bootstrap_main (fun _ => start) (fun _ => Ok []) demo_config 1 (quiet revoked_world) =
      (Err (Wrapf "create demo api key" e), quiet w') ∧
    e = Wrapf "create stable demo api key" (PgError unique_violation).
Proof.
  destruct (deactivated_key_stops_bootstrap demo_config 1 (fun _ => start) (fun _ => Ok []) revoked_world 0
    revoked_row ltac:(vm_compute; discriminate) revoked_ok (lookup_insert_eq _ _ _) eq_refl eq_refl)
    as (e & w' & Hr & _ & _ & _ & He).
  exists e, w'. split; [exact Hr|]. eapply He; [vm_compute; reflexivity|vm_compute; reflexivity].
Defined.

(** ** Migrations *)

(** The open connections, and how many pings fail before the server is up. *)
Record postgres := mkPostgres { opened : gset Z; down_for : nat }.

#[export] Instance demo_migrations : MigrationLibraries postgres := {
  ConnConfig := string;
  SourceDriver := ();
  DatabaseDriver := Z;
  Migrate := Z;
  iofs_New := Ok ();
  pgx_ParseConfig dsn := Ok dsn;
  OpenDB _ s := let db := fresh s.(opened) in (db, mkPostgres ({[ db ]} ∪ s.(opened)) s.(down_for));
  Ping _ s :=
    match s.(down_for) with
    | O => (Ok (), s)
    | S k => (Err (OpaqueError "connection refused"), mkPostgres s.(opened) k)
    end;
  Close db s := mkPostgres (s.(opened) ∖ {[ db ]}) s.(down_for);
  Wait s := (None, s);
  WithInstance db s := (Ok db, s);
  NewWithInstance _ d s := (Ok d, s);
  Migrate_Up _ s := (Err ErrNoChange, s);
  Migrate_Close m s := mkPostgres (s.(opened) ∖ {[ m ]}) s.(down_for)
}.

#[export] Instance demo_migration_laws : MigrationLaws postgres.
Proof.
  refine {| open_handles := opened |}; cbn; try done.
  - intros _ s. split; [apply is_fresh|done].
  - intros db s. by destruct (down_for s).
  - intros m db w1 w2 w3 s d [= <-] [= <-]. split; set_solver.
Defined.

(** A server that is up at the fourth attempt, with nothing to apply. *)
Lemma Up_closes_connections_witness :
  opened (Up "postgres://localhost" (mkPostgres ∅ 3)).2 = ∅ ∧
  (Up "postgres://localhost" (mkPostgres ∅ 3)).1 = Ok ().
Proof.
  destruct (Up_closes_connections "postgres://localhost" (mkPostgres ∅ 3)) as [Hopen _].
  split; [exact Hopen|vm_compute; reflexivity].
Defined.
