(* ===== verification/ExamplesAdmin.v ===== *)
(** * Concrete requests to the whole router

    The theorems about the routes, the admin handlers, the inspection and the
    start of the service, on the router of [FirstMatch.v] and the worlds of
    [Fixtures.v]. *)
From stdpp Require Import relations.
From S2P Require Import Prelude GoBase Ids Text Sha256 ApiKeys TokenBucket TokenBucketFacts TokenBucketSpec.
From S2P Require Import TokenBucketRuns Redis Fixtures BucketStore BucketStoreSpec BucketStoreRuns.
From S2P Require Import Database Queries DatabaseSpec World Policies PolicySpec Projection ProjectionSpec PolicyJson.
From S2P Require Import PolicyService PolicyOutcomes Resolver ResolverSpec Auth AuthSpec AuditLog Duration Config ConfigSpec.
From S2P Require Import Json JsonDecode JsonRoundTrip JsonRecords Http Url Keeps ReadOnly Middleware MiddlewareSpec.
From S2P Require Import Mux FirstMatch Handlers Protected ProtectedSpec Routes App.
From S2P Require Import HandlersSpec RoutesSpec RouteTable AppSpec InspectSpec InStep RouterSpec ExamplesRequests ExamplesCommands.

(** ** The parameters *)

#[export] Instance demo_decode_errors : DecodeErrors := fun _ => OpaqueError "invalid request body".
#[export] Instance demo_serve_env : ServeEnv (world mem) := { now_served _ := start; uuid_New _ := 7 }.
#[export] Instance demo_random : RandomSource (world mem) := fun _ => Ok (replicate 32 7).

#[export] Instance demo_pool : PgxPool (world mem) := {
  PoolConfig := string;
  pgxpool_ParseConfig dsn := Ok dsn;
  with_limits _ _ _ _ config := config;
  NewWithConfig _ n := (Ok (), n);
  Pool_Ping n := (Ok (), n)
}.

#[export] Instance demo_redis_client : GoRedis := {
  Options := string * Z;
  redis_ParseURL addr := Ok (addr, 0);
  with_DB db options := (options.1, db);
  options_of addr db := (addr, db)
}.

Definition clock : Clock (W := world mem) := fun _ => start.

(** Open to the admin, with the token [secret]; [demo_config] is the public
    one. *)
Definition admin_config : AppConfig := {|
  AppEnv := "development";
  cfg_Server := mkServerConfig ":8080";
  cfg_Admin := mkAdminConfig "secret";
  cfg_Demo := mkDemoConfig false EmptyString;
  cfg_Postgres := mkPostgresConfig "postgres://localhost";
  cfg_Redis := mkRedisConfig "redis:6379" 0 (15 * Minute);
  cfg_Security := mkSecurityConfig "pepper";
  cfg_UI := mkUIConfig "http://localhost:5173"
|}.

Definition demo_router (cfg : AppConfig) : router (world mem) :=
  routes_New cfg "dev" start clock (main_dependencies cfg 1).

(** ** Routes *)

Definition create_request : request :=
  demo_request "POST" "/api/admin/policies" {["Authorization" := "Bearer secret"]}.

Lemma public_mode_read_only_witness :
  same_admin (quiet demo_world).(server)
    (ServeHTTP (demo_router demo_config) new_writer create_request (quiet demo_world)).(s_net).(server).
Proof.
  apply (public_mode_read_only demo_config "dev" start clock 1 new_writer create_request);
    [reflexivity|apply list.Forall_nil_2].
Defined.

Definition deactivate_request : request :=
  demo_request "POST" "/api/admin/policies/1/deactivate" {["Authorization" := "Bearer secret"]}.

Lemma registered_routes_served_witness :
  ServeHTTP (demo_router admin_config) new_writer deactivate_request (quiet demo_world) =
  Recoverer (CORS "http://localhost:5173" (AdminAuth "secret"
    (fun w r n => PoliciesHandler_Deactivate (main_policies 1) w (with_params [("policyID", "1")] r) n)))
    new_writer deactivate_request (quiet demo_world) ∧
  turns_away (ServeHTTP (demo_router admin_config)) (demo_request "PUT" "/api/admin/ping" ∅).
Proof.
  destruct (registered_routes_served admin_config "dev" start clock 1)
    as (_ & _ & _ & _ & _ & _ & _ & _ & _ & _ & _ & _ & _ & Hid & _ & Hun).
  split.
  - destruct (Hid "1") as (_ & _ & Hdeactivate); [discriminate|reflexivity|].
    apply (Hdeactivate new_writer deactivate_request (quiet demo_world)); reflexivity.
  - apply Hun; [|discriminate]. intros p Hp. unfold surface_keys in Hp. cbn in Hp.
    repeat (apply elem_of_cons in Hp as [Hp|Hp]; [first [discriminate Hp|injection Hp as ->; reflexivity]|]).
    by apply elem_of_nil in Hp.
Defined.

(** No token, and a path no endpoint has. *)
Definition stray_request : request := demo_request "GET" "/api/admin/no-such-thing" ∅.

Lemma no_token token : ¬ bears (header_Get stray_request.(Header) "Authorization") token.
Proof. intros (_ & rest & He & _). discriminate He. Qed.

Lemma admin_surface_closed_witness :
  let s := ServeHTTP (demo_router admin_config) new_writer stray_request (quiet demo_world) in
  status s.(s_writer) = 401 ∧ s.(s_net) = quiet demo_world ∧ s.(s_panicked) = false.
Proof.
  apply (admin_surface_closed admin_config "dev" start clock (main_dependencies admin_config 1));
    [reflexivity|by left|discriminate|reflexivity|apply no_token].
Defined.

(** A token with a blank in front, and a request that bears it. *)
Definition padded_env (key : string) : option string :=
  if bool_decide (key = "ADMIN_TOKEN") then Some " secret" else None.
Definition padded_config : AppConfig :=
  match Load padded_env with Ok cfg => cfg | Err _ => admin_config end.
Definition padded_request : request :=
  demo_request "GET" "/api/admin/policies" {["Authorization" := "Bearer  secret"]}.

Lemma padded_token_locks_out_witness :
  let s := ServeHTTP (demo_router padded_config) new_writer padded_request (quiet demo_world) in
  status s.(s_writer) = 401 ∧ s.(s_net) = quiet demo_world ∧ s.(s_panicked) = false.
Proof.
  apply (padded_token_locks_out padded_env " secret" padded_config "dev" start clock
    (main_dependencies padded_config 1)); [reflexivity|discriminate|discriminate|vm_compute; reflexivity
    |reflexivity|by left|discriminate|reflexivity].
Defined.

(** ** The start of the service *)

Definition default_config : AppConfig :=
  match Load (fun _ => None) with Ok cfg => cfg | Err _ => admin_config end.

Lemma default_opens : opens_quietly default_config demo_world.
Proof. split; [done|by eexists|done|]. intros Hp. discriminate Hp. Qed.

Lemma startup_serves_witness :
  ∃ pages0, ∀ pages, (pages0 ≤ pages)%nat → ∃ m w',
    api_main clock "dev" (fun _ => None) pages (quiet demo_world) = 
      (Ok m, [CloseRedis; ClosePool; CancelStartup], quiet w') ∧
    synced w' ∧ w'.(pg) = demo_world.(pg) ∧
    ∀ def r wr n, def ∈ ProtectedRoutes → r.(Method) = def.(route_Method) →
      r.(URLPath) = def.(route_Path) →
      ServeHTTP m wr r n = Recoverer (CORS default_config.(cfg_UI).(AllowedOrigin)
        (protected_route (configured default_config) clock def)) wr r n.
Proof.
  exact (startup_serves clock "dev" (fun _ => None) default_config demo_world eq_refl default_opens
    (proj2 demo_world_keeps)).
Defined.

(** ** A policy over HTTP *)

Definition global_body : createPolicyRequest := mkCreatePolicyRequest "global" None None 5 1 10.
Definition post_policy : request :=
  mkRequest "POST" "/api/admin/policies" EmptyString ∅ (json_text (request_json global_body)) [] None.

Lemma policy_requests_decode_witness : decode_policy_request post_policy = Ok global_body.
Proof.
  destruct (policy_requests_decode global_body post_policy) as [Hd _];
    [reflexivity|intros s; discriminate|intros s; discriminate|by repeat split|].
  by apply Hd.
Defined.

Lemma global_body_input :
  (let? q := decode_policy_request post_policy in
   let? sid := parse_optional_uuid q.(req_ScopeIdentifier) in
   validateCreateInput (create_input q sid)) = Ok global_input.
Proof. vm_compute. reflexivity. Qed.

Lemma global_free : active_policy key_world.(pg) (scope_of_input global_input) = None.
Proof. vm_compute. reflexivity. Qed.

Lemma first_id_free : key_world.(pg).(rate_limit_policies) !! fresh_uuid key_world.(pg) = None.
Proof. vm_compute. reflexivity. Qed.

(** The first policy: 201, and in force. *)
Lemma create_policy_over_http_witness :
  let s := PoliciesHandler_Create (policy_service 1) new_writer post_policy (quiet key_world) in
  status s.(s_writer) = 201 ∧ ∃ row w', s.(s_net) = quiet w' ∧ synced w' ∧
    active_policy w'.(pg) (scope_of_input global_input) = Some row.
Proof.
  destruct (create_policy_over_http 1 post_policy key_world key_world_synced key_db_ok)
    as (w' & Hn & _ & Hs & _ & Ho).
  rewrite global_body_input in Ho. cbv zeta in Ho. rewrite global_free, first_id_free in Ho.
  destruct Ho as (_ & _ & Hok). destruct Hok as (row & _ & Hw & Ha & _).
  - intros [Hx|Hx]; by apply is_Some_None in Hx.
  - reflexivity.
  - split; [rewrite Hw; reflexivity|]. exists row, w'. split_and!; [exact Hn|exact Hs|exact Ha].
Defined.

(** ** Inspection *)

Definition one_left : State := mkState 1 start.
Definition orders_key : string := bucketKey (bucket_ref orders_row).

(** After the first order of the key. *)
Definition spent_world : world mem :=
  mkWorld (exec_cmds (consume_cmds orders_key (exact_decision orders_config start full_orders 2)) demo_world.(redis))
    demo_world.(pg).

Lemma spent_in_step : in_step spent_world.
Proof. exact (consume_in_step demo_world (bucket_ref orders_row) _ demo_in_step). Qed.

Definition first_order : Decision := exact_decision orders_config start full_orders 2.

Lemma first_order_is : first_order.(NewState) = one_left ∧ first_order.(Allowed) = true.
Proof. by vm_compute. Qed.

Lemma one_left_storable : storable one_left.
Proof. split; [by split|by exists 1700000000000|by vm_compute]. Qed.

Lemma spent_holds : holds spent_world.(redis) orders_key one_left.
Proof.
  rewrite <- (proj1 first_order_is). apply consume_holds; [discriminate| |by vm_compute..].
  exact (proj2 (demo_untouched orders_key eq_refl)).
Qed.

Lemma spent_pg : spent_world.(pg) = demo_world.(pg).
Proof. unfold spent_world. apply pg_of_world. Qed.

Lemma spent_in_force : in_force spent_world.(pg) (Some 0) "orders" orders_row.
Proof. rewrite spent_pg. exact demo_in_force. Qed.

Lemma spent_counters : counters spent_world.(redis) 1 0.
Proof.
  pose proof (consume_counters orders_key first_order demo_world.(redis) 0 0) as Hc.
  rewrite (proj2 first_order_is) in Hc. apply Hc; [discriminate|exact demo_counters|by split..].
Qed.

Definition inspect_request : request :=
  mkRequest "GET" "/api/admin/inspect/bucket"
    ("api_key_id=" +:+ uuid_String 0 +:+ "&route_id=orders") ∅ EmptyString [] None.

Lemma inspection_shows_limiter_witness :
  (∃ members, InspectorHandler_Bucket main_inspector new_writer inspect_request (quiet spent_world) =
     reply (writeJSON StatusOK (Some (JObj members)) new_writer) (quiet spent_world) ∧
     ("bucket", snapshot_json (mkBucketSnapshot orders_key 1 1700000000000)) ∈ members) ∧
  MetricsHandler_Summary GetSummaryMetrics new_writer inspect_request (quiet spent_world) =
    reply (writeJSON StatusOK (Some (JObj [("metrics",
      JObj [("allowed_requests", JInt 1); ("blocked_requests", JInt 0)])])) new_writer) (quiet spent_world).
Proof.
  destruct (inspection_shows_limiter spent_world inspect_request (Some 0) "orders" orders_row one_left 1 0)
    as [(members & Hr & _ & _ & Hb) Hm].
  - exact spent_in_step.
  - vm_compute. reflexivity.
  - intros u [= <-]. split; [lia|done].
  - by right; left.
  - reflexivity.
  - exact spent_in_force.
  - exact one_left_storable.
  - exact spent_holds.
  - exact spent_counters.
  - by split.
  - by split.
  - split; [|exact Hm]. exists members. split; [exact Hr|exact Hb].
Defined.

(** ** The whole surface *)

Definition retire_request : request :=
  demo_request "POST" ("/api/admin/policies/" +:+ uuid_String 1 +:+ "/deactivate")
    {["Authorization" := "Bearer secret"]}.

(** The deactivation names policy 1, which is active. *)
Lemma global_active row :
  demo_world.(pg).(rate_limit_policies) !! (1 : UUID) = Some row → row.(rlp_IsActive) = true.
Proof. intros Hrow. vm_compute in Hrow. injection Hrow as <-. reflexivity. Qed.

Lemma retire_aimed : aimed demo_world retire_request.
Proof.
  intros p ps Hp Hm id row Hid Hrow. apply elem_of_cons in Hp as [->|Hp]; [vm_compute in Hm; discriminate Hm|].
  apply list_elem_of_singleton in Hp as ->. vm_compute in Hm. injection Hm as <-. vm_compute in Hid.
  injection Hid as <-. exact (global_active row Hrow).
Qed.

Lemma order_aimed (w : world mem) : aimed w key_request.
Proof.
  intros p ps Hp Hm. apply elem_of_cons in Hp as [->|Hp]; [vm_compute in Hm; discriminate Hm|].
  apply list_elem_of_singleton in Hp as ->. vm_compute in Hm. discriminate Hm.
Qed.

(** A policy is retired, then an order comes in. *)
Lemma surface_stays_in_step_witness :
  ∃ w1 w2,
    (ServeHTTP (surface admin_config 1 "dev" start clock) new_writer retire_request (quiet demo_world)).(s_net) =
      quiet w1 ∧
    (ServeHTTP (surface admin_config 1 "dev" start clock) new_writer key_request (quiet w1)).(s_net) = quiet w2 ∧
    in_step w2.
Proof.
  destruct (surface_stays_in_step admin_config 1 "dev" start clock demo_world demo_world demo_in_step
    (rtc_refl _ _)) as [_ Hone].
  destruct (Hone new_writer retire_request retire_aimed) as (w1 & Hr1 & _).
  destruct (surface_stays_in_step admin_config 1 "dev" start clock demo_world w1 demo_in_step
    (rtc_once _ _ (step_request admin_config 1 "dev" start clock new_writer retire_request demo_world w1
       retire_aimed Hr1))) as [_ Htwo].
  destruct (Htwo new_writer key_request (order_aimed w1)) as (w2 & Hr2 & Hin2).
  exists w1, w2. split_and!; [exact Hr1|exact Hr2|exact Hin2].
Defined.
