(* ===== verification/ExamplesOperation.v ===== *)
(** * Concrete administrators, keys, restarts and processes

    First the administrators: the theorems about calls of several administrators, about calls that fail
    half way, and about changes over HTTP, on the worlds of [Fixtures.v]. *)
From stdpp Require Import relations.
From S2P Require Import Prelude GoBase Redis Fixtures Ids BucketRace Text Json JsonDecode ApiKeys Database Queries.
From S2P Require Import DatabaseSpec World Policies PolicyJson PolicySpec Projection ProjectionSpec PolicyService.
From S2P Require Import PolicyOutcomes Auth AuthSpec Http Duration Config ConfigSpec Middleware Mux FirstMatch.
From S2P Require Import Handlers Routes App HandlersSpec ChangesOverHttp KeysOverHttp RoutesSpec AppSpec.
From S2P Require Import Process TestLock InStep Recovery AdminRace AdminRaceSpec AdminHazards.
From S2P Require Import ExamplesPolicies ExamplesRequests ExamplesAdmin.

(** ** Apart *)

(** One raises the global limit while the other limits a route. *)
Definition two_calls : list policy_op := [OpUpdate 1 raised_input; OpCreate orders_input].

Lemma raised_fits : input_fits (update_input raised_input).
Proof. by repeat split. Qed.

Lemma list_lookup_two {A} (a b x : A) i : [a; b] !! i = Some x → i = 0%nat ∧ x = a ∨ i = 1%nat ∧ x = b.
Proof. destruct i as [|[|i]]; cbn; intros [= <-]; auto. Qed.

Lemma raised_footprint :
  footprint global_world (OpUpdate 1 raised_input) = [mkScope "global" None None; mkScope "global" None None].
Proof. vm_compute. reflexivity. Qed.

Lemma orders_footprint :
  footprint global_world (OpCreate orders_input) = [mkScope "api_key_route" (Some 0) (Some "orders")].
Proof. vm_compute. reflexivity. Qed.

Lemma two_calls_apart : admin_setting two_calls global_world.
Proof.
  split; [apply global_world_keeps..| | | |].
  - intros Hin. repeat (apply elem_of_cons in Hin as [Heq|Hin]; [discriminate Heq|]). by apply elem_of_nil in Hin.
  - intros op [->|[->|[]%elem_of_nil]%elem_of_cons]%elem_of_cons; [apply raised_fits|apply orders_fits].
  - intros op id [->|[->|[]%elem_of_nil]%elem_of_cons]%elem_of_cons Ht; [|discriminate Ht].
    injection Ht as <-. eexists. split; [exact global_row|reflexivity].
  - assert (Hno : ∀ sc, sc ∈ footprint global_world (OpUpdate 1 raised_input) →
      sc ∉ footprint global_world (OpCreate orders_input)).
    { intros sc. rewrite raised_footprint, orders_footprint, !elem_of_cons. intros [->|[->|[]%elem_of_nil]];
        intros [Hx|[]%elem_of_nil]; discriminate Hx. }
    intros i j op op' sc Hi Hj H1 H2. apply list_lookup_two in Hi as [[-> ->]|[-> ->]], Hj as [[-> ->]|[-> ->]];
      [reflexivity|exact (False_ind _ (Hno sc H1 H2))|exact (False_ind _ (Hno sc H2 H1))|reflexivity].
Qed.

Lemma concurrent_admin_keeps_mirror_witness :
  ∃ r, rtc admin_step (admin_start two_calls global_world) r ∧ all_finished r ∧ synced r.(ar_world).
Proof.
  destruct (concurrent_admin_keeps_mirror two_calls global_world _ two_calls_apart (rtc_refl _ _))
    as (_ & _ & _ & (r & Hr & Hf) & _).
  destruct (concurrent_admin_keeps_mirror two_calls global_world r two_calls_apart Hr) as (_ & _ & _ & _ & Hs).
  exists r. split_and!; [exact Hr|exact Hf|exact (Hs Hf)].
Defined.

Lemma admin_call_is_machine_witness :
  ∃ p w' os', op_run 3 [] global_world (op_begin (OpUpdate 1 raised_input)) = (p, w', os') ∧
    op_call (policy_service 1) (OpUpdate 1 raised_input) (mkNet global_world (map delivered [])) =
      (op_result p, mkNet w' (map delivered os')).
Proof.
  pose proof (admin_call_is_machine 1 (OpUpdate 1 raised_input) [] global_world ltac:(discriminate)) as Hm.
  destruct (op_run _ _ _ _) as [[p w'] os']. exists p, w', os'. split; [reflexivity|exact Hm].
Defined.

(** ** Not apart *)

Definition lowered_input : UpdatePolicyInput := mkUpdatePolicyInput "global" None None 2 1 60.

Lemma overtaken_update_sticks_witness :
  ∃ w' row1 row2,
    active_policy w'.(pg) (mkScope "global" None None) = Some row2 ∧
    read_scope (mkScope "global" None None) (quiet w') = (Ok (Some (policyFromRecord row1)), quiet w') ∧
    ¬ synced w'.
Proof.
  destruct (overtaken_update_sticks 1 the_global_row raised_input lowered_input (update_input raised_input)
    (update_input lowered_input) global_world) as (w' & row1 & row2 & _ & _ & _ & _ & Ha & Hr & Hn).
  - apply global_world_keeps.
  - exact global_row.
  - reflexivity.
  - vm_compute. reflexivity.
  - vm_compute. reflexivity.
  - exact raised_fits.
  - by repeat split.
  - vm_compute. reflexivity.
  - vm_compute. reflexivity.
  - exists w', row1, row2. split_and!; [exact Ha|exact Hr|]. apply Hn. discriminate.
Defined.

(** ** Half way *)

Definition lost : error := OpaqueError "connection reset".

Lemma global_valid : validateCreateInput global_input = Ok global_input.
Proof. vm_compute. reflexivity. Qed.

Lemma global_no_conflict : ¬ create_conflict key_world.(pg) global_input.
Proof.
  intros [Hx|Hx]; [rewrite global_free in Hx|rewrite first_id_free in Hx]; by apply is_Some_None in Hx.
Qed.

Lemma half_created_policy_sticks_witness :
  ∃ w', Create (policy_service 1) global_input (fails_second key_world lost) =
      (Err (Wrapf "sync policy projection" lost), quiet w') ∧
    read_scope (scope_of_input global_input) (quiet w') = (Ok None, quiet w') ∧
    ∃ w2, Create (policy_service 1) global_input (quiet w') = (Err ErrPolicyConflict, quiet w2).
Proof.
  destruct (half_created_policy_sticks 1 global_input global_input lost key_world) as (w' & Hc & _ & Hr & Hagain & _).
  - exact key_db_ok.
  - exact key_world_synced.
  - exact global_valid.
  - exact global_fits.
  - exact global_no_conflict.
  - vm_compute. reflexivity.
  - exists w'. split_and!; [exact Hc|exact Hr|].
    destruct (Hagain global_input global_input global_valid global_fits eq_refl) as (w2 & Hc2 & _).
    exists w2. exact Hc2.
Defined.

Lemma rebuild_overtaken_witness :
  ∃ w1, Create (policy_service 1) global_input (quiet key_world) =
      (Ok (policyFromRecord (create_row key_world.(pg) global_input)), quiet w1) ∧
    ∃ pages0, ∀ pages, (pages0 ≤ pages)%nat → ∃ w',
      RebuildProjection (policy_service pages) (overtaken_by key_world w1) = (Ok (), quiet w') ∧
      read_scope (scope_of_input global_input) (quiet w') = (Ok None, quiet w') ∧ ¬ synced w'.
Proof.
  destruct (rebuild_overtaken 1 global_input global_input key_world key_db_ok key_world_synced global_valid
    global_fits global_no_conflict) as (w1 & Hc & _ & pages0 & Hp); [vm_compute; reflexivity|].
  exists w1. split; [exact Hc|]. exists pages0. intros pages Hle.
  destruct (Hp pages Hle) as (w' & Hr & _ & Hread & Hn & _). exists w'. split_and!; [exact Hr|exact Hread|exact Hn].
Defined.

(** ** Over HTTP *)

Definition raised_body : createPolicyRequest := mkCreatePolicyRequest "global" None None 100 10 1.
Definition put_policy_request (id : UUID) : request :=
  mkRequest "PUT" "/api/admin/policies/1" EmptyString ∅ (json_text (request_json raised_body))
    [("policyID", uuid_String id)] None.

Lemma first_row : global_world.(pg).(rate_limit_policies) !! (1 : UUID) = Some the_global_row.
Proof. exact global_row. Qed.

Lemma first_active : names_active (put_policy_request 1) global_world.
Proof.
  intros id row Hid Hrow. vm_compute in Hid. injection Hid as <-.
  pose proof (eq_trans (eq_sym Hrow) global_row) as He. injection He as ->. reflexivity.
Qed.

Lemma update_policy_over_http_witness :
  let s := PoliciesHandler_Update (policy_service 1) new_writer (put_policy_request 1) (quiet global_world) in
  status s.(s_writer) = 200 ∧ ∃ row w', s.(s_net) = quiet w' ∧ row.(rlp_Capacity) = 100 ∧
    read_scope (mkScope "global" None None) (quiet w') = (Ok (Some (policyFromRecord row)), quiet w').
Proof.
  destruct (update_policy_over_http 1 (put_policy_request 1) global_world (proj1 global_world_keeps)
    (proj2 global_world_keeps) first_active) as (w' & Hn & _ & _ & _ & Ho).
  replace (uuid_Parse _) with (Ok 1 : result error UUID) in Ho by (vm_compute; reflexivity).
  replace (decode_update _) with (Ok raised_input : result error UpdatePolicyInput) in Ho by (vm_compute; reflexivity).
  rewrite first_row in Ho.
  replace (validateCreateInput _) with (Ok (update_input raised_input) : result error CreatePolicyInput) in Ho
    by (vm_compute; reflexivity).
  cbv zeta in Ho.
  replace (update_conflict _ _ _) with false in Ho by (vm_compute; reflexivity).
  replace (create_known _ _) with true in Ho by (vm_compute; reflexivity).
  destruct Ho as (Hw & _ & Hr & _). split; [rewrite Hw; reflexivity|].
  eexists _, w'. split_and!; [exact Hn| |exact Hr]. reflexivity.
Defined.

Lemma deactivate_policy_over_http_witness :
  let s := PoliciesHandler_Deactivate (policy_service 1) new_writer (put_policy_request 1) (quiet global_world) in
  status s.(s_writer) = 200 ∧ ∃ w', s.(s_net) = quiet w' ∧
    read_scope (mkScope "global" None None) (quiet w') = (Ok None, quiet w').
Proof.
  destruct (deactivate_policy_over_http 1 (put_policy_request 1) global_world (proj1 global_world_keeps)
    (proj2 global_world_keeps) first_active) as (w' & Hn & _ & _ & _ & Ho).
  replace (uuid_Parse _) with (Ok 1 : result error UUID) in Ho by (vm_compute; reflexivity).
  rewrite first_row in Ho. destruct Ho as (row & _ & _ & _ & Hw & _ & Hr).
  split; [rewrite Hw; reflexivity|]. exists w'. split; [exact Hn|exact Hr].
Defined.

(** * Concrete keys, restarts, ends of the process and tests *)

(** ** Keys *)

Definition post_key : request :=
  mkRequest "POST" "/api/admin/api-keys" EmptyString ∅ (json_text (JObj [("name", JStr "mobile")])) [] None.

Definition demo_secret : net (world mem) → entropy := fun _ => Ok (replicate 32 7).

Lemma key_is_created :
  status (create_key_handler demo_codec minute demo_secret new_writer post_key (quiet key_world)).(s_writer) =
    StatusCreated.
Proof. vm_compute. reflexivity. Qed.

Lemma key_lifecycle_over_http_witness :
  ∃ row raw w1,
    (create_key_handler demo_codec minute demo_secret new_writer post_key (quiet key_world)).(s_writer) =
      writeJSON StatusCreated (Some (created_body row raw)) new_writer ∧
    ∀ r1, bears r1 raw → ∃ w1', ∀ next wr,
      key_gate demo_codec minute next wr r1 (quiet w1) =
      next wr (WithAPIKey r1 (apiKeyFromRecord row)) (quiet w1').
Proof.
  destruct (key_lifecycle_over_http demo_codec minute demo_secret post_key key_world key_world_coherent key_db_ok
    key_is_created) as (row & raw & w1 & _ & Hw & Hg & _).
  exists row, raw, w1. split; [exact Hw|exact Hg].
Defined.

(** ** Starting again *)

(** An administrator's request loses its connection after the insert, then Redis
    loses everything. *)
Definition cut_off : net (world mem) :=
  mkNet demo_world [mkRound (fun w => w) Delivered; mkRound (fun w => w) (NotSent (OpaqueError "connection reset"))].

Definition cut_world : world mem :=
  (ServeHTTP (routes_New default_config "dev" start clock (main_dependencies default_config 1)) new_writer
     create_request cut_off).(s_net).(server).

Definition wiped_world : world mem := mkWorld empty_mem cut_world.(pg).

Lemma wiped_reached :
  rtc (faulty_step default_config 1 "dev" start clock) demo_world wiped_world.
Proof.
  eapply rtc_l; [|apply rtc_once, faulty_redis]. apply faulty_request.
  repeat (apply list.Forall_cons_2; [by intros w Hw|]). apply list.Forall_nil_2.
Qed.

Lemma wiped_opens : opens_quietly default_config wiped_world.
Proof. split; [done|by eexists|done|]. intros Hp. discriminate Hp. Qed.

Lemma restart_recovers_witness :
  ∃ pages0, ∀ pages, (pages0 ≤ pages)%nat → ∃ m w2,
    api_main clock "dev" (fun _ => None) pages (quiet wiped_world) =
      (Ok m, [CloseRedis; ClosePool; CancelStartup], quiet w2) ∧
    w2.(pg) = wiped_world.(pg) ∧ synced w2.
Proof.
  destruct (restart_recovers default_config 1 "dev" start clock (fun _ => None) demo_world wiped_world
    (proj2 demo_world_keeps) wiped_reached eq_refl wiped_opens) as (_ & pages0 & Hp).
  exists pages0. intros pages Hle. destruct (Hp pages Hle) as (m & w2 & Hm & Hpg & Hs & _).
  exists m, w2. split_and!; [exact Hm|exact Hpg|exact Hs].
Defined.

(** ** The process *)

(** A request is accepted when the signal has come, and does not end in time. *)
Definition deferred_calls : list deferral := [CloseRedis; ClosePool; CancelStartup].
Definition in_time : error := OpaqueError "context deadline exceeded".

Definition ended : process :=
  mkProcess Ended Returning true
    (mkHttp true true (Some (Some http_ErrServerClosed)) (Some (Some in_time)) 1)
    [ServerStarting; ShutdownSignalReceived; ShutdownFailed] [] deferred_calls (Some 0).

Ltac goroutine_moves := eapply rtc_l; [apply step_goroutine; reflexivity|].
Ltac main_moves := eapply rtc_l; [apply step_main; reflexivity|].
Ltac server_moves H := eapply rtc_l; [apply step_server; [reflexivity|apply H]|].

Lemma ended_reached : rtc (process_step (newLogger admin_config)) (process_start deferred_calls) ended.
Proof.
  goroutine_moves. eapply rtc_l; [by apply step_signal|]. main_moves. server_moves server_accepts. main_moves.
  server_moves (server_returns true None 1 http_ErrServerClosed); [discriminate|].
  goroutine_moves. server_moves (server_not_drained true (Some (Some http_ErrServerClosed)) 1 in_time).
  do 5 main_moves. apply rtc_refl.
Qed.

Lemma process_lifecycle_witness :
  ended.(p_ran) = deferred_calls ∧ ¬ failed_with ended.(p_http) ∧ ServerFailed ∉ ended.(p_log).
Proof.
  destruct (process_lifecycle admin_config deferred_calls ended ended_reached) as (_ & _ & Hf & _ & H0 & _).
  assert (Hn : ¬ failed_with ended.(p_http)).
  { intros (err & Heq & Hne). injection Heq as <-. by apply Hne. }
  split_and!; [exact (proj1 (proj2 (proj2 (H0 eq_refl))))|exact Hn|]. intros Hin. exact (Hn (Hf Hin)).
Defined.

(** ** Tests *)

(** The first test is inside, the second waits. *)
Definition two_tests : lock_state :=
  mkLockState {[integrationLockID := (1, 1)]}%nat {[1%nat; 2%nat]} [Inside 1; Asking 2].

Lemma two_tests_reached : rtc lock_step (lock_start {[1%nat; 2%nat]} 2) two_tests.
Proof.
  unfold lock_start. cbn [replicate].
  eapply rtc_l; [apply (lock_acquire _ _ _ 0 1); [done|set_solver|]|cbn].
  { intros p [->|[->|[]%elem_of_nil]%elem_of_cons]%elem_of_cons; done. }
  eapply rtc_l; [apply (lock_acquire _ _ _ 1 2); [done|set_solver|]|cbn].
  { intros p [->|[->|[]%elem_of_nil]%elem_of_cons]%elem_of_cons; done. }
  eapply rtc_l; [by apply (lock_granted _ {[integrationLockID := (1, 1)]}%nat _ _ 0 1); [|set_solver|]|].
  apply rtc_refl.
Qed.

Lemma integration_lock_excludes_witness :
  is_Some (pg_advisory_lock 2 integrationLockID two_tests.(ls_locks)) ∨
  ∃ j s, two_tests.(ls_tests) !! j = Some (Inside s) ∧ s ∈ two_tests.(ls_alive).
Proof.
  destruct (integration_lock_excludes {[1%nat; 2%nat]} 2 two_tests two_tests_reached) as [_ Hf].
  apply (proj1 (Hf ltac:(intros Hin; repeat (apply elem_of_cons in Hin as [Heq|Hin]; [discriminate Heq|]);
    by apply elem_of_nil in Hin)) 1%nat 2%nat eq_refl).
Defined.
